(* ===== verification/_CoqProject ===== *)
-Q . S2P
Prelude.v
Effects.v
Cache.v
Provider.v
PoolManager.v
PoolInv.v
PoolSpec.v
PoolConc.v
Demo.v
PoolThms.v
JsonScanner.v
ExtractJson.v
Schema.v
Http.v
Middleware.v
WaitQueue.v
Router.v
RouterConc.v
Strconv.v
OpencodeClient.v
Workflow.v
Activities.v
Tasks.v
ServeMux.v
K8sProvider.v
Config.v
Controller.v
Metrics.v
Telemetry.v
RateLimiter.v
MockOpencode.v
MockServer.v
MockLLM.v
Worker.v
K8sPool.v
Main.v
Startup.v
