(* ===== verification/Prelude.v ===== *)
(** * opencode-scale: a verification library

    opencode-scale gives users of a coding agent sandboxes from a pool: a
    router allocates a sandbox per session and proxies requests to it, a task
    API starts Temporal workflows that run a prompt in a sandbox and validate
    its output, a controller cleans up Kubernetes claims, and two mock servers
    stand in for the agent and for a language model.  This library translates
    the Go code of these parts into executable definitions and proves what
    they do.

    ** Parts, files and code

    - [Prelude]: errors and results, 64-bit wrap-around, durations, tactics
      ([go_cases], [go_bools]) and lemmas shared by all files.
    - [Effects]: Go functions on shared state as programs ([prog]) over atomic
      actions, run alone ([run]), interleaved ([cstep]) or as traces with
      arbitrary answers ([runs]).
    - [Cache] (internal/pool/cache.go): the two indexes over a heap of shared
      allocations.  [Provider] (manager.go, mock_provider.go): the interface
      [SandboxProvider] as a class with laws, and the mock.  [K8sProvider]
      (k8s_provider.go): create, poll and delete of claims; over an API server
      that refuses duplicate names and a clock that does not go back it is
      another instance of the interface, whoever else deletes claims.
      [K8sPool]: the pool over that instance.
    - [PoolManager] (internal/pool/manager.go): every method of the manager.
      [PoolInv]: the invariant and the effect of each method; [PoolSpec]: the
      abstract pool and the refinement; [PoolConc]: concurrent callers;
      [Demo], [PoolThms]: concrete worlds and the theorems.
    - [JsonScanner] (the scanner of encoding/json), [ExtractJson], [Schema]
      (internal/schema/validator.go).
    - [Http] (the parts of net/http in use, api/v1/types.go, statusWriter),
      [Middleware] (middleware.go, audit.go), [WaitQueue] (queue.go), [Router]
      (handler.go, proxy.go), [Tasks] (tasks.go), all of internal/router.
      [RouterConc]: the router's requests as goroutines, interleaved with each
      other, with the calls of the pool and with clients that leave.
    - [Strconv]: the number and duration parsers of the standard library that
      the client and the configuration use.  [OpencodeClient]
      (internal/opencode/client.go): sessions, messages, the event stream.
    - [Workflow] (internal/workflow/task.go, schema.go), [Activities]
      (activities.go).
    - [Config] (internal/config/config.go), [Controller]
      (internal/controller/reconciler.go), [RateLimiter] and [MockLLM]
      (cmd/mock-llm-api/main.go), [MockOpencode] and [MockServer]
      (cmd/mock-opencode/main.go), [ServeMux] (paths in net/http's mux),
      [Worker] (the workflow run on the worker's activities).
    - [Metrics] (the three metrics.go), [Telemetry] (internal/telemetry):
      instruments, providers and their shutdown.  [Main]: the handlers of
      cmd/router/main.go, and what cmd/worker/main.go and
      cmd/controller/main.go build from the configuration.  [Startup]: the
      five main functions, from the configuration to the exit of the process.

    Definitions keep the names of the code.  A name that Rocq or another
    file already has gets a prefix or a trailing underscore: [Set_] is
    AllocationCache.Set, [queue_Len] is WaitQueue.Len, [task_ServeHTTP] is
    TaskHandler.ServeHTTP, [config_Validate] is Config.Validate,
    [llm_extractAPIKey] is extractAPIKey of the mock LLM API, [k8s_...] are
    the methods of K8sSandboxProvider and [standalone_...] the functions at
    the end of activities.go.

    ** How the parts interact

    The router and the activities call the pool manager, which calls the
    cache and, through the class [SandboxProvider], a provider: the pool's
    theorems hold for every provider with the laws, and [Provider] and
    [K8sProvider] discharge them.  [Router] shares the cache with the pool.
    [Tasks] starts [CodingTaskWorkflow], whose activities are those of
    [Activities], which use [OpencodeClient] and [Schema].  [Main] builds the
    pool from [Config] and puts [Tasks], [Router] and the health check behind
    the mux and the middleware; [Startup] starts it, its collector and its
    warm pool, after [Telemetry] and [Metrics].  [MockServer] is the server
    end of [OpencodeClient], behind [ServeMux].

    ** What the theorems show

    - Pool, one caller at a time ([PoolThms]): each method refines the
      abstract pool on every branch and keeps the invariant; idle sandboxes
      are reused; a collection is exact; heartbeats protect; a failed
      deletion leaks its slot.
    - Pool, any interleaving: the size bound with its exact slack, which a
      two-goroutine schedule reaches; no allocation is handed out twice; no
      deadlock and no infinite run.
    - Provider: the claims the Kubernetes provider makes and deletes, the
      names it never hands out twice, and ([K8sPool]) the slot that is lost when
      another party deletes a claim, and the collection that deletes a
      sandbox in the middle of its assignment.
    - Extraction and validation: what [ExtractJSON] returns is valid JSON; an
      object is found whole (the walk agrees with the grammar); a positive
      verdict is justified.
    - Router, any interleaving ([RouterConc]): a new session gets a sandbox of
      its own and its answer comes from it; nothing holds up a request but the
      queue, where it waits until its client leaves; queue, proxies and cache
      stay well-formed.  (The lemma [request_alone] ties the programs of
      requests to [Router.ServeHTTP].)
    - Router: authentication, alone and through the whole stack; session
      affinity over any later history that spares the sandbox; the FIFO queue; exhaustion; what the audit log and the event
      streams really do; the health report.
    - Client and mock server: round trips of the event stream and of the
      worker's activities, broken streams.
    - Workflow: exactly one release, bounded prompts and their token account,
      outputs that satisfy the schema.  [Worker] runs it on the real
      activities, which end within their timeouts: a task gives its sandbox
      back, unless the provider refuses to delete it, and in mock mode the
      result of a task without a schema is the mock server's output, through pool, client and server.
    - Tasks: creation, timeouts and their overflow, streams, routes.
    - Configuration, controller and rate limiter: what loads, what is deleted,
      and that no minute admits more than the limits, in the limiter and at
      the endpoints around it.
    - Binaries ([Startup]): the router makes every call of its preparation in
      order and exits at the first that is refused; only then it starts its
      goroutines and its server, and on a signal it stops them in order.
    Several theorems state a defect of the code as a property of it; their
    doc comments say so.

    ** Choices, bounds and fuel

    - Integers that can overflow are wrapped with [wrap64]; times are integers
      of nanoseconds.  Counters that only count calls are unbounded.
    - Loops over tickers take the list of events they receive (a task stream
      the number of its ticks, the wait of a queued request, [sse_wait], its
      ticks and its end), so every theorem is for every such list.  In
      [RouterConc] the wait itself is an action that blocks.  Programs are
      inductive, hence finite.
    - [K8sProvider] bounds the polls by [poll_calls], the calls that fit in
      the timeout: one at once and one after each interval, 151 in all.
    - [parse_components] and [chunk_loop] have the length of their string as
      fuel, and every turn consumes at least a byte ([parse_components_fuel]
      proves that more fuel changes nothing, [chunks_spec] that the chunks
      reach the end); [prune_loop] has the length of its array.
    - The environment is a parameter where it is not code of the repository:
      clock, identifiers and map order ([Runtime], indexed by the number of
      reads), the sandbox behind a proxy ([Backend]), Temporal ([TaskEnv], and
      the answers of a workflow's trace), the JSON Schema library
      ([SchemaLib]), decoded JSON ([JsonDecoder], [MockEncoder],
      [MockServerEnv], [LLMEncoding]), HTTP transport, files, YAML and
      environment variables ([ConfigEnv]), the API server ([K8sServer]), the
      mux's redirects ([MuxRedirect]).  Their laws, where a theorem needs any,
      are classes with a concrete instance.
    - [Worker] stands for Temporal with one worker: activities end within
      their timeouts, an error is retried up to the policy's number of
      attempts, unless Temporal takes it to be of a type that is not retried
      (an argument), and passed on as it is.  [Workflow] assumes nothing of
      Temporal.
    - Log lines, traces and spans are left out, except the audit log.
    - [ParseDuration] computes fractions exactly where Go uses [float64].

    ** Not modelled

    Command-line flags, and the inside of libraries: OpenTelemetry, the
    Temporal client and server, the Kubernetes client and its informer, the
    HTTP server.  Their calls are actions or parameters.  The handlers of the
    mock servers are run one after the other; of the mock LLM API, the
    limiter alone admits any sequence of its locked operations.  Charts,
    scripts and end-to-end tests are not Go code of the program. *)

From stdpp Require Export base tactics numbers list gmap strings fin_maps.
From Stdlib Require Export ZArith Lia.

Declare Scope go_scope.
Delimit Scope go_scope with go.
Open Scope go_scope.
Open Scope Z_scope.

(* ------------------------------------------------------------------ *)
(** ** Definitions *)

(** Go errors.  [ErrVar] is a package-level error variable compared by
    identity ([errors.Is]); [ErrNew] is an error made by [errors.New] or
    [fmt.Errorf] at the point of failure; [ErrWrap] is
    [fmt.Errorf("<prefix>%w", e)]. *)
Inductive error :=
| ErrVar (name msg : string)
| ErrNew (msg : string)
| ErrWrap (prefix : string) (e : error).

(** [e.Error()]. *)
Fixpoint Error (e : error) : string :=
  match e with
  | ErrVar _ msg => msg
  | ErrNew msg => msg
  | ErrWrap prefix e => prefix +:+ Error e
  end.

(** [errors.Is(e, v)] for a package-level variable [v] named [name]. *)
Fixpoint errors_Is (e : error) (name : string) : bool :=
  match e with
  | ErrVar n _ => bool_decide (n = name)
  | ErrNew _ => false
  | ErrWrap _ e => errors_Is e name
  end.

(** The [(T, error)] results of Go, where exactly one side is meaningful. *)
Inductive result (A : Type) :=
| Ok (a : A)
| Err (e : error).
Arguments Ok {A} _.
Arguments Err {A} _.

#[export] Instance result_ret : MRet result := @Ok.
#[export] Instance result_bind : MBind result := λ A B f r,
  match r with Ok a => f a | Err e => Err e end.
#[export] Instance result_fmap : FMap result := λ A B f r,
  match r with Ok a => Ok (f a) | Err e => Err e end.

Definition is_ok {A} (r : result A) : bool :=
  match r with Ok _ => true | Err _ => false end.

(** 64-bit signed integers: Go's [int] on the supported platforms,
    [int64] and [time.Duration]. *)
Definition int64_min : Z := - 2 ^ 63.
Definition int64_max : Z := 2 ^ 63 - 1.
Definition wrap64 (z : Z) : Z := (z + 2 ^ 63) mod 2 ^ 64 - 2 ^ 63.
Definition in_int64 (z : Z) : Prop := int64_min ≤ z ≤ int64_max.

(** [time.Duration] constants, in nanoseconds. *)
Definition Millisecond : Z := 1000000.
Definition Second : Z := 1000 * Millisecond.
Definition Minute : Z := 60 * Second.
Definition Hour : Z := 60 * Minute.

Definition char_dq : Ascii.ascii := Ascii.ascii_of_nat 34.
Definition newline : string := String (Ascii.ascii_of_nat 10) "".

(** What a [for { select { case <-ctx.Done(): ...; case <-ticker.C: ... } }]
    loop receives, in the order it receives it. *)
Inductive loop_event := TickerFired | ContextDone.

#[export] Instance error_eq_dec : EqDecision error.
Proof. solve_decision. Defined.
#[export] Instance result_eq_dec {A} `{EqDecision A} : EqDecision (result A).
Proof. solve_decision. Defined.
#[export] Instance loop_event_eq_dec : EqDecision loop_event.
Proof. solve_decision. Defined.

(* ------------------------------------------------------------------ *)
(** ** Automation *)

Create HintDb go.

(** Case split on the first [match] of the goal, then clean up. *)
Ltac go_cases := repeat (case_match; simplify_eq/=; try done).

(** Turn the boolean tests of the code into propositions. *)
Ltac go_bools :=
  repeat match goal with
  | H : bool_decide _ = true |- _ => apply bool_decide_eq_true in H
  | H : bool_decide _ = false |- _ => apply bool_decide_eq_false in H
  | H : (_ && _)%bool = true |- _ => apply andb_true_iff in H as [??]
  | H : (_ || _)%bool = false |- _ => apply orb_false_iff in H as [??]
  | H : negb _ = true |- _ => apply negb_true_iff in H
  | H : negb _ = false |- _ => apply negb_false_iff in H
  | H : (_ <=? _)%Z = true |- _ => apply Z.leb_le in H
  | H : (_ <=? _)%Z = false |- _ => apply Z.leb_gt in H
  | H : (_ <? _)%Z = true |- _ => apply Z.ltb_lt in H
  | H : (_ <? _)%Z = false |- _ => apply Z.ltb_ge in H
  | H : (_ =? _)%Z = true |- _ => apply Z.eqb_eq in H
  | H : (_ =? _)%Z = false |- _ => apply Z.eqb_neq in H
  end.

(* ------------------------------------------------------------------ *)
(** ** Generic lemmas *)

Lemma wrap64_range z : in_int64 (wrap64 z).
Proof.
  unfold in_int64, int64_min, int64_max, wrap64.
  pose proof (Z.mod_pos_bound (z + 2 ^ 63) (2 ^ 64)). lia.
Qed.

Lemma wrap64_id z : in_int64 z → wrap64 z = z.
Proof.
  unfold in_int64, int64_min, int64_max, wrap64. intros ?.
  rewrite Z.mod_small; lia.
Qed.

Lemma wrap64_add_l x y : wrap64 (wrap64 x + y) = wrap64 (x + y).
Proof.
  unfold wrap64.
  replace ((x + 2 ^ 63) `mod` 2 ^ 64 - 2 ^ 63 + y + 2 ^ 63)
    with ((x + 2 ^ 63) `mod` 2 ^ 64 + y) by lia.
  rewrite Zplus_mod_idemp_l. do 2 f_equal. lia.
Qed.
#[export] Hint Resolve wrap64_range : go.

Lemma string_app_cons c s t : String c s +:+ t = String c (s +:+ t).
Proof. done. Qed.

Lemma string_app_nil s : s +:+ EmptyString = s.
Proof. induction s as [|c s IH]; [done|]. by rewrite string_app_cons, IH. Qed.

Lemma string_app_assoc s t u : (s +:+ t) +:+ u = s +:+ (t +:+ u).
Proof. induction s as [|c s IH]; [done|]. by rewrite !string_app_cons, IH. Qed.

Lemma result_bind_ok {A B} (r : result A) (f : A → result B) b :
  r ≫= f = Ok b ↔ ∃ a, r = Ok a ∧ f a = Ok b.
Proof.
  destruct r as [a|e]; simpl; split.
  - by exists a.
  - by intros (? & [= <-] & ?).
  - done.
  - by intros (? & ? & _).
Qed.
