(* ===== verification/Effects.v ===== *)
(** * Effectful Go code as programs over atomic actions

    A Go function that touches shared state is a [prog E A]: a tree of
    atomic actions [E] (a mutex operation, one locked cache call, one
    field access, one provider call, a read of the clock) with the code's
    control flow between them.  The same definition has two meanings:
    [run] executes it alone, and [cstep] interleaves the actions of
    several goroutines.  An action that cannot proceed (a mutex that is
    held) has no result in the handler. *)

From S2P Require Import Prelude.

Inductive prog (E : Type → Type) (A : Type) : Type :=
| Ret (a : A)
| Vis {X : Type} (e : E X) (k : X → prog E A).
Arguments Ret {E A} _.
Arguments Vis {E A X} _ _.

Fixpoint prog_bind {E A B} (f : A → prog E B) (m : prog E A) : prog E B :=
  match m with
  | Ret a => f a
  | Vis e k => Vis e (λ x, prog_bind f (k x))
  end.

#[export] Instance prog_mret {E} : MRet (prog E) := λ A, Ret.
#[export] Instance prog_mbind {E} : MBind (prog E) := λ A B, prog_bind.

(** One atomic action. *)
Definition act {E X} (e : E X) : prog E X := Vis e Ret.

(** The program with each action renamed: a component inside another. *)
Fixpoint translate {E F A} (f : ∀ X, E X → F X) (m : prog E A) : prog F A :=
  match m with
  | Ret a => Ret a
  | Vis e k => Vis (f _ e) (λ x, translate f (k x))
  end.

(** A handler gives each action its result and the next state, or [None]
    when the action blocks. *)
Definition handler (E : Type → Type) (S : Type) : Type :=
  ∀ X, E X → S → option (X * S).

(** A program executed alone. *)
Fixpoint run {E S A} (h : handler E S) (m : prog E A) (s : S) : option (A * S) :=
  match m with
  | Ret a => Some (a, s)
  | Vis e k =>
      match h _ e s with
      | Some (x, s') => run h (k x) s'
      | None => None
      end
  end.

(** Several goroutines: the shared state and what each has left to do. *)
Inductive cstep {E S A} (h : handler E S) :
    S * list (prog E A) → S * list (prog E A) → Prop :=
| CStep s ts i X (e : E X) k x s' :
    ts !! i = Some (Vis e k) →
    h X e s = Some (x, s') →
    cstep h (s, ts) (s', <[i := k x]> ts).

(** One step of goroutine [i], executable. *)
Definition step_thread {E S A} (h : handler E S) (i : nat)
    (c : S * list (prog E A)) : option (S * list (prog E A)) :=
  match c.2 !! i with
  | Some (Vis e k) =>
      match h _ e c.1 with
      | Some (x, s') => Some (s', <[i := k x]> c.2)
      | None => None
      end
  | _ => None
  end.

(** A schedule: which goroutine moves at each step. *)
Fixpoint run_schedule {E S A} (h : handler E S) (sched : list nat)
    (c : S * list (prog E A)) : option (S * list (prog E A)) :=
  match sched with
  | [] => Some c
  | i :: sched' =>
      match step_thread h i c with
      | Some c' => run_schedule h sched' c'
      | None => None
      end
  end.

(** A schedule in which a goroutine that cannot move loses its turn. *)
Fixpoint run_turns {E S A} (h : handler E S) (sched : list nat)
    (c : S * list (prog E A)) : S * list (prog E A) :=
  match sched with
  | [] => c
  | i :: sched' => run_turns h sched' (default c (step_thread h i c))
  end.

(* ------------------------------------------------------------------ *)
(** ** Lemmas *)

Lemma run_bind {E S A B} (h : handler E S) (m : prog E A) (f : A → prog E B) s :
  run h (m ≫= f) s =
    match run h m s with Some (a, s') => run h (f a) s' | None => None end.
Proof.
  revert s. induction m as [a|X e k IH]; intros s; [done|].
  simpl. destruct (h X e s) as [[x s']|]; [|done]. apply IH.
Qed.

Lemma run_act {E S X} (h : handler E S) (e : E X) s :
  run h (act e) s = h X e s.
Proof. simpl. by destruct (h X e s) as [[??]|]. Qed.

Lemma run_act_bind {E S X B} (h : handler E S) (e : E X) (f : X → prog E B) s :
  run h (act e ≫= f) s =
    match h X e s with Some (x, s') => run h (f x) s' | None => None end.
Proof. done. Qed.

Lemma step_thread_sound {E S A} (h : handler E S) i (c c' : S * list (prog E A)) :
  step_thread h i c = Some c' → cstep h c c'.
Proof.
  destruct c as [s ts]. unfold step_thread; simpl. intros ?.
  repeat case_match; simplify_eq. by econstructor.
Qed.

Lemma run_schedule_sound {E S A} (h : handler E S) sched (c c' : S * list (prog E A)) :
  run_schedule h sched c = Some c' → rtc (cstep h) c c'.
Proof.
  revert c. induction sched as [|i sched IH]; simpl; intros c ?; simplify_eq; [done|].
  case_match; [|done].
  eapply rtc_l; [by eapply step_thread_sound|by apply IH].
Qed.

Lemma run_turns_sound {E S A} (h : handler E S) sched (c : S * list (prog E A)) :
  rtc (cstep h) c (run_turns h sched c).
Proof.
  revert c. induction sched as [|i sched IH]; intros c; simpl; [done|].
  destruct (step_thread h i c) as [c'|] eqn:Hs; [|apply IH].
  eapply rtc_l; [by eapply step_thread_sound|apply IH].
Qed.

(** The result of a goroutine that has returned. *)
Definition returned {E A} (t : prog E A) : option A :=
  match t with Ret r => Some r | Vis _ _ => None end.

(** When no action blocks, a goroutine can move until all have returned. *)
Lemma cstep_unblocked {E S A} (h : handler E S) s (ts : list (prog E A)) :
  (∀ X (e : E X), ∃ x s', h X e s = Some (x, s')) →
  Forall (λ t, ∃ r, t = Ret r) ts ∨ ∃ c, cstep h (s, ts) c.
Proof.
  intros Hfree. destruct (decide (Forall (λ t, is_Some (returned t)) ts)) as [Hf|Hf].
  - left. eapply Forall_impl; [exact Hf|]. intros [r|] [? Hr]; simpl in Hr; eauto; done.
  - right. apply not_Forall_Exists in Hf; [|apply _].
    apply Exists_exists in Hf as (t & [i Hi]%list_elem_of_lookup & Ht).
    destruct t as [r|X e k]; [by destruct Ht; eexists|].
    destruct (Hfree X e) as (x & s' & Hx). eexists. by econstructor.
Qed.

(** An invariant preserved by every step holds in every reachable state. *)
Lemma rtc_invariant {C} (R : C → C → Prop) (I : C → Prop) c c' :
  (∀ c1 c2, I c1 → R c1 c2 → I c2) → rtc R c c' → I c → I c'.
Proof. intros Hstep Hrtc. induction Hrtc; eauto. Qed.

(* ------------------------------------------------------------------ *)
(** ** Termination of concurrent runs *)

(** [m'] is what [m] has left to do after its first action. *)
Definition prog_sub {E A} (m' m : prog E A) : Prop :=
  match m with Ret _ => False | Vis e k => ∃ x, m' = k x end.

(** One program of the list moves on. *)
Definition progs_sub {E A} (ts' ts : list (prog E A)) : Prop :=
  ∃ i t t', ts !! i = Some t ∧ prog_sub t' t ∧ ts' = <[i := t']> ts.

Lemma prog_sub_acc {E A} (m : prog E A) : Acc prog_sub m.
Proof.
  induction m as [a|X e k IH]; constructor; intros m' Hm; [done|].
  destruct Hm as [x ->]. apply IH.
Qed.

Lemma progs_sub_acc {E A} (ts : list (prog E A)) : Acc progs_sub ts.
Proof.
  induction ts as [|t ts IH].
  { constructor. by intros ts' (i & t & t' & Hi & _). }
  revert ts IH. induction (prog_sub_acc t) as [t _ IHt]. intros ts IH.
  induction IH as [ts Hts IHts]. constructor.
  intros ts' ([|i] & u & u' & Hi & Hu & ->); simplify_eq/=.
  - apply IHt; [done|]. by constructor.
  - apply IHts. by exists i, u, u'.
Qed.

(** No schedule of finitely many programs is infinite. *)
Lemma cstep_acc {E S A} (h : handler E S) (c : S * list (prog E A)) :
  Acc (flip (cstep h)) c.
Proof.
  destruct c as [s ts]. revert s. induction (progs_sub_acc ts) as [ts _ IH]. intros s.
  constructor. intros c' Hc. inversion Hc as [? ? i X e k x s' Hi Hh]; subst.
  apply IH. exists i, (Vis e k), (k x). split_and!; [done|by exists x|done].
Qed.

(* ------------------------------------------------------------------ *)
(** ** Traces *)

(** An action with the answer it got. *)
Inductive event (E : Type → Type) : Type :=
| Ev {X : Type} (e : E X) (x : X).
Arguments Ev {E X} _ _.

(** [runs m tr a]: with the answers of [tr], whatever they are, [m] makes
    exactly the actions of [tr] and returns [a]. *)
Fixpoint runs {E A} (m : prog E A) (tr : list (event E)) (a : A) : Prop :=
  match m with
  | Ret b => tr = [] ∧ a = b
  | @Vis _ _ X e k =>
      match tr with
      | [] => False
      | ev :: tr' => ∃ x : X, ev = Ev e x ∧ runs (k x) tr' a
      end
  end.

(** The run in which the environment answers every action by [h]. *)
Fixpoint play {E A} (h : ∀ X, E X → X) (m : prog E A) : list (event E) * A :=
  match m with
  | Ret a => ([], a)
  | @Vis _ _ X e k => let r := play h (k (h X e)) in (Ev e (h X e) :: r.1, r.2)
  end.

Lemma runs_play {E A} (h : ∀ X, E X → X) (m : prog E A) : runs m (play h m).1 (play h m).2.
Proof. induction m as [a|X e k IH]; simpl; eauto. Qed.

Lemma runs_bind {E A B} (m : prog E A) (f : A → prog E B) tr b :
  runs (m ≫= f) tr b ↔ ∃ tr1 tr2 a, tr = tr1 ++ tr2 ∧ runs m tr1 a ∧ runs (f a) tr2 b.
Proof.
  revert tr. induction m as [a|X e k IH]; intros tr; simpl.
  - split.
    + intros Hr. by exists [], tr, a.
    + by intros (tr1 & tr2 & a' & -> & [-> ->] & Hr).
  - split.
    + destruct tr as [|ev tr]; [done|]. intros (x & -> & Hr).
      apply IH in Hr as (tr1 & tr2 & a & -> & H1 & H2).
      exists (Ev e x :: tr1), tr2, a. split_and!; [done| |done]. by exists x.
    + intros (tr1 & tr2 & a & -> & H1 & H2). destruct tr1 as [|ev tr1]; [done|].
      destruct H1 as (x & -> & H1). simpl. exists x. split; [done|].
      apply IH. by exists tr1, tr2, a.
Qed.

(** The trace of a component inside another. *)
Definition translate_event {E F} (f : ∀ X, E X → F X) (ev : event E) : event F :=
  match ev with Ev e x => Ev (f _ e) x end.

Lemma runs_translate {E F A} (f : ∀ X, E X → F X) (m : prog E A) tr a :
  runs (translate f m) tr a ↔ ∃ tr', tr = translate_event f <$> tr' ∧ runs m tr' a.
Proof.
  revert tr. induction m as [b|X e k IH]; intros tr; simpl.
  - split; [|by intros (tr' & -> & -> & ->)]. intros [-> ->]. by exists [].
  - split.
    + destruct tr as [|ev tr]; [done|]. intros (x & -> & (tr' & -> & Hr)%IH).
      exists (Ev e x :: tr'). split; [done|]. by exists x.
    + intros ([|ev tr'] & -> & Hr); [done|]. destruct Hr as (x & -> & Hr). simpl.
      exists x. split; [done|]. apply IH. by exists tr'.
Qed.

Lemma runs_act_bind {E X B} (e : E X) (f : X → prog E B) tr b :
  runs (act e ≫= f) tr b ↔ ∃ x tr', tr = Ev e x :: tr' ∧ runs (f x) tr' b.
Proof.
  split.
  - destruct tr as [|ev tr]; [done|]. intros (x & -> & Hr). by exists x, tr.
  - intros (x & tr' & -> & Hr). by exists x.
Qed.

(** The same call, refused instead of granted. *)
Inductive refusal {E : Type → Type} : event E → event E → Prop :=
| Refusal (e : E (option error)) (err : error) : refusal (Ev e None) (Ev e (Some err)).

(** [tr] follows a plan of calls up to one that is refused, and ends there. *)
Definition cut_short {E : Type → Type} (plan tr : list (event E)) : Prop :=
  ∃ before ev after ev', plan = before ++ ev :: after ∧ refusal ev ev' ∧ tr = before ++ [ev'].

Lemma cut_short_here {E : Type → Type} (e : E (option error)) err rest :
  cut_short (Ev e None :: rest) [Ev e (Some err)].
Proof. by exists [], (Ev e None), rest, (Ev e (Some err)). Qed.

Lemma cut_short_before {E : Type → Type} (plan rest tr : list (event E)) :
  cut_short plan tr → cut_short (plan ++ rest) tr.
Proof.
  intros (before & ev & after & ev' & -> & Href & ->). exists before, ev, (after ++ rest), ev'.
  by rewrite <- app_assoc.
Qed.

Lemma cut_short_after {E : Type → Type} (made plan tr : list (event E)) :
  cut_short plan tr → cut_short (made ++ plan) (made ++ tr).
Proof.
  intros (before & ev & after & ev' & -> & Href & ->). exists (made ++ before), ev, after, ev'.
  by rewrite <- !app_assoc.
Qed.

Lemma cut_short_translate {E F : Type → Type} (f : ∀ X, E X → F X) (plan tr : list (event E)) :
  cut_short plan tr → cut_short (translate_event f <$> plan) (translate_event f <$> tr).
Proof.
  intros (before & ev & after & ev' & -> & [e err] & ->).
  exists (translate_event f <$> before), (Ev (f _ e) None), (translate_event f <$> after),
    (Ev (f _ e) (Some err)). by rewrite !fmap_app.
Qed.

(** A set-up that follows its plan: it makes all its calls and returns [a],
    or one of them is refused and it fails there. *)
Definition follows {E : Type → Type} {A} (plan : list (event E)) (a : A) (tr : list (event E)) (r : result A) : Prop :=
  (r = Ok a ∧ tr = plan) ∨ (∃ err, r = Err err) ∧ cut_short plan tr.

Lemma follows_cons {E : Type → Type} {A} (e : E (option error)) plan (a : A) tr r :
  follows plan a tr r → follows (Ev e None :: plan) a (Ev e None :: tr) r.
Proof.
  intros [[-> ->]|[Hr Hc]]; [by left|right]. split; [done|]. by apply (cut_short_after [_]).
Qed.
