(* ===== verification/Cache.v ===== *)
(** * The allocation cache ([internal/pool/cache.go])

    The cache holds two Go maps whose values are pointers to the same
    [Allocation] objects, and the pool manager mutates those objects in
    place.  The model keeps the aliasing: a heap maps locations to
    allocations, and both indexes hold locations.  Each method runs under
    the cache's [RWMutex], so each is one atomic function here.

    Main results: the well-formedness invariant [cache_wf] of the two
    indexes, its preservation, and the refinement of the two-index cache
    by the abstract map [view] from sandbox names to allocation values. *)

From S2P Require Import Prelude.

(** ** Data ([internal/pool/manager.go]) *)

Definition loc := positive.

(** [type AllocationStatus int] with its [iota] constants. *)
Inductive AllocationStatus :=
| StatusIdle
| StatusActive
| StatusReleasing.

#[export] Instance AllocationStatus_eq_dec : EqDecision AllocationStatus.
Proof. solve_decision. Defined.

Record Allocation := mkAllocation {
  SandboxName : string;
  ServiceFQDN : string;
  SessionID : string;
  UserID : string;
  AllocatedAt : Z;
  LastActivity : Z;
  Status : AllocationStatus;
}.

#[export] Instance Allocation_eq_dec : EqDecision Allocation.
Proof. solve_decision. Defined.

(** The assignments to single fields of an allocation that the manager makes. *)
Inductive field_write :=
| SetStatus (v : AllocationStatus)
| SetUserID (v : string)
| SetSessionID (v : string)
| SetLastActivity (v : Z).

Definition write_field (f : field_write) (a : Allocation) : Allocation :=
  match f with
  | SetStatus v => mkAllocation (SandboxName a) (ServiceFQDN a) (SessionID a)
      (UserID a) (AllocatedAt a) (LastActivity a) v
  | SetUserID v => mkAllocation (SandboxName a) (ServiceFQDN a) (SessionID a)
      v (AllocatedAt a) (LastActivity a) (Status a)
  | SetSessionID v => mkAllocation (SandboxName a) (ServiceFQDN a) v
      (UserID a) (AllocatedAt a) (LastActivity a) (Status a)
  | SetLastActivity v => mkAllocation (SandboxName a) (ServiceFQDN a) (SessionID a)
      (UserID a) (AllocatedAt a) v (Status a)
  end.

(** The heap of [Allocation] objects.  A location outside the heap never
    arises from Go code; [deref] gives it the zero value. *)
Abbreviation heap := (gmap loc Allocation).

Definition zero_allocation : Allocation :=
  mkAllocation "" "" "" "" 0 0 StatusIdle.

Definition deref (h : heap) (l : loc) : Allocation :=
  default zero_allocation (h !! l).

(** ** Operations *)

(** [type AllocationCache struct { byName, bySession map[string]*Allocation }]. *)
Record AllocationCache := mkCache {
  byName : gmap string loc;
  bySession : gmap string loc;
}.

Definition NewAllocationCache : AllocationCache := mkCache ∅ ∅.

Definition Get (c : AllocationCache) (sandboxName : string) : option loc :=
  byName c !! sandboxName.

Definition GetBySession (c : AllocationCache) (sessionID : string) : option loc :=
  bySession c !! sessionID.

(** [Set]: index by name and, if non-empty, by session. *)
Definition Set_ (h : heap) (c : AllocationCache) (alloc : loc) : AllocationCache :=
  let a := deref h alloc in
  let byName' := <[SandboxName a := alloc]> (byName c) in
  if bool_decide (SessionID a = "") then mkCache byName' (bySession c)
  else mkCache byName' (<[SessionID a := alloc]> (bySession c)).

(** [Delete]: the session to drop is read from the object found by name. *)
Definition Delete (h : heap) (c : AllocationCache) (sandboxName : string) : AllocationCache :=
  match byName c !! sandboxName with
  | Some l =>
      let a := deref h l in
      let bySession' :=
        if bool_decide (SessionID a = "") then bySession c
        else delete (SessionID a) (bySession c) in
      mkCache (delete sandboxName (byName c)) bySession'
  | None => c
  end.

(** The order in which Go's [range] visits a map is unspecified; it is an
    argument, any permutation of the entries. *)
Abbreviation range_order := (gmap string loc → list (string * loc)).

Definition List_ (order : range_order) (c : AllocationCache) : list loc :=
  snd <$> order (byName c).

Definition ListByStatus (order : range_order) (h : heap) (c : AllocationCache)
    (status : AllocationStatus) : list loc :=
  filter (λ l, Status (deref h l) = status) (snd <$> order (byName c)).

Definition Len (c : AllocationCache) : Z := Z.of_nat (size (byName c)).

(** ** Specification *)

(** Well-formedness of the two indexes over a heap: every indexed object
    exists and is indexed under its own name, and the session index holds
    exactly the sessions of the objects of the name index. *)
Record cache_wf (h : heap) (c : AllocationCache) : Prop := {
  wf_name n l : byName c !! n = Some l →
    ∃ a, h !! l = Some a ∧ SandboxName a = n;
  wf_session s l : bySession c !! s = Some l →
    s ≠ "" ∧ ∃ a, h !! l = Some a ∧ SessionID a = s ∧
                  byName c !! SandboxName a = Some l;
  wf_indexed n l a : byName c !! n = Some l → h !! l = Some a →
    SessionID a ≠ "" → bySession c !! SessionID a = Some l;
}.

(** The abstract cache: the allocation stored under each sandbox name. *)
Definition view (h : heap) (c : AllocationCache) : gmap string Allocation :=
  deref h <$> byName c.

Class RangeOk (order : range_order) : Prop :=
  range_perm m : order m ≡ₚ map_to_list m.

(** ** Lemmas *)

#[export] Instance map_to_list_range_ok : RangeOk map_to_list.
Proof. by intros m. Qed.

Lemma deref_Some h l a : h !! l = Some a → deref h l = a.
Proof. unfold deref. by intros ->. Qed.

Lemma write_field_name f a : SandboxName (write_field f a) = SandboxName a.
Proof. by destruct f. Qed.

Lemma cache_wf_empty h : cache_wf h NewAllocationCache.
Proof. split; intros *; simpl; rewrite lookup_empty; congruence. Qed.

Lemma view_lookup h c n : view h c !! n = deref h <$> Get c n.
Proof. unfold view, Get. by rewrite lookup_fmap. Qed.

Lemma view_Some h c n a : cache_wf h c →
  view h c !! n = Some a ↔ ∃ l, Get c n = Some l ∧ h !! l = Some a.
Proof.
  intros wf. rewrite view_lookup. split.
  - destruct (Get c n) as [l|] eqn:Hl; simpl; [|done]. intros [= <-].
    destruct (wf_name _ _ wf n l Hl) as (a & Ha & _).
    exists l. by rewrite (deref_Some _ _ _ Ha).
  - intros (l & -> & Ha). simpl. by rewrite (deref_Some _ _ _ Ha).
Qed.

(** Two names never index the same object. *)
Lemma wf_name_inj h c n1 n2 l :
  cache_wf h c → byName c !! n1 = Some l → byName c !! n2 = Some l → n1 = n2.
Proof.
  intros wf H1 H2.
  destruct (wf_name _ _ wf _ _ H1) as (? & ? & <-).
  destruct (wf_name _ _ wf _ _ H2) as (? & ? & <-). congruence.
Qed.

(** The heap may change outside the indexed objects. *)
Lemma cache_wf_heap h h' c :
  cache_wf h c → (∀ n l, byName c !! n = Some l → h' !! l = h !! l) →
  cache_wf h' c.
Proof.
  intros wf Heq. split.
  - intros n l Hl. rewrite (Heq n l Hl). by eapply wf_name.
  - intros s l Hl. destruct (wf_session _ _ wf s l Hl) as (Hs & a & Ha & Hsa & Hn).
    split; [done|]. exists a. by rewrite (Heq _ _ Hn).
  - intros n l a Hl. rewrite (Heq n l Hl). by eapply wf_indexed.
Qed.

(** A field write that leaves the name and the session alone. *)
Lemma cache_wf_write h c l a a' :
  cache_wf h c → h !! l = Some a → SandboxName a' = SandboxName a →
  SessionID a' = SessionID a → cache_wf (<[l := a']> h) c.
Proof.
  intros wf Ha Hn Hs.
  assert (Hlk : ∀ l' b, h !! l' = Some b → ∃ b', <[l := a']> h !! l' = Some b' ∧
     SandboxName b' = SandboxName b ∧ SessionID b' = SessionID b).
  { intros l' b Hb. destruct (decide (l = l')) as [->|]; simplify_map_eq; eauto. }
  split.
  - intros n l' Hl. destruct (wf_name _ _ wf n l' Hl) as (b & Hb & <-).
    destruct (Hlk _ _ Hb) as (b' & ? & ? & _). eauto.
  - intros s l' Hl. destruct (wf_session _ _ wf s l' Hl) as (? & b & Hb & <- & Hnm).
    destruct (Hlk _ _ Hb) as (b' & ? & Hn' & ?). split; [done|].
    exists b'. by rewrite Hn'.
  - intros n l' b' Hl Hb' Hs'. destruct (wf_name _ _ wf n l' Hl) as (b & Hb & _).
    destruct (Hlk _ _ Hb) as (b'' & ? & _ & Hsb). simplify_eq.
    rewrite Hsb in Hs' |- *. by eapply wf_indexed.
Qed.

(** [Set] of an object whose name is new (or already points to it) and
    whose session is new keeps the indexes well formed. *)
Lemma cache_wf_set h c l a :
  cache_wf h c → h !! l = Some a →
  (byName c !! SandboxName a = None ∨ byName c !! SandboxName a = Some l) →
  (SessionID a ≠ "" → bySession c !! SessionID a = None
                      ∨ bySession c !! SessionID a = Some l) →
  (∀ s, bySession c !! s = Some l → s = SessionID a) →
  cache_wf h (Set_ h c l).
Proof.
  intros wf Ha Hname Hsess Hold. unfold Set_. rewrite (deref_Some _ _ _ Ha).
  assert (Hl : ∀ n l', <[SandboxName a:=l]> (byName c) !! n = Some l' →
     (n = SandboxName a ∧ l' = l) ∨ (n ≠ SandboxName a ∧ l' ≠ l ∧ byName c !! n = Some l')).
  { intros n l' [[??]|[? Hn]]%lookup_insert_Some; [by left|right].
    split_and!; [done| |done]. intros ->.
    destruct (wf_name _ _ wf _ _ Hn) as (?&?&<-). congruence. }
  assert (Hother : ∀ n l', byName c !! n = Some l' →
     <[SandboxName a:=l]> (byName c) !! n = Some l').
  { intros n l' Hn. destruct (decide (n = SandboxName a)) as [->|];
      simplify_map_eq; [|done]. destruct Hname; congruence. }
  case_bool_decide as Hempty; split; simpl.
  - intros n l' [[-> ->]|(_ & _ & Hn)]%Hl; [by eauto|by eapply wf_name].
  - intros s l' Hs. destruct (wf_session _ _ wf s l' Hs) as (? & b & ? & ? & Hn).
    split; [done|]. exists b. split_and!; eauto.
  - intros n l' b [[-> ->]|(_ & _ & Hn)]%Hl Hb Hsb; [simplify_eq|].
    by eapply wf_indexed.
  - intros n l' [[-> ->]|(_ & _ & Hn)]%Hl; [by eauto|by eapply wf_name].
  - intros s l' [[<- <-]|[? Hs]]%lookup_insert_Some.
    { split; [done|]. exists a. by simplify_map_eq. }
    destruct (wf_session _ _ wf s l' Hs) as (? & b & ? & ? & Hn).
    split; [done|]. exists b. split_and!; eauto.
  - intros n l' b [[-> ->]|(_ & Hne & Hn)]%Hl Hb Hsb; [by simplify_map_eq|].
    pose proof (wf_indexed _ _ wf n l' b Hn Hb Hsb) as Hidx.
    rewrite lookup_insert_ne; [done|]. intros Heq. rewrite <- Heq in Hidx.
    destruct (Hsess Hempty); congruence.
Qed.

(** Giving a session to an indexed object that has none, and re-indexing it. *)
Lemma cache_wf_claim h c l a a' :
  cache_wf h c → h !! l = Some a → SessionID a = "" →
  byName c !! SandboxName a = Some l → SandboxName a' = SandboxName a →
  SessionID a' ≠ "" → bySession c !! SessionID a' = None →
  cache_wf (<[l := a']> h) (Set_ (<[l := a']> h) c l).
Proof.
  intros wf Ha Hempty Hname Hn' Hs' Hfresh.
  assert (Hno : ∀ s l', bySession c !! s = Some l' → l' ≠ l).
  { intros s l' Hs ->. destruct (wf_session _ _ wf s l Hs) as (?&?&?&?&_). congruence. }
  unfold Set_. rewrite (deref_Some (<[l:=a']> h) l a') by by simplify_map_eq.
  rewrite bool_decide_false by done. rewrite Hn', (insert_id (byName c)) by done. split; simpl.
  - intros n l' Hl'. destruct (wf_name _ _ wf n l' Hl') as (b & Hb & <-).
    destruct (decide (l = l')) as [<-|]; simplify_map_eq; eauto.
  - intros s l' [[<- <-]|[Hne Hs]]%lookup_insert_Some.
    { split; [done|]. exists a'. rewrite lookup_insert_eq, Hn'. done. }
    pose proof (Hno _ _ Hs). destruct (wf_session _ _ wf s l' Hs) as (? & b & ? & <- & ?).
    split; [done|]. exists b. by rewrite lookup_insert_ne.
  - intros n l' b Hl' Hb Hsb. destruct (decide (l = l')) as [<-|Hne].
    { rewrite lookup_insert_eq in Hb. simplify_eq. by rewrite lookup_insert_eq. }
    rewrite lookup_insert_ne in Hb by done.
    pose proof (wf_indexed _ _ wf n l' b Hl' Hb Hsb) as Hidx.
    rewrite lookup_insert_ne; [done|]. congruence.
Qed.

Lemma cache_wf_delete h c n : cache_wf h c → cache_wf h (Delete h c n).
Proof.
  intros wf. unfold Delete. destruct (byName c !! n) as [l|] eqn:Hl; [|done].
  destruct (wf_name _ _ wf n l Hl) as (a & Ha & Hna). rewrite (deref_Some _ _ _ Ha).
  assert (Hsub : ∀ s l', (if bool_decide (SessionID a = "") then bySession c
      else delete (SessionID a) (bySession c)) !! s = Some l' →
      bySession c !! s = Some l' ∧ s ≠ SessionID a).
  { intros s l'. case_bool_decide as He; intros Hs.
    - split; [done|]. intros ->. by destruct (wf_session _ _ wf _ _ Hs) as [].
    - apply lookup_delete_Some in Hs as [??]. done. }
  split; simpl.
  - intros n' l' [? ?]%lookup_delete_Some. by eapply wf_name.
  - intros s l' [Hs Hne]%Hsub. destruct (wf_session _ _ wf s l' Hs) as (? & b & Hb & ? & Hn').
    split; [done|]. exists b. split_and!; [done..|].
    rewrite lookup_delete_ne; [done|]. intros Heq. rewrite <- Heq, Hl in Hn'.
    congruence.
  - intros n' l' b [Hne Hn']%lookup_delete_Some Hb Hsb.
    pose proof (wf_indexed _ _ wf n' l' b Hn' Hb Hsb) as Hidx.
    case_bool_decide; [done|]. rewrite lookup_delete_ne; [done|]. intros Heq.
    rewrite <- Heq in Hidx.
    pose proof (wf_indexed _ _ wf n l a Hl Ha ltac:(done)) as Hidx'.
    assert (l = l') as <- by congruence.
    apply Hne. by eapply wf_name_inj.
Qed.

Lemma view_set h c l a :
  h !! l = Some a → view h (Set_ h c l) = <[SandboxName a := a]> (view h c).
Proof.
  intros Ha. unfold view, Set_. rewrite (deref_Some _ _ _ Ha).
  case_bool_decide; simpl; by rewrite fmap_insert, (deref_Some _ _ _ Ha).
Qed.

Lemma view_delete h c n : view h (Delete h c n) = delete n (view h c).
Proof.
  unfold view, Delete. destruct (byName c !! n) eqn:Hn; simpl.
  - by rewrite fmap_delete.
  - by rewrite delete_id by (by rewrite lookup_fmap, Hn).
Qed.

(** A write through a pointer that the name index holds shows in the view. *)
Lemma view_write h c l a a' : cache_wf h c → h !! l = Some a →
  view (<[l := a']> h) c =
    if bool_decide (byName c !! SandboxName a = Some l)
    then <[SandboxName a := a']> (view h c) else view h c.
Proof.
  intros wf Ha. apply map_eq. intros n. rewrite view_lookup. unfold Get.
  destruct (byName c !! n) as [l'|] eqn:Hn; simpl.
  - destruct (wf_name _ _ wf n l' Hn) as (b & Hb & <-). unfold deref.
    destruct (decide (l = l')) as [->|Hne].
    + simplify_map_eq. rewrite bool_decide_true by done. by simplify_map_eq.
    + rewrite lookup_insert_ne by done. rewrite Hb. simpl.
      assert (view h c !! SandboxName b = Some b) as Hv.
      { rewrite view_Some by done. eauto. }
      case_bool_decide; [|done]. destruct (decide (SandboxName a = SandboxName b)) as [e|].
      * rewrite e in *. congruence.
      * by rewrite lookup_insert_ne.
  - assert (view h c !! n = None) as Hv by (by rewrite view_lookup; unfold Get; rewrite Hn).
    case_bool_decide as Hd; [|done]. rewrite lookup_insert_ne; [done|congruence].
Qed.

Lemma List_In order h c l : RangeOk order → cache_wf h c →
  l ∈ List_ order c ↔ ∃ a, h !! l = Some a ∧ Get c (SandboxName a) = Some l.
Proof.
  intros Hord wf. unfold List_. rewrite (range_perm (byName c)), list_elem_of_fmap. split.
  - intros ([n l'] & -> & Hl%elem_of_map_to_list). simpl in *.
    destruct (wf_name _ _ wf n l' Hl) as (a & Ha & <-). eauto.
  - intros (a & Ha & Hl). exists (SandboxName a, l). split; [done|].
    by apply elem_of_map_to_list.
Qed.

Lemma List_NoDup order h c : RangeOk order → cache_wf h c → NoDup (List_ order c).
Proof.
  intros Hord wf. unfold List_. rewrite (range_perm (byName c)).
  apply NoDup_fmap_2_strong; [|apply NoDup_map_to_list].
  intros [n1 l1] [n2 l2] H1%elem_of_map_to_list H2%elem_of_map_to_list ?; simplify_eq/=.
  f_equal. by eapply wf_name_inj.
Qed.

Lemma ListByStatus_In order h c st l : RangeOk order → cache_wf h c →
  l ∈ ListByStatus order h c st ↔
    ∃ a, h !! l = Some a ∧ Get c (SandboxName a) = Some l ∧ Status a = st.
Proof.
  intros Hord wf. unfold ListByStatus. rewrite list_elem_of_filter.
  change (snd <$> order (byName c)) with (List_ order c). rewrite List_In by done.
  split.
  - intros (<- & a & Ha & Hl). exists a. by rewrite (deref_Some _ _ _ Ha).
  - intros (a & Ha & Hl & <-). rewrite (deref_Some _ _ _ Ha). eauto.
Qed.

Lemma Len_view h c : Len c = Z.of_nat (size (view h c)).
Proof. unfold Len, view. by rewrite map_size_fmap. Qed.

(** The session index seen from the abstract map. *)
Lemma session_lookup h c s : cache_wf h c → s ≠ "" →
  ∀ l, GetBySession c s = Some l ↔
    ∃ a, h !! l = Some a ∧ SessionID a = s ∧ Get c (SandboxName a) = Some l.
Proof.
  intros wf Hs l. unfold GetBySession. split.
  - intros (_ & a & ? & ? & ?)%(wf_session _ _ wf). eauto.
  - intros (a & Ha & <- & Hl). by eapply wf_indexed.
Qed.

#[export] Hint Resolve cache_wf_empty cache_wf_delete : go.
