(* ===== verification/Provider.v ===== *)
(** * Sandbox providers ([internal/pool/manager.go], [mock_provider.go])

    The interface [SandboxProvider] as a type class over the provider's
    own state, the laws the pool manager relies on, and the mock provider,
    which satisfies them. *)

From S2P Require Import Prelude.
From stdpp Require Import pretty.

(** [type SandboxProvider interface { CreateSandbox; DeleteSandbox }]. *)
Class SandboxProvider (P : Type) := {
  CreateSandbox : P → (result (string * string) * P);
  DeleteSandbox : string → P → (option error * P);
}.

(** What the manager relies on: a name the provider hands out is not one
    that is still in use.  [live] over-approximates the names in use. *)
Class SandboxProviderLaws (P : Type) `{SandboxProvider P} := {
  live : P → gset string;
  create_fresh p name fqdn p' :
    CreateSandbox p = (Ok (name, fqdn), p') →
    name ∉ live p ∧ {[name]} ∪ live p ⊆ live p';
  create_failed p e p' : CreateSandbox p = (Err e, p') → live p ⊆ live p';
  delete_live p name r p' :
    DeleteSandbox name p = (r, p') → live p ∖ {[name]} ⊆ live p';
  delete_failed p name e p' :
    DeleteSandbox name p = (Some e, p') → live p ⊆ live p';
}.

(** [type MockSandboxProvider struct { targetFQDN; counter atomic.Int64 }].
    The counter is an unbounded integer here: it counts created sandboxes,
    and 2^63 of them are out of reach. *)
Record MockSandboxProvider := mkMock {
  targetFQDN : string;
  counter : nat;
}.

Definition NewMockSandboxProvider (targetFQDN : string) : MockSandboxProvider :=
  mkMock targetFQDN 0.

(** [fmt.Sprintf("mock-sandbox-%d", n)]. *)
Definition mock_name (n : nat) : string := "mock-sandbox-" +:+ pretty n.

Definition mock_CreateSandbox (m : MockSandboxProvider) :
    (result (string * string) * MockSandboxProvider) :=
  let n := S (counter m) in
  (Ok (mock_name n, targetFQDN m), mkMock (targetFQDN m) n).

Definition mock_DeleteSandbox (name : string) (m : MockSandboxProvider) :
    option error * MockSandboxProvider := (None, m).

#[export] Instance mock_provider : SandboxProvider MockSandboxProvider := {|
  CreateSandbox := mock_CreateSandbox;
  DeleteSandbox := mock_DeleteSandbox;
|}.

(** Every name the mock has handed out so far. *)
Definition mock_issued (m : MockSandboxProvider) : gset string :=
  list_to_set (mock_name <$> seq 1 (counter m)).

(* ------------------------------------------------------------------ *)
(** ** Lemmas *)

#[export] Instance mock_name_inj : Inj (=) (=) mock_name.
Proof.
  intros n1 n2 Heq. apply (inj pretty). by apply (inj (String.app "mock-sandbox-")) in Heq.
Qed.

Lemma elem_of_mock_issued m s :
  s ∈ mock_issued m ↔ ∃ n, s = mock_name n ∧ (1 ≤ n ≤ counter m)%nat.
Proof.
  unfold mock_issued. rewrite elem_of_list_to_set, list_elem_of_fmap.
  split; intros (n & -> & Hn); exists n; (split; [done|]).
  - apply elem_of_seq in Hn. lia.
  - apply elem_of_seq. lia.
Qed.

#[export] Program Instance mock_provider_laws :
  SandboxProviderLaws MockSandboxProvider := {| live := mock_issued |}.
Next Obligation.
  intros [t n] name fqdn p' [= <- <- <-]. split.
  - rewrite elem_of_mock_issued. intros (k & Hk%(inj mock_name) & ?). simpl in *. lia.
  - intros s. rewrite elem_of_union, elem_of_singleton, !elem_of_mock_issued. simpl.
    intros [->|(k & -> & ?)]; eexists; (split; [done|]); lia.
Qed.
Next Obligation. done. Qed.
Next Obligation. intros [t n] name r p' [= <- <-]. set_solver. Qed.
Next Obligation. done. Qed.
