(* ===== verification/PoolManager.v ===== *)
(** * The pool manager ([internal/pool/manager.go])

    Every method is a program over the atomic actions of [poolE]: the
    operations on the mutex [p.mu], the (internally locked) cache calls,
    single reads and writes of allocation fields through pointers, the
    provider's calls, and the reads of the clock, of [uuid.NewString] and
    of Go's unspecified map order.  [handle] gives the actions their
    meaning over a [world]. *)

From S2P Require Import Prelude Effects Cache Provider.

(** ** Runtime: clock, identifiers, map order *)

(** What the code reads from its environment, as functions of the number
    of reads made so far ([w_tick]), so that every read may differ. *)
Class Runtime := {
  env_now : nat → Z;
  env_uuid : nat → string;
  env_range : nat → range_order;
}.

(** Documented behaviour of [uuid.NewString] (a fresh non-empty string each
    time) and of [range] (each entry once). *)
Class RuntimeLaws `{Runtime} : Prop := {
  env_uuid_inj : Inj (=) (=) env_uuid;
  env_uuid_nonempty k : env_uuid k ≠ "";
  env_range_ok k : RangeOk (env_range k);
}.
#[export] Existing Instance env_uuid_inj.
#[export] Existing Instance env_range_ok.

(** ** State *)

(** Calls on [*PoolMetrics] ([internal/pool/metrics.go]). *)
Inductive metric_event :=
| RecordAllocation (duration : Z)
| SetAllocatedCount (count : Z)
| SetPoolSize (size : Z).

(** The immutable fields of [PoolManager]; [hasMetrics] is [p.metrics != nil]. *)
Record PoolManager := mkPoolManager {
  maxSize : Z;
  namespace : string;
  hasMetrics : bool;
}.

Record world (P : Type) := mkWorld {
  w_heap : heap;
  w_next : loc;
  w_cache : AllocationCache;
  w_mu : bool;
  w_prov : P;
  w_tick : nat;
  w_metrics : list metric_event;
}.
Arguments mkWorld {P}. Arguments w_heap {P}. Arguments w_next {P}.
Arguments w_cache {P}. Arguments w_mu {P}. Arguments w_prov {P}.
Arguments w_tick {P}. Arguments w_metrics {P}.

(** [NewPoolManager] over a fresh cache and the provider [p]. *)
Definition init_world {P} (p : P) : world P :=
  mkWorld ∅ 1%positive NewAllocationCache false p 0 [].

Definition ErrPoolExhausted : error :=
  ErrVar "pool.ErrPoolExhausted" "pool: all sandbox slots are in use".

Definition errSessionNotFound : error := ErrNew "pool: session not found".

(** ** Actions *)

Inductive poolE : Type → Type :=
| ELock : poolE unit
| EUnlock : poolE unit
| ECacheGet (sandboxName : string) : poolE (option loc)
| ECacheGetBySession (sessionID : string) : poolE (option loc)
| ECacheSet (l : loc) : poolE unit
| ECacheDelete (sandboxName : string) : poolE unit
| ECacheList : poolE (list loc)
| ECacheListByStatus (st : AllocationStatus) : poolE (list loc)
| ECacheLen : poolE Z
| ERead (l : loc) : poolE Allocation
| EWrite (l : loc) (f : field_write) : poolE unit
| ENew (a : Allocation) : poolE loc
| ENow : poolE Z
| EUUID : poolE string
| ECreate : poolE (result (string * string))
| EDelete (name : string) : poolE (option error)
| EMetric (m : metric_event) : poolE unit.

Definition set_heap {P} (h : heap) (w : world P) : world P :=
  mkWorld h (w_next w) (w_cache w) (w_mu w) (w_prov w) (w_tick w) (w_metrics w).
Definition set_cache {P} (c : AllocationCache) (w : world P) : world P :=
  mkWorld (w_heap w) (w_next w) c (w_mu w) (w_prov w) (w_tick w) (w_metrics w).
Definition set_mu {P} (b : bool) (w : world P) : world P :=
  mkWorld (w_heap w) (w_next w) (w_cache w) b (w_prov w) (w_tick w) (w_metrics w).
Definition set_prov {P} (p : P) (w : world P) : world P :=
  mkWorld (w_heap w) (w_next w) (w_cache w) (w_mu w) p (w_tick w) (w_metrics w).
Definition tick {P} (w : world P) : world P :=
  mkWorld (w_heap w) (w_next w) (w_cache w) (w_mu w) (w_prov w) (S (w_tick w)) (w_metrics w).
Definition new_object {P} (a : Allocation) (w : world P) : world P :=
  mkWorld (<[w_next w := a]> (w_heap w)) (Pos.succ (w_next w)) (w_cache w) (w_mu w)
    (w_prov w) (w_tick w) (w_metrics w).
Definition add_metric {P} (m : metric_event) (w : world P) : world P :=
  mkWorld (w_heap w) (w_next w) (w_cache w) (w_mu w) (w_prov w) (w_tick w)
    (w_metrics w ++ [m]).

Definition handle {P} `{SandboxProvider P} `{Runtime} : handler poolE (world P) :=
  λ X e w,
  match e in poolE X return option (X * world P) with
  | ELock => if w_mu w then None else Some (tt, set_mu true w)
  | EUnlock => Some (tt, set_mu false w)
  | ECacheGet n => Some (Get (w_cache w) n, w)
  | ECacheGetBySession s => Some (GetBySession (w_cache w) s, w)
  | ECacheSet l => Some (tt, set_cache (Set_ (w_heap w) (w_cache w) l) w)
  | ECacheDelete n => Some (tt, set_cache (Delete (w_heap w) (w_cache w) n) w)
  | ECacheList => Some (List_ (env_range (w_tick w)) (w_cache w), tick w)
  | ECacheListByStatus st =>
      Some (ListByStatus (env_range (w_tick w)) (w_heap w) (w_cache w) st, tick w)
  | ECacheLen => Some (Len (w_cache w), w)
  | ERead l => Some (deref (w_heap w) l, w)
  | EWrite l f =>
      Some (tt, set_heap (<[l := write_field f (deref (w_heap w) l)]> (w_heap w)) w)
  | ENew a => Some (w_next w, new_object a w)
  | ENow => Some (env_now (w_tick w), tick w)
  | EUUID => Some (env_uuid (w_tick w), tick w)
  | ECreate => let '(r, p') := CreateSandbox (w_prov w) in Some (r, set_prov p' w)
  | EDelete n => let '(r, p') := DeleteSandbox n (w_prov w) in Some (r, set_prov p' w)
  | EMetric m => Some (tt, add_metric m w)
  end.

(** ** Methods *)

Section methods.
Context (p : PoolManager).

(** [claimIdle]: the whole body runs with [p.mu] held. *)
Definition claimIdle (userID : string) : prog poolE (option loc) :=
  act ELock;;
  idle ← act (ECacheListByStatus StatusIdle);
  match idle with
  | [] => act EUnlock;; mret None
  | alloc :: _ =>
      act (EWrite alloc (SetStatus StatusActive));;
      act (EWrite alloc (SetUserID userID));;
      sid ← act EUUID;
      act (EWrite alloc (SetSessionID sid));;
      now ← act ENow;
      act (EWrite alloc (SetLastActivity now));;
      act (ECacheSet alloc);;
      act EUnlock;;
      mret (Some alloc)
  end.

(** [Allocate]: the size check releases the mutex before the sandbox is
    created and stored. *)
Definition Allocate (userID : string) : prog poolE (result loc) :=
  claimed ← claimIdle userID;
  match claimed with
  | Some alloc => mret (Ok alloc)
  | None =>
      act ELock;;
      len ← act ECacheLen;
      if bool_decide (maxSize p ≤ len) then
        act EUnlock;; mret (Err ErrPoolExhausted)
      else
        act EUnlock;;
        start ← act ENow;
        created ← act ECreate;
        match created with
        | Err e => mret (Err e)
        | Ok (name, fqdn) =>
            now ← act ENow;
            sid ← act EUUID;
            alloc ← act (ENew (mkAllocation name fqdn sid userID now now StatusActive));
            act (ECacheSet alloc);;
            (if hasMetrics p then
               t ← act ENow;
               act (EMetric (RecordAllocation (t - start)));;
               n ← act ECacheLen;
               act (EMetric (SetAllocatedCount n))
             else mret tt);;
            mret (Ok alloc)
        end
  end.

(** [Release]: [None] is a nil error. *)
Definition Release (sandboxName : string) : prog poolE (option error) :=
  found ← act (ECacheGet sandboxName);
  match found with
  | None => mret None
  | Some alloc =>
      act (EWrite alloc (SetStatus StatusReleasing));;
      err ← act (EDelete sandboxName);
      match err with
      | Some e => mret (Some e)
      | None =>
          act (ECacheDelete sandboxName);;
          (if hasMetrics p then
             n ← act ECacheLen;
             act (EMetric (SetAllocatedCount n))
           else mret tt);;
          mret None
      end
  end.

Definition Heartbeat (sessionID : string) : prog poolE (option error) :=
  found ← act (ECacheGetBySession sessionID);
  match found with
  | None => mret (Some errSessionNotFound)
  | Some alloc =>
      act ELock;;
      now ← act ENow;
      act (EWrite alloc (SetLastActivity now));;
      act EUnlock;;
      mret None
  end.

(** [alloc.Status == StatusIdle || alloc.Status == StatusReleasing], the
    status read once for each comparison made. *)
Definition gc_skips (alloc : loc) : prog poolE bool :=
  a ← act (ERead alloc);
  if bool_decide (Status a = StatusIdle) then mret true
  else a' ← act (ERead alloc); mret (bool_decide (Status a' = StatusReleasing)).

(** The loop of [RunGC] over the snapshot of the cache. *)
Fixpoint RunGC_loop (cutoff : Z) (allocs : list loc) : prog poolE unit :=
  match allocs with
  | [] => mret tt
  | alloc :: rest =>
      skip ← gc_skips alloc;
      if (skip : bool) then RunGC_loop cutoff rest
      else
        a ← act (ERead alloc);
        (if (LastActivity a <? cutoff)%Z
         then Release (SandboxName a);; mret tt
         else mret tt);;
        RunGC_loop cutoff rest
  end.

Definition RunGC (idleTimeout : Z) : prog poolE unit :=
  now ← act ENow;
  allocs ← act ECacheList;
  RunGC_loop (now - idleTimeout) allocs.

Definition AllocateWarm : prog poolE (result loc) :=
  act ELock;;
  len ← act ECacheLen;
  if bool_decide (maxSize p ≤ len) then
    act EUnlock;; mret (Err ErrPoolExhausted)
  else
    act EUnlock;;
    created ← act ECreate;
    match created with
    | Err e => mret (Err e)
    | Ok (name, fqdn) =>
        now ← act ENow;
        alloc ← act (ENew (mkAllocation name fqdn "" "" now now StatusIdle));
        act (ECacheSet alloc);;
        (if hasMetrics p then
           n ← act ECacheLen;
           act (EMetric (SetAllocatedCount n))
         else mret tt);;
        mret (Ok alloc)
    end.

(** [for i := 0; i < deficit; i++ { ... }], stopping at the first error. *)
Fixpoint replenish_loop (deficit : nat) : prog poolE unit :=
  match deficit with
  | O => mret tt
  | S deficit' =>
      r ← AllocateWarm;
      match r with
      | Err _ => mret tt
      | Ok _ => replenish_loop deficit'
      end
  end.

Definition replenishWarm (minReady : Z) : prog poolE unit :=
  idle ← act (ECacheListByStatus StatusIdle);
  replenish_loop (Z.to_nat (minReady - Z.of_nat (length idle))).

(** How a ticker loop ends: [time.NewTicker] panics on a non-positive
    interval, the loop returns once the context is done, and otherwise it
    waits for the next event. *)
Inductive loop_outcome := LoopPanic | LoopReturned | LoopWaiting.

Fixpoint ticker_loop (body : prog poolE unit) (events : list loop_event) :
    prog poolE loop_outcome :=
  match events with
  | [] => mret LoopWaiting
  | ContextDone :: _ => mret LoopReturned
  | TickerFired :: events' => body;; ticker_loop body events'
  end.

Definition StartWarmPool (minReady interval : Z) (events : list loop_event) :
    prog poolE loop_outcome :=
  if bool_decide (interval ≤ 0) then mret LoopPanic
  else replenishWarm minReady;; ticker_loop (replenishWarm minReady) events.

Definition StartGCLoop (interval idleTimeout : Z) (events : list loop_event) :
    prog poolE loop_outcome :=
  if bool_decide (interval ≤ 0) then mret LoopPanic
  else ticker_loop (RunGC idleTimeout) events.

Record PoolStats := mkPoolStats { Allocated : Z; MaxSize : Z }.

Definition Stats : prog poolE PoolStats :=
  n ← act ECacheLen; mret (mkPoolStats n (maxSize p)).

End methods.
