(* ===== verification/PoolInv.v ===== *)
(** * Pool manager: invariant and exact effect of each method

    The well-formedness invariant [pool_wf] of a world, its preservation by
    the elementary updates the methods make, and for each method an
    equation for [run] on every branch.  [PoolSpec] builds the refinement
    of the abstract pool on these lemmas. *)

From S2P Require Import Prelude Effects Cache Provider PoolManager.

(** ** Definitions *)

(** The allocation after [claimIdle] has assigned it. *)
Definition claimed (userID sid : string) (now : Z) (a : Allocation) : Allocation :=
  mkAllocation (SandboxName a) (ServiceFQDN a) sid userID (AllocatedAt a) now StatusActive.

Section inv.
Context {P : Type} `{!SandboxProvider P, !SandboxProviderLaws P}.
Context `{!Runtime, !RuntimeLaws}.

Record pool_wf (w : world P) : Prop := {
  pw_cache : cache_wf (w_heap w) (w_cache w);
  pw_next l a : w_heap w !! l = Some a → (l < w_next w)%positive;
  pw_idle l a : w_heap w !! l = Some a → Status a = StatusIdle → SessionID a = "";
  pw_sess l a : w_heap w !! l = Some a → SessionID a ≠ "" →
    ∃ k, (k < w_tick w)%nat ∧ SessionID a = env_uuid k;
  pw_live : dom (byName (w_cache w)) ⊆ live (w_prov w);
}.

(** Between calls the mutex is free and the cache holds at most [maxSize]
    allocations. *)
Record pool_inv (p : PoolManager) (w : world P) : Prop := {
  pi_wf : pool_wf w;
  pi_mu : w_mu w = false;
  pi_len : Len (w_cache w) ≤ maxSize p;
}.

Definition pool_view (w : world P) : gmap string Allocation :=
  view (w_heap w) (w_cache w).

(** [w'] differs from [w] in the environment only: reads made, provider
    state, metrics. *)
Record env_step (w w' : world P) : Prop := {
  es_heap : w_heap w' = w_heap w;
  es_next : w_next w' = w_next w;
  es_cache : w_cache w' = w_cache w;
  es_mu : w_mu w' = w_mu w;
  es_tick : (w_tick w ≤ w_tick w')%nat;
  es_live : live (w_prov w) ⊆ live (w_prov w');
}.

(* ------------------------------------------------------------------ *)
(** ** Elementary updates *)

Lemma pool_wf_env w w' : env_step w w' → pool_wf w → pool_wf w'.
Proof.
  intros [Hh Hn Hc _ Ht Hl] [Wc Wn Wi Ws Wl].
  split; rewrite ?Hh, ?Hn, ?Hc; try done.
  - intros l a Ha Hs. destruct (Ws l a Ha Hs) as (k & ? & ?). exists k. split; [lia|done].
  - set_solver.
Qed.

Lemma pool_inv_env p w w' : env_step w w' → pool_inv p w → pool_inv p w'.
Proof.
  intros He [Hwf Hmu Hlen]. split.
  - by eapply pool_wf_env.
  - by rewrite (es_mu _ _ He).
  - by rewrite (es_cache _ _ He).
Qed.

Lemma pool_view_env w w' : env_step w w' → pool_view w' = pool_view w.
Proof. intros He. unfold pool_view. by rewrite (es_heap _ _ He), (es_cache _ _ He). Qed.

Lemma pool_wf_init p : pool_wf (init_world p).
Proof.
  split; simpl.
  - apply cache_wf_empty.
  - intros *; rewrite lookup_empty; done.
  - intros *; rewrite lookup_empty; done.
  - intros *; rewrite lookup_empty; done.
  - set_solver.
Qed.

Lemma fresh_session w k s : pool_wf w → (w_tick w ≤ k)%nat →
  bySession (w_cache w) !! s = None ∨ s ≠ env_uuid k.
Proof.
  intros Hwf Hk. destruct (bySession (w_cache w) !! s) as [l|] eqn:Hs; [right|by left].
  destruct (wf_session _ _ (pw_cache _ Hwf) _ _ Hs) as (Hne & a & Ha & <- & _).
  destruct (pw_sess _ Hwf l a Ha Hne) as (j & ? & ->).
  intros ->%(inj env_uuid). lia.
Qed.

Lemma fresh_session_None w k : pool_wf w → (w_tick w ≤ k)%nat →
  bySession (w_cache w) !! env_uuid k = None.
Proof. intros Hwf Hk. by destruct (fresh_session w k (env_uuid k) Hwf Hk). Qed.

(** Overwriting an object: name kept, session kept, idle rule respected. *)
Lemma pool_wf_write w l a a' : pool_wf w → w_heap w !! l = Some a →
  SandboxName a' = SandboxName a → SessionID a' = SessionID a →
  (Status a' = StatusIdle → Status a = StatusIdle) →
  pool_wf (set_heap (<[l := a']> (w_heap w)) w).
Proof.
  intros Hwf Ha Hn Hs Hst. destruct Hwf as [Wc Wn Wi Ws Wl]. split; simpl; try done.
  - by eapply cache_wf_write.
  - intros l' b [[<- <-]|[? Hb]]%lookup_insert_Some; eauto.
  - intros l' b [[<- <-]|[? Hb]]%lookup_insert_Some; [|eauto].
    rewrite Hs. eauto.
  - intros l' b [[<- <-]|[? Hb]]%lookup_insert_Some; [|eauto].
    rewrite Hs. eauto.
Qed.

(** The object [l] becomes active under a new session and is re-indexed. *)
Lemma pool_wf_claim w l a u k t now : pool_wf w → w_heap w !! l = Some a →
  Status a = StatusIdle → Get (w_cache w) (SandboxName a) = Some l →
  (w_tick w ≤ k < t)%nat →
  let h := <[l := claimed u (env_uuid k) now a]> (w_heap w) in
  pool_wf (mkWorld h (w_next w) (Set_ h (w_cache w) l) false (w_prov w) t (w_metrics w)).
Proof.
  intros Hwf Ha Hidle Hget [Hk Ht] h. pose proof (env_uuid_nonempty k) as Hne.
  assert (Hsa : SessionID a = "") by by eapply pw_idle.
  destruct Hwf as [Wc Wn Wi Ws Wl] eqn:E. clear E. split; simpl.
  - eapply cache_wf_claim; try done. by apply fresh_session_None.
  - intros l' b [[<- <-]|[? Hb]]%lookup_insert_Some; eauto.
  - intros l' b [[<- <-]|[? Hb]]%lookup_insert_Some; eauto. done.
  - intros l' b [[<- <-]|[? Hb]]%lookup_insert_Some Hs; [by exists k|].
    destruct (Ws l' b Hb Hs) as (j & ? & ?). exists j. split; [lia|done].
  - unfold Set_. rewrite (deref_Some h l (claimed u (env_uuid k) now a)) by apply lookup_insert_eq.
    simpl. rewrite bool_decide_false by done. simpl.
    unfold Get in Hget. rewrite insert_id by done. done.
Qed.

(** A new object under a name the provider just made up. *)
Lemma pool_wf_create w a : pool_wf w →
  byName (w_cache w) !! SandboxName a = None → SandboxName a ∈ live (w_prov w) →
  (Status a = StatusIdle → SessionID a = "") →
  (SessionID a ≠ "" → bySession (w_cache w) !! SessionID a = None ∧
     ∃ k, (k < w_tick w)%nat ∧ SessionID a = env_uuid k) →
  let w1 := new_object a w in
  pool_wf (set_cache (Set_ (w_heap w1) (w_cache w1) (w_next w)) w1).
Proof.
  intros Hwf Hname Hlive Hidle Hsess w1. destruct Hwf as [Wc Wn Wi Ws Wl].
  assert (Hnone : w_heap w !! w_next w = None).
  { destruct (w_heap w !! w_next w) eqn:Hl; [|done]. apply Wn in Hl. lia. }
  assert (Hnew : w_heap w1 !! w_next w = Some a) by by apply lookup_insert_eq.
  assert (Hnot : ∀ n l, byName (w_cache w) !! n = Some l → l ≠ w_next w).
  { intros n l Hl ->. destruct (wf_name _ _ Wc _ _ Hl) as (?&?&?). congruence. }
  split; simpl.
  - eapply cache_wf_set; [|done| | |].
    + eapply cache_wf_heap; [done|]. intros n l Hl. simpl.
      rewrite lookup_insert_ne; [done|]. by apply not_eq_sym, (Hnot n).
    + by left.
    + intros Hs. left. by apply Hsess.
    + intros s Hs. destruct (wf_session _ _ Wc _ _ Hs) as (_&?&?&_&_). simpl in *. congruence.
  - intros l b [[<- <-]|[? Hb]]%lookup_insert_Some; [lia|]. apply Wn in Hb. lia.
  - intros l b [[<- <-]|[? Hb]]%lookup_insert_Some; eauto.
  - intros l b [[<- <-]|[? Hb]]%lookup_insert_Some Hs; [by apply Hsess|eauto].
  - unfold Set_. rewrite (deref_Some _ _ a) by done.
    case_bool_decide; simpl; rewrite dom_insert_L; set_solver.
Qed.

(** Dropping an entry once the provider has deleted the sandbox. *)
Lemma pool_wf_delete w n p' : pool_wf w → live (w_prov w) ∖ {[n]} ⊆ live p' →
  pool_wf (set_cache (Delete (w_heap w) (w_cache w) n) (set_prov p' w)).
Proof.
  intros [Wc Wn Wi Ws Wl] Hlive. split; simpl; try done.
  - by apply cache_wf_delete.
  - unfold Delete. destruct (byName (w_cache w) !! n) eqn:Hn; simpl.
    + rewrite dom_delete_L. set_solver.
    + apply not_elem_of_dom in Hn. set_solver.
Qed.

Lemma Len_delete h c n : Len (Delete h c n) ≤ Len c.
Proof.
  unfold Len, Delete. destruct (byName c !! n) eqn:Hn; simpl; [|done].
  rewrite map_size_delete, Hn. simpl. lia.
Qed.

Lemma Len_set h c l : Len (Set_ h c l) ≤ Len c + 1.
Proof.
  unfold Len, Set_. case_bool_decide; simpl; rewrite map_size_insert;
    case_match; simpl; lia.
Qed.

Lemma Len_set_known h c l a : h !! l = Some a → is_Some (byName c !! SandboxName a) →
  Len (Set_ h c l) = Len c.
Proof.
  intros Ha [l' Hl']. unfold Len, Set_. rewrite (deref_Some _ _ _ Ha).
  case_bool_decide; simpl; by rewrite map_size_insert_Some by eauto.
Qed.

(* ------------------------------------------------------------------ *)
(** ** Exact effect of the methods *)

Lemma run_claimIdle_none w u : w_mu w = false →
  ListByStatus (env_range (w_tick w)) (w_heap w) (w_cache w) StatusIdle = [] →
  run handle (claimIdle u) w = Some (None, tick (set_mu false w)).
Proof. intros Hmu Hl. simpl. rewrite Hmu. simpl. by rewrite Hl. Qed.

Lemma run_claimIdle_some w u l ls a : w_mu w = false → w_heap w !! l = Some a →
  ListByStatus (env_range (w_tick w)) (w_heap w) (w_cache w) StatusIdle = l :: ls →
  let h := <[l := claimed u (env_uuid (S (w_tick w))) (env_now (S (S (w_tick w)))) a]>
             (w_heap w) in
  run handle (claimIdle u) w =
    Some (Some l, mkWorld h (w_next w) (Set_ h (w_cache w) l) false (w_prov w)
                    (S (S (S (w_tick w)))) (w_metrics w)).
Proof.
  intros Hmu Ha Hl h. simpl. rewrite Hmu. simpl. rewrite Hl. simpl.
  rewrite (deref_Some _ _ _ Ha).
  repeat (rewrite !(deref_Some (<[l:=_]> _) l _) by apply lookup_insert_eq;
          rewrite !insert_insert_eq; simpl).
  done.
Qed.

End inv.
