(* ===== verification/PoolSpec.v ===== *)
(** * The abstract pool and its refinement

    The abstract pool is a map from sandbox names to allocations; its
    transitions [pool_spec] say what each method of the manager may do to
    it, whatever the clock, the identifiers, the map order and the
    provider answer.  [run_op] runs a method of [PoolManager] to its end. *)

From S2P Require Import Prelude Effects Cache Provider PoolManager PoolInv.

(** ** Definitions *)

Abbreviation pool_map := (gmap string Allocation).

Definition releasing (a : Allocation) : Allocation :=
  write_field (SetStatus StatusReleasing) a.

(** The test of [RunGC]. *)
Definition expired (cutoff : Z) (a : Allocation) : bool :=
  bool_decide (Status a ≠ StatusIdle) && bool_decide (Status a ≠ StatusReleasing)
  && (LastActivity a <? cutoff).

Definition no_idle (m : pool_map) : Prop :=
  ∀ n a, m !! n = Some a → Status a ≠ StatusIdle.

Definition idle_count (m : pool_map) : nat :=
  size (filter (λ na : string * Allocation, Status na.2 = StatusIdle) m).

Definition new_session (m : pool_map) (s : string) : Prop :=
  s ≠ "" ∧ ∀ n a, m !! n = Some a → SessionID a ≠ s.

(** The entry [o] is among the objects [ls]. *)
Definition visited (ls : list loc) (o : option loc) : bool :=
  match o with Some l => bool_decide (l ∈ ls) | None => false end.

(** The calls of the pool's clients, and what they return. *)
Inductive pool_op :=
| OpAllocate (userID : string)
| OpRelease (sandboxName : string)
| OpHeartbeat (sessionID : string)
| OpRunGC (idleTimeout : Z)
| OpAllocateWarm
| OpReplenish (minReady : Z)
| OpStats.

Inductive pool_ret :=
| RetAlloc (r : result Allocation)
| RetErr (e : option error)
| RetUnit
| RetStats (s : PoolStats).

(** What garbage collection does to one entry: an expired one is deleted
    or, when the provider fails, left in [StatusReleasing]. *)
Definition gc_entry (cutoff : Z) (o o' : option Allocation) : Prop :=
  match o with
  | Some a => if expired cutoff a then o' = None ∨ o' = Some (releasing a) else o' = o
  | None => o' = None
  end.

(** [AllocateWarm]. *)
Inductive warm_spec (max : Z) : pool_map → result Allocation → pool_map → Prop :=
| SpecWarmCreate m n fqdn now :
    Z.of_nat (size m) < max → m !! n = None →
    let a := mkAllocation n fqdn "" "" now now StatusIdle in
    warm_spec max m (Ok a) (<[n := a]> m)
| SpecWarmExhausted m :
    max ≤ Z.of_nat (size m) → warm_spec max m (Err ErrPoolExhausted) m
| SpecWarmFailed m e :
    Z.of_nat (size m) < max → warm_spec max m (Err e) m.

Inductive pool_spec (max : Z) : pool_op → pool_map → pool_ret → pool_map → Prop :=
| SpecClaim m u n a sid now :
    m !! n = Some a → Status a = StatusIdle → new_session m sid →
    pool_spec max (OpAllocate u) m
      (RetAlloc (Ok (claimed u sid now a))) (<[n := claimed u sid now a]> m)
| SpecCreate m u n fqdn sid now :
    no_idle m → Z.of_nat (size m) < max → m !! n = None → new_session m sid →
    let a := mkAllocation n fqdn sid u now now StatusActive in
    pool_spec max (OpAllocate u) m (RetAlloc (Ok a)) (<[n := a]> m)
| SpecExhausted m u :
    no_idle m → max ≤ Z.of_nat (size m) →
    pool_spec max (OpAllocate u) m (RetAlloc (Err ErrPoolExhausted)) m
| SpecCreateFailed m u e :
    no_idle m → Z.of_nat (size m) < max →
    pool_spec max (OpAllocate u) m (RetAlloc (Err e)) m
| SpecReleaseAbsent m n :
    m !! n = None → pool_spec max (OpRelease n) m (RetErr None) m
| SpecRelease m n a :
    m !! n = Some a → pool_spec max (OpRelease n) m (RetErr None) (delete n m)
| SpecReleaseFailed m n a e :
    m !! n = Some a →
    pool_spec max (OpRelease n) m (RetErr (Some e)) (<[n := releasing a]> m)
| SpecHeartbeat m s n a now :
    m !! n = Some a → SessionID a = s → s ≠ "" →
    pool_spec max (OpHeartbeat s) m (RetErr None)
      (<[n := write_field (SetLastActivity now) a]> m)
| SpecHeartbeatUnknown m s :
    (∀ n a, m !! n = Some a → SessionID a = "" ∨ SessionID a ≠ s) →
    pool_spec max (OpHeartbeat s) m (RetErr (Some errSessionNotFound)) m
| SpecRunGC m t cutoff m' :
    (∀ n, gc_entry cutoff (m !! n) (m' !! n)) →
    pool_spec max (OpRunGC t) m RetUnit m'
| SpecWarm m r m' :
    warm_spec max m r m' → pool_spec max OpAllocateWarm m (RetAlloc r) m'
| SpecReplenish m k m' :
    rtc (λ m1 m2, ∃ r, warm_spec max m1 r m2) m m' →
    pool_spec max (OpReplenish k) m RetUnit m'
| SpecStats m :
    pool_spec max OpStats m (RetStats (mkPoolStats (Z.of_nat (size m)) max)) m.

(** A method run to its end; the allocation it returns is read in the
    final heap. *)
Definition run_op {P} `{SandboxProvider P} `{Runtime} (p : PoolManager)
    (op : pool_op) (w : world P) : option (pool_ret * world P) :=
  match op with
  | OpAllocate u =>
      '(r, w') ← run handle (Allocate p u) w;
      Some (RetAlloc (deref (w_heap w') <$> r), w')
  | OpRelease n => '(r, w') ← run handle (Release p n) w; Some (RetErr r, w')
  | OpHeartbeat s => '(r, w') ← run handle (Heartbeat s) w; Some (RetErr r, w')
  | OpRunGC t => '(_, w') ← run handle (RunGC p t) w; Some (RetUnit, w')
  | OpAllocateWarm =>
      '(r, w') ← run handle (AllocateWarm p) w;
      Some (RetAlloc (deref (w_heap w') <$> r), w')
  | OpReplenish k => '(_, w') ← run handle (replenishWarm p k) w; Some (RetUnit, w')
  | OpStats => '(s, w') ← run handle (Stats p) w; Some (RetStats s, w')
  end.

(** A sequence of calls. *)
Fixpoint run_ops {P} `{SandboxProvider P} `{Runtime} (p : PoolManager)
    (ops : list pool_op) (w : world P) : option (list pool_ret * world P) :=
  match ops with
  | [] => Some ([], w)
  | op :: ops' =>
      '(r, w') ← run_op p op w;
      '(rs, w'') ← run_ops p ops' w';
      Some (r :: rs, w'')
  end.

(* ------------------------------------------------------------------ *)
(** ** Each method against the abstract pool *)

Section refinement.
Context {P : Type} `{SandboxProviderLaws P} `{RuntimeLaws}.
Context (p : PoolManager).
Implicit Types w : world P.

(** The method [m] terminates, keeps the invariant, and does [Q]. *)
Definition meets {A} (m : prog poolE A) (w : world P)
    (Q : A → world P → Prop) : Prop :=
  ∃ r w', run handle m w = Some (r, w') ∧ pool_inv p w' ∧ Q r w'.

Lemma no_idle_list w : pool_wf w →
  ListByStatus (env_range (w_tick w)) (w_heap w) (w_cache w) StatusIdle = [] ↔
  no_idle (pool_view w).
Proof.
  intros Hwf. pose proof (pw_cache _ Hwf) as wf. split.
  - intros Hnil n a (l & Hl & Ha)%view_Some Hst; [|done].
    assert (l ∈ @nil loc); [|set_solver]. rewrite <- Hnil, ListByStatus_In by (done || apply _).
    destruct (wf_name _ _ wf n l Hl) as (? & ? & <-). simplify_eq. eauto.
  - intros Hno. apply elem_of_nil_inv. intros l Hl.
    apply ListByStatus_In in Hl as (a & Ha & Hl & Hst); [|apply _|done].
    eapply Hno, Hst. apply view_Some; eauto.
Qed.

Lemma new_session_env w k : pool_wf w → (w_tick w ≤ k)%nat →
  new_session (pool_view w) (env_uuid k).
Proof.
  intros Hwf Hk. split; [apply env_uuid_nonempty|].
  intros n a (l & Hl & Ha)%view_Some Hs; [|apply Hwf].
  destruct (pw_sess _ Hwf l a Ha) as (j & ? & Hj).
  { rewrite Hs. apply env_uuid_nonempty. }
  rewrite Hs in Hj. apply (inj env_uuid) in Hj. lia.
Qed.

Lemma size_view w : Z.of_nat (size (pool_view w)) = Len (w_cache w).
Proof. by rewrite (Len_view (w_heap w)). Qed.

(** Metrics do not touch the pool. *)
Lemma metrics_meets (m : prog poolE unit) w (Q : world P → Prop) :
  (∀ w', env_step w w' → Q w') →
  (∃ w', run handle m w = Some (tt, w') ∧ env_step w w') →
  ∃ w', run handle m w = Some (tt, w') ∧ Q w'.
Proof. intros HQ (w' & Hr & He). eauto. Qed.

Lemma env_step_refl w : env_step w w.
Proof. by split. Qed.

Lemma env_step_trans w1 w2 w3 : env_step w1 w2 → env_step w2 w3 → env_step w1 w3.
Proof.
  intros [Hh Hn Hc Hm Ht Hl] [Hh' Hn' Hc' Hm' Ht' Hl'].
  split; try congruence; [lia|set_solver].
Qed.

(** Storing a newly created allocation. *)
Lemma create_inv w a : pool_wf w → w_mu w = false → Len (w_cache w) < maxSize p →
  byName (w_cache w) !! SandboxName a = None → SandboxName a ∈ live (w_prov w) →
  (Status a = StatusIdle → SessionID a = "") →
  (SessionID a ≠ "" → bySession (w_cache w) !! SessionID a = None ∧
     ∃ k, (k < w_tick w)%nat ∧ SessionID a = env_uuid k) →
  let w1 := new_object a w in
  let w2 := set_cache (Set_ (w_heap w1) (w_cache w1) (w_next w)) w1 in
  pool_inv p w2 ∧ pool_view w2 = <[SandboxName a := a]> (pool_view w) ∧
  deref (w_heap w2) (w_next w) = a.
Proof.
  intros Hwf Hmu Hlen Hname Hlive Hidle Hsess w1 w2.
  assert (Hnew : w_heap w1 !! w_next w = Some a) by apply lookup_insert_eq.
  split_and!.
  - split; [by apply pool_wf_create|done|]. simpl.
    pose proof (Len_set (w_heap w1) (w_cache w) (w_next w)). simpl in *. lia.
  - unfold pool_view; simpl. rewrite (view_set _ _ _ a) by done. f_equal.
    unfold view. apply map_fmap_ext. intros n l Hl. unfold deref.
    rewrite lookup_insert_ne; [done|]. intros <-.
    destruct (wf_name _ _ (pw_cache _ Hwf) _ _ Hl) as (b & Hb & _).
    apply (pw_next _ Hwf) in Hb. lia.
  - by apply deref_Some.
Qed.

(** A name fresh for the provider is fresh for the cache. *)
Lemma created_name w name fqdn p' : pool_wf w →
  CreateSandbox (w_prov w) = (Ok (name, fqdn), p') →
  byName (w_cache w) !! name = None ∧ name ∈ live p' ∧ live (w_prov w) ⊆ live p'.
Proof.
  intros Hwf [Hfresh Hlive]%create_fresh. split_and!; [|set_solver..].
  apply not_elem_of_dom. pose proof (pw_live _ Hwf). set_solver.
Qed.

Lemma Allocate_meets u w : pool_inv p w →
  meets (Allocate p u) w (λ r w',
    pool_spec (maxSize p) (OpAllocate u) (pool_view w)
      (RetAlloc (deref (w_heap w') <$> r)) (pool_view w')).
Proof.
  intros Hinv. pose proof (pi_wf _ _ Hinv) as Hwf. pose proof (pw_cache _ Hwf) as wf.
  unfold meets, Allocate. rewrite run_bind.
  destruct (ListByStatus (env_range (w_tick w)) (w_heap w) (w_cache w) StatusIdle)
    as [|l ls] eqn:Hls.
  - rewrite run_claimIdle_none by (done || apply Hinv).
    apply no_idle_list in Hls as Hno; [|done]. simpl.
    case_bool_decide as Hmax; simpl in *.
    { eexists _, _. split; [done|]. split.
      - eapply pool_inv_env, Hinv. split; simpl; try done; [by rewrite (pi_mu _ _ Hinv)|lia].
      - apply SpecExhausted; [done|]. by rewrite size_view. }
    destruct (CreateSandbox (w_prov w)) as [[[name fqdn]|e] p'] eqn:Hcreate; simpl.
    + destruct (created_name _ _ _ _ Hwf Hcreate) as (Hname & Hlive & Hmono).
      set (t := S (w_tick w)).
      set (a := mkAllocation name fqdn (env_uuid (S (S t))) u (env_now (S t))
                  (env_now (S t)) StatusActive).
      set (w0 := mkWorld (w_heap w) (w_next w) (w_cache w) false p' (S (S (S t)))
                  (w_metrics w)).
      assert (He : env_step w w0).
      { split; simpl; try done; [by rewrite (pi_mu _ _ Hinv)|unfold t; lia]. }
      destruct (create_inv w0 a) as (Hinv' & Hview & Hderef); try done.
      { by eapply pool_wf_env. } { simpl. lia. }
      { intros _. simpl. split; [|by exists (S (S t)); auto with lia].
        apply fresh_session_None; [done|unfold t; lia]. }
      assert (Hspec : pool_spec (maxSize p) (OpAllocate u) (pool_view w) (RetAlloc (Ok a))
                        (<[SandboxName a := a]> (pool_view w))).
      { apply SpecCreate; [done|rewrite size_view; lia| |].
        - unfold pool_view. rewrite view_lookup. unfold Get. simpl. by rewrite Hname.
        - apply new_session_env; [done|unfold t; lia]. }
      rewrite (pool_view_env w w0) in Hview by done.
      destruct (hasMetrics p); simpl; eexists _, _; (split; [done|]).
      * split; [eapply pool_inv_env, Hinv'; split; simpl; try done; lia|].
        simpl in *. rewrite Hderef.
        unfold pool_view at 2; simpl in *. unfold pool_view in Hview at 1. simpl in Hview.
        by rewrite Hview.
      * split; [done|]. simpl in *. rewrite Hderef.
        unfold pool_view in Hview at 1. simpl in Hview.
        unfold pool_view at 2; simpl. by rewrite Hview.
    + eexists _, _. split; [done|]. split.
      * eapply pool_inv_env, Hinv. apply create_failed in Hcreate.
        split; simpl; try done; [by rewrite (pi_mu _ _ Hinv)|lia..].
      * apply SpecCreateFailed; [done|]. rewrite size_view. simpl. lia.
  - assert (∃ a, w_heap w !! l = Some a ∧ Get (w_cache w) (SandboxName a) = Some l ∧
      Status a = StatusIdle) as (a & Ha & Hget & Hidle).
    { apply (ListByStatus_In (env_range (w_tick w))); [apply _|done|].
      rewrite Hls. set_solver. }
    rewrite (run_claimIdle_some _ _ l ls a) by (done || apply Hinv). simpl.
    eexists _, _. split; [done|].
    set (a' := claimed _ _ _ _). set (h := <[l := a']> (w_heap w)).
    assert (Hnew : h !! l = Some a') by apply lookup_insert_eq.
    split; [split; simpl|simpl].
    + apply pool_wf_claim; try done. lia.
    + done.
    + rewrite (Len_set_known _ _ _ _ Hnew); [apply Hinv|]. by exists l.
    + unfold pool_view; simpl. rewrite (deref_Some _ _ _ Hnew).
      rewrite (view_set _ _ _ _ Hnew).
      assert (view h (w_cache w) = <[SandboxName a := a']> (view (w_heap w) (w_cache w))) as ->.
      { unfold h. rewrite (view_write _ _ _ a) by done. by rewrite bool_decide_true. }
      simpl. rewrite insert_insert_eq. apply SpecClaim; [|done|].
      * apply view_Some; eauto.
      * apply new_session_env; [done|lia].
Qed.

Lemma Release_meets n w : pool_inv p w →
  meets (Release p n) w (λ r w',
    pool_spec (maxSize p) (OpRelease n) (pool_view w) (RetErr r) (pool_view w') ∧
    (∀ l a, w_heap w !! l = Some a → SandboxName a ≠ n → w_heap w' !! l = Some a) ∧
    (∀ n', n' ≠ n → Get (w_cache w') n' = Get (w_cache w) n')).
Proof.
  intros Hinv. pose proof (pi_wf _ _ Hinv) as Hwf. pose proof (pw_cache _ Hwf) as wf.
  unfold meets, Release. simpl.
  destruct (Get (w_cache w) n) as [l|] eqn:Hl; simpl.
  2:{ eexists _, _. split_and!; [done..| |done|done]. apply SpecReleaseAbsent.
      unfold pool_view. by rewrite view_lookup, Hl. }
  destruct (wf_name _ _ wf n l Hl) as (a & Ha & <-).
  rewrite (deref_Some _ _ _ Ha). set (a' := releasing a).
  assert (Hv : pool_view w !! SandboxName a = Some a) by (apply view_Some; eauto).
  assert (Hinv1 : pool_inv p (set_heap (<[l := a']> (w_heap w)) w)).
  { split; [by eapply pool_wf_write|by apply Hinv|by apply Hinv]. }
  assert (Hview1 : view (<[l := a']> (w_heap w)) (w_cache w)
                   = <[SandboxName a := a']> (pool_view w)).
  { rewrite (view_write _ _ _ a) by done. by rewrite bool_decide_true. }
  assert (Hother : ∀ l' b, w_heap w !! l' = Some b → SandboxName b ≠ SandboxName a →
    <[l := a']> (w_heap w) !! l' = Some b).
  { intros l' b Hb Hne. rewrite lookup_insert_ne; [done|]. congruence. }
  destruct (DeleteSandbox (SandboxName a) (w_prov w)) as [[e|] p'] eqn:Hdel; simpl.
  - eexists _, _. split_and!; [done| | |done|done].
    + eapply pool_inv_env, Hinv1. apply delete_failed in Hdel. by split.
    + change (pool_spec (maxSize p) (OpRelease (SandboxName a)) (pool_view w)
        (RetErr (Some e)) (view (<[l := a']> (w_heap w)) (w_cache w))).
      rewrite Hview1. by apply SpecReleaseFailed.
  - assert (Hinv2 : pool_inv p (set_cache (Delete (<[l := a']> (w_heap w)) (w_cache w)
      (SandboxName a)) (set_prov p' (set_heap (<[l := a']> (w_heap w)) w)))).
    { split; [|by apply Hinv|].
      - eapply (pool_wf_delete (set_heap _ w)); [apply Hinv1|].
        by eapply delete_live.
      - simpl. etrans; [apply Len_delete|apply Hinv]. }
    assert (Hspec : pool_spec (maxSize p) (OpRelease (SandboxName a)) (pool_view w)
      (RetErr None) (view (<[l := a']> (w_heap w))
         (Delete (<[l := a']> (w_heap w)) (w_cache w) (SandboxName a)))).
    { rewrite view_delete, Hview1, delete_insert_eq. by eapply SpecRelease. }
    assert (Hget : ∀ n', n' ≠ SandboxName a →
      Get (Delete (<[l := a']> (w_heap w)) (w_cache w) (SandboxName a)) n'
        = Get (w_cache w) n').
    { intros n' Hne. unfold Get, Delete in *. rewrite Hl. simpl.
      by rewrite lookup_delete_ne. }
    destruct (hasMetrics p); simpl; eexists _, _; (split; [done|]);
      (split; [by eapply pool_inv_env, Hinv2; split|done]).
Qed.

Lemma Heartbeat_meets s w : pool_inv p w →
  meets (Heartbeat s) w (λ r w',
    pool_spec (maxSize p) (OpHeartbeat s) (pool_view w) (RetErr r) (pool_view w')).
Proof.
  intros Hinv. pose proof (pi_wf _ _ Hinv) as Hwf. pose proof (pw_cache _ Hwf) as wf.
  unfold meets, Heartbeat. simpl.
  destruct (GetBySession (w_cache w) s) as [l|] eqn:Hl; simpl.
  - rewrite (pi_mu _ _ Hinv). simpl.
    destruct (wf_session _ _ wf s l Hl) as (Hs & a & Ha & Hsa & Hn).
    rewrite (deref_Some _ _ _ Ha). set (a' := write_field (SetLastActivity (env_now (w_tick w))) a).
    eexists _, _. split_and!; [done| |].
    + assert (Hwf' : pool_wf (set_heap (<[l := a']> (w_heap w)) w)) by by eapply pool_wf_write.
      split; [|done|apply Hinv]. eapply pool_wf_env, Hwf'.
      split; simpl; try done; [by rewrite (pi_mu _ _ Hinv)|lia].
    + change (pool_spec (maxSize p) (OpHeartbeat s) (pool_view w) (RetErr None)
        (view (<[l := a']> (w_heap w)) (w_cache w))).
      rewrite (view_write _ _ _ a), bool_decide_true by done.
      apply SpecHeartbeat; try done. apply view_Some; eauto.
  - eexists _, _. split_and!; [done..|]. apply SpecHeartbeatUnknown.
    intros n a (l & Hl' & Ha)%view_Some; [|done].
    destruct (decide (SessionID a = "")) as [|Hne]; [by left|right]. intros <-.
    pose proof (wf_indexed _ _ wf _ _ _ Hl' Ha Hne). unfold GetBySession in Hl. congruence.
Qed.

Lemma warm_spec_eq m r1 m1 r2 m2 :
  warm_spec (maxSize p) m r1 m1 → r2 = r1 → m2 = m1 → warm_spec (maxSize p) m r2 m2.
Proof. by intros ? -> ->. Qed.

Lemma AllocateWarm_meets w : pool_inv p w →
  meets (AllocateWarm p) w (λ r w',
    warm_spec (maxSize p) (pool_view w) (deref (w_heap w') <$> r) (pool_view w') ∧
    (is_ok r = false → maxSize p ≤ Len (w_cache w) ∨
       ∃ e, (CreateSandbox (w_prov w)).1 = Err e)).
Proof.
  intros Hinv. pose proof (pi_wf _ _ Hinv) as Hwf. pose proof (pw_cache _ Hwf) as wf.
  unfold meets, AllocateWarm. simpl. rewrite (pi_mu _ _ Hinv). simpl.
  case_bool_decide as Hmax; simpl.
  { eexists _, _. split_and!; [done| | |by left].
    - eapply pool_inv_env, Hinv. split; simpl; try done. by rewrite (pi_mu _ _ Hinv).
    - apply (SpecWarmExhausted _ (pool_view w)). by rewrite size_view. }
  destruct (CreateSandbox (w_prov w)) as [[[name fqdn]|e] p'] eqn:Hcreate; simpl.
  - destruct (created_name _ _ _ _ Hwf Hcreate) as (Hname & Hlive & Hmono).
    set (a := mkAllocation name fqdn "" "" (env_now (w_tick w)) (env_now (w_tick w)) StatusIdle).
    set (w0 := mkWorld (w_heap w) (w_next w) (w_cache w) false p' (S (w_tick w))
                (w_metrics w)).
    assert (He : env_step w w0).
    { split; simpl; try done; [by rewrite (pi_mu _ _ Hinv)|lia]. }
    destruct (create_inv w0 a) as (Hinv' & Hview & Hderef); try done.
    { by eapply pool_wf_env. } { simpl. lia. }
    assert (Hspec : warm_spec (maxSize p) (pool_view w) (Ok a)
                      (<[SandboxName a := a]> (pool_view w))).
    { apply SpecWarmCreate; [rewrite size_view; lia|].
      unfold pool_view. rewrite view_lookup. unfold Get. simpl. by rewrite Hname. }
    rewrite (pool_view_env w w0) in Hview by done.
    destruct (hasMetrics p); simpl; eexists _, _; (split; [done|]);
      (split; [by eapply pool_inv_env, Hinv'|split; [|done]]);
      exact (warm_spec_eq _ _ _ _ _ Hspec (f_equal Ok Hderef) Hview).
  - eexists _, _. split_and!; [done| | |by eauto].
    + eapply pool_inv_env, Hinv. apply create_failed in Hcreate.
      split; simpl; try done. by rewrite (pi_mu _ _ Hinv).
    + apply (SpecWarmFailed _ (pool_view w)). rewrite size_view. lia.
Qed.

Lemma Stats_meets w : pool_inv p w →
  meets (Stats p) w (λ s w', w' = w ∧
    s = mkPoolStats (Z.of_nat (size (pool_view w))) (maxSize p)).
Proof.
  intros Hinv. eexists _, _. split_and!; [done..|]. by rewrite size_view.
Qed.

Lemma expired_true cutoff a : expired cutoff a = true ↔
  Status a ≠ StatusIdle ∧ Status a ≠ StatusReleasing ∧ LastActivity a < cutoff.
Proof.
  unfold expired. rewrite !andb_true_iff, !bool_decide_eq_true, Z.ltb_lt. tauto.
Qed.

Lemma run_gc_skips w l a : w_heap w !! l = Some a →
  run handle (gc_skips l) w =
    Some (bool_decide (Status a = StatusIdle ∨ Status a = StatusReleasing), w).
Proof.
  intros Ha. simpl. rewrite (deref_Some _ _ _ Ha).
  by destruct (Status a) eqn:Hst; simpl; rewrite ?(deref_Some _ _ _ Ha), ?Hst.
Qed.

(** One visit of the GC loop: skip, or release. *)
Lemma RunGC_visit cutoff l ls a w : pool_inv p w → w_heap w !! l = Some a →
  Get (w_cache w) (SandboxName a) = Some l →
  ∃ w1, run handle (RunGC_loop p cutoff (l :: ls)) w = run handle (RunGC_loop p cutoff ls) w1 ∧
    pool_inv p w1 ∧
    gc_entry cutoff (Some a) (pool_view w1 !! SandboxName a) ∧
    (∀ n, n ≠ SandboxName a → Get (w_cache w1) n = Get (w_cache w) n) ∧
    (∀ l' b, w_heap w !! l' = Some b → SandboxName b ≠ SandboxName a →
       w_heap w1 !! l' = Some b).
Proof.
  intros Hinv Ha Hl. pose proof (pw_cache _ (pi_wf _ _ Hinv)) as wf.
  assert (Hv : pool_view w !! SandboxName a = Some a) by (apply view_Some; eauto).
  cbn [RunGC_loop]. rewrite run_bind, (run_gc_skips w l a Ha).
  assert (Hskip : ¬ (Status a ≠ StatusIdle ∧ Status a ≠ StatusReleasing ∧
      LastActivity a < cutoff) → gc_entry cutoff (Some a) (pool_view w !! SandboxName a)).
  { rewrite <- expired_true. intros He%not_true_is_false. simpl. by rewrite He, Hv. }
  case_bool_decide as Hst.
  { exists w. split_and!; [done|done|apply Hskip; naive_solver|done|done]. }
  simpl. rewrite (deref_Some _ _ _ Ha).
  destruct (LastActivity a <? cutoff) eqn:Hlast; go_bools.
  2:{ exists w. split_and!; [done|done|apply Hskip; lia|done|done]. }
  destruct (Release_meets (SandboxName a) w Hinv) as (r & w1 & Hrun & Hinv1 & Hspec & Hh & Hc).
  exists w1. split_and!; [|done| |done|done].
  - change (run handle ((Release p (SandboxName a) ;; mret tt) ≫=
      λ _, RunGC_loop p cutoff ls) w = run handle (RunGC_loop p cutoff ls) w1).
    by rewrite !run_bind, Hrun.
  - inversion Hspec as [| | | | | | | | | | | |]; simplify_eq.
    all: simpl; rewrite (proj2 (expired_true cutoff a)) by naive_solver.
    + left. apply lookup_delete_eq.
    + right. apply lookup_insert_eq.
Qed.

(** The GC loop visits distinct cached objects; each release leaves the
    others as they were. *)
Lemma RunGC_loop_meets cutoff ls w : pool_inv p w → NoDup ls →
  (∀ l, l ∈ ls → ∃ a, w_heap w !! l = Some a ∧ Get (w_cache w) (SandboxName a) = Some l) →
  meets (RunGC_loop p cutoff ls) w (λ _ w', ∀ n,
    if visited ls (Get (w_cache w) n)
    then gc_entry cutoff (pool_view w !! n) (pool_view w' !! n)
    else pool_view w' !! n = pool_view w !! n).
Proof.
  revert w. induction ls as [|l ls IH]; intros w Hinv Hnd Hin.
  { eexists _, _. split_and!; [done..|]. intros n. by destruct (Get (w_cache w) n). }
  apply NoDup_cons in Hnd as [Hnl Hnd].
  destruct (Hin l) as (a & Ha & Hl); [set_solver|].
  pose proof (pw_cache _ (pi_wf _ _ Hinv)) as wf.
  destruct (RunGC_visit cutoff l ls a w) as (w1 & Hrun & Hinv1 & Hgc & Hget & Hheap); try done.
  (* The objects still to visit are other objects, untouched so far. *)
  assert (Hrest : ∀ l' b, l' ∈ ls → w_heap w !! l' = Some b →
      Get (w_cache w) (SandboxName b) = Some l' → SandboxName b ≠ SandboxName a).
  { intros l' b Hl' Hb Hg Heq. rewrite Heq, Hl in Hg. by simplify_eq. }
  assert (Hview : ∀ n, n ≠ SandboxName a → pool_view w1 !! n = pool_view w !! n).
  { intros n Hn. unfold pool_view. rewrite !view_lookup, Hget by done.
    destruct (Get (w_cache w) n) as [l'|] eqn:Hl'; [|done]. simpl.
    destruct (wf_name _ _ wf n l' Hl') as (b & Hb & <-).
    by rewrite (deref_Some _ _ _ Hb), (deref_Some _ _ _ (Hheap _ _ Hb Hn)). }
  destruct (IH w1 Hinv1 Hnd) as (r & w' & Hrun' & Hinv' & Hpost).
  { intros l' Hl'. destruct (Hin l') as (b & Hb & Hg); [set_solver|].
    pose proof (Hrest _ _ Hl' Hb Hg). exists b. rewrite Hget by done. eauto. }
  exists r, w'. split_and!; [by rewrite Hrun|done|]. intros n. specialize (Hpost n).
  destruct (decide (n = SandboxName a)) as [->|Hn].
  - rewrite Hl. simpl. rewrite bool_decide_true by set_solver.
    replace (visited ls (Get (w_cache w1) (SandboxName a))) with false in Hpost.
    2:{ symmetry. destruct (Get (w_cache w1) (SandboxName a)) as [l'|] eqn:Hg; [|done].
        apply bool_decide_eq_false. intros Hl'.
        destruct (Hin l') as (b & Hb & Hgb); [set_solver|].
        pose proof (Hrest _ _ Hl' Hb Hgb) as Hne.
        destruct (wf_name _ _ (pw_cache _ (pi_wf _ _ Hinv1)) _ _ Hg) as (c & Hc & Hcn).
        rewrite (Hheap _ _ Hb Hne) in Hc. by simplify_eq. }
    rewrite Hpost. replace (pool_view w !! SandboxName a) with (Some a); [done|].
    symmetry. apply view_Some; eauto.
  - rewrite (Hview n Hn), (Hget n Hn) in Hpost.
    replace (visited (l :: ls) (Get (w_cache w) n)) with (visited ls (Get (w_cache w) n));
      [done|].
    destruct (Get (w_cache w) n) as [l'|] eqn:Hg; [|done]. simpl. apply bool_decide_ext.
    rewrite elem_of_cons. split; [by right|intros [->|]; [|done]].
    exfalso. apply Hn. by eapply wf_name_inj.
Qed.

Lemma RunGC_meets t w : pool_inv p w →
  meets (RunGC p t) w (λ _ w', ∀ n,
    gc_entry (env_now (w_tick w) - t) (pool_view w !! n) (pool_view w' !! n)).
Proof.
  intros Hinv. pose proof (pw_cache _ (pi_wf _ _ Hinv)) as wf.
  set (ls := List_ (env_range (S (w_tick w))) (w_cache w)).
  set (w0 := tick (tick w)).
  assert (He : env_step w w0) by (split; simpl; try done; lia).
  destruct (RunGC_loop_meets (env_now (w_tick w) - t) ls w0) as (r & w' & Hrun & Hinv' & Hpost).
  { by eapply pool_inv_env. }
  { by eapply List_NoDup; [apply _|]. }
  { intros l Hl. by eapply List_In in Hl; [|apply _|]. }
  exists r, w'. split_and!; [done..|]. intros n. specialize (Hpost n).
  rewrite (pool_view_env w w0) in Hpost by done. simpl in Hpost.
  destruct (Get (w_cache w) n) as [l|] eqn:Hl; simpl in Hpost.
  - rewrite bool_decide_true in Hpost; [done|].
    destruct (wf_name _ _ wf n l Hl) as (a & Ha & <-).
    apply (List_In _ (w_heap w)); [apply _|done|eauto].
  - assert (pool_view w !! n = None) as Hnone.
    { unfold pool_view. by rewrite view_lookup, Hl. }
    rewrite Hnone in Hpost |- *. done.
Qed.

Lemma replenish_loop_meets k w : pool_inv p w →
  meets (replenish_loop p k) w (λ _ w',
    rtc (λ m1 m2, ∃ r, warm_spec (maxSize p) m1 r m2) (pool_view w) (pool_view w')).
Proof.
  revert w. induction k as [|k IH]; intros w Hinv.
  { by eexists _, _. }
  unfold meets. cbn [replenish_loop]. rewrite run_bind.
  destruct (AllocateWarm_meets w Hinv) as (r & w1 & -> & Hinv1 & Hspec & _).
  destruct r as [l|e].
  - destruct (IH w1 Hinv1) as (r & w' & Hrun & Hinv' & Hstar).
    exists r, w'. split_and!; [done..|]. eapply rtc_l; eauto.
  - exists tt, w1. split_and!; [done..|]. apply rtc_once. eauto.
Qed.

Lemma replenishWarm_meets k w : pool_inv p w →
  meets (replenishWarm p k) w (λ _ w',
    pool_spec (maxSize p) (OpReplenish k) (pool_view w) RetUnit (pool_view w')).
Proof.
  intros Hinv. unfold meets, replenishWarm. rewrite run_act_bind. simpl.
  set (w0 := tick w).
  assert (He : env_step w w0) by (split; simpl; try done; lia).
  destruct (replenish_loop_meets (Z.to_nat (k - Z.of_nat (length (ListByStatus
    (env_range (w_tick w)) (w_heap w) (w_cache w) StatusIdle)))) w0) as (r & w' & Hrun & Hi & Hs).
  { by eapply pool_inv_env. }
  exists r, w'. split_and!; [done..|]. by apply SpecReplenish.
Qed.

(** Every call returns, keeps the invariant, and does what the abstract
    pool allows. *)
Lemma run_op_meets op w : pool_inv p w →
  ∃ r w', run_op p op w = Some (r, w') ∧ pool_inv p w' ∧
    pool_spec (maxSize p) op (pool_view w) r (pool_view w').
Proof.
  intros Hinv. destruct op as [u|n|s|t| |k|]; unfold run_op.
  - destruct (Allocate_meets u w Hinv) as (r & w' & -> & ? & ?); simpl; eauto 10.
  - destruct (Release_meets n w Hinv) as (r & w' & -> & ? & ? & _); simpl; eauto.
  - destruct (Heartbeat_meets s w Hinv) as (r & w' & -> & ? & ?); simpl; eauto.
  - destruct (RunGC_meets t w Hinv) as (r & w' & -> & ? & ?); simpl.
    eexists _, _. split_and!; [done..|]. by eapply SpecRunGC.
  - destruct (AllocateWarm_meets w Hinv) as (r & w' & -> & ? & ? & _); simpl.
    eexists _, _. split_and!; [done..|]. by apply SpecWarm.
  - destruct (replenishWarm_meets k w Hinv) as (r & w' & -> & ? & ?); simpl; eauto.
  - destruct (Stats_meets w Hinv) as (r & w' & -> & ? & -> & ->); simpl.
    eexists _, _. split_and!; [done..|]. apply SpecStats.
Qed.

Lemma run_ops_inv ops w : pool_inv p w →
  ∃ rs w', run_ops p ops w = Some (rs, w') ∧ pool_inv p w'.
Proof.
  revert w. induction ops as [|op ops IH]; intros w Hinv; simpl; [eauto|].
  destruct (run_op_meets op w Hinv) as (r & w1 & -> & Hinv1 & _). simpl.
  destruct (IH w1 Hinv1) as (rs & w' & -> & Hinv'). simpl. eauto.
Qed.

Lemma pool_inv_init pr : 0 ≤ maxSize p → pool_inv p (init_world pr).
Proof. intros Hp. split; [apply pool_wf_init|done|]. exact Hp. Qed.

End refinement.
