(* ===== verification/PoolConc.v ===== *)
(** * The pool manager under concurrent callers

    Several goroutines run methods of one [PoolManager]; the actions of
    [PoolManager.poolE] interleave arbitrarily ([Effects.cstep]).  The
    analysis types every point of a method with a permission [perm]: what
    the goroutine holds (the mutex, a claimed sandbox, a permission to
    insert one entry).  [typed] checks a program against permissions, every
    method is typed, and [conc_inv] ties the permissions of all goroutines
    to the shared state. *)

From S2P Require Import Prelude Effects Cache Provider PoolManager PoolInv PoolSpec.

(** ** Definitions *)

(** A client goroutine: it runs one call, and for [Allocate] it ends with
    the allocation it was handed. *)
Definition client (p : PoolManager) (op : pool_op) : prog poolE (option loc) :=
  match op with
  | OpAllocate u =>
      r ← Allocate p u; mret (match r with Ok l => Some l | Err _ => None end)
  | OpRelease n => Release p n;; mret None
  | OpHeartbeat s => Heartbeat s;; mret None
  | OpRunGC t => RunGC p t;; mret None
  | OpAllocateWarm => AllocateWarm p;; mret None
  | OpReplenish k => replenishWarm p k;; mret None
  | OpStats => Stats p;; mret None
  end.

(** The calls that may add entries to the cache. *)
Definition allocating (op : pool_op) : bool :=
  match op with
  | OpAllocate _ | OpAllocateWarm | OpReplenish _ => true
  | _ => false
  end.

(** What a goroutine holds at a point of its program. *)
Inductive perm :=
| PFree (o : option loc)      (** no mutex; [o] has been handed to it *)
| PLocked                     (** holds [p.mu] *)
| PClaim (l : loc)            (** holds [p.mu], picked the idle [l] *)
| PClaimed (l : loc)          (** holds [p.mu], [l] is active, not re-indexed *)
| PClaimedSet (l : loc)       (** holds [p.mu], [l] is re-indexed *)
| PLockedTicket               (** holds [p.mu], passed the size check *)
| PTicket                     (** passed the size check, may insert one entry *)
| PTicketNew (l : loc) (b : bool). (** as before, about to insert [l]; [b]: for a user *)

#[export] Instance perm_eq_dec : EqDecision perm.
Proof. solve_decision. Defined.

(** What is left once the mutex is given back. *)
Definition unlocked (pm : perm) : option perm :=
  match pm with
  | PLocked => Some (PFree None)
  | PLockedTicket => Some PTicket
  | PClaimedSet l => Some (PFree (Some l))
  | _ => None
  end.

(** A failed creation gives the permission to insert back. *)
Definition dropped (pm : perm) : perm :=
  match pm with PTicket => PFree None | _ => pm end.

(** The writes that give an allocation to a user. *)
Definition assigns (f : field_write) : bool :=
  match f with SetUserID _ | SetSessionID _ => true | _ => false end.

(** [allowed max al e K pm]: the action [e] may be taken with permission
    [pm], and [K] holds of its result and of the permission after it. *)
Definition allowed (max : Z) (al : bool) {X} (e : poolE X)
    (K : X → perm → Prop) (pm : perm) : Prop :=
  match e in poolE X return (X → perm → Prop) → Prop with
  | ELock => λ K, pm = PFree None ∧ K tt PLocked
  | EUnlock => λ K, ∃ pm', unlocked pm = Some pm' ∧ K tt pm'
  | ECacheSet l => λ K,
      match pm with
      | PClaimed l' => l = l' ∧ K tt (PClaimedSet l)
      | PTicketNew l' b => l = l' ∧ K tt (PFree (if b then Some l else None))
      | _ => False
      end
  | ECacheListByStatus st => λ K,
      (∀ x, K x pm) ∨
      (st = StatusIdle ∧ pm = PLocked ∧ al = true ∧ K [] PLocked ∧
       ∀ l ls, K (l :: ls) (PClaim l))
  | ECacheLen => λ K,
      (∀ n, K n pm) ∨
      (pm = PLocked ∧ al = true ∧ (∀ n, n < max → K n PLockedTicket) ∧
       (∀ n, max ≤ n → K n PLocked))
  | EWrite l f => λ K,
      (f ≠ SetStatus StatusIdle ∧ (assigns f = true → pm = PClaimed l) ∧ K tt pm) ∨
      (f = SetStatus StatusActive ∧ pm = PClaim l ∧ K tt (PClaimed l))
  | ENew a => λ K,
      pm = PTicket ∧ ∀ l, K l (PTicketNew l (bool_decide (Status a ≠ StatusIdle)))
  | ECreate => λ K,
      (∀ r, K (Ok r) pm) ∧ (∀ e, K (Err e) (dropped pm))
  | _ => λ K, ∀ x, K x pm
  end K.

(** [typed max al t pm]: from a point with permission [pm] the program [t]
    respects the locking discipline; [al] says whether it may insert. *)
Fixpoint typed (max : Z) (al : bool) (t : prog poolE (option loc)) (pm : perm) : Prop :=
  match t with
  | Ret r => ∃ o, pm = PFree o ∧ (∀ l, r = Some l → o = Some l)
  | Vis e k => allowed max al e (λ x, typed max al (k x)) pm
  end.

(** ** What a permission stands for *)

Definition holds (pm : perm) : nat :=
  match pm with
  | PLocked | PClaim _ | PClaimed _ | PClaimedSet _ | PLockedTicket => 1
  | _ => 0
  end.

(** The allocation reserved for the goroutine's user. *)
Definition owned (pm : perm) : option loc :=
  match pm with
  | PFree o => o
  | PClaim l | PClaimed l | PClaimedSet l => Some l
  | PTicketNew l b => if b then Some l else None
  | _ => None
  end.

Definition mentions (pm : perm) : option loc :=
  match pm with PTicketNew l _ => Some l | _ => owned pm end.

(** Entries the goroutine may still add to the cache. *)
Definition credit (h : heap) (c : AllocationCache) (pm : perm) : nat :=
  match pm with
  | PLockedTicket | PTicket | PTicketNew _ _ => 1
  | PClaim l | PClaimed l =>
      if decide (is_Some (byName c !! SandboxName (deref h l))) then 0 else 1
  | _ => 0
  end.

(** Goroutines that never allocate never hold more than the mutex. *)
Definition perm_allowed (al : bool) (pm : perm) : Prop :=
  al = true ∨ pm = PFree None ∨ pm = PLocked.

Definition total {A} (f : A → nat) (l : list A) : nat := sum_list_with f l.

Definition is_claim (pm : perm) : bool :=
  match pm with PClaim _ => true | _ => false end.

(** The number of goroutines that may insert. *)
Definition allocators (pms : list (bool * perm)) : nat :=
  total (λ x, Nat.b2n x.1) pms.

Definition credits {P} (w : world P) (pms : list (bool * perm)) : nat :=
  total (λ x, credit (w_heap w) (w_cache w) x.2) pms.

(** The shared state agrees with the permissions of all goroutines. *)
Record conc_ok {P} (p : PoolManager) (pms : list (bool * perm)) (w : world P) : Prop := {
  co_name n l : byName (w_cache w) !! n = Some l →
    (l < w_next w)%positive ∧ SandboxName (deref (w_heap w) l) = n;
  co_bound i al pm l : pms !! i = Some (al, pm) → mentions pm = Some l →
    (l < w_next w)%positive;
  co_mu : total (λ x, holds x.2) pms = Nat.b2n (w_mu w);
  co_distinct i j al al' pm pm' l : i ≠ j →
    pms !! i = Some (al, pm) → pms !! j = Some (al', pm') →
    mentions pm = Some l → mentions pm' ≠ Some l;
  co_active i al pm l : pms !! i = Some (al, pm) → owned pm = Some l →
    is_claim pm = false → Status (deref (w_heap w) l) ≠ StatusIdle;
  co_fresh i al l b n : pms !! i = Some (al, PTicketNew l b) →
    byName (w_cache w) !! n ≠ Some l;
  co_allowed i al pm : pms !! i = Some (al, pm) → perm_allowed al pm;
  co_credit : Len (w_cache w) + Z.of_nat (credits w pms)
    ≤ maxSize p + Z.of_nat (pred (allocators pms));
}.

(** A configuration of goroutines, [n] of them allocating, each typed with
    its permission. *)
Definition conc_inv {P} (p : PoolManager) (n : nat)
    (c : world P * list (prog poolE (option loc))) : Prop :=
  ∃ pms, conc_ok p pms c.1 ∧ allocators pms = n ∧
    Forall2 (λ t x, typed (maxSize p) x.1 t x.2) c.2 pms.

Definition allocating_calls (ops : list pool_op) : nat :=
  total (λ op, Nat.b2n (allocating op)) ops.

(** ** Lemmas *)

Lemma total_insert {A} (f : A → nat) l i x y :
  l !! i = Some x → (total f (<[i := y]> l) + f x = total f l + f y)%nat.
Proof.
  unfold total. revert i. induction l as [|z l IH]; intros [|i] Hi; simplify_eq/=; [lia|].
  specialize (IH i Hi). lia.
Qed.

Lemma total_le {A} (f g : A → nat) l :
  (∀ x, x ∈ l → f x ≤ g x)%nat → (total f l ≤ total g l)%nat.
Proof.
  unfold total. induction l as [|x l IH]; simpl; intros Hle; [lia|].
  specialize (Hle x) as Hx. assert (f x ≤ g x)%nat by (apply Hle; set_solver).
  assert (sum_list_with f l ≤ sum_list_with g l)%nat; [|lia].
  apply IH. intros; apply Hle; set_solver.
Qed.

Lemma total_lookup {A} (f : A → nat) l i x :
  l !! i = Some x → (f x ≤ total f l)%nat.
Proof.
  unfold total. revert i. induction l as [|y l IH]; intros [|i] Hi; simplify_eq/=; [lia|].
  specialize (IH i Hi). lia.
Qed.

(** Two positions of a list account for two summands. *)
Lemma total_lookup2 {A} (f : A → nat) l i j x y : i ≠ j →
  l !! i = Some x → l !! j = Some y → (f x + f y ≤ total f l)%nat.
Proof.
  unfold total. revert i j. induction l as [|z l IH]; intros [|i] [|j] Hne Hi Hj;
    simplify_eq/=; try lia.
  - pose proof (total_lookup f l j y Hj). unfold total in *. lia.
  - pose proof (total_lookup f l i x Hi). unfold total in *. lia.
  - assert (i ≠ j) as Hij by congruence. specialize (IH i j Hij Hi Hj). lia.
Qed.

Ltac unfold_prog :=
  try unfold mbind; try unfold mret; try unfold prog_mbind; try unfold prog_mret;
  try unfold act.

(** Types a program by following its actions; the checks that hand out a
    permission come before the neutral reading of the same actions. *)
Ltac typed_steps := repeat (unfold_prog; simpl; first
  [ done
  | match goal with
    | Hal : ?al = true |- (Z → _) ∨ (PLocked = PLocked ∧ _) =>
        right; split_and!; [done|done|intros ??..]
    | Hal : ?al = true |- (list loc → _) ∨ (_ ∧ PLocked = PLocked ∧ _) =>
        right; split_and!; [done..| |intros ??]
    | |- (_ → _) ∨ _ => left; intros ?
    | |- _ ∨ (SetStatus StatusActive = _ ∧ PClaim _ = PClaim _ ∧ _) =>
        right; split_and!; [done..|]
    | |- (_ ≠ SetStatus _ ∧ _) ∨ _ => left; split; [done|split; [done|]]
    | |- ∃ pm', Some _ = Some pm' ∧ _ => eexists; split; [done|]
    | |- (string * string → _) ∧ (error → _) => split; [intros [??]|intros ?]
    | |- PTicket = PTicket ∧ _ => split; [done|]; intros ?;
        rewrite ?bool_decide_true by done; rewrite ?bool_decide_false by auto
    | |- _ = _ ∧ _ => split; [done|]
    | |- _ → _ => intros ?
    end
  | case_bool_decide; try lia
  | case_match ]).

(** ** Every method is typed *)

Section methods.
Context (p : PoolManager) (al : bool).

Lemma Release_typed n (k : option error → prog poolE (option loc)) :
  (∀ r, typed (maxSize p) al (k r) (PFree None)) →
  typed (maxSize p) al (Release p n ≫= k) (PFree None).
Proof. intros Hk. unfold Release. typed_steps. Qed.

Lemma Heartbeat_typed s (k : option error → prog poolE (option loc)) :
  (∀ r, typed (maxSize p) al (k r) (PFree None)) →
  typed (maxSize p) al (Heartbeat s ≫= k) (PFree None).
Proof. intros Hk. unfold Heartbeat. typed_steps. Qed.

Lemma RunGC_loop_typed cutoff ls (k : unit → prog poolE (option loc)) :
  (∀ r, typed (maxSize p) al (k r) (PFree None)) →
  typed (maxSize p) al (RunGC_loop p cutoff ls ≫= k) (PFree None).
Proof.
  intros Hk. induction ls as [|l ls IH]; [apply Hk|].
  cbn [RunGC_loop]. typed_steps.
Qed.

Lemma AllocateWarm_typed (k : result loc → prog poolE (option loc)) : al = true →
  (∀ r, typed (maxSize p) al (k r) (PFree None)) →
  typed (maxSize p) al (AllocateWarm p ≫= k) (PFree None).
Proof.
  intros Hal Hk. unfold AllocateWarm. typed_steps.
Qed.

Lemma Allocate_typed u (k : result loc → prog poolE (option loc)) : al = true →
  (∀ l, typed (maxSize p) al (k (Ok l)) (PFree (Some l))) →
  (∀ e, typed (maxSize p) al (k (Err e)) (PFree None)) →
  typed (maxSize p) al (Allocate p u ≫= k) (PFree None).
Proof. intros Hal Hok Herr. unfold Allocate. typed_steps. Qed.

Lemma replenish_loop_typed d (k : unit → prog poolE (option loc)) : al = true →
  (∀ r, typed (maxSize p) al (k r) (PFree None)) →
  typed (maxSize p) al (replenish_loop p d ≫= k) (PFree None).
Proof.
  intros Hal Hk. induction d as [|d IH]; [apply Hk|].
  cbn [replenish_loop]. unfold AllocateWarm. typed_steps.
Qed.

End methods.

Lemma client_typed p op :
  typed (maxSize p) (allocating op) (client p op) (PFree None).
Proof.
  assert (Hret : ∀ al (o : option loc), typed (maxSize p) al (mret o) (PFree o)).
  { intros al o. by exists o. }
  destruct op; simpl allocating; unfold client.
  - apply Allocate_typed; intros; simpl; [done|eauto|eauto].
  - apply Release_typed; intros; apply (Hret _ None).
  - apply Heartbeat_typed; intros; apply (Hret _ None).
  - simpl. intros now ls.
    apply RunGC_loop_typed. intros; apply (Hret _ None).
  - apply AllocateWarm_typed; [done|]. intros; apply (Hret _ None).
  - simpl. left. intros ls.
    apply replenish_loop_typed; [done|]. intros; apply (Hret _ None).
  - simpl. left. intros n. by exists None.
Qed.

(** ** Preservation *)

Section step.
Context {P : Type} `{!SandboxProvider P} `{!Runtime, !RuntimeLaws}.
Implicit Types (w : world P) (pms : list (bool * perm)).

Lemma owned_mentions pm l : owned pm = Some l → mentions pm = Some l.
Proof. destruct pm as [| | | | | | |? []]; simpl; congruence. Qed.

Lemma allocators_insert pms i al pm pm' : pms !! i = Some (al, pm) →
  allocators (<[i := (al, pm')]> pms) = allocators pms.
Proof.
  intros Hi. pose proof (total_insert (λ x, Nat.b2n x.1) pms i _ (al, pm') Hi).
  unfold allocators. simpl in *. lia.
Qed.

Lemma credits_le w w' pms k :
  (∀ i al pm, pms !! i = Some (al, pm) →
     credit (w_heap w') (w_cache w') pm ≤ credit (w_heap w) (w_cache w) pm
       + k * holds pm)%nat →
  (credits w' pms ≤ credits w pms + k * total (λ x, holds x.2) pms)%nat.
Proof.
  unfold credits, total. induction pms as [|[al pm] pms IH]; simpl; intros Hle; [lia|].
  pose proof (Hle 0%nat al pm eq_refl). 
  assert (Htl := IH (λ i, Hle (S i))). simpl in *. lia.
Qed.

(** One goroutine changes its permission while the state changes. *)
Lemma co_update p pms w w' i al pm pm' :
  conc_ok p pms w → pms !! i = Some (al, pm) →
  (w_next w ≤ w_next w')%positive →
  (∀ n l, byName (w_cache w') !! n = Some l →
     (l < w_next w')%positive ∧ SandboxName (deref (w_heap w') l) = n) →
  (∀ n l, byName (w_cache w') !! n = Some l →
     byName (w_cache w) !! n = Some l ∨ mentions pm = Some l) →
  (∀ l, (l < w_next w)%positive → Status (deref (w_heap w) l) ≠ StatusIdle →
     Status (deref (w_heap w') l) ≠ StatusIdle) →
  (∀ l, mentions pm' = Some l → (l < w_next w')%positive ∧
     ∀ j al' pmj, i ≠ j → pms !! j = Some (al', pmj) → mentions pmj ≠ Some l) →
  (∀ l, owned pm' = Some l → is_claim pm' = false →
     Status (deref (w_heap w') l) ≠ StatusIdle) →
  (∀ l b n, pm' = PTicketNew l b → byName (w_cache w') !! n ≠ Some l) →
  perm_allowed al pm' →
  (Nat.b2n (w_mu w') + holds pm = Nat.b2n (w_mu w) + holds pm')%nat →
  Len (w_cache w') + Z.of_nat (credits w' (<[i := (al, pm')]> pms))
    ≤ maxSize p + Z.of_nat (pred (allocators pms)) →
  conc_ok p (<[i := (al, pm')]> pms) w'.
Proof.
  intros [] Hi Hnext Hname Hold Hst Hment Hown Hfr Hal Hmu Hcr.
  split; try done.
  - intros j alj pmj l [(<- & [= <- <-] & _)|[Hne Hj]]%list_lookup_insert_Some Hm.
    + by apply Hment.
    + specialize (co_bound0 _ _ _ _ Hj Hm). lia.
  - pose proof (total_insert (λ x, holds x.2) pms i _ (al, pm') Hi). simpl in *. lia.
  - intros j k alj alk pmj pmk l Hjk
      [(<- & [= <- <-] & _)|[Hne Hj]]%list_lookup_insert_Some
      [(<- & [= <- <-] & _)|[Hne' Hk]]%list_lookup_insert_Some Hm; try done.
    + destruct (Hment _ Hm) as [_ Hd]. by eapply Hd.
    + intros Hm'. destruct (Hment _ Hm') as [_ Hd]. by eapply Hd.
    + exact (co_distinct0 j k _ _ _ _ l Hjk Hj Hk Hm).
  - intros j alj pmj l [(<- & [= <- <-] & _)|[Hne Hj]]%list_lookup_insert_Some Ho Hc.
    + by apply Hown.
    + apply Hst; [|by eapply co_active0].
      eapply co_bound0; [done|]. by apply owned_mentions.
  - intros j alj l b n [(<- & [= <- ->] & _)|[Hne Hj]]%list_lookup_insert_Some.
    + by eapply Hfr.
    + intros [Hb|Hm]%Hold; [by eapply co_fresh0|].
      by apply (co_distinct0 i j _ _ _ _ l Hne Hi Hj Hm).
  - intros j alj pmj [(<- & [= <- <-] & _)|[Hne Hj]]%list_lookup_insert_Some; [done|].
    by eapply co_allowed0.
  - by erewrite allocators_insert.
Qed.

(** The permissions stay while names and non-idle statuses stay. *)
Lemma co_world p pms w w' : conc_ok p pms w →
  w_next w' = w_next w → w_cache w' = w_cache w → w_mu w' = w_mu w →
  (∀ l, SandboxName (deref (w_heap w') l) = SandboxName (deref (w_heap w) l)) →
  (∀ l, Status (deref (w_heap w) l) ≠ StatusIdle →
        Status (deref (w_heap w') l) ≠ StatusIdle) →
  conc_ok p pms w'.
Proof.
  intros [] Hn Hc Hmu Hnm Hst. split; rewrite ?Hn, ?Hc, ?Hmu; try done.
  - intros n l Hl. rewrite Hnm. by apply co_name0.
  - eauto.
  - pose proof (credits_le w w' pms 0) as Hle. rewrite Nat.mul_0_l, Nat.add_0_r in Hle.
    assert (credits w' pms ≤ credits w pms)%nat; [|lia].
    apply Hle. intros i al pm _. unfold credit. rewrite Hc.
    destruct pm; rewrite ?Hnm; lia.
Qed.

(** Only the permission and the mutex change. *)
Lemma co_drop p pms w i al pm pm' b : conc_ok p pms w → pms !! i = Some (al, pm) →
  (∀ l, mentions pm' = Some l → mentions pm = Some l) →
  (∀ l, owned pm' = Some l → is_claim pm' = false →
     Status (deref (w_heap w) l) ≠ StatusIdle) →
  (∀ l c, pm' ≠ PTicketNew l c) → perm_allowed al pm' →
  (Nat.b2n b + holds pm = Nat.b2n (w_mu w) + holds pm')%nat →
  Len (w_cache w) + Z.of_nat (credits w (<[i := (al, pm')]> pms))
    ≤ maxSize p + Z.of_nat (pred (allocators pms)) →
  conc_ok p (<[i := (al, pm')]> pms) (set_mu b w).
Proof.
  intros Hok Hi Hm Ho Hnew Hal Hmu Hcr.
  apply (co_update p pms w _ i al pm); simpl; try done.
  - by apply (co_name _ _ _ Hok).
  - by left.
  - intros l Hl. apply Hm in Hl. split; [by eapply co_bound|].
    intros j alj pmj Hij Hj. by apply (co_distinct _ _ _ Hok i j al alj pm pmj).
  - intros l c n ->. by destruct (Hnew l c).
Qed.

(** A permission whose credit does not grow. *)
Lemma co_credit_drop p pms w i al pm pm' : conc_ok p pms w → pms !! i = Some (al, pm) →
  (credit (w_heap w) (w_cache w) pm' ≤ credit (w_heap w) (w_cache w) pm)%nat →
  Len (w_cache w) + Z.of_nat (credits w (<[i := (al, pm')]> pms))
    ≤ maxSize p + Z.of_nat (pred (allocators pms)).
Proof.
  intros Hok Hi Hle. pose proof (co_credit _ _ _ Hok).
  pose proof (total_insert (λ x, credit (w_heap w) (w_cache w) x.2) pms i _ (al, pm') Hi).
  unfold credits in *. simpl in *. lia.
Qed.

(** The size check just passed: every other goroutine accounts for at most
    one entry. *)
Lemma co_ticket p pms w i pm : conc_ok p pms w → pms !! i = Some (true, pm) →
  Len (w_cache w) < maxSize p →
  Len (w_cache w) + Z.of_nat (credits w (<[i := (true, PLockedTicket)]> pms))
    ≤ maxSize p + Z.of_nat (pred (allocators pms)).
Proof.
  intros Hok Hi Hlen.
  assert (credits w (<[i := (true, PLockedTicket)]> pms) ≤ allocators pms)%nat as Hle.
  { rewrite <- (allocators_insert pms i true pm PLockedTicket Hi).
    apply total_le. intros [al q] [j Hj]%list_elem_of_lookup.
    apply list_lookup_insert_Some in Hj as [(_ & [= <- <-] & _)|[_ Hj]]; simpl; [done|].
    destruct (co_allowed _ _ _ Hok j al q Hj) as [->|[->| ->]]; simpl; [|lia..].
    destruct q; simpl; try case_decide; lia. }
  assert (1 ≤ allocators pms)%nat; [|lia].
  apply (total_lookup (λ x, Nat.b2n x.1) pms i (true, pm) Hi).
Qed.

Lemma co_delete p pms w n : conc_ok p pms w →
  conc_ok p pms (set_cache (Delete (w_heap w) (w_cache w) n) w).
Proof.
  intros Hok. destruct (byName (w_cache w) !! n) as [l0|] eqn:Hn; cycle 1.
  { unfold Delete. rewrite Hn. eapply co_world; done. }
  set (w' := set_cache _ w).
  assert (Hby : byName (w_cache w') = delete n (byName (w_cache w))).
  { simpl. unfold Delete. by rewrite Hn. }
  assert (Hlen : Len (w_cache w') + 1 = Len (w_cache w)).
  { unfold Len. rewrite Hby, map_size_delete, Hn. simpl.
    assert (size (byName (w_cache w)) ≠ 0)%nat; [|lia].
    intros Hz%map_size_empty_inv. by rewrite Hz in Hn. }
  assert (Hcr : (credits w' pms ≤ credits w pms + 1 * Nat.b2n (w_mu w))%nat).
  { rewrite <- (co_mu _ _ _ Hok). apply credits_le. intros i al pm _.
    unfold credit. rewrite Hby.
    destruct pm; simpl; repeat case_decide; try lia. }
  destruct Hok. split; rewrite ?Hby; simpl; try done.
  - intros n' l [_ Hl]%lookup_delete_Some. by apply co_name0.
  - intros i al l b n' Hi [_ Hl]%lookup_delete_Some. by eapply co_fresh0.
  - change (Delete (w_heap w) (w_cache w) n) with (w_cache w').
    destruct (w_mu w); simpl in *; lia.
Qed.

Lemma Len_set_in h c l : is_Some (byName c !! SandboxName (deref h l)) →
  Len (Set_ h c l) = Len c.
Proof.
  intros [l' Hl']. unfold Len, Set_. case_bool_decide; simpl;
    by rewrite map_size_insert_Some by eauto.
Qed.

Lemma Set_byName h c l : byName (Set_ h c l) = <[SandboxName (deref h l) := l]> (byName c).
Proof. unfold Set_. by case_bool_decide. Qed.

(** [Set] uses up the permission to insert. *)
Lemma co_set p pms w i al pm pm' l : conc_ok p pms w → pms !! i = Some (al, pm) →
  mentions pm = Some l →
  (is_Some (byName (w_cache w) !! SandboxName (deref (w_heap w) l)) ∨
   credit (w_heap w) (w_cache w) pm = 1%nat) →
  (∀ h c, credit h c pm' = 0%nat) → holds pm' = holds pm →
  (∀ l', mentions pm' = Some l' → l' = l) →
  (∀ l', owned pm' = Some l' → owned pm = Some l' ∧ is_claim pm = false) →
  perm_allowed al pm' →
  conc_ok p (<[i := (al, pm')]> pms) (set_cache (Set_ (w_heap w) (w_cache w) l) w).
Proof.
  intros Hok Hi Hm Hin Hz Hh Hm' Ho Hal. pose proof (co_bound _ _ _ Hok _ _ _ _ Hi Hm) as Hlt.
  set (w' := set_cache _ w).
  assert (Hby : byName (w_cache w') = <[SandboxName (deref (w_heap w) l) := l]>
    (byName (w_cache w))) by apply Set_byName.
  apply (co_update p pms w w' i al pm); try done; rewrite ?Hby.
  - intros n l' [[<- <-]|[_ Hl]]%lookup_insert_Some; [done|].
    by apply (co_name _ _ _ Hok).
  - intros n l' [[<- <-]|[_ Hl]]%lookup_insert_Some; auto.
  - intros l' ->%Hm'. split; [done|]. intros j alj pmj Hij Hj.
    by apply (co_distinct _ _ _ Hok i j al alj pm pmj).
  - intros l' [Ho' Hc]%Ho _. by eapply (co_active _ _ _ Hok).
  - intros l' b n ->. by specialize (Hz ∅ NewAllocationCache).
  - simpl. lia.
  - assert (credits w' (<[i := (al, pm')]> pms) ≤ credits w (<[i := (al, pm')]> pms))%nat
      as Hcr.
    { pose proof (credits_le w w' (<[i := (al, pm')]> pms) 0) as Hle.
      rewrite Nat.mul_0_l, Nat.add_0_r in Hle. apply Hle. intros j alj q _.
      unfold credit. rewrite Hby. destruct q; simpl; repeat case_decide; try lia;
        rewrite lookup_insert in *; case_decide; naive_solver. }
    pose proof (total_insert (λ x, credit (w_heap w) (w_cache w) x.2) pms i _ (al, pm') Hi)
      as Htot.
    pose proof (co_credit _ _ _ Hok). unfold credits in *. simpl in Htot. rewrite Hz in Htot.
    destruct Hin as [Hin|Hin].
    + simpl. rewrite Len_set_in by done. simpl in *. lia.
    + pose proof (Len_set (w_heap w) (w_cache w) l). simpl in *. lia.
Qed.

Lemma co_new p pms w i al a : conc_ok p pms w → pms !! i = Some (al, PTicket) →
  conc_ok p (<[i := (al, PTicketNew (w_next w) (bool_decide (Status a ≠ StatusIdle)))]> pms)
    (new_object a w).
Proof.
  intros Hok Hi.
  assert (Hold : ∀ l, (l < w_next w)%positive →
    deref (w_heap (new_object a w)) l = deref (w_heap w) l).
  { intros l Hl. unfold deref. simpl. rewrite lookup_insert_ne; [done|]. intros <-. lia. }
  assert (Hno : ∀ j alj pmj, pms !! j = Some (alj, pmj) → mentions pmj ≠ Some (w_next w)).
  { intros j alj pmj Hj Hm. pose proof (co_bound _ _ _ Hok _ _ _ _ Hj Hm). lia. }
  apply (co_update p pms w _ i al PTicket); try done.
  - simpl. lia.
  - intros n l Hl. destruct (co_name _ _ _ Hok n l Hl). rewrite Hold by done.
    simpl. split; [lia|done].
  - by left.
  - intros l Hl. by rewrite Hold.
  - intros l [= <-]. simpl. split; [lia|]. eauto.
  - simpl. intros l Hl _. case_bool_decide; simplify_eq.
    unfold deref. by rewrite lookup_insert_eq.
  - intros l b n [= <- _] Hl. destruct (co_name _ _ _ Hok n _ Hl). lia.
  - by destruct (co_allowed _ _ _ Hok _ _ _ Hi) as [->|[?|?]]; [left|..].
  - set (pm' := PTicketNew _ _). set (pms' := <[i := (al, pm')]> pms).
    assert (credits (new_object a w) pms' ≤ credits w pms')%nat as Hle.
    { pose proof (credits_le w (new_object a w) pms' 0) as Hle.
      rewrite Nat.mul_0_l, Nat.add_0_r in Hle. apply Hle.
      intros j alj q [(_ & [= <- <-] & _)|[_ Hj]]%list_lookup_insert_Some; [done|].
      pose proof (co_bound _ _ _ Hok j alj q) as Hb.
      destruct q; try done; unfold credit; rewrite Hold; first [by apply Hb | simpl; lia]. }
    assert (Len (w_cache w) + Z.of_nat (credits w pms')
      ≤ maxSize p + Z.of_nat (pred (allocators pms))); [|simpl in *; lia].
    by eapply co_credit_drop.
Qed.

(** The idle allocation the goroutine picked is nobody else's. *)
Lemma co_pick p pms w i al l : conc_ok p pms w → pms !! i = Some (al, PLocked) →
  al = true → Status (deref (w_heap w) l) = StatusIdle →
  (∃ n, byName (w_cache w) !! n = Some l) →
  conc_ok p (<[i := (al, PClaim l)]> pms) w.
Proof.
  intros Hok Hi Hal Hst (n & Hn). destruct (co_name _ _ _ Hok n l Hn) as [Hlt Hnm].
  apply (co_update p pms w w i al PLocked); try done.
  - by apply (co_name _ _ _ Hok).
  - by left.
  - intros l' [= <-]. split; [done|]. intros j alj q Hij Hj Hm.
    destruct (is_claim q) eqn:Hc.
    + destruct q; try done.
      pose proof (total_lookup2 (λ x, holds x.2) pms i j _ _ Hij Hi Hj) as Hle.
      rewrite (co_mu _ _ _ Hok) in Hle. simpl in Hle. destruct (w_mu w); simpl in *; lia.
    + assert (owned q = Some l) as Ho.
      { destruct q as [| | | | | | |l' b']; try done. injection Hm as ->.
        by destruct (co_fresh _ _ _ Hok _ _ _ _ _ Hj Hn). }
      by apply (co_active _ _ _ Hok j alj q l Hj Ho Hc).
  - by left.
  - apply (co_credit_drop p pms w i al PLocked); try done. simpl.
    rewrite decide_True; [done|]. rewrite Hnm. eauto.
Qed.

Lemma ListByStatus_pick (order : range_order) h c st l ls : RangeOk order →
  ListByStatus order h c st = l :: ls →
  Status (deref h l) = st ∧ ∃ n, byName c !! n = Some l.
Proof.
  intros Hord Hl.
  assert (l ∈ ListByStatus order h c st) as Hin by (rewrite Hl; left).
  unfold ListByStatus in Hin. rewrite list_elem_of_filter, list_elem_of_fmap in Hin.
  destruct Hin as [Hst ([n l'] & -> & Hin)]. split; [done|]. exists n.
  rewrite (range_perm (byName c)) in Hin. by apply elem_of_map_to_list in Hin.
Qed.

(** A write of one field, as seen by the invariant. *)
Lemma co_write p pms w l f : conc_ok p pms w → f ≠ SetStatus StatusIdle →
  conc_ok p pms (set_heap (<[l := write_field f (deref (w_heap w) l)]> (w_heap w)) w).
Proof.
  intros Hok Hf. apply (co_world p pms w); try done; simpl; intros l'; unfold deref;
    (destruct (decide (l = l')) as [<-|]; [rewrite lookup_insert_eq|by rewrite lookup_insert_ne]);
    simpl.
  - apply write_field_name.
  - intros Hst. destruct f; simpl; congruence.
Qed.

Lemma set_mu_id w : set_mu (w_mu w) w = w.
Proof. by destruct w. Qed.

(** Re-typing a goroutine without a step. *)
Lemma co_stay p pms w i x : conc_ok p pms w → pms !! i = Some x →
  conc_ok p (<[i := x]> pms) w.
Proof. intros Hok Hi. by rewrite list_insert_id. Qed.

(** The invariant after a step of goroutine [i]. *)
Definition step_goal p pms i al {X} (K : X → perm → Prop) (x : X) w' : Prop :=
  ∃ pm', K x pm' ∧ conc_ok p (<[i := (al, pm')]> pms) w'.

Section one.
Context p pms w i al pm (Hok : conc_ok p pms w) (Hi : pms !! i = Some (al, pm)).

Lemma step_unlock (K : unit → perm → Prop) :
  allowed (maxSize p) al EUnlock K pm → step_goal p pms i al K tt (set_mu false w).
Proof.
  intros (pm' & Hu & HK). exists pm'. split; [done|].
  assert (Hmu : w_mu w = true).
  { pose proof (total_lookup (λ x, holds x.2) pms i _ Hi) as Hle.
    rewrite (co_mu _ _ _ Hok) in Hle. destruct (w_mu w); [done|].
    destruct pm; simpl in Hu, Hle; simplify_eq; lia. }
  pose proof (co_allowed _ _ _ Hok _ _ _ Hi) as Hal.
  pose proof (co_active _ _ _ Hok i al pm) as Hact.
  destruct pm as [| | | |l| | |]; try done; injection Hu as <-;
    (eapply co_drop; [done..| | | | | |by eapply co_credit_drop]);
    try done; try (by rewrite Hmu).
  - by right; left.
  - simpl. intros l' [= <-] _. by apply Hact.
  - by destruct Hal as [->|[?|?]]; [left|..].
  - by destruct Hal as [->|[?|?]]; [left|..].
Qed.

Lemma step_set (K : unit → perm → Prop) l :
  allowed (maxSize p) al (ECacheSet l) K pm →
  step_goal p pms i al K tt (set_cache (Set_ (w_heap w) (w_cache w) l) w).
Proof.
  intros Hall. pose proof (co_allowed _ _ _ Hok _ _ _ Hi) as Hal.
  destruct pm as [| | |l'| | | |l' b]; try done; destruct Hall as [-> HK];
    (assert (al = true) as -> by (by destruct Hal as [?|[?|?]]));
    eexists; (split; [exact HK|]).
  - eapply co_set; try done; try (by left); try (by intros ? [= <-]).
    simpl. case_decide; [by left|by right].
  - eapply co_set; try done; try (by left); try (by right); intros ?; simpl;
      destruct b; simpl; naive_solver.
Qed.

Lemma step_list (K : list loc → perm → Prop) st :
  allowed (maxSize p) al (ECacheListByStatus st) K pm →
  step_goal p pms i al K (ListByStatus (env_range (w_tick w)) (w_heap w) (w_cache w) st)
    (tick w).
Proof.
  intros [HK|(-> & Hpm & Hal & Hnil & Hcons)].
  { exists pm. split; [done|]. rewrite list_insert_id by done. by eapply co_world. }
  subst pm. destruct (ListByStatus _ _ _ _) as [|l ls] eqn:Hl.
  { exists PLocked. split; [done|]. rewrite list_insert_id by done. by eapply co_world. }
  apply ListByStatus_pick in Hl as [Hst Hn]; [|apply _].
  exists (PClaim l). split; [done|]. eapply co_world; [by apply (co_pick p pms w)|done..].
Qed.

Lemma step_len (K : Z → perm → Prop) :
  allowed (maxSize p) al ECacheLen K pm → step_goal p pms i al K (Len (w_cache w)) w.
Proof.
  intros [HK|(Hpm & Hal & Hlt & Hge)].
  { exists pm. split; [done|]. by apply co_stay. }
  subst pm. destruct (decide (Len (w_cache w) < maxSize p)) as [Hl|Hl]; cycle 1.
  { exists PLocked. split; [apply Hge; lia|]. by apply co_stay. }
  exists PLockedTicket. split; [by apply Hlt|]. rewrite <- (set_mu_id w).
  eapply co_drop; try done; [by left|]. rewrite Hal in Hi |- *. by eapply co_ticket.
Qed.

Lemma step_write (K : unit → perm → Prop) l f :
  allowed (maxSize p) al (EWrite l f) K pm →
  step_goal p pms i al K tt
    (set_heap (<[l := write_field f (deref (w_heap w) l)]> (w_heap w)) w).
Proof.
  intros [(Hf & _ & HK)|(-> & Hpm & HK)].
  { exists pm. split; [done|]. rewrite list_insert_id by done. by apply co_write. }
  subst pm. exists (PClaimed l). split; [done|].
  match goal with |- conc_ok _ _ ?w' => set (w1 := w') end.
  assert (Hok' : conc_ok p pms w1) by by apply co_write.
  rewrite <- (set_mu_id w1). eapply co_drop; try done.
  - simpl. intros l' [= <-] _. unfold deref. by rewrite lookup_insert_eq.
  - by destruct (co_allowed _ _ _ Hok _ _ _ Hi) as [->|[?|?]]; [left|..].
  - by eapply co_credit_drop.
Qed.

Lemma co_dropped : conc_ok p (<[i := (al, dropped pm)]> pms) w.
Proof.
  destruct (decide (pm = PTicket)) as [->|Hne]; cycle 1.
  { replace (dropped pm) with pm by by destruct pm. by apply co_stay. }
  rewrite <- (set_mu_id w). eapply co_drop; try done; simpl; [by right; left|].
  eapply co_credit_drop; [done..|]. simpl. lia.
Qed.

Lemma step_lock_free (K : unit → perm → Prop) :
  allowed (maxSize p) al ELock K pm → w_mu w = false →
  step_goal p pms i al K tt (set_mu true w).
Proof.
  intros [Hpm HK] Hmu. subst pm. exists PLocked. split; [done|].
  eapply co_drop; try done; [by right; right|by rewrite Hmu|by eapply co_credit_drop].
Qed.

End one.

(** Every action a goroutine may take preserves the invariant. *)
Lemma conc_ok_step p pms w i al pm X (e : poolE X) (K : X → perm → Prop) x w' :
  conc_ok p pms w → pms !! i = Some (al, pm) →
  allowed (maxSize p) al e K pm → handle X e w = Some (x, w') →
  step_goal p pms i al K x w'.
Proof.
  intros Hok Hi Hall Hh. pose proof (co_stay p pms w i _ Hok Hi) as Hstay.
  destruct e; simpl in Hh; simplify_eq;
    try (exists pm; split; [by apply Hall|by first [done|eapply co_world]]).
  - destruct (w_mu w) eqn:Hmu; simplify_eq. by eapply step_lock_free.
  - by eapply step_unlock.
  - by eapply step_set.
  - exists pm. split; [by apply Hall|by apply co_delete].
  - by eapply step_list.
  - by eapply step_len.
  - by eapply step_write.
  - destruct Hall as [Hpm HK]. subst pm. eexists. split; [apply HK|by eapply co_new].
  - destruct (CreateSandbox (w_prov w)) as [[r|e] pr]; simplify_eq; destruct Hall as [Hok' Herr].
    + exists pm. split; [done|by eapply co_world].
    + exists (dropped pm). split; [done|]. eapply co_world; [by eapply co_dropped|done..].
  - destruct (DeleteSandbox _ _) as [r pr]; simplify_eq.
    exists pm. split; [by apply Hall|by eapply co_world].
Qed.

(** ** Configurations *)

Lemma conc_inv_step p n c1 c2 : conc_inv p n c1 → cstep handle c1 c2 → conc_inv p n c2.
Proof.
  intros (pms & Hok & Hn & Hty) Hstep.
  inversion Hstep as [w ts i X e k x w' Hi Hh]; subst; simpl in *.
  destruct (Forall2_lookup_l _ _ _ _ _ Hty Hi) as ([al pm] & Hpm & Ht). simpl in Ht.
  destruct (conc_ok_step _ _ _ _ _ _ _ _ _ _ _ Hok Hpm Ht Hh) as (pm' & HK & Hok').
  exists (<[i := (al, pm')]> pms). split_and!; [done|by erewrite allocators_insert|].
  by apply Forall2_insert.
Qed.

Lemma conc_inv_reach p n c1 c2 : conc_inv p n c1 → rtc (cstep handle) c1 c2 → conc_inv p n c2.
Proof.
  intros H1 Hr. eapply (rtc_invariant (cstep handle) (conc_inv p n)); [|done..].
  intros ??. apply conc_inv_step.
Qed.

Lemma total_fmap {A B} (f : B → nat) (g : A → B) l : total f (g <$> l) = total (f ∘ g) l.
Proof. unfold total. induction l; simpl; auto. Qed.

Lemma total_zero {A} (f : A → nat) l : (∀ x, x ∈ l → f x = 0%nat) → total f l = 0%nat.
Proof.
  intros Hf. assert (total f l ≤ total (λ _, 0) l)%nat as Hle.
  { apply total_le. intros x Hx. by rewrite Hf. }
  assert (total (λ _ : A, 0%nat) l = 0%nat); [|lia]. by clear; induction l.
Qed.

(** Goroutines that have not started. *)
Lemma conc_ok_init `{!SandboxProviderLaws P} p w (als : list bool) : pool_inv p w →
  conc_ok p ((λ al, (al, PFree None)) <$> als) w.
Proof.
  intros [Hwf Hmu Hlen].
  assert (Hpm : ∀ i al pm, ((λ al, (al, PFree None)) <$> als) !! i = Some (al, pm) →
    pm = PFree None).
  { intros i al pm. rewrite list_lookup_fmap. destruct (als !! i); naive_solver. }
  split; simpl.
  - intros n l Hl. destruct (wf_name _ _ (pw_cache _ Hwf) _ _ Hl) as (a & Ha & Hn).
    split; [by eapply pw_next|]. by rewrite (deref_Some _ _ _ Ha).
  - by intros i al pm l ->%Hpm.
  - rewrite Hmu, total_fmap. by apply total_zero.
  - by intros i j al al' pm pm' l _ ->%Hpm.
  - by intros i al pm l ->%Hpm.
  - by intros i al l b n Heq%Hpm.
  - intros i al pm ->%Hpm. by right; left.
  - unfold credits. rewrite total_fmap, total_zero by done. lia.
Qed.

Lemma conc_inv_init `{!SandboxProviderLaws P} p w ops : pool_inv p w →
  conc_inv p (allocating_calls ops) (w, client p <$> ops).
Proof.
  intros Hinv. exists ((λ al, (al, PFree None)) <$> (allocating <$> ops)). split_and!.
  - by apply conc_ok_init.
  - unfold allocators. by rewrite !total_fmap.
  - rewrite <- list_fmap_compose.
    apply Forall2_fmap_l, Forall2_fmap_r, Forall_Forall2_diag, Forall_forall.
    intros op _. apply client_typed.
Qed.

(** ** Consequences *)

Lemma conc_inv_len p n w ts : conc_inv p n (w, ts) →
  Len (w_cache w) ≤ maxSize p + Z.of_nat (pred n).
Proof. intros (pms & Hok & <- & _). pose proof (co_credit _ _ _ Hok). simpl in *. lia. Qed.

Lemma conc_inv_result p n w ts i l : conc_inv p n (w, ts) →
  ts !! i = Some (Ret (Some l)) → Status (deref (w_heap w) l) ≠ StatusIdle.
Proof.
  intros (pms & Hok & _ & Hty) Hi.
  destruct (Forall2_lookup_l _ _ _ _ _ Hty Hi) as ([al pm] & Hpm & o & Ho & Hl). simpl in *.
  subst pm. apply (co_active _ _ _ Hok i _ _ l Hpm); simpl; auto.
Qed.

Lemma conc_inv_distinct p n w ts i j l : conc_inv p n (w, ts) → i ≠ j →
  ts !! i = Some (Ret (Some l)) → ts !! j ≠ Some (Ret (Some l)).
Proof.
  intros (pms & Hok & _ & Hty) Hij Hi Hj.
  destruct (Forall2_lookup_l _ _ _ _ _ Hty Hi) as ([al pm] & Hpm & o & Ho & Hl).
  destruct (Forall2_lookup_l _ _ _ _ _ Hty Hj) as ([al' pm'] & Hpm' & o' & Ho' & Hl').
  simpl in *. subst pm pm'.
  apply (co_distinct _ _ _ Hok i j _ _ _ _ l Hij Hpm Hpm'); simpl; auto.
Qed.

Lemma handle_free X (e : poolE X) w : w_mu w = false → ∃ x w', handle X e w = Some (x, w').
Proof. intros Hmu. destruct e; simpl; rewrite ?Hmu; try case_match; eauto. Qed.

Lemma handle_holding max al X (e : poolE X) K pm w : allowed max al e K pm →
  holds pm = 1%nat → ∃ x w', handle X e w = Some (x, w').
Proof.
  intros Hall Hh. destruct e; simpl; try case_match; eauto.
  destruct Hall as [-> _]. done.
Qed.

(** A locked mutex is held by a goroutine. *)
Lemma conc_ok_holder p pms w : conc_ok p pms w → w_mu w = true →
  ∃ i al pm, pms !! i = Some (al, pm) ∧ holds pm = 1%nat.
Proof.
  intros Hok Hmu. destruct (decide (Exists (λ x, holds x.2 = 1%nat) pms)) as [He|He].
  - apply Exists_exists in He as ([al pm] & [i Hi]%list_elem_of_lookup & ?). eauto.
  - rewrite <- Forall_Exists_neg, Forall_forall in He.
    pose proof (co_mu _ _ _ Hok) as Ht. rewrite Hmu, total_zero in Ht; [done|].
    intros [al pm] Hx. specialize (He _ Hx). simpl in *. by destruct pm.
Qed.

(** Unless every call has returned, some goroutine can move. *)
Lemma conc_inv_progress p n w ts : conc_inv p n (w, ts) →
  Forall (λ t, ∃ r, t = Ret r) ts ∨ ∃ c, cstep handle (w, ts) c.
Proof.
  intros (pms & Hok & _ & Hty). simpl in *. destruct (w_mu w) eqn:Hmu.
  - right. destruct (conc_ok_holder _ _ _ Hok Hmu) as (i & al & pm & Hi & Hh).
    destruct (Forall2_lookup_r _ _ _ _ _ Hty Hi) as (t & Ht & Hty').
    simpl in Hty'. destruct t as [r|X e k]; [destruct Hty' as (o & Ho & _); by subst pm|].
    destruct (handle_holding _ _ _ _ _ _ w Hty' Hh) as (x & w' & Hx).
    eexists. by econstructor.
  - apply cstep_unblocked. intros. by apply handle_free.
Qed.

End step.
