(* ===== verification/Demo.v ===== *)
(** * Concrete instances for the witnesses

    A runtime whose clock counts the reads, a provider whose deletions
    fail, and pools and worlds over the mock provider. *)

From stdpp Require Import pretty.
From S2P Require Import Prelude Effects Cache Provider PoolManager PoolInv PoolSpec.

(** ** Concrete instances *)

(** A clock that counts reads, numbered identifiers, and the order in
    which the finite map lists its entries. *)
Definition demo_runtime : Runtime := {|
  env_now := Z.of_nat;
  env_uuid k := "session-" +:+ pretty k;
  env_range _ := map_to_list;
|}.

#[export] Instance demo_runtime_laws : @RuntimeLaws demo_runtime.
Proof.
  split; simpl.
  - intros k1 k2 Heq. apply (inj pretty). by apply (inj (String.app "session-")) in Heq.
  - done.
  - apply _.
Qed.

(** The mock provider with a [DeleteSandbox] that always fails. *)
Record StuckProvider := mkStuck { stuck_mock : MockSandboxProvider }.

#[export] Instance stuck_provider : SandboxProvider StuckProvider := {|
  CreateSandbox s := let '(r, m) := mock_CreateSandbox (stuck_mock s) in (r, mkStuck m);
  DeleteSandbox _ s := (Some (ErrNew "forbidden"), s);
|}.

#[export] Program Instance stuck_provider_laws : SandboxProviderLaws StuckProvider :=
  {| live s := mock_issued (stuck_mock s) |}.
Next Obligation.
  intros [m] name fqdn p' H. pose proof (create_fresh m name fqdn) as Hf.
  simpl in *. simplify_eq/=. by apply (Hf (mkMock (targetFQDN m) (S (counter m)))).
Qed.
Next Obligation. done. Qed.
Next Obligation. intros s name r p' [= <- <-]. set_solver. Qed.
Next Obligation. by intros s name e p' [= <- <-]. Qed.

(** ** Worlds *)

#[local] Existing Instance demo_runtime.

(** A pool of two slots over the mock provider. *)
Definition demo_pool : PoolManager := mkPoolManager 2 "opencode" true.

(** A pool of one slot. *)
Definition tiny_pool : PoolManager := mkPoolManager 1 "opencode" false.

Definition demo_start : world MockSandboxProvider :=
  init_world (NewMockSandboxProvider "sandbox:4096").

Definition world_after {P} `{SandboxProvider P} (p : PoolManager) (ops : list pool_op)
    (w : world P) : world P :=
  match run_ops p ops w with Some (_, w') => w' | None => w end.

(** One warm sandbox, and one allocated to a user. *)
Definition demo_warm : world MockSandboxProvider :=
  world_after demo_pool [OpAllocateWarm] demo_start.
Definition demo_active : world MockSandboxProvider :=
  world_after demo_pool [OpAllocateWarm; OpAllocate "alice"] demo_start.

Definition stuck_active : world StuckProvider :=
  world_after demo_pool [OpAllocate "alice"]
    (init_world (mkStuck (NewMockSandboxProvider "sandbox:4096"))).

Lemma world_after_inv {P} `{SandboxProviderLaws P} p ops (w : world P) :
  pool_inv p w → pool_inv p (world_after p ops w).
Proof.
  intros Hinv. unfold world_after.
  destruct (run_ops_inv p ops w Hinv) as (rs & w' & -> & Hinv'). done.
Qed.

Lemma demo_start_inv : pool_inv demo_pool demo_start.
Proof. by apply pool_inv_init. Qed.

Lemma tiny_start_inv : pool_inv tiny_pool demo_start.
Proof. by apply pool_inv_init. Qed.

Lemma demo_warm_inv : pool_inv demo_pool demo_warm.
Proof. apply world_after_inv, demo_start_inv. Qed.

Lemma demo_active_inv : pool_inv demo_pool demo_active.
Proof. apply world_after_inv, demo_start_inv. Qed.

Lemma stuck_active_inv : pool_inv demo_pool stuck_active.
Proof. apply world_after_inv. by apply pool_inv_init. Qed.

Example demo_active_len : Len (w_cache demo_active) = 1.
Proof. vm_compute. reflexivity. Qed.

(** The allocation in [demo_active]. *)
Definition demo_first : Allocation := deref (w_heap demo_active) 1%positive.
