(* ===== verification/PoolThms.v ===== *)
(** * The pool manager: main theorems

    The theorems about [internal/pool], with their instances on the
    concrete worlds of [Demo]. *)

From S2P Require Import Prelude Effects Cache Provider PoolManager PoolInv PoolSpec PoolConc Demo.

(** ** Lemmas *)

Section lemmas.
Context {P : Type} `{SandboxProviderLaws P} `{RuntimeLaws}.
Context (p : PoolManager).
Implicit Types (w : world P) (m : pool_map).

Lemma run_ops_cons op ops r rs w w1 w2 : run_op p op w = Some (r, w1) →
  run_ops p ops w1 = Some (rs, w2) → run_ops p (op :: ops) w = Some (r :: rs, w2).
Proof. intros Hop Hops. simpl. rewrite Hop. simpl. by rewrite Hops. Qed.

(** An entry being released stays until it is released by name. *)
Lemma spec_releasing max op m r m' n a : pool_spec max op m r m' →
  op ≠ OpRelease n → m !! n = Some a → Status a = StatusReleasing →
  ∃ a', m' !! n = Some a' ∧ Status a' = StatusReleasing.
Proof.
  intros Hspec Hop Ha Hst.
  assert (Hother : ∀ k b, k ≠ n → ∃ a', <[k := b]> m !! n = Some a' ∧
    Status a' = StatusReleasing).
  { intros k b Hk. exists a. by rewrite lookup_insert_ne. }
  assert (Hwarm : ∀ m1 r1 m2 b, warm_spec max m1 r1 m2 → m1 !! n = Some b →
    m2 !! n = Some b).
  { intros m1 r1 m2 b [| |] Hb; try done. rewrite lookup_insert_ne; [done|congruence]. }
  destruct Hspec as [| | | | | | |? s k b now Hb| |? ? cutoff ? Hgc|? ? ? Hw|? ? ? Hrtc|];
    eauto; try (apply Hother; congruence).
  - exists a. rewrite lookup_delete_ne; [done|congruence].
  - destruct (decide (k = n)) as [->|]; [|by apply Hother]. simplify_eq.
    eexists. by rewrite lookup_insert_eq.
  - exists a. specialize (Hgc n). rewrite Ha in Hgc. simpl in Hgc.
    unfold expired in Hgc. rewrite Hst in Hgc. by rewrite Hgc.
  - exists a. split; [|done]. clear Hother. induction Hrtc as [|? ? ? [? ?]]; eauto.
Qed.

(** An entry in use stays in use, in its session and at its address, until
    it is released by name or collected. *)
Lemma spec_active max op m r m' n a : pool_spec max op m r m' →
  match op with OpRelease k => k ≠ n | OpRunGC _ => False | _ => True end →
  m !! n = Some a → Status a = StatusActive →
  ∃ a', m' !! n = Some a' ∧ Status a' = StatusActive ∧ SessionID a' = SessionID a ∧
    ServiceFQDN a' = ServiceFQDN a.
Proof.
  intros Hspec Hop Ha Hst.
  assert (Hwarm : ∀ m1 r1 m2 b, warm_spec max m1 r1 m2 → m1 !! n = Some b → m2 !! n = Some b).
  { intros m1 r1 m2 b [| |] Hb; try done. rewrite lookup_insert_ne; [done|congruence]. }
  assert (Hsame : m' !! n = Some a → ∃ a', m' !! n = Some a' ∧ Status a' = StatusActive ∧
    SessionID a' = SessionID a ∧ ServiceFQDN a' = ServiceFQDN a) by eauto.
  destruct Hspec as [| | | | | | |? s k b now Hb| | |? ? ? Hw|? ? ? Hrtc|]; try done;
    try (apply Hsame; rewrite ?lookup_insert_ne, ?lookup_delete_ne; [done|congruence..]).
  - destruct (decide (k = n)) as [->|]; [|apply Hsame; by rewrite lookup_insert_ne].
    simplify_eq. eexists. by rewrite lookup_insert_eq.
  - eauto.
  - apply Hsame. clear Hsame Hop. induction Hrtc as [|? ? ? [? ?]]; eauto.
Qed.

Lemma run_ops_releasing n ops w a : pool_inv p w →
  OpRelease n ∉ ops → pool_view w !! n = Some a → Status a = StatusReleasing →
  ∃ rs w' a', run_ops p ops w = Some (rs, w') ∧ pool_inv p w' ∧
    pool_view w' !! n = Some a' ∧ Status a' = StatusReleasing.
Proof.
  revert w a. induction ops as [|op ops IH]; intros w a Hinv Hnin Ha Hst; simpl.
  { by exists [], w, a. }
  apply not_elem_of_cons in Hnin as [Hop Hnin].
  destruct (run_op_meets p op w Hinv) as (r & w1 & -> & Hinv1 & Hspec). simpl.
  destruct (spec_releasing _ _ _ _ _ n a Hspec (not_eq_sym Hop) Ha Hst) as (a1 & Ha1 & Hst1).
  destruct (IH w1 a1 Hinv1 Hnin Ha1 Hst1) as (rs & w' & a' & -> & ? & ? & ?). simpl.
  by eexists _, _, a'.
Qed.

(** [Allocate] with an idle sandbox at hand. *)
Lemma Allocate_idle u w : pool_inv p w → ¬ no_idle (pool_view w) →
  ∃ l w' n a, run handle (Allocate p u) w = Some (Ok l, w') ∧
    w_prov w' = w_prov w ∧
    pool_view w !! n = Some a ∧ Status a = StatusIdle ∧
    Get (w_cache w') n = Some l ∧ dom (pool_view w') = dom (pool_view w) ∧
    let a' := deref (w_heap w') l in
    SandboxName a' = n ∧ ServiceFQDN a' = ServiceFQDN a ∧ UserID a' = u ∧
    Status a' = StatusActive ∧ SessionID a' ≠ "" ∧
    GetBySession (w_cache w') (SessionID a') = Some l.
Proof.
  intros Hinv Hidle. pose proof (pi_wf _ _ Hinv) as Hwf. pose proof (pw_cache _ Hwf) as wf.
  rewrite <- no_idle_list in Hidle by done.
  destruct (ListByStatus _ _ _ _) as [|l ls] eqn:Hl; [done|]. clear Hidle.
  assert (Hin : l ∈ ListByStatus (env_range (w_tick w)) (w_heap w) (w_cache w) StatusIdle)
    by (rewrite Hl; left).
  rewrite ListByStatus_In in Hin by (done || apply _).
  destruct Hin as (a & Ha & Hget & Hst).
  pose proof (run_claimIdle_some w u l ls a (pi_mu _ _ Hinv) Ha Hl) as Hrun. cbv zeta in Hrun.
  set (h := <[l := _]> (w_heap w)) in Hrun.
  assert (Hd : deref h l = claimed u (env_uuid (S (w_tick w))) (env_now (S (S (w_tick w)))) a)
    by (apply deref_Some, lookup_insert_eq).
  eexists l, _, (SandboxName a), a. unfold Allocate. rewrite run_bind, Hrun.
  split_and!; simpl; try done.
  - unfold pool_view. rewrite view_Some by done. eauto.
  - unfold Set_. rewrite Hd. simpl.
    case_bool_decide; unfold Get; simpl; by rewrite lookup_insert_eq.
  - unfold pool_view, view, Set_. simpl. rewrite !dom_fmap_L, Hd. simpl.
    unfold Get in Hget. case_bool_decide; simpl; by rewrite insert_id.
  - simpl. by rewrite Hd.
  - simpl. by rewrite Hd.
  - simpl. by rewrite Hd.
  - simpl. by rewrite Hd.
  - simpl. rewrite Hd. apply env_uuid_nonempty.
  - unfold GetBySession, Set_. simpl. rewrite Hd. simpl.
    rewrite bool_decide_false by apply env_uuid_nonempty. simpl. by rewrite lookup_insert_eq.
Qed.

(** A heartbeat in closed form. *)
Lemma run_Heartbeat s n a w : pool_inv p w → pool_view w !! n = Some a →
  SessionID a = s → s ≠ "" →
  ∃ w', run handle (Heartbeat s) w = Some (None, w') ∧ pool_inv p w' ∧
    w_tick w' = S (w_tick w) ∧
    pool_view w' !! n = Some (write_field (SetLastActivity (env_now (w_tick w))) a).
Proof.
  intros Hinv Ha Hs Hne. pose proof (pi_wf _ _ Hinv) as Hwf. pose proof (pw_cache _ Hwf) as wf.
  destruct (Heartbeat_meets p s w Hinv) as (r & w' & Hrun & Hinv' & _).
  unfold pool_view in Ha. rewrite view_Some in Ha by done. destruct Ha as (l & Hl & Ha).
  assert (Hidx : GetBySession (w_cache w) s = Some l).
  { subst s. by eapply (wf_indexed _ _ wf n). }
  exists w'. pose proof Hrun as Hrun'. simpl in Hrun. rewrite Hidx in Hrun. simpl in Hrun.
  rewrite (pi_mu _ _ Hinv) in Hrun. simplify_eq/=. split_and!; try done.
  unfold pool_view. simpl. rewrite view_lookup, Hl. simpl. f_equal.
  rewrite (deref_Some _ _ _ Ha). by apply deref_Some, lookup_insert_eq.
Qed.

Lemma Heartbeat_RunGC s t n a w : pool_inv p w → pool_view w !! n = Some a →
  SessionID a = s → s ≠ "" → env_now (S (w_tick w)) - t ≤ env_now (w_tick w) →
  ∃ rs w' a', run_ops p [OpHeartbeat s; OpRunGC t] w = Some (rs, w') ∧
    pool_view w' !! n = Some a' ∧ SessionID a' = s ∧ Status a' = Status a ∧
    LastActivity a' = env_now (w_tick w).
Proof.
  intros Hinv Ha Hs Hne Hle.
  destruct (run_Heartbeat s n a w Hinv Ha Hs Hne) as (w1 & Hrun & Hinv1 & Ht & Ha1).
  destruct (RunGC_meets p t w1 Hinv1) as ([] & w2 & Hrun2 & _ & Hgc).
  specialize (Hgc n). rewrite Ha1, Ht in Hgc. unfold gc_entry in Hgc.
  destruct (expired _ _) eqn:He.
  { apply expired_true in He as (_ & _ & Hlt). simpl in Hlt. lia. }
  eexists _, w2, _. split_and!; [|exact Hgc|done..].
  eapply run_ops_cons; [unfold run_op; by rewrite Hrun|].
  eapply run_ops_cons; [unfold run_op; by rewrite Hrun2|done].
Qed.

End lemmas.

(** ** Properties *)

Section properties.
Context {P : Type} `{SandboxProviderLaws P} `{RuntimeLaws}.

(** C1: every method of the manager, called on its own in any state that
    satisfies the invariant, terminates (no lock is left held and none
    blocks), re-establishes the invariant, and does what the abstract pool
    [pool_spec] allows: this covers every branch of [Allocate], [Release],
    [Heartbeat], [RunGC], [AllocateWarm], [replenishWarm] and [Stats],
    whatever the clock, identifiers, map order and provider answers. *)
Theorem pool_refines_spec (p : PoolManager) (op : pool_op) (w : world P) :
  pool_inv p w →
  ∃ r w', run_op p op w = Some (r, w') ∧ pool_inv p w' ∧
    pool_spec (maxSize p) op (pool_view w) r (pool_view w').
Proof. apply run_op_meets. Qed.

(** C2: from a new manager, every sequence of calls runs to its end; then
    the mutex is free, the two indexes of the cache agree with each other
    and with the objects, at most [maxSize] allocations are cached, and the
    cached names are names the provider has handed out. *)
Theorem pool_history_safe (p : PoolManager) (pr : P) (ops : list pool_op) :
  0 ≤ maxSize p →
  ∃ rs w, run_ops p ops (init_world pr) = Some (rs, w) ∧
    length rs = length ops ∧ w_mu w = false ∧ cache_wf (w_heap w) (w_cache w) ∧
    Len (w_cache w) ≤ maxSize p ∧ dom (byName (w_cache w)) ⊆ live (w_prov w).
Proof.
  intros Hp. destruct (run_ops_inv p ops (init_world pr)) as (rs & w & Hrun & Hinv);
    [by apply pool_inv_init|].
  exists rs, w. destruct Hinv as [Hwf ? ?]. split_and!; try done; [|apply Hwf..].
  clear -Hrun. revert rs w Hrun. generalize (init_world pr).
  induction ops as [|op ops IH]; intros w0 rs w Hrun; simplify_eq/=; [done|].
  destruct (run_op p op w0) as [[r w1]|]; simplify_eq/=.
  destruct (run_ops p ops w1) as [[rs1 w2]|] eqn:Hr; simplify_eq/=.
  f_equal. by eapply IH.
Qed.

(** C3: when the pool holds an idle sandbox, [Allocate] hands out one of
    them without calling the provider: no sandbox is created, the cache
    keeps its names, and the returned allocation is active, belongs to the
    user, keeps the sandbox's address and is found by its new session. *)
Theorem allocate_reuses_idle (p : PoolManager) (u : string) (w : world P) :
  pool_inv p w → ¬ no_idle (pool_view w) →
  ∃ l w' n a, run handle (Allocate p u) w = Some (Ok l, w') ∧
    w_prov w' = w_prov w ∧
    pool_view w !! n = Some a ∧ Status a = StatusIdle ∧
    Get (w_cache w') n = Some l ∧ dom (pool_view w') = dom (pool_view w) ∧
    let a' := deref (w_heap w') l in
    SandboxName a' = n ∧ ServiceFQDN a' = ServiceFQDN a ∧ UserID a' = u ∧
    Status a' = StatusActive ∧ SessionID a' ≠ "" ∧
    GetBySession (w_cache w') (SessionID a') = Some l.
Proof.
  intros Hinv Hidle. apply Allocate_idle; done.
Qed.

(** C4: one garbage collection handles every cached allocation: at the
    cutoff [now - idleTimeout], an active allocation whose last activity is
    older is released (or left in [StatusReleasing] when the provider
    fails), and every other entry is untouched. *)
Theorem gc_exact (p : PoolManager) (idleTimeout : Z) (w : world P) :
  pool_inv p w →
  ∃ w', run handle (RunGC p idleTimeout) w = Some (tt, w') ∧ pool_inv p w' ∧
    ∀ n, gc_entry (env_now (w_tick w) - idleTimeout) (pool_view w !! n) (pool_view w' !! n).
Proof.
  intros Hinv. destruct (RunGC_meets p idleTimeout w Hinv) as ([] & w' & ? & ? & ?). eauto.
Qed.

(** C5: an allocation whose [DeleteSandbox] failed is stuck: [Release]
    leaves it in [StatusReleasing], and after any further calls other than
    a [Release] of that name (garbage collections included, however old the
    entry) it still occupies a slot of the pool. *)
Theorem failed_release_leaks (p : PoolManager) (n : string) (a : Allocation) (e : error)
    (ops : list pool_op) (w : world P) :
  pool_inv p w → pool_view w !! n = Some a →
  (DeleteSandbox n (w_prov w)).1 = Some e → OpRelease n ∉ ops →
  ∃ rs w' a', run_ops p (OpRelease n :: ops) w = Some (RetErr (Some e) :: rs, w') ∧
    pool_view w' !! n = Some a' ∧ Status a' = StatusReleasing.
Proof.
  intros Hinv Ha He Hnin.
  destruct (run_op_meets p (OpRelease n) w Hinv) as (r & w1 & Hrun & Hinv1 & Hspec).
  assert (r = RetErr (Some e)) as ->.
  { pose proof Ha as Ha'. unfold pool_view in Ha'.
    rewrite view_Some in Ha' by apply (pw_cache _ (pi_wf _ _ Hinv)).
    destruct Ha' as (l & Hl & _). simpl in Hrun. rewrite Hl in Hrun. simpl in Hrun.
    destruct (DeleteSandbox n (w_prov w)) as [[e'|] pr]; simplify_eq/=; congruence. }
  inversion Hspec as [| | | | | |m n' b e' Hb| | | | | |]; subst. rewrite Ha in Hb.
  injection Hb as <-.
  destruct (run_ops_releasing p n ops w1 (releasing a) Hinv1 Hnin) as
    (rs & w' & a' & Hops & _ & Ha' & Hst); [|done|].
  { match goal with Hv : _ = pool_view w1 |- _ => rewrite <- Hv end.
    by rewrite lookup_insert_eq. }
  exists rs, w', a'. split_and!; [by eapply run_ops_cons|done..].
Qed.

(** C6: under every interleaving of the atomic steps of any number of
    concurrent calls, the cache exceeds [maxSize] by at most the number of
    concurrent allocating calls minus one: with a single allocator the cap
    is exact, whatever releases, heartbeats and collections run beside it. *)
Theorem concurrent_size_bound (p : PoolManager) (ops : list pool_op) (w w' : world P)
    (ts : list (prog poolE (option loc))) :
  pool_inv p w → rtc (cstep handle) (w, client p <$> ops) (w', ts) →
  Len (w_cache w') ≤ maxSize p + Z.of_nat (pred (allocating_calls ops)).
Proof.
  intros Hinv Hr. eapply conc_inv_len, conc_inv_reach; [|done]. by apply conc_inv_init.
Qed.

(** C7: under every interleaving, two concurrent [Allocate] calls never
    return the same allocation, and an allocation that was handed out is
    not idle, so no later call can claim it. *)
Theorem concurrent_no_double_allocation (p : PoolManager) (ops : list pool_op)
    (w w' : world P) (ts : list (prog poolE (option loc))) (i j : nat) (l : loc) :
  pool_inv p w → rtc (cstep handle) (w, client p <$> ops) (w', ts) →
  ts !! i = Some (Ret (Some l)) →
  Status (deref (w_heap w') l) ≠ StatusIdle ∧
  (i ≠ j → ts !! j ≠ Some (Ret (Some l))).
Proof.
  intros Hinv Hr Hi. apply (conc_inv_init _ _ ops) in Hinv.
  eapply conc_inv_reach in Hinv; [|done].
  split; [by eapply conc_inv_result|]. intros Hij. by eapply conc_inv_distinct.
Qed.

(** C8: concurrent calls never deadlock and always finish: no run of the
    goroutines is infinite, and in every reachable configuration either
    all calls have returned or some goroutine can take its next step. *)
Theorem concurrent_calls_finish (p : PoolManager) (ops : list pool_op) (w w' : world P)
    (ts : list (prog poolE (option loc))) :
  pool_inv p w → rtc (cstep handle) (w, client p <$> ops) (w', ts) →
  Acc (flip (cstep handle)) (w', ts) ∧
  (Forall (λ t, ∃ r, t = Ret r) ts ∨ ∃ c, cstep handle (w', ts) c).
Proof.
  intros Hinv Hr. split; [apply cstep_acc|].
  eapply conc_inv_progress, conc_inv_reach; [|done]. by apply conc_inv_init.
Qed.

(** A heartbeat protects its session: a collection right after it,
    whose clock has advanced by at most the idle timeout since the
    heartbeat, keeps the session's sandbox. *)
Theorem heartbeat_protects (p : PoolManager) (s : string) (idleTimeout : Z)
    (n : string) (a : Allocation) (w : world P) :
  pool_inv p w → pool_view w !! n = Some a → SessionID a = s → s ≠ "" →
  env_now (S (w_tick w)) - idleTimeout ≤ env_now (w_tick w) →
  ∃ rs w' a', run_ops p [OpHeartbeat s; OpRunGC idleTimeout] w = Some (rs, w') ∧
    pool_view w' !! n = Some a' ∧ SessionID a' = s ∧ Status a' = Status a ∧
    LastActivity a' = env_now (w_tick w).
Proof. by apply Heartbeat_RunGC. Qed.

End properties.

(** ** The properties on concrete worlds *)

#[local] Existing Instance demo_runtime.

(** Two allocations on the one-slot pool, scheduled so that both pass the
    size check before either stores its sandbox. *)
Definition overshoot_ops : list pool_op := [OpAllocate "alice"; OpAllocate "bob"].

Definition overshoot_sched : list nat :=
  [0; 0; 0; 0; 0; 0; 1; 1; 1; 1; 1; 1]%nat ++ replicate 6 0%nat ++ replicate 6 1%nat.

Definition overshoot_end : world MockSandboxProvider * list (prog poolE (option loc)) :=
  match run_schedule handle overshoot_sched (demo_start, client tiny_pool <$> overshoot_ops) with
  | Some c => c
  | None => (demo_start, [])
  end.

Example overshoot_end_len : Len (w_cache overshoot_end.1) = 2.
Proof. vm_compute. reflexivity. Qed.

Lemma overshoot_reachable :
  rtc (cstep handle) (demo_start, client tiny_pool <$> overshoot_ops)
    (overshoot_end.1, overshoot_end.2).
Proof. rewrite <- surjective_pairing. apply (run_schedule_sound handle overshoot_sched). vm_compute. reflexivity. Qed.

(** C12: the cap on the pool size is not exact under concurrency: with
    [maxSize = 1] and an empty cache, two concurrent [Allocate] calls can
    both succeed and leave two allocations in the cache. *)
Theorem concurrent_overshoot :
  ∃ w ts, rtc (cstep handle) (demo_start, client tiny_pool <$> overshoot_ops) (w, ts) ∧
    ts = [Ret (Some 1%positive); Ret (Some 2%positive)] ∧
    Len (w_cache w) = 2 ∧ maxSize tiny_pool = 1.
Proof.
  exists overshoot_end.1, overshoot_end.2. split_and!; [|vm_compute; reflexivity..].
  exact overshoot_reachable.
Qed.

Lemma pool_refines_spec_witness :
  ∃ r w', run_op demo_pool (OpAllocate "bob") demo_warm = Some (r, w') ∧
    pool_inv demo_pool w' ∧
    pool_spec 2 (OpAllocate "bob") (pool_view demo_warm) r (pool_view w').
Proof. apply (pool_refines_spec demo_pool (OpAllocate "bob")), demo_warm_inv. Defined.

Lemma pool_history_safe_witness :
  ∃ rs w, run_ops demo_pool [OpAllocate "alice"; OpAllocate "bob"; OpAllocate "carol"; OpStats]
    demo_start = Some (rs, w) ∧
    length rs = 4%nat ∧ w_mu w = false ∧ cache_wf (w_heap w) (w_cache w) ∧
    Len (w_cache w) ≤ 2 ∧ dom (byName (w_cache w)) ⊆ live (w_prov w).
Proof.
  apply (pool_history_safe demo_pool (NewMockSandboxProvider "sandbox:4096")
    [OpAllocate "alice"; OpAllocate "bob"; OpAllocate "carol"; OpStats]). by vm_compute.
Defined.

Lemma demo_warm_idle : ¬ no_idle (pool_view demo_warm).
Proof. intros Hno. by apply (Hno "mock-sandbox-1" (deref (w_heap demo_warm) 1%positive)). Qed.

Lemma allocate_reuses_idle_witness :
  ∃ l w' n a, run handle (Allocate demo_pool "bob") demo_warm = Some (Ok l, w') ∧
    w_prov w' = w_prov demo_warm ∧
    pool_view demo_warm !! n = Some a ∧ Status a = StatusIdle ∧
    Get (w_cache w') n = Some l ∧ dom (pool_view w') = dom (pool_view demo_warm) ∧
    let a' := deref (w_heap w') l in
    SandboxName a' = n ∧ ServiceFQDN a' = ServiceFQDN a ∧ UserID a' = "bob" ∧
    Status a' = StatusActive ∧ SessionID a' ≠ "" ∧
    GetBySession (w_cache w') (SessionID a') = Some l.
Proof. apply (allocate_reuses_idle demo_pool "bob"); [apply demo_warm_inv|apply demo_warm_idle]. Defined.

Lemma gc_exact_witness :
  ∃ w', run handle (RunGC demo_pool 0) demo_active = Some (tt, w') ∧ pool_inv demo_pool w' ∧
    ∀ n, gc_entry (env_now (w_tick demo_active) - 0) (pool_view demo_active !! n)
      (pool_view w' !! n).
Proof. apply (gc_exact demo_pool 0), demo_active_inv. Defined.

Lemma failed_release_leaks_witness :
  ∃ rs w' a', run_ops demo_pool [OpRelease "mock-sandbox-1"; OpRunGC 0; OpRunGC 0] stuck_active =
      Some (RetErr (Some (ErrNew "forbidden")) :: rs, w') ∧
    pool_view w' !! "mock-sandbox-1" = Some a' ∧ Status a' = StatusReleasing.
Proof.
  apply (failed_release_leaks demo_pool "mock-sandbox-1"
    (deref (w_heap stuck_active) 1%positive) (ErrNew "forbidden") [OpRunGC 0; OpRunGC 0]).
  - apply stuck_active_inv.
  - vm_compute. reflexivity.
  - reflexivity.
  - set_solver.
Defined.

Lemma concurrent_size_bound_witness : Len (w_cache overshoot_end.1) ≤ 1 + Z.of_nat (pred 2).
Proof.
  apply (concurrent_size_bound tiny_pool overshoot_ops demo_start _ overshoot_end.2).
  - apply tiny_start_inv.
  - exact overshoot_reachable.
Defined.

Lemma concurrent_no_double_allocation_witness :
  Status (deref (w_heap overshoot_end.1) 1%positive) ≠ StatusIdle ∧
  (0%nat ≠ 1%nat → overshoot_end.2 !! 1%nat ≠ Some (Ret (Some 1%positive))).
Proof.
  apply (concurrent_no_double_allocation tiny_pool overshoot_ops demo_start _
    overshoot_end.2 0 1 1%positive).
  - apply tiny_start_inv.
  - exact overshoot_reachable.
  - vm_compute. reflexivity.
Defined.

Lemma concurrent_calls_finish_witness :
  Acc (flip (cstep handle)) (overshoot_end.1, overshoot_end.2) ∧
  (Forall (λ t, ∃ r, t = Ret r) overshoot_end.2 ∨
   ∃ c, cstep handle (overshoot_end.1, overshoot_end.2) c).
Proof.
  apply (concurrent_calls_finish tiny_pool overshoot_ops demo_start).
  - apply tiny_start_inv.
  - exact overshoot_reachable.
Defined.

Lemma heartbeat_protects_witness :
  ∃ rs w' a', run_ops demo_pool [OpHeartbeat (SessionID demo_first); OpRunGC 1] demo_active
      = Some (rs, w') ∧
    pool_view w' !! "mock-sandbox-1" = Some a' ∧ SessionID a' = SessionID demo_first ∧
    Status a' = Status demo_first ∧ LastActivity a' = env_now (w_tick demo_active).
Proof.
  apply (heartbeat_protects demo_pool (SessionID demo_first) 1 "mock-sandbox-1" demo_first).
  - apply demo_active_inv.
  - vm_compute. reflexivity.
  - reflexivity.
  - vm_compute. discriminate.
  - vm_compute. discriminate.
Defined.
