(* ===== verification/JsonScanner.v ===== *)
(** * The JSON scanner of [encoding/json]

    [internal/schema] decides what is JSON with [json.Valid] and rewrites
    it with [json.Compact].  Both run the byte-at-a-time state machine of
    the standard library, modelled here with the library's own states:
    the current step function, the stack of parse states with its depth
    limit, and the [endTop] and [err] flags.

    Main results: [Compact] succeeds exactly on valid input, its output is
    valid again, and compacting twice is compacting once. *)

From Stdlib Require Import Ascii String.
From S2P Require Import Prelude.

Abbreviation bytes := (list ascii).

(** ** The scanner *)

Definition ascii_between (lo hi c : ascii) : bool :=
  (N_of_ascii lo <=? N_of_ascii c)%N && (N_of_ascii c <=? N_of_ascii hi)%N.

Definition isDigit (c : ascii) : bool := ascii_between "0" "9" c.
Definition isDigit19 (c : ascii) : bool := ascii_between "1" "9" c.
Definition isHex (c : ascii) : bool :=
  isDigit c || ascii_between "a" "f" c || ascii_between "A" "F" c.

Definition char_quote : ascii := "034".
Definition char_backslash : ascii := "092".

Definition isSpace (c : ascii) : bool :=
  Ascii.eqb c " " || Ascii.eqb c "009" || Ascii.eqb c "013" || Ascii.eqb c "010".

(** The step functions. *)
Inductive sstate :=
| stateBeginValueOrEmpty | stateBeginValue | stateBeginStringOrEmpty
| stateBeginString | stateEndValue | stateEndTop
| stateInString | stateInStringEsc
| stateInStringEscU | stateInStringEscU1 | stateInStringEscU12 | stateInStringEscU123
| stateNeg | state1 | state0 | stateDot | stateDot0 | stateE | stateESign | stateE0
| stateT | stateTr | stateTru | stateF | stateFa | stateFal | stateFals
| stateN | stateNu | stateNul
| stateError.

Inductive pstate := parseObjectKey | parseObjectValue | parseArrayValue.

Inductive scan_code :=
| scanContinue | scanBeginLiteral | scanBeginObject | scanObjectKey
| scanObjectValue | scanEndObject | scanBeginArray | scanArrayValue
| scanEndArray | scanSkipSpace | scanEnd | scanError.

#[export] Instance sstate_eq_dec : EqDecision sstate.
Proof. solve_decision. Defined.
#[export] Instance pstate_eq_dec : EqDecision pstate.
Proof. solve_decision. Defined.
#[export] Instance scan_code_eq_dec : EqDecision scan_code.
Proof. solve_decision. Defined.

(** [parseState] holds the innermost state first. *)
Record scanner := mkScanner {
  s_step : sstate;
  s_parse : list pstate;
  s_endTop : bool;
  s_err : bool;
}.

Definition scan_reset : scanner := mkScanner stateBeginValue [] false false.

(** [maxNestingDepth]. *)
Definition maxNestingDepth : nat := Z.to_nat 10000.

Definition goto (st : sstate) (s : scanner) : scanner :=
  mkScanner st (s_parse s) (s_endTop s) (s_err s).

Definition scan_error (s : scanner) : scan_code * scanner :=
  (scanError, mkScanner stateError (s_parse s) (s_endTop s) true).

Definition pushParseState (ps : pstate) (code : scan_code) (s : scanner) :
    scan_code * scanner :=
  let s' := mkScanner (s_step s) (ps :: s_parse s) (s_endTop s) (s_err s) in
  if (length (s_parse s') <=? maxNestingDepth)%nat then (code, s') else scan_error s'.

Definition popParseState (s : scanner) : scanner :=
  match s_parse s with
  | [_] => mkScanner stateEndTop [] true (s_err s)
  | _ :: rest => mkScanner stateEndValue rest (s_endTop s) (s_err s)
  | [] => s
  end.

(** Replaces the innermost parse state. *)
Definition setParseState (ps : pstate) (st : sstate) (s : scanner) : scanner :=
  match s_parse s with
  | _ :: rest => mkScanner st (ps :: rest) (s_endTop s) (s_err s)
  | [] => s
  end.

(** [stateEndTop] reports a non-space byte on the next call. *)
Definition step_EndTop (s : scanner) (c : ascii) : scan_code * scanner :=
  if isSpace c then (scanEnd, s) else (scanEnd, (scan_error s).2).

Definition step_EndValue (s : scanner) (c : ascii) : scan_code * scanner :=
  match s_parse s with
  | [] => step_EndTop (mkScanner stateEndTop [] true (s_err s)) c
  | ps :: _ =>
      if isSpace c then (scanSkipSpace, goto stateEndValue s)
      else match ps with
      | parseObjectKey =>
          if Ascii.eqb c ":" then
            (scanObjectKey, setParseState parseObjectValue stateBeginValue s)
          else scan_error s
      | parseObjectValue =>
          if Ascii.eqb c "," then
            (scanObjectValue, setParseState parseObjectKey stateBeginString s)
          else if Ascii.eqb c "}" then (scanEndObject, popParseState s)
          else scan_error s
      | parseArrayValue =>
          if Ascii.eqb c "," then (scanArrayValue, goto stateBeginValue s)
          else if Ascii.eqb c "]" then (scanEndArray, popParseState s)
          else scan_error s
      end
  end.

Definition step_BeginValue (s : scanner) (c : ascii) : scan_code * scanner :=
  if isSpace c then (scanSkipSpace, s)
  else if Ascii.eqb c "{" then
    pushParseState parseObjectKey scanBeginObject (goto stateBeginStringOrEmpty s)
  else if Ascii.eqb c "[" then
    pushParseState parseArrayValue scanBeginArray (goto stateBeginValueOrEmpty s)
  else if Ascii.eqb c char_quote then (scanBeginLiteral, goto stateInString s)
  else if Ascii.eqb c "-" then (scanBeginLiteral, goto stateNeg s)
  else if Ascii.eqb c "0" then (scanBeginLiteral, goto state0 s)
  else if Ascii.eqb c "t" then (scanBeginLiteral, goto stateT s)
  else if Ascii.eqb c "f" then (scanBeginLiteral, goto stateF s)
  else if Ascii.eqb c "n" then (scanBeginLiteral, goto stateN s)
  else if isDigit19 c then (scanBeginLiteral, goto state1 s)
  else scan_error s.

Definition step_BeginString (s : scanner) (c : ascii) : scan_code * scanner :=
  if isSpace c then (scanSkipSpace, s)
  else if Ascii.eqb c char_quote then (scanBeginLiteral, goto stateInString s)
  else scan_error s.

Definition step_state0 (s : scanner) (c : ascii) : scan_code * scanner :=
  if Ascii.eqb c "." then (scanContinue, goto stateDot s)
  else if Ascii.eqb c "e" || Ascii.eqb c "E" then (scanContinue, goto stateE s)
  else step_EndValue s c.

Definition step_ESign (s : scanner) (c : ascii) : scan_code * scanner :=
  if isDigit c then (scanContinue, goto stateE0 s) else scan_error s.

(** The next byte must be [want]. *)
Definition expect (want : ascii) (st : sstate) (s : scanner) (c : ascii) :
    scan_code * scanner :=
  if Ascii.eqb c want then (scanContinue, goto st s) else scan_error s.

Definition expect_hex (st : sstate) (s : scanner) (c : ascii) : scan_code * scanner :=
  if isHex c then (scanContinue, goto st s) else scan_error s.

Definition isEscape (c : ascii) : bool :=
  existsb (Ascii.eqb c) ["b"; "f"; "n"; "r"; "t"; char_backslash; "/"; char_quote]%char.

(** [s.step(s, c)]. *)
Definition scan_step (s : scanner) (c : ascii) : scan_code * scanner :=
  match s_step s with
  | stateBeginValueOrEmpty =>
      if isSpace c then (scanSkipSpace, s)
      else if Ascii.eqb c "]" then step_EndValue s c else step_BeginValue s c
  | stateBeginValue => step_BeginValue s c
  | stateBeginStringOrEmpty =>
      if isSpace c then (scanSkipSpace, s)
      else if Ascii.eqb c "}" then
        step_EndValue (setParseState parseObjectValue (s_step s) s) c
      else step_BeginString s c
  | stateBeginString => step_BeginString s c
  | stateEndValue => step_EndValue s c
  | stateEndTop => step_EndTop s c
  | stateInString =>
      if Ascii.eqb c char_quote then (scanContinue, goto stateEndValue s)
      else if Ascii.eqb c char_backslash then (scanContinue, goto stateInStringEsc s)
      else if (N_of_ascii c <? 32)%N then scan_error s
      else (scanContinue, s)
  | stateInStringEsc =>
      if isEscape c then (scanContinue, goto stateInString s)
      else if Ascii.eqb c "u" then (scanContinue, goto stateInStringEscU s)
      else scan_error s
  | stateInStringEscU => expect_hex stateInStringEscU1 s c
  | stateInStringEscU1 => expect_hex stateInStringEscU12 s c
  | stateInStringEscU12 => expect_hex stateInStringEscU123 s c
  | stateInStringEscU123 => expect_hex stateInString s c
  | stateNeg =>
      if Ascii.eqb c "0" then (scanContinue, goto state0 s)
      else if isDigit19 c then (scanContinue, goto state1 s)
      else scan_error s
  | state1 => if isDigit c then (scanContinue, goto state1 s) else step_state0 s c
  | state0 => step_state0 s c
  | stateDot => if isDigit c then (scanContinue, goto stateDot0 s) else scan_error s
  | stateDot0 =>
      if isDigit c then (scanContinue, s)
      else if Ascii.eqb c "e" || Ascii.eqb c "E" then (scanContinue, goto stateE s)
      else step_EndValue s c
  | stateE =>
      if Ascii.eqb c "+" || Ascii.eqb c "-" then (scanContinue, goto stateESign s)
      else step_ESign s c
  | stateESign => step_ESign s c
  | stateE0 => if isDigit c then (scanContinue, s) else step_EndValue s c
  | stateT => expect "r" stateTr s c
  | stateTr => expect "u" stateTru s c
  | stateTru => expect "e" stateEndValue s c
  | stateF => expect "a" stateFa s c
  | stateFa => expect "l" stateFal s c
  | stateFal => expect "s" stateFals s c
  | stateFals => expect "e" stateEndValue s c
  | stateN => expect "u" stateNu s c
  | stateNu => expect "l" stateNul s c
  | stateNul => expect "l" stateEndValue s c
  | stateError => (scanError, s)
  end.

(** [scan.eof() != scanError]. *)
Definition scan_eof (s : scanner) : bool :=
  if s_err s then false
  else if s_endTop s then true
  else s_endTop (scan_step s " ").2.

(** ** [json.Valid] and [json.Compact] *)

(** The loop of [checkValid]; [None] when a step reports [scanError]. *)
Fixpoint scan_all (s : scanner) (data : bytes) : option scanner :=
  match data with
  | [] => Some s
  | c :: data' =>
      let '(v, s') := scan_step s c in
      if decide (v = scanError) then None else scan_all s' data'
  end.

Definition Valid (data : bytes) : bool :=
  match scan_all scan_reset data with Some s => scan_eof s | None => false end.

(** The loop of [appendCompact]: the bytes kept, and the scanner at the
    end of the loop ([break] on [scanError]). *)
Fixpoint compact_loop (s : scanner) (src : bytes) : bytes * scanner :=
  match src with
  | [] => ([], s)
  | c :: src' =>
      match scan_step s c with
      | (scanError, s') => ([], s')
      | (scanSkipSpace, s') | (scanEnd, s') => compact_loop s' src'
      | (_, s') => let '(out, s'') := compact_loop s' src' in (c :: out, s'')
      end
  end.

(** [json.Compact]: [None] is a non-nil error. *)
Definition Compact (src : bytes) : option bytes :=
  let '(out, s) := compact_loop scan_reset src in
  if scan_eof s then Some out else None.

Example valid_object : Valid (list_ascii_of_string "{  }  [") = false.
Proof. reflexivity. Qed.

(* ------------------------------------------------------------------ *)
(** ** Lemmas *)

#[global] Arguments maxNestingDepth : simpl never.
#[global] Arguments isSpace : simpl never.
#[global] Arguments isDigit : simpl never.
#[global] Arguments isDigit19 : simpl never.
#[global] Arguments isHex : simpl never.
#[global] Arguments isEscape : simpl never.
#[global] Arguments Ascii.eqb : simpl never.
#[global] Arguments N.ltb : simpl never.
#[global] Arguments Nat.leb : simpl never.

(** Opens one step of the scanner into its branches. *)
Ltac scan_cases :=
  unfold scan_step, step_BeginValue, step_BeginString, step_state0, step_ESign,
    step_EndValue, step_EndTop, expect, expect_hex, pushParseState, popParseState,
    setParseState, goto, scan_error in *;
  cbn [s_step s_parse s_endTop s_err snd fst] in *;
  repeat (case_match; try discriminate;
    cbn [s_step s_parse s_endTop s_err snd fst] in *); simplify_eq.

Lemma scan_step_error s c s' : (s_step s = stateError → s_err s = true) →
  scan_step s c = (scanError, s') → s_err s' = true.
Proof. destruct s as [st ps e er]; simpl. intros Hwf Hs. scan_cases; auto. Qed.

(** An error is never forgotten. *)
Lemma scan_step_err_mono s c v s' : s_err s = true → scan_step s c = (v, s') →
  s_err s' = true.
Proof. destruct s as [st ps e er]; simpl. intros -> Hs. scan_cases; auto. Qed.

Lemma scan_step_err_false s c v s' : scan_step s c = (v, s') → s_err s' = false →
  s_err s = false.
Proof.
  intros Hs Hf. destruct (s_err s) eqn:He; [|done].
  by rewrite (scan_step_err_mono _ _ _ _ He Hs) in Hf.
Qed.

Lemma scan_step_wf s c v s' : (s_step s = stateError → s_err s = true) →
  scan_step s c = (v, s') → s_step s' = stateError → s_err s' = true.
Proof. destruct s as [st ps e er]; simpl. intros Hwf Hs Hst. scan_cases; auto. Qed.

(** The flags agree with the step. *)
Definition scan_inv (s : scanner) : Prop :=
  (s_step s = stateError → s_err s = true) ∧
  (s_endTop s = true → s_step s = stateEndTop ∨ s_err s = true).

Lemma scan_inv_reset : scan_inv scan_reset.
Proof. by split. Qed.

Lemma scan_inv_step s c v s' : scan_inv s → scan_step s c = (v, s') → scan_inv s'.
Proof.
  intros [Hwf Htop] Hs. split; [by eapply scan_step_wf|].
  destruct s as [st ps e er]; simpl in *. intros He. scan_cases;
    intuition congruence.
Qed.

Lemma compact_loop_err s l : s_err s = true → s_err (compact_loop s l).2 = true.
Proof.
  revert s. induction l as [|c l IH]; intros s Hs; simpl; [done|].
  destruct (scan_step s c) as [v s1] eqn:Hstep.
  pose proof (scan_step_err_mono _ _ _ _ Hs Hstep) as Hs1. specialize (IH s1 Hs1).
  destruct v; try done; by destruct (compact_loop s1 l).
Qed.

Lemma scan_eof_err s : scan_eof s = true → s_err s = false.
Proof. unfold scan_eof. by destruct (s_err s). Qed.

(** The compaction loop sees an error exactly when the validity check does. *)
Lemma compact_loop_eof s l : scan_inv s →
  scan_eof (compact_loop s l).2 =
    match scan_all s l with Some s' => scan_eof s' | None => false end.
Proof.
  revert s. induction l as [|c l IH]; intros s Hinv; simpl; [done|].
  destruct (scan_step s c) as [v s1] eqn:Hstep.
  specialize (IH s1 (scan_inv_step _ _ _ _ Hinv Hstep)).
  destruct v; simpl;
    try (destruct (compact_loop s1 l); exact IH).
  unfold scan_eof.
  by rewrite (scan_step_error _ _ _ (proj1 Hinv) Hstep).
Qed.

Lemma Compact_Valid l : is_Some (Compact l) ↔ Valid l = true.
Proof.
  unfold Compact, Valid. pose proof (compact_loop_eof scan_reset l scan_inv_reset) as Heq.
  destruct (compact_loop scan_reset l) as [out s]. simpl in Heq. rewrite <- Heq.
  destruct (scan_eof s); split; try done; by intros [? ?].
Qed.

(** The states in which a number may end. *)
Definition number_final (st : sstate) : bool :=
  match st with state0 | state1 | stateDot0 | stateE0 => true | _ => false end.

(** [sim s s']: the scanner [s] of the source and [s'] of its compaction,
    which has not seen the spaces after the last value. *)
Inductive sim : scanner → scanner → Prop :=
| SimEq s : sim s s
| SimNumber st ps ps' : number_final st = true →
    sim (mkScanner stateEndValue (ps :: ps') false false)
        (mkScanner st (ps :: ps') false false)
| SimTop st : number_final st = true ∨ st = stateEndValue →
    sim (mkScanner stateEndTop [] true false) (mkScanner st [] false false).

Definition skipped (v : scan_code) : bool :=
  match v with scanSkipSpace | scanEnd => true | _ => false end.

(** A byte the compaction drops leaves the two scanners related. *)
Lemma sim_skip s s' c v s1 : scan_inv s → sim s s' → scan_step s c = (v, s1) →
  s_err s1 = false → skipped v = true → sim s1 s'.
Proof.
  intros [Hwf Htop] Hsim Hs Herr Hv.
  destruct Hsim as [[st ps e er]|st ps ps' Hst|st Hst].
  - assert (er = false) as ->.
    { exact (scan_step_err_false _ _ _ _ Hs Herr). }
    destruct e; [destruct Htop as [Htop|]; [done| |done]; simpl in Htop; subst st|];
      scan_cases; try discriminate; by repeat constructor.
  - scan_cases; try discriminate; by constructor.
  - scan_cases; try discriminate; by constructor.
Qed.

(** A separator does not continue a number. *)
Lemma separator_not_number c (sep : ascii) : Ascii.eqb c sep = true →
  sep ∈ [":"; ","; "}"; "]"]%char →
  isDigit c = false ∧ Ascii.eqb c "." = false ∧ Ascii.eqb c "e" = false ∧
  Ascii.eqb c "E" = false.
Proof. intros ->%Ascii.eqb_eq Hin. repeat (apply elem_of_cons in Hin as [->|Hin]; [done|]). set_solver. Qed.

(** A byte the compaction keeps takes both scanners to the same state. *)
Lemma sim_keep s s' c v s1 : sim s s' → scan_step s c = (v, s1) →
  s_err s1 = false → skipped v = false → v ≠ scanError → scan_step s' c = (v, s1).
Proof.
  intros Hsim Hs Herr Hv Hne. destruct Hsim as [s|st ps ps' Hst|st Hst]; [done| |].
  - assert (step_EndValue (mkScanner stateEndValue (ps :: ps') false false) c = (v, s1)) as He
      by exact Hs.
    assert (isDigit c = false ∧ Ascii.eqb c "." = false ∧ Ascii.eqb c "e" = false ∧
      Ascii.eqb c "E" = false) as (Hd & Hdot & He1 & He2).
    { clear Hs. destruct ps; scan_cases; try discriminate;
        (eapply separator_not_number; [eassumption|set_solver]). }
    rewrite <- He. clear Hs He.
    destruct st; try discriminate; unfold scan_step, step_state0; simpl;
      rewrite ?Hd, ?Hdot, ?He1, ?He2; done.
  - scan_cases; discriminate.
Qed.

Lemma compact_sim s s' l out sf : scan_inv s → sim s s' →
  compact_loop s l = (out, sf) → scan_eof sf = true →
  ∃ sf', scan_all s' out = Some sf' ∧ scan_eof sf' = true ∧
    compact_loop s' out = (out, sf').
Proof.
  revert s s' out. induction l as [|c l IH]; intros s s' out Hinv Hsim Hloop Heof; simpl in *.
  - simplify_eq/=. exists s'. split_and!; try done.
    destruct Hsim as [|st ps ps' Hst|st [Hst| ->]]; [done|done| |done].
    by destruct st.
  - destruct (scan_step s c) as [v s1] eqn:Hstep.
    pose proof (scan_inv_step _ _ _ _ Hinv Hstep) as Hinv1.
    assert (Herr : s_err s1 = false).
    { destruct (s_err s1) eqn:He; [|done]. apply scan_eof_err in Heof.
      pose proof (compact_loop_err s1 l He) as Hle.
      destruct v; simplify_eq/=; try congruence; destruct (compact_loop s1 l);
        simplify_eq/=; congruence. }
    destruct (skipped v) eqn:Hv.
    + apply (IH s1 s' out Hinv1 (sim_skip _ _ _ _ _ Hinv Hsim Hstep Herr Hv)); [|done].
      by destruct v.
    + destruct (decide (v = scanError)) as [->|Hne].
      { rewrite (scan_step_error _ _ _ (proj1 Hinv) Hstep) in Herr. done. }
      pose proof (sim_keep _ _ _ _ _ Hsim Hstep Herr Hv Hne) as Hkeep.
      destruct (compact_loop s1 l) as [out1 sf1] eqn:Hl1.
      assert (out = c :: out1 ∧ sf1 = sf) as [-> ->] by (destruct v; naive_solver).
      destruct (IH s1 s1 out1 Hinv1 (SimEq s1) Hl1 Heof) as (sf' & Hall & Heof' & Hloop').
      exists sf'. simpl. rewrite Hkeep, decide_False, Hloop' by done.
      split_and!; [done|done|by destruct v].
Qed.

(** Compaction keeps valid JSON valid, and is idempotent. *)
Lemma Compact_spec l out : Compact l = Some out → Valid out = true ∧ Compact out = Some out.
Proof.
  unfold Compact, Valid. destruct (compact_loop scan_reset l) as [o s] eqn:Hl.
  destruct (scan_eof s) eqn:Heof; [|done]. intros [= ->].
  destruct (compact_sim _ _ _ _ _ scan_inv_reset (SimEq _) Hl Heof) as (sf & -> & Hs & ->).
  by rewrite Hs.
Qed.
