(* ===== verification/ExtractJson.v ===== *)
(** * JSON extraction ([internal/schema/validator.go])

    [ExtractJSON] looks for JSON in the text of a language model with a
    bracket-counting walk that knows about strings.  The theorems relate
    the walk to the real JSON grammar (the scanner of [JsonScanner]): what
    is returned is valid JSON, and an object or array surrounded by text is
    found whole. *)

From Stdlib Require Import Ascii String.
From S2P Require Import Prelude JsonScanner.

(** ** [ExtractJSON] *)

(** The loop of [ExtractJSON] from [i = start] on.  [seen] is
    [raw[start:i]] and [rest] is [raw[i:]]. *)
Fixpoint extract_walk (open close : ascii) (seen rest : bytes) (depth : Z)
    (inString escaped : bool) : option bytes :=
  match rest with
  | [] => None
  | ch :: rest' =>
      let seen' := seen ++ [ch] in
      if escaped then extract_walk open close seen' rest' depth inString false
      else if Ascii.eqb ch char_backslash && inString then
        extract_walk open close seen' rest' depth inString true
      else if Ascii.eqb ch char_quote then
        extract_walk open close seen' rest' depth (negb inString) escaped
      else if inString then extract_walk open close seen' rest' depth inString escaped
      else if Ascii.eqb ch open then
        extract_walk open close seen' rest' (depth + 1) inString escaped
      else if Ascii.eqb ch close then
        if (depth - 1 =? 0) && Valid seen' then
          Some (match Compact seen' with Some buf => buf | None => seen' end)
        else extract_walk open close seen' rest' (depth - 1) inString escaped
      else extract_walk open close seen' rest' depth inString escaped
  end.

(** [raw[strings.IndexByte(raw, b):]]. *)
Fixpoint from_byte (b : ascii) (raw : bytes) : option bytes :=
  match raw with
  | [] => None
  | c :: raw' => if Ascii.eqb c b then Some raw else from_byte b raw'
  end.

Definition extract_pattern (open close : ascii) (raw : bytes) : option bytes :=
  match from_byte open raw with
  | None => None
  | Some s => extract_walk open close [] s 0 false false
  end.

(** The text up to and including the last [b]. *)
Fixpoint upto_last (b : ascii) (raw : bytes) : option bytes :=
  match raw with
  | [] => None
  | c :: raw' =>
      match upto_last b raw' with
      | Some m => Some (c :: m)
      | None => if Ascii.eqb c b then Some [c] else None
      end
  end.

(** A match of the pattern [(?s)(\{.*\}|\[.*\])] at the start of the text:
    greedy, the first alternative preferred. *)
Definition regex_here (raw : bytes) : option bytes :=
  match raw with
  | [] => None
  | c :: raw' =>
      if Ascii.eqb c "{" then (c ::.) <$> upto_last "}" raw'
      else if Ascii.eqb c "[" then (c ::.) <$> upto_last "]" raw'
      else None
  end.

(** [re.FindString]: the leftmost match. *)
Fixpoint regex_find (raw : bytes) : option bytes :=
  match regex_here raw with
  | Some m => Some m
  | None => match raw with [] => None | _ :: raw' => regex_find raw' end
  end.

Definition errNoJSON : error := ErrNew "schema: no valid JSON found in input".

(** [ExtractJSON] on the bytes of the text. *)
Definition extract_json (raw : bytes) : result bytes :=
  match extract_pattern "{" "}" raw with
  | Some out => Ok out
  | None =>
      match extract_pattern "[" "]" raw with
      | Some out => Ok out
      | None =>
          match regex_find raw with
          | Some m => if Valid m then Ok m else Err errNoJSON
          | None => Err errNoJSON
          end
      end
  end.

Definition ExtractJSON (raw : string) : result string :=
  string_of_list_ascii <$> extract_json (list_ascii_of_string raw).

(** ** The walk against the scanner *)

Definition in_string (st : sstate) : bool :=
  match st with
  | stateInString | stateInStringEsc | stateInStringEscU | stateInStringEscU1
  | stateInStringEscU12 | stateInStringEscU123 => true
  | _ => false
  end.

(** [arr] selects the pattern: arrays, or objects. *)
Definition opener (arr : bool) : ascii := if arr then "[" else "{".
Definition closer (arr : bool) : ascii := if arr then "]" else "}".

Definition of_kind (arr : bool) (p : pstate) : bool :=
  match p with parseArrayValue => arr | _ => negb arr end.

(** How deep the scanner is in values of the pattern's kind. *)
Fixpoint nesting (arr : bool) (ps : list pstate) : Z :=
  match ps with [] => 0 | p :: ps => (if of_kind arr p then 1 else 0) + nesting arr ps end.

(** The walk's next depth and flags. *)
Definition walk_next (arr : bool) (ch : ascii) (depth : Z) (inString escaped : bool) :
    Z * bool * bool :=
  if escaped then (depth, inString, false)
  else if Ascii.eqb ch char_backslash && inString then (depth, inString, true)
  else if Ascii.eqb ch char_quote then (depth, negb inString, false)
  else if inString then (depth, inString, false)
  else if Ascii.eqb ch (opener arr) then (depth + 1, inString, false)
  else if Ascii.eqb ch (closer arr) then (depth - 1, inString, false)
  else (depth, inString, false).

(** The walk's variables describe the scanner's state. *)
Definition walk_agrees (arr : bool) (s : scanner) (w : Z * bool * bool) : Prop :=
  w = (nesting arr (s_parse s), in_string (s_step s),
       bool_decide (s_step s = stateInStringEsc)).

(** Closes a goal whose hypotheses give one byte two classifications. *)
Ltac char_absurd :=
  repeat match goal with
  | H : (Ascii.eqb ?c _ || _) = true |- _ => is_var c; apply orb_true_iff in H as [H|H]
  | H : (Ascii.eqb ?c _ && _) = true |- _ => is_var c; apply andb_true_iff in H as [H ?]
  | H : Ascii.eqb ?c _ = true |- _ => is_var c; apply Ascii.eqb_eq in H; subst c
  end;
  match goal with
  | H : ?t = ?b |- _ =>
      lazymatch type of b with bool => vm_compute in H; discriminate H end
  end.

(** The scanner is at the start of an object only with that object on top
    of its stack. *)
Definition begin_object_ok (s : scanner) : Prop :=
  s_step s = stateBeginStringOrEmpty → head (s_parse s) = Some parseObjectKey.

Lemma step_begin_object s c v s1 : begin_object_ok s → scan_step s c = (v, s1) →
  begin_object_ok s1.
Proof.
  unfold begin_object_ok. intros Hb Hs. destruct s as [st ps et er]. scan_cases; done.
Qed.

Lemma step_agrees arr s c v s1 d i e : s_parse s ≠ [] → begin_object_ok s →
  walk_agrees arr s (d, i, e) → scan_step s c = (v, s1) → v ≠ scanError →
  s_err s1 = false → walk_agrees arr s1 (walk_next arr c d i e).
Proof.
  intros Hps Hb [= -> -> ->] Hs Hv Herr. unfold walk_agrees, walk_next.
  destruct s as [st ps et er]; unfold begin_object_ok in Hb; simpl in *.
  destruct st; simpl.
  all: rewrite ?bool_decide_true by done; rewrite ?bool_decide_false by done; simpl.
  all: scan_cases.
  all: destruct arr; try (exfalso; congruence); try (exfalso; char_absurd).
  all: try (specialize (Hb eq_refl); simplify_eq/=).
  all: simpl; f_equal; f_equal; lia.
Qed.

(** The innermost-last stack ends in a value of the pattern's kind. *)
Definition bottom (arr : bool) (ps : list pstate) : Prop :=
  ∃ p, last ps = Some p ∧ of_kind arr p = true.

Lemma bottom_nesting arr ps : bottom arr ps → 1 ≤ nesting arr ps.
Proof.
  assert (Hpos : ∀ qs, 0 ≤ nesting arr qs).
  { induction qs as [|q qs IH]; simpl; [lia|]. destruct (of_kind arr q); lia. }
  intros (p & Hp & Hk). revert Hp. induction ps as [|q ps IH]; intros Hp; [done|].
  destruct ps as [|q' ps].
  - simplify_eq/=. rewrite Hk. lia.
  - specialize (IH Hp). simpl in *. destruct (of_kind arr q); lia.
Qed.

Lemma bottom_nonempty arr ps : bottom arr ps → ps ≠ [].
Proof. intros (p & Hp & _) ->. done. Qed.

Lemma bottom_push arr q ps : bottom arr ps → bottom arr (q :: ps).
Proof. intros (p & Hp & Hk). exists p. by destruct ps. Qed.

Lemma bottom_pop arr q q' ps : bottom arr (q :: q' :: ps) → bottom arr (q' :: ps).
Proof. done. Qed.

Lemma bottom_swap arr q q' ps : of_kind arr q = of_kind arr q' →
  bottom arr (q :: ps) → bottom arr (q' :: ps).
Proof.
  intros Hq (p & Hp & Hk). destruct ps as [|r ps].
  - exists q'. simplify_eq/=. by rewrite <- Hq.
  - by exists p.
Qed.

(** A step keeps the bottom value open, or closes it and is done. *)
Lemma step_bottom arr s c v s1 : bottom arr (s_parse s) → begin_object_ok s →
  scan_step s c = (v, s1) → v ≠ scanError →
  bottom arr (s_parse s1) ∨ (s_parse s1 = [] ∧ s_step s1 = stateEndTop ∧ s_endTop s1 = true).
Proof.
  intros Hbot Hb Hs Hv. destruct s as [st ps et er]. unfold begin_object_ok in Hb. simpl in *.
  scan_cases; try done; try (specialize (Hb eq_refl); simplify_eq/=);
    try (by left); try (by right); left; try (by apply bottom_push);
    first [by eapply bottom_pop | by (eapply bottom_swap; [|exact Hbot])].
Qed.

(** The value is over only when the stack is empty. *)
Definition top_ok (s : scanner) : Prop :=
  s_endTop s = true → s_parse s = [] ∧ (s_step s = stateEndTop ∨ s_step s = stateError).

Lemma step_top_ok s c v s1 : top_ok s → scan_step s c = (v, s1) → top_ok s1.
Proof.
  unfold top_ok. intros Ht Hs. destruct s as [st ps [] er]; simpl in *.
  - destruct (Ht eq_refl) as [-> [-> | ->]]; scan_cases; auto.
  - clear Ht. scan_cases; intros; simplify_eq; auto.
Qed.

Lemma eof_stack s : top_ok s → scan_eof s = true → s_parse s = [].
Proof.
  unfold top_ok, scan_eof. intros Ht. destruct s as [st ps et er]. simpl in *.
  destruct er; [done|]. destruct et; [by intros _; apply Ht|].
  destruct (scan_step _ _) as [v s1] eqn:Hs; simpl.
  intros He. scan_cases; simpl in *; try done; try discriminate.
Qed.

(** What holds at every point of a value of the pattern's kind. *)
Record inside (arr : bool) (s : scanner) (w : Z * bool * bool) : Prop := {
  in_bottom : bottom arr (s_parse s);
  in_begin : begin_object_ok s;
  in_agrees : walk_agrees arr s w;
  in_top : top_ok s;
}.

Lemma inside_step arr s c v s1 d i e : inside arr s (d, i, e) →
  scan_step s c = (v, s1) → v ≠ scanError → s_err s1 = false →
  inside arr s1 (walk_next arr c d i e) ∨
  (s_parse s1 = [] ∧ s_step s1 = stateEndTop ∧ s_endTop s1 = true ∧
   walk_agrees arr s1 (walk_next arr c d i e)).
Proof.
  intros [Hb Hbo Ha Ht] Hs Hv He.
  pose proof (step_agrees _ _ _ _ _ _ _ _ (bottom_nonempty _ _ Hb) Hbo Ha Hs Hv He) as Ha1.
  destruct (step_bottom _ _ _ _ _ Hb Hbo Hs Hv) as [Hb1|(? & ? & ?)]; [left|by right].
  split; [done|by eapply step_begin_object|done|by eapply step_top_ok].
Qed.

(** The walk moves on unless the count reaches zero. *)
Lemma walk_continue arr seen ch rest d i e d' i' e' :
  walk_next arr ch d i e = (d', i', e') → d' ≠ 0 →
  extract_walk (opener arr) (closer arr) seen (ch :: rest) d i e =
  extract_walk (opener arr) (closer arr) (seen ++ [ch]) rest d' i' e'.
Proof.
  unfold walk_next. simpl. intros Hn Hd. repeat case_match; simplify_eq; try done.
  all: go_bools; lia.
Qed.

(** When the count reaches zero the text seen so far is a candidate. *)
Lemma walk_candidate arr seen ch rest d i e i' e' :
  walk_next arr ch d i e = (0, i', e') → 1 ≤ d → Valid (seen ++ [ch]) = true →
  extract_walk (opener arr) (closer arr) seen (ch :: rest) d i e =
  Some (default (seen ++ [ch]) (Compact (seen ++ [ch]))).
Proof.
  unfold walk_next. simpl. intros Hn Hd Hv. rewrite Hv, andb_true_r.
  repeat case_match; simplify_eq; try lia; by destruct (Compact _).
Qed.

Lemma scan_all_app s l1 l2 : scan_all s (l1 ++ l2) =
  match scan_all s l1 with Some s1 => scan_all s1 l2 | None => None end.
Proof.
  revert s. induction l1 as [|c l1 IH]; intros s; simpl; [done|].
  destruct (scan_step s c) as [v s1]. case_decide; [done|apply IH].
Qed.

Lemma scan_all_err s l sf : scan_all s l = Some sf → s_err sf = false → s_err s = false.
Proof.
  revert s. induction l as [|c l IH]; intros s Hs Hf; simplify_eq/=; [done|].
  destruct (scan_step s c) as [v s1] eqn:Hstep. case_decide; [done|].
  by eapply scan_step_err_false, IH.
Qed.

(** After the value only spaces may follow. *)
Lemma scan_all_after s l sf : s_step s = stateEndTop → scan_all s l = Some sf →
  s_err sf = false → Forall (λ c, isSpace c = true) l.
Proof.
  revert s. induction l as [|c l IH]; intros s Hst Hs Hf; simplify_eq/=; constructor.
  - destruct (isSpace c) eqn:Hc; [done|]. unfold scan_step in Hs. rewrite Hst in Hs.
    unfold step_EndTop in Hs. rewrite Hc in Hs. rewrite decide_False in Hs by done.
    by apply scan_all_err in Hs.
  - unfold scan_step in Hs. rewrite Hst in Hs. unfold step_EndTop in Hs.
    destruct (isSpace c) eqn:Hc; simpl in Hs.
    + by eapply IH.
    + by apply scan_all_err in Hs.
Qed.

Lemma walk_value arr rest s seen d i e post sf :
  scan_all scan_reset seen = Some s → inside arr s (d, i, e) →
  scan_all s rest = Some sf → scan_eof sf = true →
  ∃ r1 r2, rest = r1 ++ r2 ∧ Forall (λ c, isSpace c = true) r2 ∧ Valid (seen ++ r1) = true ∧
    extract_walk (opener arr) (closer arr) seen (rest ++ post) d i e =
      Some (default (seen ++ r1) (Compact (seen ++ r1))).
Proof.
  revert s seen d i e. induction rest as [|c rest IH]; intros s seen d i e Hseen Hin Hs Hf.
  { simplify_eq/=. apply (eof_stack _ (in_top _ _ _ Hin)) in Hf.
    by apply (bottom_nonempty arr) in Hf; [|apply Hin]. }
  simpl in Hs. destruct (scan_step s c) as [v s1] eqn:Hstep. case_decide as Hv; [done|].
  assert (Hseen1 : scan_all scan_reset (seen ++ [c]) = Some s1).
  { rewrite scan_all_app, Hseen. simpl. by rewrite Hstep, decide_False. }
  assert (Herr : s_err s1 = false) by (by eapply scan_all_err, scan_eof_err).
  pose proof (bottom_nesting _ _ (in_bottom _ _ _ Hin)) as Hd.
  pose proof (in_agrees _ _ _ Hin) as [= -> -> ->].
  match type of Hin with inside _ _ (?d, ?i, ?e) =>
    destruct (walk_next arr c d i e) as [[d' i'] e'] eqn:Hn end.
  destruct (inside_step _ _ _ _ _ _ _ _ Hin Hstep Hv Herr) as [Hin1|(Hp & Hst & Htop & Ha)].
  - rewrite Hn in Hin1.
    destruct (IH s1 (seen ++ [c]) d' i' e' Hseen1 Hin1 Hs Hf) as (r1 & r2 & -> & Hsp & Hval & Hw).
    exists (c :: r1), r2. rewrite <- (app_assoc seen [c] r1) in Hval, Hw. cbn [app] in Hval, Hw |- *.
    split_and!; [done..|]. rewrite (walk_continue arr _ _ _ _ _ _ d' i' e'); [done..|].
    pose proof (in_agrees _ _ _ Hin1) as [= -> _ _].
    pose proof (bottom_nesting _ _ (in_bottom _ _ _ Hin1)). lia.
  - rewrite Hn in Ha. injection Ha as -> -> ->. rewrite Hp in Hn. simpl in Hn.
    assert (Hval : Valid (seen ++ [c]) = true).
    { unfold Valid. rewrite Hseen1. unfold scan_eof. by rewrite Herr, Htop. }
    exists [c], rest. split_and!; [done| |done|].
    + by eapply scan_all_after, scan_eof_err.
    + cbn [app]. by eapply walk_candidate.
Qed.

(** The opening bracket puts the scanner inside the value. *)
Lemma inside_open arr :
  ∃ s v, scan_step scan_reset (opener arr) = (v, s) ∧ v ≠ scanError ∧ inside arr s (1, false, false).
Proof.
  exists (mkScanner (if arr then stateBeginValueOrEmpty else stateBeginStringOrEmpty)
    [if arr then parseArrayValue else parseObjectKey] false false),
    (if arr then scanBeginArray else scanBeginObject).
  split; [destruct arr; vm_compute; reflexivity|]. split; [by destruct arr|].
  split; simpl; try done; destruct arr; try done; by eexists.
Qed.

Lemma from_byte_skip b pre rest : b ∉ pre → from_byte b (pre ++ b :: rest) = Some (b :: rest).
Proof.
  induction pre as [|c pre IH]; simpl; intros Hb.
  - by rewrite Ascii.eqb_refl.
  - apply not_elem_of_cons in Hb as [Hc Hb].
    destruct (Ascii.eqb c b) eqn:He; [apply Ascii.eqb_eq in He; congruence|by apply IH].
Qed.

Lemma from_byte_None b raw : b ∉ raw → from_byte b raw = None.
Proof.
  induction raw as [|c raw IH]; simpl; intros Hb; [done|].
  apply not_elem_of_cons in Hb as [Hc Hb].
  destruct (Ascii.eqb c b) eqn:He; [apply Ascii.eqb_eq in He; congruence|by apply IH].
Qed.

(** A value of the pattern's kind, with text around it, is found whole. *)
Lemma extract_pattern_found arr pre val post out : opener arr ∉ pre →
  head val = Some (opener arr) → last val = Some (closer arr) → Compact val = Some out →
  extract_pattern (opener arr) (closer arr) (pre ++ val ++ post) = Some out.
Proof.
  intros Hpre Hhead Hlast Hc. destruct val as [|c val]; [done|]. injection Hhead as ->.
  unfold extract_pattern. rewrite <- app_comm_cons, from_byte_skip by done.
  assert (Hv : Valid (opener arr :: val) = true) by (apply Compact_Valid; by exists out).
  destruct (inside_open arr) as (s1 & v & Hstep & Hne & Hin).
  unfold Valid in Hv. simpl in Hv. rewrite Hstep, decide_False in Hv by done.
  destruct (scan_all s1 val) as [sf|] eqn:Hall; [|done].
  assert (Hseen : scan_all scan_reset [opener arr] = Some s1).
  { simpl. by rewrite Hstep, decide_False. }
  destruct (walk_value arr val s1 [opener arr] 1 false false post sf Hseen Hin Hall Hv)
    as (r1 & r2 & -> & Hsp & _ & Hw).
  rewrite (walk_continue arr _ _ _ _ _ _ 1 false false); [|by destruct arr|done].
  change ([] ++ [opener arr]) with [opener arr]. rewrite Hw.
  assert (r2 = []) as ->; [|by rewrite app_nil_r in Hc; simpl; rewrite Hc].
  destruct (last r2) as [x|] eqn:Hl; [|by apply last_None].
  apply last_Some in Hl as [r2' ->]. exfalso.
  rewrite app_comm_cons, app_assoc, last_snoc in Hlast. injection Hlast as ->.
  apply Forall_app in Hsp as [_ Hx].
  apply (Forall_inv (P := λ c, isSpace c = true)) in Hx.
  assert (isSpace (closer arr) = false) as Hf by (by destruct arr). cbn beta in Hx. congruence.
Qed.

Lemma extract_walk_Valid open close seen rest d i e out :
  extract_walk open close seen rest d i e = Some out → Valid out = true.
Proof.
  revert seen d i e. induction rest as [|c rest IH]; intros seen d i e; simpl; [done|].
  repeat case_match; try apply IH; intros [= <-]; go_bools.
  - by eapply Compact_spec.
  - done.
Qed.

Lemma extract_json_Valid raw out : extract_json raw = Ok out → Valid out = true.
Proof.
  unfold extract_json, extract_pattern. intros He.
  repeat case_match; simplify_eq; try done; by eapply extract_walk_Valid.
Qed.
