(* ===== verification/Schema.v ===== *)
(** * Schema validation ([internal/schema/validator.go])

    [Validator.Validate], [ValidateWithFeedback] and [BuildRetryPrompt],
    over the third-party JSON Schema library as a parameter, and the
    theorems about [ExtractJSON]. *)

From Stdlib Require Import Ascii String.
From S2P Require Import Prelude JsonScanner ExtractJson.

(** ** The JSON Schema library and the value decoder *)

(** [github.com/santhosh-tekuri/jsonschema/v6], and the two parts of
    [json.Unmarshal] into an [interface{}] the validator does not look
    into: the decoded document and the text of a syntax error. *)
Class SchemaLib := {
  doc : Type;
  compiler : Type;
  compiled : Type;
  decode_value : string → result doc;
  syntax_error : string → error;
  NewCompiler : compiler;
  AddResource : string → doc → compiler → result compiler;
  Compile : string → compiler → result compiled;
  schema_Validate : doc → compiled → option error;
}.

(** [json.Unmarshal] rejects invalid JSON before decoding anything. *)
Definition Unmarshal `{SchemaLib} (data : string) : result doc :=
  if Valid (list_ascii_of_string data) then decode_value data
  else Err (syntax_error data).

(** ** The validator *)

(** [fmt.Errorf(prefix + "%w", err)] around a failing call. *)
Definition wrap_err {A} (prefix : string) (r : result A) : result A :=
  match r with Ok a => Ok a | Err e => Err (ErrWrap prefix e) end.

(** [Validate]: [None] is a nil error. *)
Definition Validate `{SchemaLib} (data jsonSchema : string) : option error :=
  match
    (schemaDoc ← wrap_err "schema: decoding schema JSON: " (Unmarshal jsonSchema);
     c ← wrap_err "schema: adding resource: " (AddResource "schema.json" schemaDoc NewCompiler);
     sch ← wrap_err "schema: compiling schema: " (Compile "schema.json" c);
     decoded ← wrap_err "schema: decoding JSON data: " (Unmarshal data);
     match schema_Validate decoded sch with
     | Some e => Err (ErrWrap "schema: validation failed: " e)
     | None => Ok tt
     end)
  with
  | Ok _ => None
  | Err e => Some e
  end.

Record ValidationResult := mkValidationResult {
  vr_Valid : bool;
  vr_Output : string;
  vr_Feedback : string;
  vr_Attempt : Z;
}.

Definition ValidateWithFeedback `{SchemaLib} (data jsonSchema : string) : ValidationResult :=
  match ExtractJSON data with
  | Err err =>
      mkValidationResult false data
        ("Could not find valid JSON in the output. Error: " +:+ Error err +:+
         ". Please respond with only valid JSON matching the schema.") 0
  | Ok extracted =>
      match Validate extracted jsonSchema with
      | Some err =>
          mkValidationResult false extracted
            ("JSON was found but does not match the required schema. Error: " +:+ Error err +:+
             ". Please fix the JSON to match the schema.") 0
      | None => mkValidationResult true extracted "" 0
      end
  end.

Definition BuildRetryPrompt (originalPrompt failedOutput feedback schema : string) : string :=
  "Your previous response did not produce valid structured output." +:+ newline +:+ newline +:+
  "Original request: " +:+ originalPrompt +:+ newline +:+ newline +:+
  "Your previous output:" +:+ newline +:+ failedOutput +:+ newline +:+ newline +:+
  "Validation error: " +:+ feedback +:+ newline +:+ newline +:+
  "Required JSON Schema:" +:+ newline +:+ schema +:+ newline +:+ newline +:+
  "Please respond with ONLY valid JSON that matches the schema above. Do not include any explanation or markdown formatting.".

(** ** Lemmas *)

Lemma string_of_bytes_eq s1 s2 : string_of_list_ascii s1 = string_of_list_ascii s2 → s1 = s2.
Proof.
  intros Heq. rewrite <- (list_ascii_of_string_of_list_ascii s1), Heq.
  apply list_ascii_of_string_of_list_ascii.
Qed.

Lemma ExtractJSON_bytes raw :
  ExtractJSON (string_of_list_ascii raw) = string_of_list_ascii <$> extract_json raw.
Proof. unfold ExtractJSON. by rewrite list_ascii_of_string_of_list_ascii. Qed.

Lemma extract_json_object pre val post out : "{"%char ∉ pre →
  head val = Some "{"%char → last val = Some "}"%char → Compact val = Some out →
  extract_json (pre ++ val ++ post) = Ok out.
Proof.
  intros Hpre Hh Hl Hc. unfold extract_json.
  pose proof (extract_pattern_found false pre val post out Hpre Hh Hl Hc) as He.
  simpl in He. by rewrite He.
Qed.

Lemma extract_json_array pre val post out : "{"%char ∉ pre ++ val ++ post →
  "["%char ∉ pre → head val = Some "["%char → last val = Some "]"%char →
  Compact val = Some out → extract_json (pre ++ val ++ post) = Ok out.
Proof.
  intros Hno Hpre Hh Hl Hc. unfold extract_json.
  unfold extract_pattern at 1. rewrite (from_byte_None _ _ Hno).
  pose proof (extract_pattern_found true pre val post out Hpre Hh Hl Hc) as He.
  simpl in He. by rewrite He.
Qed.

(** Whatever is extracted is valid JSON. *)
Lemma ExtractJSON_Valid raw s : ExtractJSON raw = Ok s → Valid (list_ascii_of_string s) = true.
Proof.
  unfold ExtractJSON. destruct (extract_json _) as [out|e] eqn:He; [|done].
  intros [= <-]. rewrite list_ascii_of_string_of_list_ascii. by eapply extract_json_Valid.
Qed.

Lemma ValidateWithFeedback_spec `{SchemaLib} data jsonSchema :
  let r := ValidateWithFeedback data jsonSchema in
  (vr_Valid r = true ↔
    ∃ out, ExtractJSON data = Ok out ∧ Validate out jsonSchema = None) ∧
  (vr_Valid r = true → Valid (list_ascii_of_string (vr_Output r)) = true ∧
    Validate (vr_Output r) jsonSchema = None) ∧
  (vr_Valid r = false ↔ vr_Feedback r ≠ "").
Proof.
  unfold ValidateWithFeedback. destruct (ExtractJSON data) as [out|e] eqn:He; simpl.
  - pose proof (ExtractJSON_Valid _ _ He).
    destruct (Validate out jsonSchema) eqn:Hv; simpl; naive_solver.
  - naive_solver.
Qed.

(** ** Properties *)

(** C21: soundness of the extraction: whatever text it is given, what
    [ExtractJSON] returns is valid JSON, by the scanner of [encoding/json]
    itself; this covers both bracket patterns, the compaction of the
    candidate, and the fallback regular expression. *)
Theorem extract_json_sound (raw out : string) :
  ExtractJSON raw = Ok out → Valid (list_ascii_of_string out) = true.
Proof. apply ExtractJSON_Valid. Qed.

(** C22: an object in a text is found whole: if the text before it has no
    opening brace, [ExtractJSON] returns exactly its compaction, whatever
    strings, escapes and nested values the object contains and whatever
    text follows.  (So a JSON array of objects yields its first element.) *)
Theorem extract_json_finds_object (pre val post out : bytes) :
  "{"%char ∉ pre → head val = Some "{"%char → last val = Some "}"%char →
  Compact val = Some out →
  ExtractJSON (string_of_list_ascii (pre ++ val ++ post)) = Ok (string_of_list_ascii out).
Proof. intros. rewrite ExtractJSON_bytes. by rewrite (extract_json_object _ _ _ out). Qed.

(** An array is found whole when the text has no opening brace at all
    and no earlier opening bracket. *)
Theorem extract_json_finds_array (pre val post out : bytes) :
  "{"%char ∉ pre ++ val ++ post → "["%char ∉ pre →
  head val = Some "["%char → last val = Some "]"%char → Compact val = Some out →
  ExtractJSON (string_of_list_ascii (pre ++ val ++ post)) = Ok (string_of_list_ascii out).
Proof. intros. rewrite ExtractJSON_bytes. by rewrite (extract_json_array _ _ _ out). Qed.

(** The search never restarts after its first opening brace: a brace
    group that is not JSON hides a valid object that follows it. *)
Theorem extract_json_no_restart :
  ∃ pre val, Valid (list_ascii_of_string val) = true ∧
    ExtractJSON val = Ok val ∧ ExtractJSON (pre +:+ val) = Err errNoJSON.
Proof.
  exists "set {x} to ", "{}". split_and!; vm_compute; reflexivity.
Qed.

(** [json.Compact], which normalises the extracted text, accepts
    exactly valid JSON, keeps it valid and is idempotent. *)
Theorem compact_normalises (src : bytes) :
  (is_Some (Compact src) ↔ Valid src = true) ∧
  (∀ out, Compact src = Some out → Valid out = true ∧ Compact out = Some out).
Proof. split; [apply Compact_Valid|apply Compact_spec]. Qed.

(** A positive verdict of [ValidateWithFeedback] is justified: the
    output it reports was extracted from the data, is valid JSON and
    satisfies the schema; and feedback is given exactly on failure. *)
Theorem validate_with_feedback_correct `{SchemaLib} (data jsonSchema : string) :
  let r := ValidateWithFeedback data jsonSchema in
  (vr_Valid r = true ↔
    ∃ out, ExtractJSON data = Ok out ∧ Validate out jsonSchema = None) ∧
  (vr_Valid r = true → Valid (list_ascii_of_string (vr_Output r)) = true ∧
    Validate (vr_Output r) jsonSchema = None) ∧
  (vr_Valid r = false ↔ vr_Feedback r ≠ "").
Proof. apply ValidateWithFeedback_spec. Qed.

(** ** Witnesses *)

Lemma extract_json_sound_witness : Valid (list_ascii_of_string "[1,2]") = true.
Proof.
  apply (extract_json_sound "the values are [1, 2] ok" "[1,2]"). vm_compute. reflexivity.
Defined.

Lemma extract_json_finds_object_witness :
  ExtractJSON "result: { } done" = Ok "{}".
Proof.
  apply (extract_json_finds_object (list_ascii_of_string "result: ")
    (list_ascii_of_string "{ }") (list_ascii_of_string " done") (list_ascii_of_string "{}"));
    [|vm_compute; reflexivity..].
  apply (bool_decide_unpack _). vm_compute. exact I.
Defined.

Lemma extract_json_finds_array_witness :
  ExtractJSON "values [1, [2]] done" = Ok "[1,[2]]".
Proof.
  apply (extract_json_finds_array (list_ascii_of_string "values ")
    (list_ascii_of_string "[1, [2]]") (list_ascii_of_string " done")
    (list_ascii_of_string "[1,[2]]")); [| |vm_compute; reflexivity..];
    (apply (bool_decide_unpack _); vm_compute; exact I).
Defined.
