(* ===== verification/Http.v ===== *)
(** * The parts of [net/http] the router uses, and the API types

    Requests, response writers with their [http.Flusher] capability,
    headers with canonical keys, [http.Error], [http.SetCookie] and
    [http.MaxBytesReader], and the types of [api/v1/types.go].  A handler
    is a function from a request, a response writer and the state it works
    on to the new writer and state. *)

From Stdlib Require Import Ascii String.
From stdpp Require Import pretty.
From S2P Require Import Prelude.

(** ** API types ([api/v1/types.go]) *)

Inductive TaskStatus :=
| TaskStatusPending | TaskStatusRunning | TaskStatusCompleted
| TaskStatusFailed | TaskStatusTimeout.

#[export] Instance TaskStatus_eq_dec : EqDecision TaskStatus.
Proof. solve_decision. Defined.

Record TaskRequest := mkTaskRequest {
  tq_Prompt : string;
  tq_OutputSchema : string;
  tq_Timeout : Z;
  tq_UserID : string;
  tq_Metadata : list (string * string);
}.

Record TaskResponse := mkTaskResponse {
  tr_TaskID : string;
  tr_SessionID : string;
  tr_Status : TaskStatus;
  tr_Result : string;
  tr_Error : string;
  tr_CreatedAt : Z;
  tr_CompletedAt : option Z;
}.

(** Declared by the API, and not used by the program: the wait queue writes
    its positions as text. *)
Record QueuePosition := mkQueuePosition { qp_Position : Z; qp_EstimatedWait : Z }.

(** [PoolUtilization] is the quotient of two integers, kept as a fraction. *)
Record HealthResponse := mkHealthResponse {
  hr_Status : string;
  hr_Version : string;
  hr_PoolUtilization : Z * Z;
  hr_PoolAllocated : Z;
  hr_PoolMaxSize : Z;
  hr_QueueDepth : Z;
}.

(** [Duration] is in nanoseconds here; the code converts it to seconds. *)
Record TaskStreamEvent := mkTaskStreamEvent {
  te_Status : TaskStatus;
  te_SessionID : string;
  te_Result : string;
  te_Error : string;
  te_Duration : Z;
  te_TokensUsed : Z;
  te_CompletedAt : option Z;
}.

Record ErrorResponse := mkErrorResponse { er_Code : Z; er_Message : string }.

(** ** Response bodies *)

(** What a handler writes: text, or a value it JSON-encodes. *)
Inductive chunk :=
| CText (s : string)
| CError (e : ErrorResponse)
| CTask (t : TaskResponse)
| CHealth (h : HealthResponse)
| CEvent (name : string) (e : TaskStreamEvent).

(** ** Headers *)

Definition is_upper (c : ascii) : bool :=
  (65 <=? N_of_ascii c)%N && (N_of_ascii c <=? 90)%N.
Definition is_lower (c : ascii) : bool :=
  (97 <=? N_of_ascii c)%N && (N_of_ascii c <=? 122)%N.
Definition to_upper (c : ascii) : ascii :=
  if is_lower c then ascii_of_N (N_of_ascii c - 32) else c.
Definition to_lower (c : ascii) : ascii :=
  if is_upper c then ascii_of_N (N_of_ascii c + 32) else c.

(** A byte of an HTTP token. *)
Definition is_token (c : ascii) : bool :=
  is_upper c || is_lower c
  || ((48 <=? N_of_ascii c)%N && (N_of_ascii c <=? 57)%N)
  || existsb (Ascii.eqb c)
       ["!"; "#"; "$"; "%"; "&"; "'"; "*"; "+"; "-"; "."; "^"; "_"; "`"; "|"; "~"]%char.

Fixpoint canonical_loop (upper : bool) (s : string) : string :=
  match s with
  | EmptyString => EmptyString
  | String c s' =>
      String (if upper then to_upper c else to_lower c)
        (canonical_loop (Ascii.eqb c "-") s')
  end.

(** [textproto.CanonicalMIMEHeaderKey]: a key with a byte that is no token
    byte is left alone. *)
Definition canonical_key (s : string) : string :=
  if forallb is_token (list_ascii_of_string s) then canonical_loop true s else s.

Abbreviation headers := (gmap string (list string)).

Definition header_Get (h : headers) (key : string) : string :=
  match h !! canonical_key key with Some (v :: _) => v | _ => "" end.

Definition header_Set (key value : string) (h : headers) : headers :=
  <[canonical_key key := [value]]> h.

Definition header_Add (key value : string) (h : headers) : headers :=
  <[canonical_key key := default [] (h !! canonical_key key) ++ [value]]> h.

(** ** Requests *)

(** [r.Body]: the bytes a reader gets, and whether it then fails because a
    [MaxBytesReader] cut it. *)
Record Body := mkBody { body_data : string; body_too_large : bool }.

Record Request := mkRequest {
  req_Method : string;
  URL_Path : string;
  URL_Scheme : string;
  URL_Host : string;
  URL_Query : list (string * string);
  req_Host : string;
  req_Header : headers;
  req_Cookies : list (string * string);
  RemoteAddr : string;
  req_Body : option Body;
}.

Definition with_Body (b : option Body) (r : Request) : Request :=
  mkRequest (req_Method r) (URL_Path r) (URL_Scheme r) (URL_Host r) (URL_Query r)
    (req_Host r) (req_Header r) (req_Cookies r) (RemoteAddr r) b.
Definition with_Target (scheme host : string) (r : Request) : Request :=
  mkRequest (req_Method r) (URL_Path r) scheme host (URL_Query r)
    host (req_Header r) (req_Cookies r) (RemoteAddr r) (req_Body r).
Definition with_Header (h : headers) (r : Request) : Request :=
  mkRequest (req_Method r) (URL_Path r) (URL_Scheme r) (URL_Host r) (URL_Query r)
    (req_Host r) h (req_Cookies r) (RemoteAddr r) (req_Body r).

(** The first pair with the given name: [req.Cookie(name)], and
    [req.URL.Query().Get(name)] with [""] for none. *)
Fixpoint first_named (name : string) (l : list (string * string)) : option string :=
  match l with
  | [] => None
  | (n, v) :: l' => if String.eqb n name then Some v else first_named name l'
  end.

Definition body_length (s : string) : Z := Z.of_nat (String.length s).

(** [http.MaxBytesReader(w, body, n)]. *)
Definition MaxBytesReader (b : Body) (n : Z) : Body :=
  if body_length (body_data b) <=? n then b
  else mkBody (String.substring 0 (Z.to_nat n) (body_data b)) true.

(** ** Response writers *)

(** The fields of [http.Cookie] that the program sets. *)
Inductive SameSite := SameSiteDefaultMode | SameSiteLaxMode | SameSiteStrictMode | SameSiteNoneMode.

Record Cookie := mkCookie {
  ck_Name : string;
  ck_Value : string;
  ck_Path : string;
  ck_HttpOnly : bool;
  ck_SameSite : SameSite;
}.

(** What has been sent on a connection. *)
Record response := mkResponse {
  resp_header : headers;
  resp_cookies : list Cookie;
  resp_status : option Z;
  resp_body : list chunk;
  resp_flushes : nat;
}.

Definition empty_response : response := mkResponse ∅ [] None [] 0.

(** The values a handler can be given as [http.ResponseWriter]: the
    server's own writer, and the audit middleware's [statusWriter] around
    another writer ([internal/router/audit.go]). *)
Inductive ResponseWriter :=
| ServerWriter (r : response)
| StatusWriter (inner : ResponseWriter) (status : Z) (wroteHeader : bool).

(** The connection behind a writer. *)
Fixpoint sent (w : ResponseWriter) : response :=
  match w with ServerWriter r => r | StatusWriter w _ _ => sent w end.

Fixpoint on_response (f : response → response) (w : ResponseWriter) : ResponseWriter :=
  match w with
  | ServerWriter r => ServerWriter (f r)
  | StatusWriter w s b => StatusWriter (on_response f w) s b
  end.

(** [w.(http.Flusher)] looks at the methods of the writer itself; a
    [statusWriter] embeds the interface [http.ResponseWriter], which has no
    [Flush] method. *)
Definition as_Flusher (w : ResponseWriter) : bool :=
  match w with ServerWriter _ => true | StatusWriter _ _ _ => false end.

Definition w_Header_Set (key value : string) : ResponseWriter → ResponseWriter :=
  on_response (λ r, mkResponse (header_Set key value (resp_header r)) (resp_cookies r)
                      (resp_status r) (resp_body r) (resp_flushes r)).

(** [http.SetCookie]: a cookie whose name is no token is dropped. *)
Definition SetCookie (c : Cookie) : ResponseWriter → ResponseWriter :=
  on_response (λ r, mkResponse (resp_header r)
    (if negb (String.eqb (ck_Name c) "") && forallb is_token (list_ascii_of_string (ck_Name c))
     then resp_cookies r ++ [c] else resp_cookies r)
    (resp_status r) (resp_body r) (resp_flushes r)).

(** The server's [WriteHeader]: informational codes are sent at once and
    are not the final status, and only the first final status counts. *)
Definition response_WriteHeader (code : Z) (r : response) : response :=
  if (100 <=? code) && (code <=? 199) && negb (code =? 101) then r
  else match resp_status r with
  | Some _ => r
  | None => mkResponse (resp_header r) (resp_cookies r) (Some code) (resp_body r)
              (resp_flushes r)
  end.

(** [w.WriteHeader(code)]; for a [statusWriter], the method of
    [internal/router/audit.go]. *)
Fixpoint WriteHeader (code : Z) (w : ResponseWriter) : ResponseWriter :=
  match w with
  | ServerWriter r => ServerWriter (response_WriteHeader code r)
  | StatusWriter inner status wroteHeader =>
      if wroteHeader then StatusWriter (WriteHeader code inner) status wroteHeader
      else StatusWriter (WriteHeader code inner) code true
  end.

(** [w.Write(...)] and [fmt.Fprintf(w, ...)]: a body without a status is
    sent with status 200. *)
Definition Write (c : chunk) : ResponseWriter → ResponseWriter :=
  on_response (λ r, let r := response_WriteHeader 200 r in
    mkResponse (resp_header r) (resp_cookies r) (resp_status r) (resp_body r ++ [c])
      (resp_flushes r)).

Definition Flush : ResponseWriter → ResponseWriter :=
  on_response (λ r, let r := response_WriteHeader 200 r in
    mkResponse (resp_header r) (resp_cookies r) (resp_status r) (resp_body r)
      (S (resp_flushes r))).

(** [http.Error(w, msg, code)]. *)
Definition http_Error (msg : string) (code : Z) (w : ResponseWriter) : ResponseWriter :=
  Write (CText (msg +:+ newline))
    (WriteHeader code
      (w_Header_Set "X-Content-Type-Options" "nosniff"
        (w_Header_Set "Content-Type" "text/plain; charset=utf-8" w))).

(** A handler over the state [S]. *)
Definition handler_fn (S : Type) : Type :=
  Request → ResponseWriter → S → ResponseWriter * S.

(** ** Lemmas *)

Lemma sent_on_response f w : sent (on_response f w) = f (sent w).
Proof. induction w as [r|w IH s b]; simpl; auto. Qed.

Lemma sent_WriteHeader code w :
  sent (WriteHeader code w) = response_WriteHeader code (sent w).
Proof. induction w as [r|w IH s []]; simpl; auto. Qed.

Lemma as_Flusher_on_response f w : as_Flusher (on_response f w) = as_Flusher w.
Proof. by destruct w. Qed.

Lemma as_Flusher_WriteHeader code w : as_Flusher (WriteHeader code w) = as_Flusher w.
Proof. by destruct w as [|? ? []]. Qed.

(** The response to a failed request. *)
Lemma sent_http_Error msg code w : resp_status (sent w) = None → 200 ≤ code →
  resp_status (sent (http_Error msg code w)) = Some code ∧
  resp_body (sent (http_Error msg code w)) =
    resp_body (sent w) ++ [CText (msg +:+ newline)].
Proof.
  intros Hnone Hcode. unfold http_Error, Write, w_Header_Set.
  rewrite sent_on_response, sent_WriteHeader, !sent_on_response.
  unfold response_WriteHeader. simpl.
  replace (code <=? 199) with false by lia. rewrite andb_false_r. simpl.
  by rewrite Hnone.
Qed.

Lemma header_Get_Set k v h : header_Get (header_Set k v h) k = v.
Proof. unfold header_Get, header_Set. by rewrite lookup_insert_eq. Qed.

Example canonical_session : canonical_key "x-session-ID" = "X-Session-Id".
Proof. reflexivity. Qed.
