(* ===== verification/Middleware.v ===== *)
(** * Middleware ([internal/router/middleware.go], [audit.go])

    [APIKeyAuth], [MaxBodySize] and [AuditLog] as functions from handlers
    to handlers. *)

From Stdlib Require Import Ascii String.
From S2P Require Import Prelude Http.

(** ** API keys *)

(** [strings.HasPrefix] and [strings.TrimPrefix]. *)
Definition HasPrefix (s p : string) : bool := String.prefix p s.
Definition TrimPrefix (s p : string) : string :=
  if HasPrefix s p
  then String.substring (String.length p) (String.length s - String.length p) s
  else s.

Definition extractAPIKey (r : Request) : string :=
  let auth := header_Get (req_Header r) "Authorization" in
  if negb (String.eqb auth "") && HasPrefix auth "Bearer "
  then TrimPrefix auth "Bearer "
  else header_Get (req_Header r) "X-API-Key".

Definition missing_key_body : string :=
  "{" +:+ String char_dq "code" +:+ String char_dq ":401," +:+
  String char_dq "message" +:+ String char_dq ":" +:+
  String char_dq "missing API key" +:+ String char_dq "}".

Definition invalid_key_body : string :=
  "{" +:+ String char_dq "code" +:+ String char_dq ":403," +:+
  String char_dq "message" +:+ String char_dq ":" +:+
  String char_dq "invalid API key" +:+ String char_dq "}".

Definition APIKeyAuth {S} (apiKeys : list string) (next : handler_fn S) : handler_fn S :=
  match apiKeys with
  | [] => next
  | _ =>
      let allowed : gset string := list_to_set apiKeys in
      λ r w s,
        if String.eqb (URL_Path r) "/health" then next r w s
        else
          let key := extractAPIKey r in
          if String.eqb key "" then (http_Error missing_key_body 401 w, s)
          else if bool_decide (key ∈ allowed) then next r w s
          else (http_Error invalid_key_body 403 w, s)
  end.

(** ** Body size *)

Definition MaxBodySize {S} (maxBytes : Z) (next : handler_fn S) : handler_fn S :=
  if maxBytes <=? 0 then next
  else λ r w s,
    let r := match req_Body r with
             | Some b => with_Body (Some (MaxBytesReader b maxBytes)) r
             | None => r
             end in
    next r w s.

(** ** Audit log *)

(** [extractUserID] of [internal/router/handler.go]. *)
Definition extractUserID (r : Request) : string :=
  let v := header_Get (req_Header r) "X-User-ID" in
  if String.eqb v "" then "anonymous" else v.

(** One log line; the duration is left out. *)
Record audit_entry := mkAudit {
  au_method : string;
  au_path : string;
  au_status : Z;
  au_remote : string;
  au_user : string;
}.

Definition AuditLog {S} (next : handler_fn S) : handler_fn (list audit_entry * S) :=
  λ r w '(log, s),
    let '(sw, s') := next r (StatusWriter w 200 false) s in
    match sw with
    | StatusWriter w' status _ =>
        (w', (log ++ [mkAudit (req_Method r) (URL_Path r) status (RemoteAddr r)
                        (extractUserID r)], s'))
    | ServerWriter _ => (sw, (log, s'))
    end.

(** ** Lemmas *)

(** What a handler does to its writer. *)
Inductive writer_op :=
| OpHeader (key value : string)
| OpCookie (c : Cookie)
| OpStatus (code : Z)
| OpWrite (c : chunk).

Definition do_op (o : writer_op) (w : ResponseWriter) : ResponseWriter :=
  match o with
  | OpHeader k v => w_Header_Set k v w
  | OpCookie c => SetCookie c w
  | OpStatus c => WriteHeader c w
  | OpWrite c => Write c w
  end.

Definition do_ops (os : list writer_op) (w : ResponseWriter) : ResponseWriter :=
  foldl (λ w o, do_op o w) w os.

Fixpoint first_status (os : list writer_op) : option Z :=
  match os with
  | [] => None
  | OpStatus c :: _ => Some c
  | _ :: os' => first_status os'
  end.

Lemma do_ops_StatusWriter os w c b :
  ∃ b', do_ops os (StatusWriter w c b) =
    StatusWriter (do_ops os w) (if b then c else default c (first_status os)) b'.
Proof.
  revert w c b. induction os as [|o os IH]; intros w c b; simpl; [by exists b; destruct b|].
  destruct o as [k v|ck|code|ch]; simpl; [apply IH|apply IH| |apply IH].
  destruct b; [apply IH|]. destruct (IH (WriteHeader code w) code true) as [b' ->]. by exists b'.
Qed.

Lemma APIKeyAuth_cons {S} k ks (next : handler_fn S) r w s :
  URL_Path r ≠ "/health" →
  APIKeyAuth (k :: ks) next r w s =
    (let key := extractAPIKey r in
     if bool_decide (key = "") then (http_Error missing_key_body 401 w, s)
     else if bool_decide (key ∈ k :: ks) then next r w s
     else (http_Error invalid_key_body 403 w, s)).
Proof.
  intros Hp. unfold APIKeyAuth. apply String.eqb_neq in Hp. rewrite Hp. simpl.
  destruct (String.eqb_spec (extractAPIKey r) "") as [->|Hne]; [done|].
  rewrite (bool_decide_false (extractAPIKey r = "")) by done.
  assert (extractAPIKey r ∈ ({[k]} ∪ list_to_set ks : gset string) ↔
    extractAPIKey r ∈ k :: ks) as Heq by set_solver.
  by rewrite (bool_decide_ext _ _ Heq).
Qed.

(** ** Properties *)

(** With a non-empty key list, a request for any path but [/health]
    reaches the protected handler exactly when it presents one of the keys,
    which is never the empty string; otherwise the handler's state is
    untouched and the client gets 401 without a key and 403 with a wrong
    one. *)
Theorem api_key_auth_correct {S} (k : string) (ks : list string) (next : handler_fn S)
    (r : Request) (w : ResponseWriter) (s : S) :
  URL_Path r ≠ "/health" → resp_status (sent w) = None →
  let key := extractAPIKey r in
  let '(w', s') := APIKeyAuth (k :: ks) next r w s in
  (key ≠ "" ∧ key ∈ k :: ks → (w', s') = next r w s) ∧
  (key = "" → s' = s ∧ resp_status (sent w') = Some 401) ∧
  (key ≠ "" ∧ key ∉ k :: ks → s' = s ∧ resp_status (sent w') = Some 403).
Proof.
  intros Hp Hw key. rewrite APIKeyAuth_cons by done. subst key. cbv zeta.
  destruct (decide (extractAPIKey r = "")) as [He|He].
  - rewrite (bool_decide_true (_ = "")) by done.
    split_and!; [tauto| |tauto]. split; [done|]. by apply sent_http_Error.
  - rewrite (bool_decide_false (_ = "")) by done. case_bool_decide as Hk.
    + destruct (next r w s) as [w' s']. split_and!; [done|done|tauto].
    + split_and!; [tauto|done|]. split; [done|]. by apply sent_http_Error.
Qed.

(** The audit log records the first status the handler asks for, and
    200 when it asks for none; when that is an informational status, as a
    reverse proxy forwards them, it is not the status the client gets. *)
Theorem audit_logs_first_status :
  (∀ (r : Request) (w : ResponseWriter) (os : list writer_op) (log : list audit_entry),
    let next : handler_fn unit := λ _ w s, (do_ops os w, s) in
    let '(w', (log', _)) := AuditLog next r w (log, tt) in
    w' = do_ops os w ∧
    ∃ e, log' = log ++ [e] ∧ au_status e = default 200 (first_status os)) ∧
  (let os := [OpStatus 103; OpStatus 404; OpWrite (CText "gone")] in
   first_status os = Some 103 ∧
   resp_status (sent (do_ops os (ServerWriter empty_response))) = Some 404).
Proof.
  split; [|done]. intros r w os log next. unfold AuditLog, next.
  destruct (do_ops_StatusWriter os w 200 false) as [b' ->]. eauto.
Qed.

Definition demo_request : Request :=
  mkRequest "GET" "/api/v1/chat" "" "" [] "example" (header_Set "X-API-Key" "k1" ∅) [] "" None.

Lemma api_key_auth_correct_witness :
  let '(w', s') := APIKeyAuth ["k1"; "k2"] (λ _ w s, (w, Nat.succ s)) demo_request
    (ServerWriter empty_response) 0%nat in
  ("k1" ≠ "" ∧ "k1" ∈ ["k1"; "k2"] → (w', s') = (ServerWriter empty_response, 1%nat)) ∧
  ("k1" = "" → s' = 0%nat ∧ resp_status (sent w') = Some 401) ∧
  ("k1" ≠ "" ∧ "k1" ∉ ["k1"; "k2"] → s' = 0%nat ∧ resp_status (sent w') = Some 403).
Proof.
  apply (api_key_auth_correct "k1" ["k2"] (λ _ w s, (w, Nat.succ s)) demo_request
    (ServerWriter empty_response) 0%nat); [discriminate|reflexivity].
Defined.
