(* ===== verification/WaitQueue.v ===== *)
(** * The wait queue ([internal/router/queue.go])

    Entries are shared: the queue holds pointers to them and each waiting
    request reads its own entry's [Position] and [Ready] channel, so the
    entries live in a heap.  [Ready] is a channel with one slot. *)

From Stdlib Require Import Ascii String.
From stdpp Require Import pretty.
From S2P Require Import Prelude Cache Http.

(** ** Data *)

Abbreviation entry_id := nat.

(** [we_Ready] is the content of the channel's slot. *)
Record WaitEntry := mkWaitEntry {
  we_UserID : string;
  we_Ready : option Allocation;
  we_Position : Z;
  we_EnqueuedAt : Z;
}.

Record WaitQueue := mkWaitQueue {
  wq_heap : gmap entry_id WaitEntry;
  wq_next : entry_id;
  wq_entries : list entry_id;
}.

Definition NewWaitQueue : WaitQueue := mkWaitQueue ∅ 0 [].

Definition set_Position (i : Z) (e : WaitEntry) : WaitEntry :=
  mkWaitEntry (we_UserID e) (we_Ready e) i (we_EnqueuedAt e).
Definition set_Ready (a : option Allocation) (e : WaitEntry) : WaitEntry :=
  mkWaitEntry (we_UserID e) a (we_Position e) (we_EnqueuedAt e).

(** ** Operations *)

Definition Enqueue (userID : string) (now : Z) (q : WaitQueue) : entry_id * WaitQueue :=
  let id := wq_next q in
  let entry := mkWaitEntry userID None (Z.of_nat (length (wq_entries q)) + 1) now in
  (id, mkWaitQueue (<[id := entry]> (wq_heap q)) (S id) (wq_entries q ++ [id])).

(** [for i, e := range q.entries { e.Position = i + 1 }]. *)
Fixpoint renumber (i : Z) (ids : list entry_id) (h : gmap entry_id WaitEntry) :
    gmap entry_id WaitEntry :=
  match ids with
  | [] => h
  | id :: ids' => renumber (i + 1) ids' (alter (set_Position (i + 1)) id h)
  end.

Definition Dequeue (q : WaitQueue) : option entry_id * WaitQueue :=
  match wq_entries q with
  | [] => (None, q)
  | entry :: rest =>
      (Some entry, mkWaitQueue (renumber 0 rest (wq_heap q)) (wq_next q) rest)
  end.

Definition queue_Len (q : WaitQueue) : Z := Z.of_nat (length (wq_entries q)).

(** [entry.Ready <- alloc]; [None] when the slot is full and the send
    blocks. *)
Definition send_Ready (id : entry_id) (alloc : Allocation) (q : WaitQueue) : option WaitQueue :=
  match wq_heap q !! id with
  | Some e =>
      match we_Ready e with
      | Some _ => None
      | None => Some (mkWaitQueue (<[id := set_Ready (Some alloc) e]> (wq_heap q))
                        (wq_next q) (wq_entries q))
      end
  | None => None
  end.

Definition NotifyNext (alloc : Allocation) (q : WaitQueue) : option WaitQueue :=
  match Dequeue q with
  | (None, q') => Some q'
  | (Some entry, q') => send_Ready entry alloc q'
  end.

(** ** Streaming the position *)

(** What a waiting request receives until it returns: ticks, at which its
    entry shows the given positions, and then its allocation, or [None] for
    the end of its context.  A request that is neither served nor left by its
    client has no [sse_wait]: it never returns ([RouterConc] models it as
    blocked). *)
Record sse_wait := mkWait { sw_ticks : list Z; sw_end : option Allocation }.

Definition position_event (position : Z) : chunk :=
  CText ("event: queue" +:+ newline +:+ "data: {" +:+ String char_dq "position" +:+
         String char_dq ":" +:+ pretty position +:+ "}" +:+ newline +:+ newline).

(** The verb [%q] on printable text. *)
Fixpoint quote_body (s : string) : string :=
  match s with
  | EmptyString => EmptyString
  | String c s' =>
      if Ascii.eqb c char_dq || Ascii.eqb c "092"
      then String "092" (String c (quote_body s')) else String c (quote_body s')
  end.
Definition quoted (s : string) : string :=
  String char_dq (quote_body s) +:+ String char_dq "".

Definition allocated_event (alloc : Allocation) : chunk :=
  CText ("event: allocated" +:+ newline +:+ "data: {" +:+ quoted "sessionID" +:+ ":" +:+
         quoted (SessionID alloc) +:+ "," +:+ quoted "host" +:+ ":" +:+
         quoted (ServiceFQDN alloc) +:+ "}" +:+ newline +:+ newline).

(** The last turn of the loop. *)
Definition sse_end (ending : option Allocation) (w : ResponseWriter) : ResponseWriter :=
  match ending with
  | Some alloc => Flush (Write (allocated_event alloc) w)
  | None => w
  end.

(** The [for { select { ... } }] loop over what the request receives. *)
Fixpoint sse_loop (ticks : list Z) (ending : option Allocation) (w : ResponseWriter) : ResponseWriter :=
  match ticks with
  | [] => sse_end ending w
  | position :: ticks' => sse_loop ticks' ending (Flush (Write (position_event position) w))
  end.

Definition sse_headers (w : ResponseWriter) : ResponseWriter :=
  w_Header_Set "Connection" "keep-alive"
    (w_Header_Set "Cache-Control" "no-cache"
      (w_Header_Set "Content-Type" "text/event-stream" w)).

(** [WriteSSEQueuePosition]; [position] is the entry's position when the
    stream starts. *)
Definition WriteSSEQueuePosition (position : Z) (wait : sse_wait)
    (w : ResponseWriter) : ResponseWriter :=
  if negb (as_Flusher w) then http_Error "streaming not supported" 500 w
  else
    let w := sse_headers w in
    let w := Flush (Write (position_event position) w) in
    sse_loop (sw_ticks wait) (sw_end wait) w.

(** ** Specification *)

Inductive queue_op :=
| QEnqueue (userID : string) (now : Z)
| QDequeue
| QNotify (alloc : Allocation).

Definition queue_step (op : queue_op) (q : WaitQueue) : option WaitQueue :=
  match op with
  | QEnqueue u now => Some (Enqueue u now q).2
  | QDequeue => Some (Dequeue q).2
  | QNotify a => NotifyNext a q
  end.

Fixpoint queue_run (ops : list queue_op) (q : WaitQueue) : option WaitQueue :=
  match ops with
  | [] => Some q
  | op :: ops' => q' ← queue_step op q; queue_run ops' q'
  end.

(** A first-in first-out queue of users. *)
Definition fifo_step (op : queue_op) (us : list string) : list string :=
  match op with
  | QEnqueue u _ => us ++ [u]
  | QDequeue | QNotify _ => tail us
  end.

(** Every queued entry exists, is queued once, knows its position and has
    not been served. *)
Record queue_inv (q : WaitQueue) : Prop := {
  qi_nodup : NoDup (wq_entries q);
  qi_bound id : id ∈ wq_entries q → (id < wq_next q)%nat;
  qi_entry i id : wq_entries q !! i = Some id →
    ∃ e, wq_heap q !! id = Some e ∧ we_Position e = Z.of_nat i + 1 ∧ we_Ready e = None;
}.

(** The users waiting, in order. *)
Definition queue_users (q : WaitQueue) : list string :=
  omap (λ id, we_UserID <$> wq_heap q !! id) (wq_entries q).

(** ** Lemmas *)

Lemma renumber_lookup i ids h id : NoDup ids →
  renumber i ids h !! id =
    match list_find (eq id) ids with
    | Some (j, _) => set_Position (i + Z.of_nat j + 1) <$> h !! id
    | None => h !! id
    end.
Proof.
  revert i h. induction ids as [|x ids IH]; intros i h Hnd; simpl; [done|].
  apply NoDup_cons in Hnd as [Hx Hnd]. rewrite IH by done.
  destruct (decide (id = x)) as [->|Hne].
  - destruct (list_find (eq x) ids) as [[j y]|] eqn:Hf.
    + apply list_find_Some in Hf as (Hj & <- & _). by apply list_elem_of_lookup_2 in Hj.
    + rewrite lookup_alter_eq. by replace (i + Z.of_nat 0 + 1) with (i + 1) by lia.
  - rewrite lookup_alter_ne by done.
    destruct (list_find (eq id) ids) as [[j y]|]; simpl; [|done].
    by replace (i + 1 + Z.of_nat j + 1) with (i + Z.of_nat (S j) + 1) by lia.
Qed.

Lemma renumber_users i ids h id : NoDup ids →
  we_UserID <$> renumber i ids h !! id = we_UserID <$> h !! id.
Proof.
  intros Hnd. rewrite renumber_lookup by done.
  destruct (list_find _ _) as [[j ?]|]; [|done]. by destruct (h !! id).
Qed.

Lemma queue_inv_new : queue_inv NewWaitQueue.
Proof. split; [constructor|set_solver|done]. Qed.

Lemma omap_ext_in {A B} (f g : A → option B) (l : list A) :
  (∀ x, x ∈ l → f x = g x) → omap f l = omap g l.
Proof.
  induction l as [|x l IH]; intros Hfg; [done|].
  change (match f x with Some y => y :: omap f l | None => omap f l end =
          match g x with Some y => y :: omap g l | None => omap g l end).
  rewrite Hfg, IH; [done| |]; set_solver.
Qed.

Lemma Enqueue_inv u now q : queue_inv q →
  queue_inv (Enqueue u now q).2 ∧ queue_users (Enqueue u now q).2 = queue_users q ++ [u].
Proof.
  intros [Hnd Hb He]. assert (Hnew : wq_next q ∉ wq_entries q).
  { intros Hin%Hb. lia. }
  split; [split|]; simpl.
  - apply NoDup_app. split_and!; [done|set_solver|apply NoDup_singleton].
  - intros id. rewrite elem_of_app, list_elem_of_singleton. intros [Hin%Hb| ->]; lia.
  - intros i id [Hi|[Hle Hi]]%lookup_app_Some.
    + pose proof (list_elem_of_lookup_2 _ _ _ Hi) as Hin.
      rewrite lookup_insert_ne by (by intros <-). by apply He.
    + apply list_lookup_singleton_Some in Hi as [Hi <-]. rewrite lookup_insert_eq.
      eexists. split_and!; [done| |done]. simpl. lia.
  - unfold queue_users. simpl. rewrite omap_app. simpl. rewrite lookup_insert_eq. simpl.
    f_equal. apply omap_ext_in. intros id Hin. rewrite lookup_insert_ne; [done|].
    by intros <-.
Qed.

Lemma Dequeue_inv q : queue_inv q →
  queue_inv (Dequeue q).2 ∧ queue_users (Dequeue q).2 = tail (queue_users q) ∧
  match (Dequeue q).1 with
  | None => queue_users q = []
  | Some id => id ∉ wq_entries (Dequeue q).2 ∧
      ∃ e, wq_heap (Dequeue q).2 !! id = Some e ∧ we_Ready e = None ∧
           head (queue_users q) = Some (we_UserID e)
  end.
Proof.
  intros [Hnd Hb He]. unfold Dequeue, queue_users.
  destruct (wq_entries q) as [|x ids] eqn:Hq; simpl.
  { split_and!; [|by rewrite ?Hq..]. split; rewrite ?Hq; [constructor|set_solver|done]. }
  apply NoDup_cons in Hnd as [Hx Hnd].
  destruct (He 0%nat x eq_refl) as (e & Hex & _ & Hr). rewrite Hex. simpl. split_and!.
  - split; simpl; [done| |].
    + intros id Hin. apply Hb. by right.
    + intros i id Hi. destruct (He (S i) id Hi) as (e' & He' & _ & Hr').
      rewrite renumber_lookup by done.
      assert (list_find (eq id) ids = Some (i, id)) as ->.
      { apply list_find_Some. split_and!; [done|done|]. intros j y Hj Hlt ->.
        pose proof (NoDup_lookup _ _ _ _ Hnd Hi Hj). lia. }
      rewrite He'. eexists. split_and!; [done|simpl; lia|done].
  - apply omap_ext_in. intros id _. by apply renumber_users.
  - done.
  - pose proof (renumber_users 0 ids (wq_heap q) x Hnd) as Hu.
    rewrite renumber_lookup in * by done.
    destruct (list_find _ _) as [[j y]|] eqn:Hf.
    { apply list_find_Some in Hf as (Hj & <- & _). by apply list_elem_of_lookup_2 in Hj. }
    by exists e.
Qed.

Lemma NotifyNext_inv a q : queue_inv q →
  ∃ q', NotifyNext a q = Some q' ∧ queue_inv q' ∧
    queue_users q' = tail (queue_users q) ∧
    match wq_entries q with
    | [] => q' = q
    | id :: _ => we_Ready <$> wq_heap q' !! id = Some (Some a)
    end.
Proof.
  intros Hinv. pose proof (Dequeue_inv q Hinv) as (Hinv' & Hu & Hd).
  unfold NotifyNext. unfold Dequeue in *. destruct (wq_entries q) as [|x ids] eqn:Hq; simpl in *.
  { by exists q. }
  destruct Hd as (Hx & e & He & Hr & _). unfold send_Ready. simpl. rewrite He, Hr.
  eexists. split; [done|]. destruct Hinv' as [Hnd Hb Hent]. simpl in *. split; [split|]; simpl.
  - done.
  - done.
  - intros i id Hi. rewrite lookup_insert_ne; [by apply Hent|].
    intros <-. by apply list_elem_of_lookup_2 in Hi.
  - split; [|by rewrite lookup_insert_eq]. rewrite <- Hu. unfold queue_users. simpl.
    apply omap_ext_in. intros id Hin. rewrite lookup_insert_ne; [done|]. by intros <-.
Qed.

Lemma queue_step_inv op q : queue_inv q →
  ∃ q', queue_step op q = Some q' ∧ queue_inv q' ∧
    queue_users q' = fifo_step op (queue_users q).
Proof.
  intros Hinv. destruct op as [u now| |a]; simpl.
  - eexists. split; [done|]. by apply Enqueue_inv.
  - eexists. split; [done|]. by destruct (Dequeue_inv q Hinv) as (? & ? & _).
  - destruct (NotifyNext_inv a q Hinv) as (q' & ? & ? & ? & _). eauto.
Qed.

Lemma queue_run_inv ops q : queue_inv q →
  ∃ q', queue_run ops q = Some q' ∧ queue_inv q' ∧
    queue_users q' = foldl (flip fifo_step) (queue_users q) ops.
Proof.
  revert q. induction ops as [|op ops IH]; intros q Hinv; simpl; [eauto|].
  destruct (queue_step_inv op q Hinv) as (q1 & -> & Hinv1 & Hu). simpl.
  destruct (IH q1 Hinv1) as (q' & ? & ? & Hu'). rewrite Hu in Hu'. eauto.
Qed.

(** A stream that has started has status 200. *)
Lemma resp_status_Write c w : resp_status (sent (Write c w)) =
  Some (default 200 (resp_status (sent w))).
Proof.
  unfold Write. rewrite sent_on_response. simpl. unfold response_WriteHeader. simpl.
  by destruct (resp_status (sent w)) eqn:Hs.
Qed.

Lemma resp_status_Flush w : resp_status (sent (Flush w)) =
  Some (default 200 (resp_status (sent w))).
Proof.
  unfold Flush. rewrite sent_on_response. simpl. unfold response_WriteHeader. simpl.
  by destruct (resp_status (sent w)) eqn:Hs.
Qed.

Lemma sse_loop_status ticks ending w c : resp_status (sent w) = Some c →
  resp_status (sent (sse_loop ticks ending w)) = Some c.
Proof.
  revert w. induction ticks as [|p ticks IH]; intros w Hw; simpl.
  - destruct ending; simpl; [|done]. by rewrite resp_status_Flush, resp_status_Write, Hw.
  - apply IH. by rewrite resp_status_Flush, resp_status_Write, Hw.
Qed.

Lemma WriteSSEQueuePosition_status position wait w :
  as_Flusher w = true → resp_status (sent w) = None →
  resp_status (sent (WriteSSEQueuePosition position wait w)) = Some 200.
Proof.
  intros Hf Hw. unfold WriteSSEQueuePosition. rewrite Hf. simpl. apply sse_loop_status.
  rewrite resp_status_Flush, resp_status_Write. unfold sse_headers, w_Header_Set.
  rewrite !sent_on_response. simpl. by rewrite Hw.
Qed.

(** ** Properties *)

(** C27: the wait queue refines a first-in first-out queue: after any
    sequence of [Enqueue], [Dequeue] and [NotifyNext] calls on a new queue
    the users wait in their order of arrival, no call blocks (the channel
    of a queued entry is always empty), and every queued entry shows its
    own 1-based position. *)
Theorem wait_queue_fifo (ops : list queue_op) :
  ∃ q, queue_run ops NewWaitQueue = Some q ∧
    queue_users q = foldl (flip fifo_step) [] ops ∧
    ∀ i id, wq_entries q !! i = Some id →
      ∃ e, wq_heap q !! id = Some e ∧ we_Position e = Z.of_nat i + 1 ∧ we_Ready e = None.
Proof.
  destruct (queue_run_inv ops NewWaitQueue queue_inv_new) as (q & Hr & Hinv & Hu).
  exists q. split_and!; [done|done|apply Hinv].
Qed.

(** [NotifyNext] serves the longest waiting request: the allocation is
    put into the channel of the first entry, which leaves the queue. *)
Theorem notify_serves_first (a : Allocation) (q : WaitQueue) (id : entry_id)
    (ids : list entry_id) :
  queue_inv q → wq_entries q = id :: ids →
  ∃ q', NotifyNext a q = Some q' ∧ wq_entries q' = ids ∧
    we_Ready <$> wq_heap q' !! id = Some (Some a).
Proof.
  intros Hinv Hq. destruct (NotifyNext_inv a q Hinv) as (q' & Hn & _ & _ & Hr).
  exists q'. rewrite Hq in Hr. split_and!; [done| |done].
  unfold NotifyNext, Dequeue in Hn. rewrite Hq in Hn. unfold send_Ready in Hn. simpl in Hn.
  repeat case_match; by simplify_eq/=.
Qed.

Lemma notify_serves_first_witness :
  ∃ q', NotifyNext zero_allocation (Enqueue "bob" 5 (Enqueue "alice" 4 NewWaitQueue).2).2
      = Some q' ∧ wq_entries q' = [1%nat] ∧
    we_Ready <$> wq_heap q' !! 0%nat = Some (Some zero_allocation).
Proof.
  apply (notify_serves_first zero_allocation); [|reflexivity].
  apply Enqueue_inv, Enqueue_inv, queue_inv_new.
Defined.
