(* ===== verification/Router.v ===== *)
(** * The router ([internal/router/handler.go], [proxy.go])

    [Router.ServeHTTP] over the pool manager, the allocation cache it
    shares, the wait queue and the per-host reverse proxies. *)

From Stdlib Require Import Ascii String.
From S2P Require Import Prelude Effects Cache Provider PoolManager PoolInv PoolSpec PoolThms Http Middleware WaitQueue Demo.

(** ** Reverse proxies ([proxy.go]) *)

(** A sandbox's answer. *)
Record backend_response := mkBackendResponse {
  br_status : Z;
  br_header : list (string * string);
  br_body : list chunk;
}.

(** The connection to the sandboxes: the round trip of a request as the
    director leaves it, [httputil.ReverseProxy]'s treatment of hop-by-hop
    headers included.  Informational answers, protocol upgrades and bodies
    that break off are left out. *)
Class Backend := round_trip : Request → result backend_response.

(** The target the director closes over. *)
Record ReverseProxy := mkReverseProxy { target_Scheme : string; target_Host : string }.

Definition Director (rp : ReverseProxy) (outReq : Request) : Request :=
  let outReq := with_Target (target_Scheme rp) (target_Host rp) outReq in
  match req_Header outReq !! "User-Agent" with
  | Some _ => outReq
  | None => with_Header (header_Set "User-Agent" "" (req_Header outReq)) outReq
  end.

(** [ReverseProxy.ServeHTTP]: copy the answer, or call the error handler. *)
Definition ReverseProxy_ServeHTTP `{Backend} (rp : ReverseProxy) (w : ResponseWriter)
    (req : Request) : ResponseWriter :=
  match round_trip (Director rp req) with
  | Ok resp =>
      let w := on_response (λ r, mkResponse
        (foldl (λ h '(k, v), header_Add k v h) (resp_header r) (br_header resp))
        (resp_cookies r) (resp_status r) (resp_body r) (resp_flushes r)) w in
      foldl (λ w c, Write c w) (WriteHeader (br_status resp) w) (br_body resp)
  | Err _ => http_Error "bad gateway" 502 w
  end.

(** [type Proxy struct], less logger and transport; the [sync.Map] goes from
    target hosts to proxies. *)
Record Proxy := mkProxy { proxies : gmap string ReverseProxy }.

Definition NewProxy : Proxy := mkProxy ∅.

(** [sync.Map.LoadOrStore]: the value of the key afterwards. *)
Definition LoadOrStore (key : string) (value : ReverseProxy) (p : Proxy) : ReverseProxy * Proxy :=
  match proxies p !! key with
  | Some actual => (actual, p)
  | None => (value, mkProxy (<[key := value]> (proxies p)))
  end.

Definition getOrCreateProxy (targetHost : string) (p : Proxy) : ReverseProxy * Proxy :=
  match proxies p !! targetHost with
  | Some rp => (rp, p)
  | None => LoadOrStore targetHost (mkReverseProxy "http" targetHost) p
  end.

Definition Forward `{Backend} (w : ResponseWriter) (req : Request) (targetHost : string)
    (p : Proxy) : ResponseWriter * Proxy :=
  let '(rp, p) := getOrCreateProxy targetHost p in
  (ReverseProxy_ServeHTTP rp w req, p).

(** ** The router ([handler.go]) *)

Record SessionExtractor := mkExtractor {
  ex_Header : string;
  ex_Cookie : string;
  ex_QueryParam : string;
}.

(** What the router's fields hold or point to. *)
Record router_state (P : Type) := mkRouterState {
  rs_world : world P;
  rs_queue : WaitQueue;
  rs_proxy : Proxy;
}.
Arguments mkRouterState {P}. Arguments rs_world {P}. Arguments rs_queue {P}.
Arguments rs_proxy {P}.

Definition NewRouter {P} (w : world P) : router_state P := mkRouterState w NewWaitQueue NewProxy.

Definition orElse (v : string) (k : string) : string := if String.eqb v "" then k else v.

Definition extractSessionID (req : Request) (ext : SessionExtractor) : string :=
  let header :=
    if String.eqb (ex_Header ext) "" then "" else header_Get (req_Header req) (ex_Header ext) in
  let cookie :=
    if String.eqb (ex_Cookie ext) "" then ""
    else default "" (first_named (ex_Cookie ext) (req_Cookies req)) in
  let query :=
    if String.eqb (ex_QueryParam ext) "" then ""
    else default "" (first_named (ex_QueryParam ext) (URL_Query req)) in
  orElse header (orElse cookie (orElse query "")).

(** The cookie of a session. *)
Definition session_cookie (name sid : string) : Cookie := mkCookie name sid "/" true SameSiteLaxMode.

Section router.
Context {P : Type} `{SandboxProvider P} `{Runtime} `{Backend}.
Context (pool : PoolManager) (extractor : SessionExtractor).

(** [wait] is what the request receives while it waits in the queue.  A
    call of [Allocate] that blocks for ever leaves the writer as it is. *)
Definition handleAllocateAndProxy (wait : sse_wait) (userID : string)
    (req : Request) (w : ResponseWriter) (s : router_state P) :
    ResponseWriter * router_state P :=
  match run handle (Allocate pool userID) (rs_world s) with
  | None => (w, s)
  | Some (Ok l, wd) =>
      let alloc := deref (w_heap wd) l in
      let w := w_Header_Set "X-Session-ID" (SessionID alloc) w in
      let w := SetCookie (session_cookie (ex_Cookie extractor) (SessionID alloc)) w in
      let '(w, px) := Forward w req (ServiceFQDN alloc) (rs_proxy s) in
      (w, mkRouterState wd (rs_queue s) px)
  | Some (Err err, wd) =>
      if negb (errors_Is err "pool.ErrPoolExhausted") then
        (http_Error "failed to allocate sandbox" 500 w,
         mkRouterState wd (rs_queue s) (rs_proxy s))
      else
        let '(id, q) := Enqueue userID (env_now (w_tick wd)) (rs_queue s) in
        let position := from_option we_Position 0 (wq_heap q !! id) in
        (WriteSSEQueuePosition position wait w,
         mkRouterState (tick wd) q (rs_proxy s))
  end.

Definition ServeHTTP (wait : sse_wait) : handler_fn (router_state P) := λ req w s,
  let sessionID := extractSessionID req extractor in
  match
    (if String.eqb sessionID "" then None
     else GetBySession (w_cache (rs_world s)) sessionID)
  with
  | Some l =>
      let alloc := deref (w_heap (rs_world s)) l in
      let '(w, px) := Forward w req (ServiceFQDN alloc) (rs_proxy s) in
      (w, mkRouterState (rs_world s) (rs_queue s) px)
  | None => handleAllocateAndProxy wait (extractUserID req) req w s
  end.

(** ** Invariant and lemmas *)

(** The cached proxies forward to the host they are cached under. *)
Definition proxy_ok (p : Proxy) : Prop :=
  ∀ h rp, proxies p !! h = Some rp → rp = mkReverseProxy "http" h.

Record router_inv (s : router_state P) `{!SandboxProviderLaws P} : Prop := {
  ri_pool : pool_inv pool (rs_world s);
  ri_queue : queue_inv (rs_queue s);
  ri_proxy : proxy_ok (rs_proxy s);
}.

Lemma LoadOrStore_ok host p : proxy_ok p →
  ∃ p', LoadOrStore host (mkReverseProxy "http" host) p = (mkReverseProxy "http" host, p') ∧
    proxy_ok p'.
Proof.
  intros Hp. unfold LoadOrStore. destruct (proxies p !! host) as [rp|] eqn:Hh.
  - rewrite (Hp _ _ Hh). eauto.
  - eexists. split; [done|]. intros h rp Hr. simpl in Hr.
    apply lookup_insert_Some in Hr as [[<- <-]|[_ Hr]]; auto.
Qed.

Lemma Forward_ok w req host p : proxy_ok p →
  ∃ p', Forward w req host p = (ReverseProxy_ServeHTTP (mkReverseProxy "http" host) w req, p') ∧
    proxy_ok p'.
Proof.
  intros Hp. unfold Forward, getOrCreateProxy. destruct (proxies p !! host) as [rp|] eqn:Hh.
  - rewrite (Hp _ _ Hh). eauto.
  - destruct (LoadOrStore_ok host p Hp) as (p' & -> & Hp'). eauto.
Qed.

Context `{!SandboxProviderLaws P, !RuntimeLaws}.
Implicit Types s : router_state P.

(** A sandbox in use by a session, at an address. *)
Definition serves (wd : world P) (n sid host : string) : Prop :=
  ∃ a, pool_view wd !! n = Some a ∧ Status a = StatusActive ∧ SessionID a = sid ∧
    ServiceFQDN a = host.

(** A successful allocation serves its session. *)
Lemma Allocate_session u wd l wd' : pool_inv pool wd →
  run handle (Allocate pool u) wd = Some (Ok l, wd') →
  let a := deref (w_heap wd') l in
  pool_inv pool wd' ∧ SessionID a ≠ "" ∧ serves wd' (SandboxName a) (SessionID a) (ServiceFQDN a).
Proof.
  intros Hinv Hrun. destruct (Allocate_meets pool u wd Hinv) as (r & w1 & Hrun' & Hinv' & Hspec).
  rewrite Hrun in Hrun'. simplify_eq/=. split; [done|].
  assert (∃ n, pool_view w1 !! n = Some (deref (w_heap w1) l) ∧
    SessionID (deref (w_heap w1) l) ≠ "" ∧ Status (deref (w_heap w1) l) = StatusActive) as (n & Hv & Hs & Hst).
  { remember (pool_view w1) as m' eqn:Hm'. remember (deref (w_heap w1) l) as a0 eqn:Ha0.
    inversion Hspec as [? ? n b sid now Hn Hst [Hne _]|? ? n fqdn sid now ? ? ? [Hne _]| | | | | | | | | | |];
      subst; eexists; (split; [by rewrite lookup_insert_eq|done]). }
  split; [done|]. exists (deref (w_heap w1) l). split_and!; try done.
  pose proof (pw_cache _ (pi_wf _ _ Hinv')) as wf. pose proof Hv as Hv'.
  unfold pool_view in Hv. rewrite view_Some in Hv by done. destruct Hv as (l' & Hl' & Hh).
  destruct (wf_name _ _ wf _ _ Hl') as (b & Hb & Hn). congruence.
Qed.

Lemma Allocate_err u wd : pool_inv pool wd →
  ∃ r wd', run handle (Allocate pool u) wd = Some (r, wd') ∧ pool_inv pool wd'.
Proof.
  intros Hinv. destruct (Allocate_meets pool u wd Hinv) as (r & w1 & ? & ? & _). eauto.
Qed.

Lemma pool_inv_tick wd : pool_inv pool wd → pool_inv pool (tick wd).
Proof. intros Hinv. eapply pool_inv_env; [|exact Hinv]. split; simpl; try done; lia. Qed.

Lemma ServeHTTP_inv ev req w s : router_inv s → router_inv (ServeHTTP ev req w s).2.
Proof.
  intros [Hp Hq Hx]. unfold ServeHTTP, handleAllocateAndProxy.
  match goal with |- context [match ?o with Some _ => _ | None => _ end] =>
    destruct o as [l|] end.
  - destruct (Forward_ok w req (ServiceFQDN (deref (w_heap (rs_world s)) l)) _ Hx)
      as (px & -> & Hpx). by split.
  - destruct (Allocate_err (extractUserID req) _ Hp) as (r & wd' & -> & Hinv').
    destruct r as [l|e].
    + match goal with |- context [Forward ?w0 ?r0 ?h0 ?p0] =>
        destruct (Forward_ok w0 r0 h0 p0 Hx) as (px & -> & Hpx) end. by split.
    + destruct (negb _); [by split|].
      pose proof (Enqueue_inv (extractUserID req) (env_now (w_tick wd')) _ Hq) as [Hq' _].
      destruct (Enqueue _ _ _) as [id q]. split; [by apply pool_inv_tick|done|done].
Qed.

(** A request of a known session. *)
Lemma ServeHTTP_known ev req w s l : router_inv s → extractSessionID req extractor ≠ "" →
  GetBySession (w_cache (rs_world s)) (extractSessionID req extractor) = Some l →
  ∃ s', ServeHTTP ev req w s =
      (ReverseProxy_ServeHTTP
         (mkReverseProxy "http" (ServiceFQDN (deref (w_heap (rs_world s)) l))) w req, s') ∧
    rs_world s' = rs_world s ∧ rs_queue s' = rs_queue s ∧ router_inv s'.
Proof.
  intros Hinv Hne Hl. pose proof (ServeHTTP_inv ev req w s Hinv) as Hinv'. revert Hinv'.
  unfold ServeHTTP. apply String.eqb_neq in Hne. rewrite Hne, Hl.
  destruct (Forward_ok w req (ServiceFQDN (deref (w_heap (rs_world s)) l)) _ (ri_proxy _ Hinv))
    as (px & -> & Hpx). eauto.
Qed.

Lemma header_Get_Add k v k' h : header_Get h k ≠ "" →
  header_Get (header_Add k' v h) k = header_Get h k.
Proof.
  unfold header_Get, header_Add. destruct (decide (canonical_key k' = canonical_key k)) as [->|Hne].
  - rewrite lookup_insert_eq. destruct (h !! canonical_key k) as [[|x l]|]; done.
  - by rewrite lookup_insert_ne.
Qed.

Lemma header_Get_Adds k kvs h : header_Get h k ≠ "" →
  header_Get (foldl (λ h '(k, v), header_Add k v h) h kvs) k = header_Get h k.
Proof.
  revert h. induction kvs as [|[k' v'] kvs IH]; intros h Hne; simpl; [done|].
  rewrite IH; by rewrite header_Get_Add.
Qed.

Lemma resp_header_WriteHeader c r : resp_header (response_WriteHeader c r) = resp_header r.
Proof. unfold response_WriteHeader. by repeat case_match. Qed.

Lemma header_Writes cs w :
  resp_header (sent (foldl (λ w c, Write c w) w cs)) = resp_header (sent w).
Proof.
  revert w. induction cs as [|c cs IH]; intros w; simpl; [done|].
  rewrite IH. unfold Write. rewrite sent_on_response. simpl. apply resp_header_WriteHeader.
Qed.

(** Forwarding keeps a header that is already set. *)
Lemma ReverseProxy_header rp w req k : header_Get (resp_header (sent w)) k ≠ "" →
  canonical_key k ≠ canonical_key "Content-Type" →
  canonical_key k ≠ canonical_key "X-Content-Type-Options" →
  header_Get (resp_header (sent (ReverseProxy_ServeHTTP rp w req))) k =
    header_Get (resp_header (sent w)) k.
Proof.
  intros Hk Hk1 Hk2. unfold ReverseProxy_ServeHTTP. destruct (round_trip _) as [resp|e].
  - rewrite header_Writes, sent_WriteHeader, sent_on_response, resp_header_WriteHeader. simpl.
    by apply header_Get_Adds.
  - unfold http_Error, Write, w_Header_Set.
    rewrite sent_on_response, sent_WriteHeader, !sent_on_response. simpl.
    rewrite !resp_header_WriteHeader. simpl. unfold header_Get, header_Set.
    by rewrite !lookup_insert_ne by congruence.
Qed.

(** A request that presents no session, or one the cache does not know. *)
Definition sessionless (req : Request) (s : router_state P) : Prop :=
  extractSessionID req extractor = "" ∨
  GetBySession (w_cache (rs_world s)) (extractSessionID req extractor) = None.

Lemma ServeHTTP_sessionless ev req w s : sessionless req s →
  ServeHTTP ev req w s = handleAllocateAndProxy ev (extractUserID req) req w s.
Proof.
  unfold ServeHTTP. intros [-> | ->]; [done|]. by destruct (String.eqb _ "").
Qed.

(** ** Histories *)

(** What may happen to the router: a request, or a call of the pool by the
    collector, the warm pool, or another client. *)
Inductive router_step :=
| StepRequest (wait : sse_wait) (req : Request) (w : ResponseWriter)
| StepPool (op : pool_op).

Definition step_router (st : router_step) (s : router_state P) : router_state P :=
  match st with
  | StepRequest wait req w => (ServeHTTP wait req w s).2
  | StepPool op =>
      match run_op pool op (rs_world s) with
      | Some (_, wd) => mkRouterState wd (rs_queue s) (rs_proxy s)
      | None => s
      end
  end.

Definition run_router (sts : list router_step) (s : router_state P) : router_state P :=
  foldl (flip step_router) s sts.

(** The step does not give the sandbox [n] back: it is no release of that
    name, and no collection that finds it unused for longer than its
    timeout. *)
Definition spares (n : string) (st : router_step) (s : router_state P) : Prop :=
  match st with
  | StepPool (OpRelease m) => m ≠ n
  | StepPool (OpRunGC t) => ∀ a, pool_view (rs_world s) !! n = Some a →
      env_now (w_tick (rs_world s)) - t ≤ LastActivity a
  | _ => True
  end.

Fixpoint spared (n : string) (sts : list router_step) (s : router_state P) : Prop :=
  match sts with
  | [] => True
  | st :: sts' => spares n st s ∧ spared n sts' (step_router st s)
  end.

Lemma serves_indexed wd n sid host : pool_inv pool wd → serves wd n sid host → sid ≠ "" →
  ∃ l, GetBySession (w_cache wd) sid = Some l ∧ ServiceFQDN (deref (w_heap wd) l) = host.
Proof.
  intros Hinv (a & Hv & _ & <- & <-) Hne. pose proof (pw_cache _ (pi_wf _ _ Hinv)) as wf.
  unfold pool_view in Hv. rewrite view_Some in Hv by done. destruct Hv as (l & Hl & Ha).
  exists l. split; [by eapply (wf_indexed _ _ wf)|by rewrite (deref_Some _ _ _ Ha)].
Qed.

Lemma Allocate_serves u wd r wd' n sid host : pool_inv pool wd →
  run handle (Allocate pool u) wd = Some (r, wd') → serves wd n sid host → serves wd' n sid host.
Proof.
  intros Hinv Hrun (a & Ha & Hst & Hs & Hf).
  destruct (run_op_meets pool (OpAllocate u) wd Hinv) as (r' & w1 & Hop & _ & Hspec).
  unfold run_op in Hop. rewrite Hrun in Hop. injection Hop as _ <-.
  destruct (spec_active _ _ _ _ _ n a Hspec) as (a' & ? & ? & ? & ?); [done..|].
  exists a'. split_and!; congruence.
Qed.

Lemma step_router_ok st n sid host s : router_inv s → serves (rs_world s) n sid host → spares n st s →
  router_inv (step_router st s) ∧ serves (rs_world (step_router st s)) n sid host.
Proof.
  intros Hinv Hserves Hkeep. pose proof Hinv as [Hp Hq Hx].
  destruct st as [wait req w|op]; cbn [step_router].
  - split; [by apply ServeHTTP_inv|]. unfold ServeHTTP, handleAllocateAndProxy.
    match goal with |- context [match ?o with Some _ => _ | None => _ end] =>
      destruct o as [l|] end.
    { by destruct (Forward_ok w req (ServiceFQDN (deref (w_heap (rs_world s)) l)) _ Hx) as (px & -> & _). }
    destruct (Allocate_err (extractUserID req) _ Hp) as (r & wd' & Hrun & _). rewrite Hrun.
    apply (Allocate_serves _ _ _ _ n sid host Hp Hrun) in Hserves. destruct r as [l|e].
    + match goal with |- context [Forward ?w0 ?r0 ?h0 ?p0] =>
        by destruct (Forward_ok w0 r0 h0 p0 Hx) as (px & -> & _) end.
    + destruct (negb _); [done|]. by destruct (Enqueue _ _ _).
  - destruct (run_op_meets pool op _ Hp) as (r & wd & Hop & Hp' & Hspec). rewrite Hop.
    split; [by split|]. destruct Hserves as (a & Ha & Hst & Hs & Hf).
    assert ((∃ t, op = OpRunGC t) ∨ match op with OpRunGC _ => False | _ => True end)
      as [[t ->]|Hngc] by (destruct op; eauto).
    + destruct (RunGC_meets pool t _ Hp) as ([] & w1 & Hr & _ & Hgc). unfold run_op in Hop. rewrite Hr in Hop.
      injection Hop as _ <-. specialize (Hgc n). rewrite Ha in Hgc. cbn in Hgc, Hkeep.
      destruct (expired _ a) eqn:He.
      { apply expired_true in He as (_ & _ & Hlt). specialize (Hkeep a Ha). lia. }
      by exists a.
    + destruct (spec_active _ _ _ _ _ n a Hspec) as (a' & ? & ? & ? & ?); [|done..|].
      { by destruct op. }
      exists a'. cbn. split_and!; congruence.
Qed.

Lemma run_router_ok sts n sid host s : router_inv s → serves (rs_world s) n sid host → spared n sts s →
  router_inv (run_router sts s) ∧ serves (rs_world (run_router sts s)) n sid host.
Proof.
  revert s. induction sts as [|st sts IH]; intros s Hinv Hs; [done|]. intros [Hst Hsts].
  destruct (step_router_ok st n sid host s Hinv Hs Hst). by apply IH.
Qed.

(** ** Properties *)

(** C18: session affinity: a request without a known session that is given
    a sandbox gets the session's identifier in the [X-Session-ID] header of
    its answer.  From then on, whatever other requests the router serves and
    whatever the pool is asked to do, as long as the sandbox is not released
    by name and not found unused by a collection for longer than its
    timeout, every request that presents the identifier (in whatever place
    the extractor looks at) is proxied to that sandbox, whatever happens to
    the connection. *)
Theorem session_affinity ev req w s l wd :
  router_inv s → sessionless req s →
  run handle (Allocate pool (extractUserID req)) (rs_world s) = Some (Ok l, wd) →
  let alloc := deref (w_heap wd) l in
  let '(w1, s1) := ServeHTTP ev req w s in
  router_inv s1 ∧ SessionID alloc ≠ "" ∧
  header_Get (resp_header (sent w1)) "X-Session-ID" = SessionID alloc ∧
  ∀ sts ev2 req2 w2, spared (SandboxName alloc) sts s1 →
    extractSessionID req2 extractor = SessionID alloc →
    (ServeHTTP ev2 req2 w2 (run_router sts s1)).1 =
      ReverseProxy_ServeHTTP (mkReverseProxy "http" (ServiceFQDN alloc)) w2 req2.
Proof.
  intros Hinv Hid Hrun alloc. pose proof (ServeHTTP_inv ev req w s Hinv) as Hinv'.
  revert Hinv'. rewrite ServeHTTP_sessionless by done. unfold handleAllocateAndProxy. rewrite Hrun.
  fold alloc. destruct (Allocate_session _ _ _ _ (ri_pool _ Hinv) Hrun) as (_ & Hne & Hserves).
  fold alloc in Hne, Hserves.
  match goal with |- context [Forward ?w0 ?r0 ?h0 ?p0] =>
    destruct (Forward_ok w0 r0 h0 p0 (ri_proxy _ Hinv)) as (px & -> & Hpx) end.
  cbn [snd]. intros Hinv'. split_and!; [exact Hinv'|done| |].
  - assert (Hh : header_Get (resp_header (sent (SetCookie (session_cookie (ex_Cookie extractor) (SessionID alloc))
      (w_Header_Set "X-Session-ID" (SessionID alloc) w)))) "X-Session-ID" = SessionID alloc).
    { unfold SetCookie, w_Header_Set. rewrite !sent_on_response. apply header_Get_Set. }
    rewrite ReverseProxy_header; [exact Hh|by rewrite Hh|done|done].
  - intros sts ev2 req2 w2 Hsts Hid2.
    destruct (run_router_ok _ _ _ _ _ Hinv' Hserves Hsts) as [Hinv2 Hs2].
    destruct (serves_indexed _ _ _ _ (ri_pool _ Hinv2) Hs2 Hne) as (l2 & Hl2 & <-).
    rewrite <- Hid2 in Hl2, Hne.
    by destruct (ServeHTTP_known ev2 req2 w2 _ l2 Hinv2 Hne Hl2) as (s2 & -> & _).
Qed.

(** Requests of one session, one after the other. *)
Fixpoint serve_all (reqs : list (sse_wait * Request * ResponseWriter))
    (s : router_state P) : router_state P :=
  match reqs with
  | [] => s
  | (ev, req, w) :: reqs' => serve_all reqs' (ServeHTTP ev req w s).2
  end.

Lemma serve_all_known sid l reqs s : router_inv s → sid ≠ "" →
  GetBySession (w_cache (rs_world s)) sid = Some l →
  Forall (λ r, extractSessionID r.1.2 extractor = sid) reqs →
  rs_world (serve_all reqs s) = rs_world s ∧ router_inv (serve_all reqs s).
Proof.
  intros Hinv Hne Hl Hreqs. revert s Hinv Hl.
  induction Hreqs as [|[[ev req] w] reqs Hr _ IH]; intros s Hinv Hl; [done|].
  simpl in *. destruct (ServeHTTP_known ev req w s l Hinv) as (s' & -> & Hw & _ & Hinv').
  - by rewrite Hr.
  - by rewrite Hr.
  - simpl. rewrite <- Hw. apply IH; [done|by rewrite Hw].
Qed.

(** C29: proxied requests do not count as activity: however many requests
    of a session the router has proxied, a collection whose cutoff lies
    after the time the sandbox was assigned removes the sandbox (or leaves
    it in [StatusReleasing] when its deletion fails). *)
Theorem proxied_requests_do_not_keep_alive sid n a idleTimeout reqs s :
  router_inv s → pool_view (rs_world s) !! n = Some a → SessionID a = sid → sid ≠ "" →
  Status a = StatusActive →
  LastActivity a < env_now (w_tick (rs_world s)) - idleTimeout →
  Forall (λ r, extractSessionID r.1.2 extractor = sid) reqs →
  ∃ w', run handle (RunGC pool idleTimeout) (rs_world (serve_all reqs s)) = Some (tt, w') ∧
    (pool_view w' !! n = None ∨ pool_view w' !! n = Some (releasing a)).
Proof.
  intros Hinv Ha Hs Hne Hst Hlast Hreqs. pose proof (ri_pool _ Hinv) as Hp.
  pose proof Ha as Hv. unfold pool_view in Hv.
  rewrite view_Some in Hv by apply (pw_cache _ (pi_wf _ _ Hp)).
  destruct Hv as (l & Hl & Hh). subst sid.
  pose proof (wf_indexed _ _ (pw_cache _ (pi_wf _ _ Hp)) _ _ _ Hl Hh Hne) as Hidx.
  destruct (serve_all_known _ l reqs s Hinv Hne Hidx Hreqs) as [Hw _]. rewrite Hw.
  destruct (RunGC_meets pool idleTimeout _ Hp) as ([] & w' & Hrun & _ & Hgc).
  exists w'. split; [done|]. specialize (Hgc n). rewrite Ha in Hgc. simpl in Hgc.
  rewrite (proj2 (expired_true _ a)) in Hgc; [done|]. by rewrite Hst.
Qed.

(** C28: an exhausted pool queues the request: the pool and the proxies are
    untouched, the request is the last entry of the queue at the next
    position, and whether it can be told so depends on the writer: the
    server's own writer streams the position, any wrapped writer gets 500
    (and the entry stays queued, here as after a disconnect). *)
Theorem exhausted_request_is_queued ev req w s wd :
  router_inv s → sessionless req s →
  run handle (Allocate pool (extractUserID req)) (rs_world s) = Some (Err ErrPoolExhausted, wd) →
  resp_status (sent w) = None →
  let '(w1, s1) := ServeHTTP ev req w s in
  let q := rs_queue s in
  wq_entries (rs_queue s1) = wq_entries q ++ [wq_next q] ∧
  from_option we_Position 0 (wq_heap (rs_queue s1) !! wq_next q) = queue_Len q + 1 ∧
  rs_proxy s1 = rs_proxy s ∧ rs_world s1 = tick wd ∧
  (as_Flusher w = false → resp_status (sent w1) = Some 500) ∧
  (as_Flusher w = true → resp_status (sent w1) = Some 200).
Proof.
  intros Hinv Hid Hrun Hw. rewrite ServeHTTP_sessionless by done.
  unfold handleAllocateAndProxy. rewrite Hrun. simpl. rewrite lookup_insert_eq. simpl. split_and!; try done.
  - intros Hf. unfold WriteSSEQueuePosition. rewrite Hf. simpl. by apply sent_http_Error.
  - intros Hf. apply WriteSSEQueuePosition_status; done.
Qed.

End router.

(** ** Witnesses *)

#[local] Existing Instance demo_runtime.

(** A sandbox that answers every request. *)
#[local] Instance demo_backend : Backend :=
  λ req, Ok (mkBackendResponse 200 [("Server", "opencode")] [CText (URL_Host req)]).

Definition demo_extractor : SessionExtractor :=
  mkExtractor "X-Session-ID" "session_id" "session_id".

Definition demo_router : router_state MockSandboxProvider := NewRouter demo_start.

Lemma NewRouter_inv {P} `{SandboxProviderLaws P} pool (wd : world P) : pool_inv pool wd → router_inv pool (NewRouter wd).
Proof. intros Hinv. split; [done|apply queue_inv_new|done]. Qed.

(** A client that leaves the queue at once. *)
Definition gone : sse_wait := mkWait [] None.

(** The world after the first allocation for [demo_request]. *)
Definition demo_allocated : world MockSandboxProvider :=
  match run handle (Allocate demo_pool (extractUserID demo_request)) demo_start with
  | Some (_, w) => w
  | None => demo_start
  end.

(** Another request, a heartbeat, and a collection that spares the sandbox. *)
Definition demo_history : list router_step :=
  [StepRequest gone demo_request (ServerWriter empty_response);
   StepPool (OpHeartbeat (SessionID (deref (w_heap demo_allocated) 1%positive)));
   StepPool (OpRunGC 1000); StepPool (OpRelease "mock-sandbox-9")].

Definition demo_served : ResponseWriter * router_state MockSandboxProvider :=
  ServeHTTP demo_pool demo_extractor gone demo_request (ServerWriter empty_response) demo_router.

Definition demo_served_alloc : Allocation := Eval vm_compute in deref (w_heap demo_allocated) 1%positive.

Lemma demo_served_alloc_eq : deref (w_heap demo_allocated) 1%positive = demo_served_alloc.
Proof. vm_compute. reflexivity. Qed.

(** What the collection finds. *)
Lemma demo_history_cutoff :
  match pool_view (rs_world (run_router demo_pool demo_extractor (take 2 demo_history) demo_served.2))
      !! SandboxName demo_served_alloc with
  | Some a => (env_now (w_tick (rs_world (run_router demo_pool demo_extractor (take 2 demo_history)
      demo_served.2))) - 1000 <=? LastActivity a) = true
  | None => True
  end.
Proof. vm_compute. reflexivity. Qed.

Lemma demo_history_spared :
  spared demo_pool demo_extractor (SandboxName demo_served_alloc) demo_history demo_served.2.
Proof.
  split; [exact I|]. split; [exact I|]. split.
  { intros a Ha. pose proof demo_history_cutoff as Hc. cbn [take demo_history] in Hc.
    unfold run_router in Hc. cbn [foldl flip] in Hc. unfold flip in Hc. rewrite Ha in Hc.
    by apply Z.leb_le. }
  split; [|exact I]. unfold spares. discriminate.
Qed.

Lemma session_affinity_witness :
  header_Get (resp_header (sent demo_served.1)) "X-Session-ID" = SessionID demo_served_alloc ∧
  ∀ ev2 req2 w2, extractSessionID req2 demo_extractor = SessionID demo_served_alloc →
    (ServeHTTP demo_pool demo_extractor ev2 req2 w2
       (run_router demo_pool demo_extractor demo_history demo_served.2)).1 =
      ReverseProxy_ServeHTTP (mkReverseProxy "http" (ServiceFQDN demo_served_alloc)) w2 req2.
Proof.
  assert (Hinv : router_inv demo_pool demo_router) by apply NewRouter_inv, demo_start_inv.
  pose proof (session_affinity demo_pool demo_extractor gone demo_request
    (ServerWriter empty_response) demo_router 1%positive demo_allocated Hinv (or_introl eq_refl)
    ltac:(vm_compute; reflexivity)) as H.
  cbv zeta in H. rewrite demo_served_alloc_eq in H. fold demo_served in H.
  pose proof demo_history_spared as Hsp. destruct demo_served as [w1 s1].
  destruct H as (_ & _ & Hh & Hk). split; [exact Hh|]. intros ev2 req2 w2 Hid.
  by apply Hk.
Defined.

Definition demo_session_request : Request :=
  mkRequest "GET" "/api/v1/chat" "" "" [("session_id", SessionID demo_first)] "example" ∅ [] "" None.

Lemma proxied_requests_do_not_keep_alive_witness :
  ∃ w', run handle (RunGC demo_pool 0) (rs_world (serve_all demo_pool demo_extractor
      [(gone, demo_session_request, ServerWriter empty_response)] (NewRouter demo_active)))
      = Some (tt, w') ∧
    (pool_view w' !! "mock-sandbox-1" = None ∨
     pool_view w' !! "mock-sandbox-1" = Some (releasing demo_first)).
Proof.
  apply (proxied_requests_do_not_keep_alive demo_pool demo_extractor (SessionID demo_first)
    "mock-sandbox-1" demo_first 0
    [(gone, demo_session_request, ServerWriter empty_response)] (NewRouter demo_active)).
  - apply NewRouter_inv, demo_active_inv.
  - vm_compute. reflexivity.
  - reflexivity.
  - vm_compute. discriminate.
  - vm_compute. reflexivity.
  - vm_compute. reflexivity.
  - constructor; [|constructor]. vm_compute. reflexivity.
Defined.

(** A pool of one slot that is taken. *)
Definition tiny_full : world MockSandboxProvider :=
  world_after tiny_pool [OpAllocate "alice"] demo_start.

Definition tiny_exhausted : world MockSandboxProvider :=
  match run handle (Allocate tiny_pool (extractUserID demo_request)) tiny_full with
  | Some (_, w) => w
  | None => tiny_full
  end.

Lemma exhausted_request_is_queued_witness :
  let w := StatusWriter (ServerWriter empty_response) 200 false in
  let '(w1, s1) := ServeHTTP tiny_pool demo_extractor gone demo_request w
    (NewRouter tiny_full) in
  let q := NewWaitQueue in
  wq_entries (rs_queue s1) = wq_entries q ++ [wq_next q] ∧
  from_option we_Position 0 (wq_heap (rs_queue s1) !! wq_next q) = queue_Len q + 1 ∧
  rs_proxy s1 = NewProxy ∧ rs_world s1 = tick tiny_exhausted ∧
  (as_Flusher w = false → resp_status (sent w1) = Some 500) ∧
  (as_Flusher w = true → resp_status (sent w1) = Some 200).
Proof.
  apply (exhausted_request_is_queued tiny_pool demo_extractor gone demo_request
    (StatusWriter (ServerWriter empty_response) 200 false) (NewRouter tiny_full) tiny_exhausted).
  - apply NewRouter_inv, world_after_inv, tiny_start_inv.
  - by left.
  - vm_compute. reflexivity.
  - reflexivity.
Defined.
