(* ===== verification/RouterConc.v ===== *)
(** * The router under concurrent requests ([handler.go], [proxy.go], [queue.go])

    The server runs every request in a goroutine of its own, beside the
    collector and the other callers of the pool, while clients come and go.
    The handlers of [Router] as programs over atomic actions: those of the
    pool, the locked calls of the wait queue, the operations of the
    [sync.Map] of proxies, and the wait of a queued request, which blocks
    until it is served or its client leaves, after as many ticks as the
    request is given.  A request alone does what
    [Router.ServeHTTP] does; [rtyped] extends the typing of [PoolConc] to the
    programs of requests. *)

From S2P Require Import Prelude Effects Cache Provider PoolManager PoolInv PoolSpec PoolConc Demo Http Middleware WaitQueue Router.

(** ** Actions *)

(** The router, and the clients whose requests have a context that is done. *)
Record server_state (P : Type) := mkServer {
  sv_router : router_state P;
  sv_gone : gset nat;
}.
Arguments mkServer {P}. Arguments sv_router {P}. Arguments sv_gone {P}.

Abbreviation sv_world s := (rs_world (sv_router s)).
Abbreviation sv_queue s := (rs_queue (sv_router s)).
Abbreviation sv_proxy s := (rs_proxy (sv_router s)).

(** [RSelect] is the [select] of a queued request, once it does not choose
    the ticker again; [choice] is its choice when both other cases are
    ready.  [RLeave] is a client that closes its connection. *)
Inductive routerE : Type → Type :=
| RPool {X} (e : poolE X) : routerE X
| RLoad (targetHost : string) : routerE (option ReverseProxy)
| RLoadOrStore (targetHost : string) (proxy : ReverseProxy) : routerE ReverseProxy
| REnqueue (userID : string) : routerE entry_id
| RPosition (entry : entry_id) : routerE Z
| RSelect (entry : entry_id) (client : nat) (choice : bool) : routerE (option Allocation)
| RLeave (client : nat) : routerE unit.

Definition with_world {P} (w : world P) (s : server_state P) : server_state P :=
  mkServer (mkRouterState w (sv_queue s) (sv_proxy s)) (sv_gone s).

Definition with_queue {P} (q : WaitQueue) (s : server_state P) : server_state P :=
  mkServer (mkRouterState (sv_world s) q (sv_proxy s)) (sv_gone s).

(** [<-entry.Ready]: the allocation in the slot, which it empties. *)
Definition receive_Ready (id : entry_id) (q : WaitQueue) : option (Allocation * WaitQueue) :=
  e ← wq_heap q !! id;
  alloc ← we_Ready e;
  Some (alloc, mkWaitQueue (<[id := set_Ready None e]> (wq_heap q)) (wq_next q) (wq_entries q)).

(** [Enqueue] reads the clock while it holds the queue's mutex. *)
Definition router_handle {P} `{SandboxProvider P} `{Runtime} : handler routerE (server_state P) :=
  λ X e s,
  match e in routerE X return option (X * server_state P) with
  | RPool e => '(x, w) ← handle _ e (sv_world s); Some (x, with_world w s)
  | RLoad host => Some (proxies (sv_proxy s) !! host, s)
  | RLoadOrStore host rp =>
      let '(actual, px) := LoadOrStore host rp (sv_proxy s) in
      Some (actual, mkServer (mkRouterState (sv_world s) (sv_queue s) px) (sv_gone s))
  | REnqueue u =>
      let '(id, q) := Enqueue u (env_now (w_tick (sv_world s))) (sv_queue s) in
      Some (id, mkServer (mkRouterState (tick (sv_world s)) q (sv_proxy s)) (sv_gone s))
  | RPosition id => Some (from_option we_Position 0 (wq_heap (sv_queue s) !! id), s)
  | RSelect id client choice =>
      match receive_Ready id (sv_queue s), bool_decide (client ∈ sv_gone s) with
      | Some (alloc, q), done =>
          if (done : bool) && choice then Some (None, s) else Some (Some alloc, with_queue q s)
      | None, true => Some (None, s)
      | None, false => None
      end
  | RLeave client => Some (tt, mkServer (sv_router s) ({[client]} ∪ sv_gone s))
  end.

(** A program of the pool inside the router. *)
Abbreviation lift := (translate (λ X (e : poolE X), RPool e)).

(** ** Handlers *)

(** How a goroutine ends: a request with the allocation made for it and its
    writer, a queued request that streamed, with what it was served, or
    something else with the allocation it was handed. *)
Inductive outcome :=
| Answered (alloc : option loc) (w : ResponseWriter)
| Waited (served : option Allocation) (w : ResponseWriter)
| Background (alloc : option loc).

(** What decides how a request waits: its client, the ticks it receives
    before it stops, and [choice]. *)
Record waiting := mkWaiting { wt_client : nat; wt_ticks : nat; wt_choice : bool }.

Section handlers.
Context `{Backend} (pool : PoolManager) (extractor : SessionExtractor).

Definition getOrCreateProxy_prog (targetHost : string) : prog routerE ReverseProxy :=
  found ← act (RLoad targetHost);
  match found with
  | Some rp => mret rp
  | None => act (RLoadOrStore targetHost (mkReverseProxy "http" targetHost))
  end.

Definition Forward_prog (w : ResponseWriter) (req : Request) (targetHost : string) :
    prog routerE ResponseWriter :=
  rp ← getOrCreateProxy_prog targetHost;
  mret (ReverseProxy_ServeHTTP rp w req).

(** The turns of the loop that choose the ticker; the position is read
    without a lock. *)
Fixpoint ticks_prog (n : nat) (entry : entry_id) (w : ResponseWriter) : prog routerE ResponseWriter :=
  match n with
  | O => mret w
  | S n' =>
      position ← act (RPosition entry);
      ticks_prog n' entry (Flush (Write (position_event position) w))
  end.

Definition WriteSSEQueuePosition_prog (wt : waiting) (entry : entry_id) (w : ResponseWriter) :
    prog routerE outcome :=
  if negb (as_Flusher w) then mret (Answered None (http_Error "streaming not supported" 500 w))
  else
    position ← act (RPosition entry);
    w ← ticks_prog (wt_ticks wt) entry (Flush (Write (position_event position) (sse_headers w)));
    ready ← act (RSelect entry (wt_client wt) (wt_choice wt));
    mret (Waited ready (sse_end ready w)).

(** The fields of the allocation are read through the pointer, one by one
    and without a lock. *)
Definition handleAllocateAndProxy_prog (wt : waiting) (userID : string)
    (req : Request) (w : ResponseWriter) : prog routerE outcome :=
  r ← lift (Allocate pool userID);
  match r with
  | Ok l =>
      a ← act (RPool (ERead l));
      let w := w_Header_Set "X-Session-ID" (SessionID a) w in
      a ← act (RPool (ERead l));
      let w := SetCookie (session_cookie (ex_Cookie extractor) (SessionID a)) w in
      a ← act (RPool (ERead l));
      w ← Forward_prog w req (ServiceFQDN a);
      mret (Answered (Some l) w)
  | Err err =>
      if negb (errors_Is err "pool.ErrPoolExhausted") then
        mret (Answered None (http_Error "failed to allocate sandbox" 500 w))
      else
        entry ← act (REnqueue userID);
        WriteSSEQueuePosition_prog wt entry w
  end.

Definition ServeHTTP_prog (wt : waiting) (req : Request) (w : ResponseWriter) :
    prog routerE outcome :=
  let sessionID := extractSessionID req extractor in
  found ← (if String.eqb sessionID "" then mret None
           else act (RPool (ECacheGetBySession sessionID)));
  match found with
  | Some l =>
      a ← act (RPool (ERead l));
      w ← Forward_prog w req (ServiceFQDN a);
      mret (Answered None w)
  | None => handleAllocateAndProxy_prog wt (extractUserID req) req w
  end.

(** A goroutine: a request with the writer the middleware gives it, another
    call of the pool, or a client that leaves. *)
Inductive job :=
| JRequest (wt : waiting) (req : Request) (w : ResponseWriter)
| JPool (op : pool_op)
| JLeave (client : nat).

Definition job_prog (j : job) : prog routerE outcome :=
  match j with
  | JRequest wt req w => ServeHTTP_prog wt req w
  | JPool op => o ← lift (client pool op); mret (Background o)
  | JLeave client => act (RLeave client);; mret (Background None)
  end.

(** The jobs that may add a sandbox to the pool. *)
Definition job_allocating (j : job) : bool :=
  match j with JRequest _ _ _ => true | JPool op => allocating op | JLeave _ => false end.

Definition allocating_jobs (js : list job) : nat :=
  total (λ j, Nat.b2n (job_allocating j)) js.

End handlers.

(** ** One request alone *)

Section alone.
Context {P : Type} `{SandboxProviderLaws P} `{RuntimeLaws} `{Backend}.
Context (pool : PoolManager) (extractor : SessionExtractor).
Implicit Types s : server_state P.

Lemma run_lift {A} (m : prog poolE A) s :
  run router_handle (lift m) s =
    '(a, w) ← run handle m (sv_world s); Some (a, with_world w s).
Proof.
  revert s. induction m as [a|X e k IH]; intros s; simpl; [by destruct s as [[] ?]|].
  destruct (handle X e (sv_world s)) as [[x w]|]; simpl; [|done]. by rewrite IH.
Qed.

Lemma run_Forward_prog w req host s :
  run router_handle (Forward_prog w req host) s =
    let '(w', px) := Forward w req host (sv_proxy s) in
    Some (w', mkServer (mkRouterState (sv_world s) (sv_queue s) px) (sv_gone s)).
Proof.
  unfold Forward, Forward_prog, getOrCreateProxy, getOrCreateProxy_prog. destruct s as [[w0 q px] g].
  simpl. destruct (proxies px !! host) as [rp|]; simpl; [done|].
  by destruct (LoadOrStore _ _ _).
Qed.

Lemma run_read_bind {B} l (f : Allocation → prog routerE B) s :
  run router_handle (act (RPool (ERead l)) ≫= f) s =
    run router_handle (f (deref (w_heap (sv_world s)) l)) s.
Proof. by destruct s as [[] ?]. Qed.

Lemma run_ticks n id w s :
  let position := from_option we_Position 0 (wq_heap (sv_queue s) !! id) in
  ∃ w', run router_handle (ticks_prog n id w) s = Some (w', s) ∧
    sse_loop (replicate n position) None w = w'.
Proof. intros position. revert w. induction n as [|n IH]; intros w; simpl; [by exists w|apply IH]. Qed.

(** The wait of a client that leaves after some ticks. *)
Lemma run_WriteSSE wt id w s e : wt_client wt ∈ sv_gone s →
  wq_heap (sv_queue s) !! id = Some e → we_Ready e = None →
  ∃ o, run router_handle (WriteSSEQueuePosition_prog wt id w) s = Some (o, s) ∧
    (o = Answered None (WriteSSEQueuePosition (we_Position e) (mkWait (replicate (wt_ticks wt) (we_Position e)) None) w) ∨
     o = Waited None (WriteSSEQueuePosition (we_Position e) (mkWait (replicate (wt_ticks wt) (we_Position e)) None) w)).
Proof.
  intros Hg He Hr. unfold WriteSSEQueuePosition_prog, WriteSSEQueuePosition.
  destruct (as_Flusher w); simpl; [|eauto]. rewrite run_bind, He. simpl.
  destruct (run_ticks (wt_ticks wt) id (Flush (Write (position_event (we_Position e)) (sse_headers w))) s)
    as (w' & -> & Hw). rewrite He in Hw. simpl in Hw. subst w'.
  simpl. unfold receive_Ready. rewrite He. simpl. rewrite Hr, bool_decide_true by done. simpl. eauto.
Qed.

(** A request whose client leaves when it is told to wait, run without
    interleaving, answers and changes the state as [Router.ServeHTTP]. *)
Lemma request_alone wt req w s : pool_inv pool (sv_world s) → wt_client wt ∈ sv_gone s →
  let position := queue_Len (sv_queue s) + 1 in
  let '(w', r') := ServeHTTP pool extractor (mkWait (replicate (wt_ticks wt) position) None) req w
                     (sv_router s) in
  ∃ o, run router_handle (job_prog pool extractor (JRequest wt req w)) s =
      Some (o, mkServer r' (sv_gone s)) ∧
    ((∃ l, o = Answered l w') ∨ o = Waited None w').
Proof.
  intros Hinv Hg position. cbn [job_prog]. unfold ServeHTTP_prog, ServeHTTP.
  rewrite run_bind.
  assert (Hf : run router_handle (if String.eqb (extractSessionID req extractor) "" then mret None
      else act (RPool (ECacheGetBySession (extractSessionID req extractor)))) s =
    Some (if String.eqb (extractSessionID req extractor) "" then None
          else GetBySession (w_cache (sv_world s)) (extractSessionID req extractor), s)).
  { case_match; [done|]. by destruct s as [[] ?]. }
  rewrite Hf. clear Hf. generalize (if String.eqb (extractSessionID req extractor) "" then None
    else GetBySession (w_cache (sv_world s)) (extractSessionID req extractor)).
  intros [l|].
  { rewrite run_read_bind, run_bind, run_Forward_prog. destruct (Forward _ _ _ _) as [w' px]. simpl. eauto 10. }
  destruct (Allocate_meets pool (extractUserID req) (sv_world s) Hinv) as (r & wd & Hr & _).
  unfold handleAllocateAndProxy_prog, handleAllocateAndProxy.
  rewrite run_bind, run_lift, Hr. cbn [mbind option_bind]. destruct r as [l|err].
  - rewrite !run_read_bind, run_bind, run_Forward_prog. cbn [with_world rs_world rs_queue rs_proxy sv_router].
    destruct (Forward _ _ _ _) as [w' px]. simpl. eauto 10.
  - destruct (errors_Is err "pool.ErrPoolExhausted"); cbn [negb]; [|eauto 10].
    rewrite run_act_bind. cbn [router_handle with_world rs_world rs_queue rs_proxy sv_router sv_gone].
    set (e := mkWaitEntry (extractUserID req) None position (env_now (w_tick wd))).
    assert (Hq : Enqueue (extractUserID req) (env_now (w_tick wd)) (sv_queue s) =
      (wq_next (sv_queue s), mkWaitQueue (<[wq_next (sv_queue s) := e]> (wq_heap (sv_queue s)))
        (S (wq_next (sv_queue s))) (wq_entries (sv_queue s) ++ [wq_next (sv_queue s)]))) by done.
    rewrite Hq. cbn [wq_heap]. rewrite lookup_insert_eq. cbn [from_option].
    destruct (run_WriteSSE wt (wq_next (sv_queue s)) w
      (mkServer (mkRouterState (tick wd) (Enqueue (extractUserID req) (env_now (w_tick wd)) (sv_queue s)).2
         (sv_proxy s)) (sv_gone s)) e) as (o & Ho & Hor); [done|by rewrite Hq; simpl; rewrite lookup_insert_eq|done|].
    rewrite Hq in Ho. cbn [snd] in Ho. exists o. split; [exact Ho|].
    destruct Hor as [->| ->]; [left; by eexists|by right].
Qed.

End alone.

(** ** Typing of the goroutines *)

(** What identifies an allocation to its user. *)
Definition identity (a : Allocation) : string * string * string :=
  (SandboxName a, ServiceFQDN a, SessionID a).

(** What a goroutine knows: the allocation it was handed, as it has read it;
    that it is in the queue; that its client has left. *)
Inductive known :=
| KNothing
| KAlloc (k : string * string * string)
| KQueued (id : entry_id)
| KLeft.

(** The client a job waits for or stands for. *)
Definition job_client (j : job) : nat :=
  match j with JRequest wt _ _ => wt_client wt | JPool _ => 0 | JLeave c => c end.

(** The request a job can wait with: its writer can flush. *)
Definition may_wait (j : job) (client : nat) (choice : bool) : Prop :=
  ∃ wt req w, j = JRequest wt req w ∧ (client, choice) = (wt_client wt, wt_choice wt) ∧
    as_Flusher w = true.

(** [rallowed max j e K pm kn]: the goroutine of job [j] may take the action
    with permission [pm] and knowledge [kn], and [K] holds after it. *)
Definition rallowed (max : Z) (j : job) {X} (e : routerE X)
    (K : X → perm → known → Prop) (pm : perm) (kn : known) : Prop :=
  match e in routerE X return (X → perm → known → Prop) → Prop with
  | RPool e => λ K,
      match e in poolE X return (X → perm → known → Prop) → Prop with
      | ERead l => λ K, ∀ a,
          if decide (pm = PFree (Some l))
          then (∀ k, kn = KAlloc k → identity a = k) → K a pm (KAlloc (identity a))
          else K a pm kn
      | e => λ K, allowed max (job_allocating j) e (λ x pm', K x pm' KNothing) pm
      end K
  | RLoad host => λ K, ∀ x, (∀ rp, x = Some rp → rp = mkReverseProxy "http" host) → K x pm kn
  | RLoadOrStore host rp => λ K, rp = mkReverseProxy "http" host ∧ K rp pm kn
  | REnqueue _ => λ K, ∀ id, K id pm (KQueued id)
  | RPosition _ => λ K, ∀ x, K x pm kn
  | RSelect id client choice => λ K,
      (∃ o, pm = PFree o) ∧ kn = KQueued id ∧ may_wait j client choice ∧ K None pm KLeft
  | RLeave client => λ K, j = JLeave client ∧ K tt pm KLeft
  end K.

(** The program respects the discipline and its end satisfies [post]. *)
Fixpoint rtyped (max : Z) (j : job) (post : outcome → perm → known → Prop)
    (t : prog routerE outcome) (pm : perm) (kn : known) : Prop :=
  match t with
  | Ret o => post o pm kn
  | Vis e k => rallowed max j e (λ x, rtyped max j post (k x)) pm kn
  end.

Lemma allowed_mono max al {X} (e : poolE X) (K K' : X → perm → Prop) pm :
  allowed max al e K pm → (∀ x pm', K x pm' → K' x pm') → allowed max al e K' pm.
Proof.
  intros Ha HK. destruct e; simpl in *; try (intros; by apply HK).
  - destruct Ha as [-> Ha]. auto.
  - destruct Ha as (pm' & Hu & Ha). eauto.
  - destruct pm; try done; destruct Ha as [-> Ha]; auto.
  - destruct Ha as [Ha|(? & ? & ? & ? & ?)]; [left|right]; auto 10.
  - destruct Ha as [Ha|(? & ? & ? & ?)]; [left|right]; auto 10.
  - destruct Ha as [(? & ? & ?)|(? & ? & ?)]; [left|right]; auto.
  - destruct Ha as [-> Ha]. auto.
  - destruct Ha as [Ha ?]. auto.
Qed.

Section typing.
Context `{Backend} (pool : PoolManager) (extractor : SessionExtractor).

(** The answer to the first request of a session. *)
Definition new_session_answer (k : string * string * string) (req : Request) (w : ResponseWriter) :
    ResponseWriter :=
  let '(_, host, sid) := k in
  ReverseProxy_ServeHTTP (mkReverseProxy "http" host)
    (SetCookie (session_cookie (ex_Cookie extractor) sid) (w_Header_Set "X-Session-ID" sid w)) req.

Definition job_post (j : job) (o : outcome) (pm : perm) (kn : known) : Prop :=
  match j, o with
  | JRequest _ req w, Answered (Some l) w' =>
      ∃ k, pm = PFree (Some l) ∧ kn = KAlloc k ∧ w' = new_session_answer k req w
  | JRequest _ _ _, Answered None _ => ∃ o', pm = PFree o'
  | JRequest _ _ _, Waited served _ => (∃ o', pm = PFree o') ∧ served = None ∧ kn = KLeft
  | JPool _, Background o => ∃ o', pm = PFree o' ∧ ∀ l, o = Some l → o' = Some l
  | JLeave _, Background o => o = None ∧ (∃ o', pm = PFree o') ∧ kn = KLeft
  | _, _ => False
  end.

(** A pool program keeps its type in the router. *)
Lemma lift_rtyped {A} max j post (m : prog poolE A) (g : A → option loc)
    (k : A → prog routerE outcome) pm kn :
  typed max (job_allocating j) (m ≫= λ a, Ret (g a)) pm →
  (∀ a o kn', (∀ l, g a = Some l → o = Some l) → rtyped max j post (k a) (PFree o) kn') →
  rtyped max j post (lift m ≫= k) pm kn.
Proof.
  intros Hm Hk. revert pm kn Hm. induction m as [a|X e k' IH]; intros pm kn Hm.
  - destruct Hm as (o & -> & Ho). by apply Hk.
  - change (allowed max (job_allocating j) e
      (λ x, typed max (job_allocating j) (k' x ≫= λ a, Ret (g a))) pm) in Hm.
    change (rallowed max j (RPool e) (λ x, rtyped max j post (lift (k' x) ≫= k)) pm kn).
    destruct e; try exact (allowed_mono _ _ _ _ _ _ Hm (λ x pm', IH x pm' KNothing)).
    intros a. case_decide; intros; by apply IH.
Qed.

Lemma typed_bind_ret max al m pm : typed max al m pm → typed max al (m ≫= λ o, Ret o) pm.
Proof.
  revert pm. induction m as [a|X e k IH]; intros pm Hm; [done|].
  exact (allowed_mono _ _ _ _ _ _ Hm (λ x pm', IH x pm')).
Qed.

Lemma Forward_rtyped max j post w req host (k : ResponseWriter → prog routerE outcome) pm kn :
  rtyped max j post (k (ReverseProxy_ServeHTTP (mkReverseProxy "http" host) w req)) pm kn →
  rtyped max j post (Forward_prog w req host ≫= k) pm kn.
Proof.
  intros Hk. unfold Forward_prog, getOrCreateProxy_prog. simpl.
  intros [rp|] Hx; simpl; [by rewrite (Hx rp eq_refl)|by split].
Qed.

Lemma ticks_rtyped max j post n id w (k : ResponseWriter → prog routerE outcome) pm kn :
  (∀ w', rtyped max j post (k w') pm kn) → rtyped max j post (ticks_prog n id w ≫= k) pm kn.
Proof. intros Hk. revert w. induction n as [|n IH]; intros w; [apply Hk|]. intros position. apply IH. Qed.

Section request.
Context (wt : waiting) (req : Request) (w : ResponseWriter).
#[local] Abbreviation j := (JRequest wt req w).

Lemma WriteSSE_typed id o :
  rtyped (maxSize pool) j (job_post j) (WriteSSEQueuePosition_prog wt id w) (PFree o) (KQueued id).
Proof.
  unfold WriteSSEQueuePosition_prog. destruct (as_Flusher w) eqn:Hw; simpl; [|by exists o].
  intros position. apply ticks_rtyped. intros w'. simpl.
  split_and!; [by exists o|done|by exists wt, req, w|by exists o|done|done].
Qed.

Lemma handleAllocateAndProxy_typed u :
  rtyped (maxSize pool) j (job_post j) (handleAllocateAndProxy_prog pool extractor wt u req w)
    (PFree None) KNothing.
Proof.
  unfold handleAllocateAndProxy_prog.
  apply (lift_rtyped _ _ _ _ (λ r, match r with Ok l => Some l | Err _ => None end)).
  { apply Allocate_typed; simpl; [done|eauto|eauto]. }
  intros [l|err] o kn Ho.
  - rewrite (Ho l eq_refl). simpl. intros a1. rewrite decide_True by done. intros _ a2.
    rewrite decide_True by done. intros Ha2 a3. rewrite decide_True by done. intros Ha3.
    specialize (Ha2 _ eq_refl). specialize (Ha3 _ eq_refl).
    apply Forward_rtyped. exists (identity a3). split_and!; [done..|].
    unfold identity in *. simplify_eq/=. congruence.
  - simpl. case_match; simpl; [by exists o|]. intros id. apply WriteSSE_typed.
Qed.

Lemma ServeHTTP_typed :
  rtyped (maxSize pool) j (job_post j) (ServeHTTP_prog pool extractor wt req w) (PFree None) KNothing.
Proof.
  unfold ServeHTTP_prog. case_match; [apply handleAllocateAndProxy_typed|].
  simpl. intros [l|]; [|apply handleAllocateAndProxy_typed].
  simpl. intros a. apply Forward_rtyped. by exists None.
Qed.

End request.

Lemma job_typed j :
  rtyped (maxSize pool) j (job_post j) (job_prog pool extractor j) (PFree None) KNothing.
Proof.
  destruct j as [wt req w|op|c]; [apply ServeHTTP_typed| |by simpl; eauto 10].
  apply (lift_rtyped _ _ _ _ (λ o, o)).
  - apply typed_bind_ret, client_typed.
  - intros o o' kn Ho. by exists o'.
Qed.

End typing.

(** ** Preservation *)

Section steps.
Context {P : Type} `{SandboxProviderLaws P} `{RuntimeLaws} `{Backend}.
Context (pool : PoolManager) (extractor : SessionExtractor).
Implicit Types s : server_state P.

(** A goroutine: its job, permission and knowledge. *)
Abbreviation point := (job * perm * known)%type.

Definition point_perm (x : point) : bool * perm := (job_allocating x.1.1, x.1.2).

Definition point_typed (t : prog routerE outcome) (x : point) : Prop :=
  rtyped (maxSize pool) x.1.1 (job_post extractor x.1.1) t x.1.2 x.2.

(** What a goroutine knows is so. *)
Definition knows s (j : job) (pm : perm) (kn : known) : Prop :=
  match kn with
  | KNothing => True
  | KAlloc k => ∃ l, pm = PFree (Some l) ∧ identity (deref (w_heap (sv_world s)) l) = k
  | KQueued id => id ∈ wq_entries (sv_queue s)
  | KLeft => job_client j ∈ sv_gone s
  end.

(** The shared state agrees with what the goroutines hold and know. *)
Record rconc_ok (pts : list point) s : Prop := {
  ro_conc : conc_ok pool (point_perm <$> pts) (sv_world s);
  ro_known i j pm kn : pts !! i = Some (j, pm, kn) → knows s j pm kn;
  ro_proxy : proxy_ok (sv_proxy s);
  ro_queue : queue_inv (sv_queue s);
}.

Definition rconc_inv (js : list job) (c : server_state P * list (prog routerE outcome)) : Prop :=
  ∃ pts, rconc_ok pts c.1 ∧ (λ x : point, x.1.1) <$> pts = js ∧ Forall2 point_typed c.2 pts.

Lemma write_field_identity f a : assigns f = false → identity (write_field f a) = identity a.
Proof. by destruct f. Qed.

(** No action takes an allocation away from the goroutine it was handed to. *)
Lemma handle_identity pms w i al pm X (e : poolE X) K x w' j al' l :
  conc_ok pool pms w → pms !! i = Some (al, pm) → allowed (maxSize pool) al e K pm →
  handle X e w = Some (x, w') → pms !! j = Some (al', PFree (Some l)) →
  identity (deref (w_heap w') l) = identity (deref (w_heap w) l).
Proof.
  intros Hok Hi Ha Hh Hj. destruct e; simpl in Hh;
    try (repeat case_match; simplify_eq; by try destruct w).
  - injection Hh as <- <-. simpl. destruct (decide (l0 = l)) as [->|Hne]; unfold deref;
      [rewrite lookup_insert_eq|by rewrite lookup_insert_ne]. simpl.
    destruct (assigns f) eqn:Hf; [|by apply write_field_identity].
    destruct Ha as [(_ & Hpm & _)|(-> & _)]; [|done]. specialize (Hpm Hf) as ->.
    destruct (decide (i = j)) as [->|Hij]; [congruence|].
    by destruct (co_distinct _ _ _ Hok i j _ _ _ _ l Hij Hi Hj).
  - injection Hh as <- <-. simpl. unfold deref. rewrite lookup_insert_ne; [done|].
    pose proof (co_bound _ _ _ Hok j _ _ l Hj eq_refl). lia.
Qed.

Lemma point_insert (pts : list point) i j pm kn :
  point_perm <$> <[i := (j, pm, kn)]> pts = <[i := (job_allocating j, pm)]> (point_perm <$> pts).
Proof. exact (list_fmap_insert point_perm pts i (j, pm, kn)). Qed.

Lemma jobs_insert (pts : list point) i j pm kn pm' kn' : pts !! i = Some (j, pm, kn) →
  (λ x : point, x.1.1) <$> <[i := (j, pm', kn')]> pts = (λ x : point, x.1.1) <$> pts.
Proof.
  intros Hi. rewrite list_fmap_insert. apply list_insert_id. by rewrite list_lookup_fmap, Hi.
Qed.

(** One goroutine goes on while the state changes. *)
Definition rstep_goal (pts : list point) i j {X} (K : X → perm → known → Prop) (x : X) s : Prop :=
  ∃ pm kn, K x pm kn ∧ rconc_ok (<[i := (j, pm, kn)]> pts) s.

Section one.
Context pts s i j pm kn (Hok : rconc_ok pts s) (Hi : pts !! i = Some (j, pm, kn)).

Lemma perm_lookup : (point_perm <$> pts) !! i = Some (job_allocating j, pm).
Proof. by rewrite list_lookup_fmap, Hi. Qed.

(** The rest of the state moves on, and the goroutine may learn something. *)
Lemma rstep_stay s' kn' : conc_ok pool (point_perm <$> pts) (sv_world s') →
  w_heap (sv_world s') = w_heap (sv_world s) → proxy_ok (sv_proxy s') → queue_inv (sv_queue s') →
  (∀ id, id ∈ wq_entries (sv_queue s) → id ∈ wq_entries (sv_queue s')) → sv_gone s ⊆ sv_gone s' →
  knows s' j pm kn' → rconc_ok (<[i := (j, pm, kn')]> pts) s'.
Proof.
  intros Hc Hh Hx Hq Hqs Hg Hk. split; try done.
  - by rewrite point_insert, list_insert_id by apply perm_lookup.
  - intros i' j' pm' k [(<- & [= <- <- <-] & _)|[_ Hi']]%list_lookup_insert_Some; [done|].
    pose proof (ro_known _ _ Hok _ _ _ _ Hi') as Hk'. destruct k; simpl in *; [done| |auto..].
    by rewrite Hh.
Qed.

Lemma rstep_same kn' : knows s j pm kn' → rconc_ok (<[i := (j, pm, kn')]> pts) s.
Proof. destruct Hok. by apply rstep_stay. Qed.

Lemma rstep_read l (K : Allocation → perm → known → Prop) :
  rallowed (maxSize pool) j (RPool (ERead l)) K pm kn →
  rstep_goal pts i j K (deref (w_heap (sv_world s)) l) s.
Proof.
  intros Ha. specialize (Ha (deref (w_heap (sv_world s)) l)).
  pose proof (ro_known _ _ Hok _ _ _ _ Hi) as Hk. case_decide as Hpm.
  - eexists _, _. split; [apply Ha|].
    + intros k ->. destruct Hk as (l' & Hl' & <-). congruence.
    + apply rstep_same. by exists l.
  - exists pm, kn. split; [done|]. by apply rstep_same.
Qed.

Lemma rstep_pool {X} (e : poolE X) (K : X → perm → known → Prop) x w' :
  allowed (maxSize pool) (job_allocating j) e (λ x pm', K x pm' KNothing) pm →
  handle X e (sv_world s) = Some (x, w') → rstep_goal pts i j K x (with_world w' s).
Proof.
  intros Ha Hh. pose proof Hok as [Hc Hkn Hx Hq].
  destruct (conc_ok_step _ _ _ _ _ _ _ _ _ _ _ Hc perm_lookup Ha Hh) as (pm' & HK & Hc').
  exists pm', KNothing. split; [done|]. split; try done; [by rewrite point_insert|].
  intros i' j' pm2 k [(_ & [= <- <- <-] & _)|[_ Hi']]%list_lookup_insert_Some; [done|].
  pose proof (Hkn _ _ _ _ Hi') as Hk. destruct k as [|k|id|]; try done.
  destruct Hk as (l & -> & <-). exists l. split; [done|].
  eapply (handle_identity _ _ i _ _ _ _ _ _ _ i'); [done|apply perm_lookup|done..|].
  by rewrite list_lookup_fmap, Hi'.
Qed.

End one.

Lemma with_world_id s : with_world (sv_world s) s = s.
Proof. by destruct s as [[] ?]. Qed.

(** Nobody serves a queued request. *)
Lemma queued_not_ready id q : queue_inv q → id ∈ wq_entries q → receive_Ready id q = None.
Proof.
  intros Hq [i Hi]%list_elem_of_lookup. destruct (qi_entry _ Hq i id Hi) as (e & He & _ & Hr).
  unfold receive_Ready. rewrite He. simpl. by rewrite Hr.
Qed.

Lemma rstep pts s i j pm kn X (e : routerE X) K x s' :
  rconc_ok pts s → pts !! i = Some (j, pm, kn) →
  rallowed (maxSize pool) j e K pm kn → router_handle X e s = Some (x, s') →
  rstep_goal pts i j K x s'.
Proof.
  intros Hok Hi Ha Hh. pose proof Hok as [Hc Hkn Hx Hq]. pose proof (Hkn _ _ _ _ Hi) as Hk.
  destruct e as [X e|host|host rp|u|id|id c ch|c]; simpl in Hh.
  - destruct (handle X e (sv_world s)) as [[x' w']|] eqn:Hh'; simplify_eq/=.
    destruct e; try (eapply rstep_pool; [exact Hok|exact Hi| |exact Hh']; exact Ha).
    injection Hh' as <- <-. rewrite with_world_id. by eapply rstep_read.
  - injection Hh as <- <-. exists pm, kn. split; [apply Ha; by apply Hx|]. by eapply rstep_same.
  - destruct Ha as [-> Ha]. destruct (LoadOrStore_ok host _ Hx) as (px & Hl & Hpx).
    rewrite Hl in Hh. injection Hh as <- <-. exists pm, kn. split; [done|]. by eapply rstep_stay.
  - pose proof (Enqueue_inv u (env_now (w_tick (sv_world s))) _ Hq) as [Hq' _].
    injection Hh as <- <-. eexists pm, _. split; [apply Ha|].
    eapply rstep_stay; [done..| |done|done|exact Hq'| |done|]; [by eapply co_world| |]; simpl;
      intros; apply elem_of_app; [by left|right; by left].
  - injection Hh as <- <-. exists pm, kn. split; [apply Ha|]. by eapply rstep_same.
  - destruct Ha as (_ & -> & (wt & req & w & -> & [= -> ->] & _) & Ha). simpl in Hk.
    rewrite (queued_not_ready id) in Hh by done. case_bool_decide as Hg; [|done].
    injection Hh as <- <-. exists pm, KLeft. split; [done|]. by eapply rstep_same.
  - destruct Ha as [-> Ha]. injection Hh as <- <-. exists pm, KLeft. split; [done|].
    eapply rstep_stay; [done..| |done|done|done|done|set_solver|simpl; set_solver]. done.
Qed.

Lemma rconc_inv_step js c1 c2 : rconc_inv js c1 → cstep router_handle c1 c2 → rconc_inv js c2.
Proof.
  intros (pts & Hok & Hjs & Hty) Hstep.
  inversion Hstep as [s ts i X e k x s' Hi Hh]; subst; simpl in *.
  destruct (Forall2_lookup_l _ _ _ _ _ Hty Hi) as ([[j pm] kn] & Hpt & Ht).
  destruct (rstep _ _ _ _ _ _ _ _ _ _ _ Hok Hpt Ht Hh) as (pm' & kn' & HK & Hok').
  exists (<[i := (j, pm', kn')]> pts). split_and!; [done|by eapply jobs_insert|].
  by apply Forall2_insert.
Qed.

Lemma rconc_inv_init js s : router_inv pool (sv_router s) →
  rconc_inv js (s, job_prog pool extractor <$> js).
Proof.
  intros [Hp Hq Hx]. exists ((λ j, (j, PFree None, KNothing)) <$> js). split_and!.
  - split; try done.
    + rewrite <- list_fmap_compose.
      pose proof (conc_ok_init pool (sv_world s) (job_allocating <$> js) Hp) as Hc.
      by rewrite <- list_fmap_compose in Hc.
    + intros i j pm k. rewrite list_lookup_fmap. destruct (js !! i); [by intros [= <- <- <-]|done].
  - rewrite <- list_fmap_compose. apply list_fmap_id.
  - apply Forall2_fmap_l, Forall2_fmap_r, Forall_Forall2_diag, Forall_forall.
    intros j _. apply job_typed.
Qed.

Lemma rconc_inv_reach js s s' ts : router_inv pool (sv_router s) →
  rtc (cstep router_handle) (s, job_prog pool extractor <$> js) (s', ts) → rconc_inv js (s', ts).
Proof.
  intros Hinv Hr. eapply (rtc_invariant (cstep router_handle) (rconc_inv js)); [|done|].
  - intros ??. apply rconc_inv_step.
  - by apply rconc_inv_init.
Qed.

(** ** Consequences *)

(** A goroutine that has ended. *)
Lemma rconc_ended js s ts i o : rconc_inv js (s, ts) → ts !! i = Some (Ret o) →
  ∃ pts j pm kn, rconc_ok pts s ∧ Forall2 point_typed ts pts ∧ js !! i = Some j ∧
    pts !! i = Some (j, pm, kn) ∧ job_post extractor j o pm kn.
Proof.
  intros (pts & Hok & <- & Hty) Hi.
  destruct (Forall2_lookup_l _ _ _ _ _ Hty Hi) as ([[j pm] kn] & Hpt & Ht).
  exists pts, j, pm, kn. split_and!; try done. by rewrite list_lookup_fmap, Hpt.
Qed.

Lemma job_post_free j o pm kn : job_post extractor j o pm kn → ∃ l, pm = PFree l.
Proof.
  destruct j, o as [[l|] w'|sv w'|l]; simpl; try done.
  - intros (k & -> & _). eauto.
  - by intros [? _].
  - intros (l' & -> & _). eauto.
  - by intros (_ & ? & _).
Qed.

Lemma forall_lookup_or {A} (l : list A) (Q : nat → A → Prop) (R : Prop) :
  (∀ i x, l !! i = Some x → Q i x ∨ R) → (∀ i x, l !! i = Some x → Q i x) ∨ R.
Proof.
  revert Q. induction l as [|x l IH]; intros Q HQ; [by left|].
  destruct (HQ 0%nat x eq_refl) as [Hx0|?]; [|by right].
  destruct (IH (λ i, Q (S i)) (λ i, HQ (S i))) as [HS|?]; [left|by right].
  intros [|i] y Hy; [by injection Hy as <-; apply Hx0|by apply HS].
Qed.

(** A request that waits in the queue while its client stays. *)
Definition parked s (j : job) (t : prog routerE outcome) : Prop :=
  ∃ wt req w id k, j = JRequest wt req w ∧ as_Flusher w = true ∧
    t = Vis (RSelect id (wt_client wt) (wt_choice wt)) k ∧
    id ∈ wq_entries (sv_queue s) ∧ wt_client wt ∉ sv_gone s.

Lemma thread_progress pts s t j pm kn i : rconc_ok pts s → pts !! i = Some (j, pm, kn) →
  point_typed t (j, pm, kn) → w_mu (sv_world s) = false ∨ holds pm = 1%nat →
  (∃ o, t = Ret o) ∨ parked s j t ∨ ∃ X (e : routerE X) k x s', t = Vis e k ∧ router_handle X e s = Some (x, s').
Proof.
  intros Hok Hi Ht Hmu. destruct t as [o|X e k]; [by left; exists o|]. right.
  change (rallowed (maxSize pool) j e (λ x, rtyped (maxSize pool) j (job_post extractor j) (k x)) pm kn) in Ht.
  assert (Hfree : (∃ x s', router_handle X e s = Some (x, s')) →
    ∃ X' (e' : routerE X') k' x s', Vis e k = Vis e' k' ∧ router_handle X' e' s = Some (x, s')).
  { intros (x & s' & Hx). by exists X, e, k, x, s'. }
  destruct e as [X e|host|host rp|u|id|id c ch|c];
    try (right; apply Hfree; simpl; repeat case_match; by eauto).
  - right. apply Hfree. simpl. assert (∃ x w', handle X e (sv_world s) = Some (x, w')) as (x & w' & Hx).
    { destruct Hmu as [Hmu|Hh]; [by apply handle_free|].
      destruct e; try exact (handle_holding _ _ _ _ (λ x pm', _ x pm' KNothing) _ _ Ht Hh).
      simpl. eauto. }
    rewrite Hx. simpl. eauto.
  - destruct Ht as (_ & -> & (wt & req & w & -> & [= -> ->] & Hw) & _).
    pose proof (ro_known _ _ Hok _ _ _ _ Hi) as Hk.
    destruct (decide (wt_client wt ∈ sv_gone s)) as [Hg|Hg].
    + right. apply Hfree. simpl.
      rewrite (queued_not_ready id _ (ro_queue _ _ Hok)), bool_decide_true by done. eauto.
    + left. by eexists _, _, _, _, _.
Qed.

(** A configuration that cannot move has ended but for parked requests. *)
Lemma rconc_inv_progress js s ts : rconc_inv js (s, ts) →
  (∃ c, cstep router_handle (s, ts) c) ∨
  ∀ i t, ts !! i = Some t → (∃ o, t = Ret o) ∨ ∃ j, js !! i = Some j ∧ parked s j t.
Proof.
  intros (pts & Hok & <- & Hty). simpl in *.
  assert (Hgo : ∀ i t j pm kn, ts !! i = Some t → pts !! i = Some (j, pm, kn) →
    w_mu (sv_world s) = false ∨ holds pm = 1%nat →
    ((∃ o, t = Ret o) ∨ parked s j t) ∨ ∃ c, cstep router_handle (s, ts) c).
  { intros i t j pm kn Ht Hpt Hmu.
    pose proof (Forall2_lookup_lr _ _ _ _ _ _ Hty Ht Hpt) as Htt.
    destruct (thread_progress _ _ _ _ _ _ _ Hok Hpt Htt Hmu) as [?|[?|(X & e & k & x & s' & -> & Hx)]];
      [by left; left|by left; right|]. right. eexists. by econstructor. }
  destruct (w_mu (sv_world s)) eqn:Hmu.
  - left. destruct (conc_ok_holder _ _ _ (ro_conc _ _ Hok) Hmu) as (i & al & pm & Hi & Hh).
    rewrite list_lookup_fmap in Hi. destruct (pts !! i) as [[[j pm'] kn]|] eqn:Hpt; [|done].
    injection Hi as <- <-. destruct (Forall2_lookup_r _ _ _ _ _ Hty Hpt) as (t & Ht & Htt).
    destruct (Hgo i t j pm' kn Ht Hpt (or_intror Hh)) as [[[o ->]|Hp]|Hc]; [| |done].
    + apply job_post_free in Htt as [l Hl]. simpl in Hl, Hh. by rewrite Hl in Hh.
    + destruct Hp as (wt & req & w & id & k & -> & _ & -> & _).
      destruct Htt as ((o & Ho) & _). simpl in Ho, Hh. by rewrite Ho in Hh.
  - apply or_comm, forall_lookup_or. intros i t Ht.
    destruct (Forall2_lookup_l _ _ _ _ _ Hty Ht) as ([[j pm] kn] & Hpt & _).
    destruct (Hgo i t j pm kn Ht Hpt (or_introl eq_refl)) as [[?|?]|?]; [by left; left| |by right].
    left. right. exists j. by rewrite list_lookup_fmap, Hpt.
Qed.

(** A goroutine that has ended knows its client has left, if it waited for
    that. *)
Lemma rconc_left js s ts i o : rconc_inv js (s, ts) → ts !! i = Some (Ret o) →
  match o with
  | Waited served _ => served = None ∧ ∃ wt req w, js !! i = Some (JRequest wt req w) ∧ wt_client wt ∈ sv_gone s
  | _ => ∀ c, js !! i = Some (JLeave c) → c ∈ sv_gone s
  end.
Proof.
  intros Hr Hi. destruct (rconc_ended _ _ _ _ _ Hr Hi) as (pts & j & pm & kn & Hok & _ & Hj & Hpt & Hpost).
  pose proof (ro_known _ _ Hok _ _ _ _ Hpt) as Hk. rewrite Hj.
  destruct j as [wt req w|op|c], o as [[l|] w'|sv w'|l]; simpl in Hpost; try done.
  - destruct Hpost as (_ & -> & ->). split; [done|]. by exists wt, req, w.
  - destruct Hpost as (_ & _ & ->). by intros c' [= <-].
Qed.

End steps.

(** ** Properties *)

(** What a goroutine was handed in the end. *)
Definition handed (o : outcome) : option loc :=
  match o with Answered l _ | Background l => l | Waited _ _ => None end.

Section properties.
Context {P : Type} `{SandboxProviderLaws P} `{RuntimeLaws} `{Backend}.
Context (pool : PoolManager) (extractor : SessionExtractor).
Implicit Types s : server_state P.

(** C9: sessions are exclusive under concurrency: whatever requests and
    other calls of the pool (collections and releases included) run at the
    same time, and however they interleave, a request that was given a new
    session was proxied to the sandbox of that session and answered with its
    identifier, the sandbox is not idle, and nobody else was handed it. *)
Theorem concurrent_sessions_exclusive js s s' ts i wt req w l resp :
  router_inv pool (sv_router s) →
  rtc (cstep router_handle) (s, job_prog pool extractor <$> js) (s', ts) →
  js !! i = Some (JRequest wt req w) → ts !! i = Some (Ret (Answered (Some l) resp)) →
  let a := deref (w_heap (sv_world s')) l in
  resp = ReverseProxy_ServeHTTP (mkReverseProxy "http" (ServiceFQDN a))
    (SetCookie (session_cookie (ex_Cookie extractor) (SessionID a))
      (w_Header_Set "X-Session-ID" (SessionID a) w)) req ∧
  Status a ≠ StatusIdle ∧
  (∀ j o, i ≠ j → ts !! j = Some (Ret o) → handed o ≠ Some l).
Proof.
  intros Hinv Hr Hj Hi. apply (rconc_inv_reach pool extractor js) in Hr; [|done].
  destruct (rconc_ended _ _ _ _ _ _ _ Hr Hi) as (pts & j0 & pm & kn & Hok & Hty & Hj0 & Hpt & Hpost).
  rewrite Hj in Hj0. injection Hj0 as <-. destruct Hpost as (k & -> & -> & ->).
  destruct (ro_known _ _ _ Hok _ _ _ _ Hpt) as (l' & [= <-] & <-).
  pose proof (ro_conc _ _ _ Hok) as Hc. pose proof (perm_lookup _ _ _ _ _ Hpt) as Hpm.
  split_and!; [done|by apply (co_active _ _ _ Hc i _ _ l Hpm)|].
  intros j o Hij Ht Ho.
  destruct (Forall2_lookup_l _ _ _ _ _ Hty Ht) as ([[j' pm'] kn'] & Hpt' & Hpost).
  assert (pm' = PFree (Some l)) as ->.
  { change (job_post extractor j' o pm' kn') in Hpost.
    destruct j', o as [[l'|] w'|sv w'|l']; simpl in *; simplify_eq; try done.
    - by destruct Hpost as (? & -> & _).
    - destruct Hpost as (o' & -> & Ho'). by rewrite (Ho' l).
    - by destruct Hpost as [? _]. }
  by apply (co_distinct _ _ _ Hc i j _ _ _ _ l Hij Hpm (perm_lookup _ _ _ _ _ Hpt')).
Qed.

(** C10: a request is held up by nothing but the queue.  However requests,
    calls of the pool and departures of clients interleave, either some
    goroutine can take its next step, or every goroutine has ended except
    requests that wait in the queue (each after the ticks it was given), on a
    writer that can flush, for a client that has not left and that no
    goroutine makes leave: the mutex, the proxies and the pool never block
    for ever.  And a request that waited and ended did so because its client
    left: nobody is served from the queue. *)
Theorem concurrent_requests_progress js s s' ts :
  router_inv pool (sv_router s) →
  rtc (cstep router_handle) (s, job_prog pool extractor <$> js) (s', ts) →
  ((∃ c, cstep router_handle (s', ts) c) ∨
   ∀ i t, ts !! i = Some t → (∃ o, t = Ret o) ∨
     ∃ wt req w id k, js !! i = Some (JRequest wt req w) ∧ as_Flusher w = true ∧
       t = Vis (RSelect id (wt_client wt) (wt_choice wt)) k ∧
       id ∈ wq_entries (sv_queue s') ∧ wt_client wt ∉ sv_gone s' ∧ JLeave (wt_client wt) ∉ js) ∧
  (∀ i served resp, ts !! i = Some (Ret (Waited served resp)) →
     served = None ∧ ∃ wt req w, js !! i = Some (JRequest wt req w) ∧ wt_client wt ∈ sv_gone s').
Proof.
  intros Hinv Hr. apply (rconc_inv_reach pool extractor js) in Hr; [|done]. split.
  - destruct (rconc_inv_progress _ _ _ _ _ Hr) as [?|Hend]; [by left|right]. intros i t Ht.
    destruct (Hend i t Ht) as [?|(j & Hj & wt & req & w & id & k & -> & Hw & -> & Hid & Hg)]; [by left|right].
    exists wt, req, w, id, k. split_and!; try done.
    intros [i' Hi']%list_elem_of_lookup.
    pose proof Hr as (pts & _ & Hjs & Hty). simpl in Hjs, Hty.
    assert (is_Some (ts !! i')) as [t' Ht'].
    { apply lookup_lt_is_Some. rewrite (Forall2_length _ _ _ Hty). rewrite <- Hjs in Hi'.
      apply lookup_lt_Some in Hi'. by rewrite length_fmap in Hi'. }
    destruct (Hend i' t' Ht') as [[o ->]|(j' & Hj' & ? & ? & ? & ? & ? & -> & _)]; [|congruence].
    pose proof (rconc_left _ _ _ _ _ _ _ Hr Ht') as Hl. destruct o; try by apply Hg, Hl.
    destruct Hl as (_ & ? & ? & ? & ? & _). congruence.
  - intros i served resp Hi. exact (rconc_left _ _ _ _ _ _ _ Hr Hi).
Qed.

(** C11: the router's state is well-formed in the middle of any interleaving:
    the waiting requests are numbered from 1 in the order of their arrival,
    every cached proxy forwards to the host it is cached under, the cache of
    allocations is keyed by their names, and the pool exceeds its maximum by
    fewer sandboxes than there are goroutines that allocate. *)
Theorem concurrent_router_wf js s s' ts :
  router_inv pool (sv_router s) →
  rtc (cstep router_handle) (s, job_prog pool extractor <$> js) (s', ts) →
  queue_inv (sv_queue s') ∧ proxy_ok (sv_proxy s') ∧
  (∀ n l, byName (w_cache (sv_world s')) !! n = Some l →
     SandboxName (deref (w_heap (sv_world s')) l) = n) ∧
  Len (w_cache (sv_world s')) ≤ maxSize pool + Z.of_nat (pred (allocating_jobs js)).
Proof.
  intros Hinv Hr. apply (rconc_inv_reach pool extractor js) in Hr as (pts & Hok & Hjs & _); [|done].
  destruct Hok as [Hc _ Hx Hq]. split_and!; [done..| |].
  - intros n l Hl. apply (co_name _ _ _ Hc n l Hl).
  - pose proof (co_credit _ _ _ Hc). unfold allocating_jobs. rewrite <- Hjs, total_fmap.
    unfold allocators in *. rewrite total_fmap in *. unfold compose, point_perm in *. simpl in *. lia.
Qed.

End properties.

(** ** Witnesses *)

#[local] Existing Instances demo_runtime demo_backend.

(** Three requests on a pool of one slot, a collection, and a client that
    leaves. *)
Definition demo_writer : ResponseWriter := ServerWriter empty_response.

Definition demo_wait (client : nat) : waiting := mkWaiting client 1 true.

Definition demo_jobs : list job :=
  [JRequest (demo_wait 1) demo_request demo_writer; JRequest (demo_wait 2) demo_request demo_writer;
   JRequest (demo_wait 3) demo_request demo_writer; JPool (OpRunGC 1000); JLeave 3].

Definition demo_server : server_state MockSandboxProvider := mkServer demo_router ∅.

(** The first request allocates before the others look. *)
Definition demo_end : server_state MockSandboxProvider * list (prog routerE outcome) :=
  run_turns router_handle (replicate 20 0%nat ++ concat (replicate 20 [1; 2; 3; 4]%nat))
    (demo_server, job_prog tiny_pool demo_extractor <$> demo_jobs).

Lemma demo_end_reachable :
  rtc (cstep router_handle) (demo_server, job_prog tiny_pool demo_extractor <$> demo_jobs)
    (demo_end.1, demo_end.2).
Proof. rewrite <- surjective_pairing. apply run_turns_sound. Qed.

Lemma demo_router_inv : router_inv tiny_pool (sv_router demo_server).
Proof. apply NewRouter_inv, tiny_start_inv. Qed.

(** What the first request was answered. *)
Definition demo_answer : ResponseWriter :=
  match demo_end.2 !! 0%nat with Some (Ret (Answered _ w)) => w | _ => demo_writer end.

(** The second request is parked, the third one's client has left. *)
Example demo_end_waits :
  match demo_end.2 !! 1%nat, demo_end.2 !! 2%nat with
  | Some (Vis _ _), Some (Ret (Waited None _)) => wq_entries (sv_queue demo_end.1) = [0; 1]%nat
  | _, _ => False
  end.
Proof. vm_compute. reflexivity. Qed.

Lemma concurrent_sessions_exclusive_witness :
  let a := deref (w_heap (sv_world demo_end.1)) 1%positive in
  demo_answer = ReverseProxy_ServeHTTP (mkReverseProxy "http" (ServiceFQDN a))
    (SetCookie (session_cookie "session_id" (SessionID a))
      (w_Header_Set "X-Session-ID" (SessionID a) demo_writer)) demo_request ∧
  Status a ≠ StatusIdle ∧
  (∀ j o, 0%nat ≠ j → demo_end.2 !! j = Some (Ret o) → handed o ≠ Some 1%positive).
Proof.
  apply (concurrent_sessions_exclusive tiny_pool demo_extractor demo_jobs demo_server demo_end.1
    demo_end.2 0 (demo_wait 1) demo_request demo_writer 1%positive demo_answer).
  - exact demo_router_inv.
  - exact demo_end_reachable.
  - reflexivity.
  - vm_compute. reflexivity.
Defined.

Lemma concurrent_requests_progress_witness :
  ((∃ c, cstep router_handle (demo_end.1, demo_end.2) c) ∨
   ∀ i t, demo_end.2 !! i = Some t → (∃ o, t = Ret o) ∨
     ∃ wt req w id k, demo_jobs !! i = Some (JRequest wt req w) ∧ as_Flusher w = true ∧
       t = Vis (RSelect id (wt_client wt) (wt_choice wt)) k ∧
       id ∈ wq_entries (sv_queue demo_end.1) ∧ wt_client wt ∉ sv_gone demo_end.1 ∧
       JLeave (wt_client wt) ∉ demo_jobs) ∧
  (∀ i served resp, demo_end.2 !! i = Some (Ret (Waited served resp)) →
     served = None ∧ ∃ wt req w, demo_jobs !! i = Some (JRequest wt req w) ∧
       wt_client wt ∈ sv_gone demo_end.1).
Proof.
  apply (concurrent_requests_progress tiny_pool demo_extractor demo_jobs demo_server);
    [exact demo_router_inv|exact demo_end_reachable].
Defined.

Lemma concurrent_router_wf_witness :
  queue_inv (sv_queue demo_end.1) ∧ proxy_ok (sv_proxy demo_end.1) ∧
  (∀ n l, byName (w_cache (sv_world demo_end.1)) !! n = Some l →
     SandboxName (deref (w_heap (sv_world demo_end.1)) l) = n) ∧
  Len (w_cache (sv_world demo_end.1)) ≤ 1 + Z.of_nat (pred 3).
Proof.
  apply (concurrent_router_wf tiny_pool demo_extractor demo_jobs demo_server demo_end.1 demo_end.2);
    [exact demo_router_inv|exact demo_end_reachable].
Defined.
