(* ===== verification/Strconv.v ===== *)
(** * Numbers and durations in text ([strconv], [time.ParseDuration], [strings.Split])

    The parts of Go's standard library by which the client reads a token
    count and the configuration reads its environment variables. *)

From Stdlib Require Import Ascii String.
From S2P Require Import Prelude.

(** [strconv.ParseInt(v, 10, 64)], and [strconv.Atoi(v)] where [int] has 64 bits. *)
Fixpoint parse_digits (acc : Z) (s : string) : option Z :=
  match s with
  | EmptyString => Some acc
  | String c s' =>
      if (48 <=? N_of_ascii c)%N && (N_of_ascii c <=? 57)%N
      then parse_digits (acc * 10 + (Z.of_N (N_of_ascii c) - 48)) s' else None
  end.

Definition ParseInt (s : string) : option Z :=
  let '(neg, digits) :=
    match s with
    | String c s' =>
        if Ascii.eqb c "-" then (true, s') else if Ascii.eqb c "+" then (false, s') else (false, s)
    | EmptyString => (false, s)
    end in
  if String.eqb digits "" then None
  else match parse_digits 0 digits with
  | Some n =>
      let n := if (neg : bool) then - n else n in
      if (int64_min <=? n) && (n <=? int64_max) then Some n else None
  | None => None
  end.

(** [strings.Split(s, sep)] for a separator of one byte. *)
Fixpoint Split (sep : ascii) (cur : string) (s : string) : list string :=
  match s with
  | EmptyString => [cur]
  | String c s' =>
      if Ascii.eqb c sep then cur :: Split sep EmptyString s'
      else Split sep (cur +:+ String c EmptyString) s'
  end.

(** ** [time.ParseDuration] *)

Definition digit (c : ascii) : option Z :=
  if (48 <=? N_of_ascii c)%N && (N_of_ascii c <=? 57)%N
  then Some (Z.of_N (N_of_ascii c) - 48) else None.

(** [leadingInt]: [None] on overflow of 2^63. *)
Fixpoint leadingInt (x : Z) (s : string) : option (Z * string) :=
  match s with
  | String c s' =>
      match digit c with
      | Some d =>
          if 2 ^ 63 / 10 <? x then None
          else if 2 ^ 63 <? x * 10 + d then None else leadingInt (x * 10 + d) s'
      | None => Some (x, s)
      end
  | EmptyString => Some (x, s)
  end.

(** [leadingFraction]: the digits that fit, and the power of ten. *)
Fixpoint leadingFraction (x scale : Z) (overflow : bool) (s : string) : Z * Z * string :=
  match s with
  | String c s' =>
      match digit c with
      | Some d =>
          if overflow || ((2 ^ 63 - 1) / 10 <? x) || (2 ^ 63 <? x * 10 + d)
          then leadingFraction x scale true s'
          else leadingFraction (x * 10 + d) (scale * 10) false s'
      | None => (x, scale, s)
      end
  | EmptyString => (x, scale, s)
  end.

(** The unit: everything up to a dot or a digit. *)
Fixpoint span_unit (s : string) : string * string :=
  match s with
  | String c s' =>
      if Ascii.eqb c "." || bool_decide (is_Some (digit c)) then (EmptyString, s)
      else let '(u, r) := span_unit s' in (String c u, r)
  | EmptyString => (EmptyString, EmptyString)
  end.

(** [unitMap]; the micro sign and the Greek mu are two bytes each. *)
Definition unitMap (u : string) : option Z :=
  if String.eqb u "ns" then Some 1
  else if String.eqb u "us" || String.eqb u "µs" || String.eqb u "μs" then Some 1000
  else if String.eqb u "ms" then Some Millisecond
  else if String.eqb u "s" then Some Second
  else if String.eqb u "m" then Some Minute
  else if String.eqb u "h" then Some Hour
  else None.

(** One turn of the loop of [ParseDuration]: the new sum and what is left.
    The fraction is exact here, where Go multiplies in [float64]. *)
Definition parse_component (d : Z) (s : string) : option (Z * string) :=
  match s with
  | EmptyString => None
  | String c _ =>
      if negb (Ascii.eqb c "." || bool_decide (is_Some (digit c))) then None else
      match leadingInt 0 s with
      | None => None
      | Some (v, s1) =>
          let pre := negb (Nat.eqb (String.length s1) (String.length s)) in
          let '(f, scale, s2, post) :=
            match s1 with
            | String c1 s1' =>
                if Ascii.eqb c1 "." then
                  let '(f, scale, s2) := leadingFraction 0 1 false s1' in
                  (f, scale, s2, negb (Nat.eqb (String.length s2) (String.length s1')))
                else (0, 1, s1, false)
            | EmptyString => (0, 1, s1, false)
            end in
          if negb pre && negb post then None else
          let '(u, s3) := span_unit s2 in
          match unitMap u with
          | None => None
          | Some unit =>
              if 2 ^ 63 / unit <? v then None else
              let v := v * unit + (if 0 <? f then f * unit / scale else 0) in
              if 2 ^ 63 <? v then None else
              if 2 ^ 63 <? d + v then None else Some (d + v, s3)
          end
      end
  end.

(** The loop; every turn consumes at least a byte, so the length of the
    string is fuel enough. *)
Fixpoint parse_components (fuel : nat) (d : Z) (s : string) : option Z :=
  match s, fuel with
  | EmptyString, _ => Some d
  | _, O => None
  | _, S fuel' =>
      match parse_component d s with
      | Some (d', s') => parse_components fuel' d' s'
      | None => None
      end
  end.

Definition ParseDuration (s : string) : option Z :=
  let '(neg, s) :=
    match s with
    | String c s' =>
        if Ascii.eqb c "-" then (true, s') else if Ascii.eqb c "+" then (false, s') else (false, s)
    | EmptyString => (false, s)
    end in
  if String.eqb s "0" then Some 0
  else if String.eqb s "" then None
  else match parse_components (String.length s) 0 s with
  | Some d =>
      if (neg : bool) then Some (- d) else if 2 ^ 63 - 1 <? d then None else Some d
  | None => None
  end.

Example duration_1h30m : ParseDuration "1h30m" = Some (90 * Minute).
Proof. vm_compute. reflexivity. Qed.
Example duration_fraction : ParseDuration "-1.5s" = Some (- 1500 * Millisecond).
Proof. vm_compute. reflexivity. Qed.
Example duration_bare : ParseDuration "10" = None.
Proof. vm_compute. reflexivity. Qed.

(** ** Lemmas *)

Lemma parse_digits_nonneg acc s n : 0 ≤ acc → parse_digits acc s = Some n → 0 ≤ n.
Proof.
  revert acc. induction s as [|c s IH]; intros acc Hacc Hp; simpl in Hp; [by injection Hp as <-|].
  case_match eqn:Hd; [|done]. apply IH in Hp; [done|].
  apply andb_true_iff in Hd as [Hd%N.leb_le _]. lia.
Qed.

Lemma ParseInt_range s n : ParseInt s = Some n → in_int64 n.
Proof.
  unfold ParseInt, in_int64. intros Hp. repeat case_match; simplify_eq; go_bools; lia.
Qed.

Lemma parse_component_range d s d' s' : parse_component d s = Some (d', s') → d' ≤ 2 ^ 63.
Proof. unfold parse_component. intros Hp. repeat case_match; simplify_eq; go_bools; lia. Qed.

Lemma leadingInt_shorter x s v r : leadingInt x s = Some (v, r) → (String.length r ≤ String.length s)%nat.
Proof.
  revert x. induction s as [|c s IH]; intros x; cbn [leadingInt]; [by intros [= <- <-]|].
  destruct (digit c); [|by intros [= <- <-]].
  do 2 (case_match; [done|]). intros Hl%IH. simpl. lia.
Qed.

Lemma leadingFraction_shorter x scale o s f sc r :
  leadingFraction x scale o s = (f, sc, r) → (String.length r ≤ String.length s)%nat.
Proof.
  revert x scale o. induction s as [|c s IH]; intros x scale o; cbn [leadingFraction].
  { by intros [= <- <- <-]. }
  destruct (digit c); [|by intros [= <- <- <-]].
  case_match; intros Hl%IH; simpl; lia.
Qed.

Lemma span_unit_length s u r : span_unit s = (u, r) → (String.length u + String.length r = String.length s)%nat.
Proof.
  revert u r. induction s as [|c s IH]; intros u r; cbn [span_unit]; [by intros [= <- <-]|].
  case_match; [by intros [= <- <-]|]. destruct (span_unit s) as [u' r'].
  intros [= <- <-]. simpl. by rewrite (IH u' r').
Qed.

(** Every turn of the loop consumes at least the unit. *)
Lemma parse_component_shorter d s d' s' :
  parse_component d s = Some (d', s') → (String.length s' < String.length s)%nat.
Proof.
  unfold parse_component. destruct s as [|c s0]; [done|]. set (s := String c s0).
  case_match; [done|]. destruct (leadingInt 0 s) as [[v s1]|] eqn:Hi; [|done].
  apply leadingInt_shorter in Hi. cbv zeta.
  destruct (match s1 with EmptyString => _ | String _ _ => _ end) as [[[f sc] s2] post] eqn:Hf.
  assert (String.length s2 ≤ String.length s1)%nat.
  { destruct s1 as [|c1 s1']; [by injection Hf as <- <- <- <-|].
    destruct (Ascii.eqb c1 "."); [|by injection Hf as <- <- <- <-].
    destruct (leadingFraction 0 1 false s1') as [[f' sc'] s2'] eqn:Hl.
    injection Hf as <- <- <- <-. apply leadingFraction_shorter in Hl. simpl. lia. }
  destruct (_ && negb post); [done|]. destruct (span_unit s2) as [u s3] eqn:Hu. apply span_unit_length in Hu.
  destruct u as [|cu u]; [done|]. simpl String.length in Hu.
  destruct (unitMap _); [|done]. cbv zeta.
  do 3 (match goal with |- (if ?b then None else _) = _ → _ => destruct b; [done|] end). intros [= _ <-]. lia.
Qed.

(** The length of the string is fuel enough: more does not change the
    result. *)
Lemma parse_components_fuel fuel d s : (String.length s ≤ fuel)%nat →
  parse_components fuel d s = parse_components (String.length s) d s.
Proof.
  assert (Hany : ∀ n m d s, (String.length s ≤ n)%nat → (String.length s ≤ m)%nat →
    parse_components n d s = parse_components m d s); [|intros; by apply Hany].
  induction n as [|n IH]; intros m d0 s0 Hn Hm.
  { destruct s0; [by destruct m|simpl in Hn; lia]. }
  destruct s0 as [|c s0]; [by destruct m|]. destruct m as [|m]; [simpl in Hm; lia|].
  cbn [parse_components]. destruct (parse_component d0 (String c s0)) as [[d' s']|] eqn:Hp; [|done].
  apply parse_component_shorter in Hp. simpl in Hp, Hn, Hm. apply IH; lia.
Qed.
