(* ===== verification/OpencodeClient.v ===== *)
(** * The OpenCode client ([internal/opencode/client.go])

    [CreateSession], [SendMessage] and the reader of Server-Sent Events
    [readSSEStream], with the line scanner of [bufio] and its token limit. *)

From Stdlib Require Import Ascii String.
From stdpp Require Import pretty.
From S2P Require Import Prelude Strconv Http Middleware.

Abbreviation bytes := (list ascii).

(** ** Decoded JSON *)

(** What [json.Unmarshal] stores in an [interface{}]; a number is the
    fraction its [float64] stands for. *)
Inductive json :=
| JNull
| JBool (b : bool)
| JNum (num : Z) (den : positive)
| JStr (s : string)
| JArr (l : list json)
| JObj (m : list (string * json)).

(** [encoding/json] as the client uses it: decoding an object into a map
    (its keys distinct), a session, and a plain response. *)
Class JsonDecoder := {
  Unmarshal_map : string → result (list (string * json));
  Decode_session : string → result string;
  Decode_plain : string → result (string * option (list (string * json)));
  Marshal_message : string → result string;
}.

Fixpoint obj_get (k : string) (m : list (string * json)) : option json :=
  match m with
  | [] => None
  | (k', v) :: m' => if String.eqb k' k then Some v else obj_get k m'
  end.

(** The type assertions [x.(string)], [x.(map[string]interface{})] and
    [x.(float64)]; [int64] of a float truncates, and gives the least
    integer when it does not fit. *)
Definition as_string (j : option json) : option string :=
  match j with Some (JStr s) => Some s | _ => None end.
Definition as_object (j : option json) : option (list (string * json)) :=
  match j with Some (JObj m) => Some m | _ => None end.
Definition float_to_int64 (num : Z) (den : positive) : Z :=
  let q := Z.quot num (Z.pos den) in
  if (int64_min <=? q) && (q <=? int64_max) then q else int64_min.
Definition as_int64 (j : option json) : option Z :=
  match j with Some (JNum n d) => Some (float_to_int64 n d) | _ => None end.

(** ** The stream *)

(** What a reader delivers: bytes, then the end of the stream or an error.
    The scanner reads ahead of its lines: [st_read] is whether it had reached
    the error, or the end, when the [[DONE]] event made the loop stop. *)
Record stream := mkStream { st_bytes : bytes; st_err : option error; st_read : bool }.

(** [scanner.Buffer(..., 1024*1024)]. *)
Definition maxTokenSize : Z := 1024 * 1024.

Definition ErrTooLong : error := ErrVar "bufio.ErrTooLong" "bufio.Scanner: token too long".

Definition char_nl : ascii := "010".

(** The lines of the stream; the flag tells that a line did not fit.  [cur]
    is the current line so far, last byte first, and [n] its length. *)
Fixpoint scan_lines (cur : bytes) (n : Z) (input : bytes) : list bytes * bool :=
  match input with
  | [] => (match cur with [] => [] | _ => [rev cur] end, false)
  | c :: input' =>
      if Ascii.eqb c char_nl then
        let '(ls, e) := scan_lines [] 0 input' in (rev cur :: ls, e)
      else if maxTokenSize <=? n + 1 then ([], true)
      else scan_lines (c :: cur) (n + 1) input'
  end.

(** [dropCR]. *)
Definition dropCR (line : bytes) : bytes :=
  match rev line with
  | c :: l => if Ascii.eqb c "013" then rev l else line
  | [] => line
  end.

Definition scanner_Err (s : stream) : option error :=
  if (scan_lines [] 0 (st_bytes s)).2 then Some ErrTooLong else st_err s.

Definition scanner_lines (s : stream) : list string :=
  (λ l, string_of_list_ascii (dropCR l)) <$> (scan_lines [] 0 (st_bytes s)).1.

(** ** Reading events *)

Section client.
Context `{JsonDecoder}.

(** [processSSEData]: the extended content and the tokens reported. *)
Definition processSSEData (data result : string) : string * Z :=
  match Unmarshal_map data with
  | Err _ => (result, 0)
  | Ok event =>
      let result := match as_string (obj_get "content" event) with
                    | Some content => result +:+ content | None => result end in
      let result := match as_string (obj_get "text" event) with
                    | Some text => result +:+ text | None => result end in
      match as_object (obj_get "usage" event) with
      | Some usage =>
          match as_int64 (obj_get "total_tokens" usage) with
          | Some v => (result, v)
          | None => (result, 0)
          end
      | None => (result, 0)
      end
  end.

(** The variables of [readSSEStream]; [ss_beats] are the heartbeats. *)
Record sse_state := mkSSE {
  ss_result : string;
  ss_dataBuf : string;
  ss_tokens : Z;
  ss_eventCount : Z;
  ss_beats : list string;
}.

(** One complete event. *)
Definition sse_event_done (data : string) (s : sse_state) : sse_state :=
  let '(result, t) := processSSEData data (ss_result s) in
  let n := ss_eventCount s + 1 in
  mkSSE result "" (wrap64 (ss_tokens s + t)) n
    (if n mod 10 =? 0 then ss_beats s ++ ["received " +:+ pretty n +:+ " events"]
     else ss_beats s).

(** The [for scanner.Scan()] loop; the flag tells that it was left by
    [break]. *)
Fixpoint sse_read (lines : list string) (s : sse_state) : sse_state * bool :=
  match lines with
  | [] => (s, false)
  | line :: lines' =>
      if String.eqb line "" then
        if String.eqb (ss_dataBuf s) "" then sse_read lines' s
        else if String.eqb (ss_dataBuf s) "[DONE]" then
          (mkSSE (ss_result s) "" (ss_tokens s) (ss_eventCount s) (ss_beats s), true)
        else sse_read lines' (sse_event_done (ss_dataBuf s) s)
      else if HasPrefix line "data: " then
        let data := TrimPrefix line "data: " in
        let buf := if String.eqb (ss_dataBuf s) "" then data
                   else ss_dataBuf s +:+ newline +:+ data in
        sse_read lines' (mkSSE (ss_result s) buf (ss_tokens s) (ss_eventCount s) (ss_beats s))
      else sse_read lines' s
  end.

(** [readSSEStream]: content, tokens, error and heartbeats. *)
Definition readSSEStream (reader : stream) (hs : headers) :
    string * Z * option error * list string :=
  let '(s, broke) := sse_read (scanner_lines reader) (mkSSE "" "" 0 0 []) in
  let s :=
    if negb (String.eqb (ss_dataBuf s) "") && negb (String.eqb (ss_dataBuf s) "[DONE]") then
      let '(result, t) := processSSEData (ss_dataBuf s) (ss_result s) in
      mkSSE result (ss_dataBuf s) (wrap64 (ss_tokens s + t)) (ss_eventCount s) (ss_beats s)
    else s in
  match (if broke then (if st_read reader then st_err reader else None)
         else scanner_Err reader) with
  | Some err =>
      (ss_result s, ss_tokens s, Some (ErrWrap "opencode: reading stream: " err), ss_beats s)
  | None =>
      let v := header_Get hs "X-Usage-Total-Tokens" in
      let tokens :=
        if (ss_tokens s =? 0) && negb (String.eqb v "")
        then default (ss_tokens s) (ParseInt v) else ss_tokens s in
      (ss_result s, tokens, None, ss_beats s)
  end.

(** ** Requests *)

(** An answer of the OpenCode server. *)
Record http_response := mkHttpResponse {
  hp_StatusCode : Z;
  hp_Header : headers;
  hp_Body : stream;
}.

(** [http.Client.Do] on method, URL, headers and body, and the check of
    the URL in [http.NewRequestWithContext]. *)
Definition transport : Type := string → string → headers → string → result http_response.

Record Client := mkClient {
  baseURL : string;
  NewRequest : string → option error;
  httpDo : transport;
}.

Fixpoint trim_right_loop (cut : ascii) (s : bytes) : bytes :=
  match s with
  | c :: s' => if Ascii.eqb c cut then trim_right_loop cut s' else s
  | [] => []
  end.

(** [strings.TrimRight(s, "/")]. *)
Definition TrimRightSlash (s : string) : string :=
  string_of_list_ascii (rev (trim_right_loop "/" (rev (list_ascii_of_string s)))).

Definition NewClient (check : string → option error) (do : transport) (url : string) : Client :=
  mkClient (TrimRightSlash url) check do.

Definition request (c : Client) (url : string) (hs : headers) (body : string) (what : string) :
    result http_response :=
  match NewRequest c url with
  | Some e => Err (ErrWrap "opencode: creating request: " e)
  | None =>
      match httpDo c "POST" url hs body with
      | Err e => Err (ErrWrap ("opencode: " +:+ what +:+ ": ") e)
      | Ok resp => Ok resp
      end
  end.

Record SendResult := mkSendResult { sr_Content : string; sr_TokensUsed : Z }.

Definition body_text (s : stream) : string := string_of_list_ascii (st_bytes s).

(** The session's identifier. *)
Definition CreateSession (c : Client) : result string :=
  match request c (baseURL c +:+ "/sessions")
          (header_Set "Content-Type" "application/json" ∅) "{}" "creating session" with
  | Err e => Err e
  | Ok resp =>
      if negb (hp_StatusCode resp =? 200) && negb (hp_StatusCode resp =? 201) then
        Err (ErrNew ("opencode: create session status " +:+ pretty (hp_StatusCode resp) +:+
                     ": " +:+ body_text (hp_Body resp)))
      else match Decode_session (body_text (hp_Body resp)) with
      | Err e => Err (ErrWrap "opencode: decoding session: " e)
      | Ok id => Ok id
      end
  end.

(** [strings.Contains(s, sub)]. *)
Fixpoint Contains (s sub : string) : bool :=
  String.prefix sub s || match s with EmptyString => false | String _ s' => Contains s' sub end.

(** [SendMessage]: the result and the heartbeats reported. *)
Definition SendMessage (c : Client) (sessionID prompt : string) :
    result SendResult * list string :=
  match Marshal_message prompt with
  | Err e => (Err (ErrWrap "opencode: marshaling message: " e), [])
  | Ok body =>
      match request c (baseURL c +:+ "/sessions/" +:+ sessionID +:+ "/messages")
              (header_Set "Accept" "text/event-stream"
                (header_Set "Content-Type" "application/json" ∅)) body "sending message" with
      | Err e => (Err e, [])
      | Ok resp =>
          if negb (hp_StatusCode resp =? 200) then
            (Err (ErrNew ("opencode: send message status " +:+ pretty (hp_StatusCode resp) +:+
                          ": " +:+ body_text (hp_Body resp))), [])
          else if Contains (header_Get (hp_Header resp) "Content-Type") "text/event-stream" then
            let '(content, tokens, err, beats) := readSSEStream (hp_Body resp) (hp_Header resp) in
            (match err with Some e => Err e | None => Ok (mkSendResult content tokens) end, beats)
          else match Decode_plain (body_text (hp_Body resp)) with
          | Err e => (Err (ErrWrap "opencode: decoding response: " e), [])
          | Ok (content, usage) =>
              let tokens := match usage with
                            | Some u => default 0 (as_int64 (obj_get "total_tokens" u))
                            | None => 0 end in
              (Ok (mkSendResult content tokens), [])
          end
      end
  end.

(** ** The events of a stream *)

(** The wire form of one event, and of a whole answer. *)
Definition event_bytes (d : string) : bytes :=
  list_ascii_of_string ("data: " +:+ d) ++ [char_nl; char_nl].

Definition stream_bytes (ds : list string) : bytes :=
  concat (event_bytes <$> ds) ++ event_bytes "[DONE]".

(** A payload that fits on one line of the stream. *)
Record payload_ok (d : string) : Prop := {
  po_nonempty : d ≠ "";
  po_not_done : d ≠ "[DONE]";
  po_line : Forall (λ c, c ≠ char_nl ∧ c ≠ "013"%char) (list_ascii_of_string d);
  po_size : Z.of_nat (String.length d) + 6 < maxTokenSize;
}.

(** Content and tokens of the payloads, in order. *)
Definition payloads (ds : list string) : string * Z :=
  foldl (λ '(r, t) d, let '(r', t') := processSSEData d r in (r', wrap64 (t + t')))
    ("", 0) ds.

(** ** Lemmas *)

Lemma scan_lines_line s cur n rest : Forall (λ c, c ≠ char_nl) s →
  n + Z.of_nat (length s) < maxTokenSize →
  scan_lines cur n (s ++ char_nl :: rest) =
    (let '(ls, e) := scan_lines [] 0 rest in ((rev cur ++ s) :: ls, e)).
Proof.
  intros Hs. revert cur n. induction Hs as [|c s Hc _ IH]; intros cur n Hn.
  - simpl. rewrite app_nil_r. by destruct (scan_lines [] 0 rest).
  - change ((c :: s) ++ char_nl :: rest) with (c :: (s ++ char_nl :: rest)). cbn [scan_lines].
    rewrite (proj2 (Ascii.eqb_neq _ _) Hc). simpl in Hn.
    replace (maxTokenSize <=? n + 1) with false by lia.
    rewrite IH by lia. destruct (scan_lines [] 0 rest) as [ls e]. simpl.
    by rewrite <- app_assoc.
Qed.

Lemma dropCR_id l : last l ≠ Some "013"%char → dropCR l = l.
Proof.
  unfold dropCR. destruct (last l) as [c|] eqn:Hl.
  - apply last_Some in Hl as [l' ->]. rewrite rev_app_distr. simpl. intros Hc.
    by rewrite (proj2 (Ascii.eqb_neq c "013")) by congruence.
  - by apply last_None in Hl as ->.
Qed.

Lemma list_ascii_app s1 s2 :
  list_ascii_of_string (s1 +:+ s2) = list_ascii_of_string s1 ++ list_ascii_of_string s2.
Proof. induction s1 as [|c s1 IH]; simpl; [done|]. by f_equal. Qed.

Lemma length_list_ascii s : length (list_ascii_of_string s) = String.length s.
Proof. induction s; simpl; auto. Qed.

(** One event on the wire is a data line and an empty line. *)
Lemma scan_event d rest :
  Forall (λ c, c ≠ char_nl ∧ c ≠ "013"%char) (list_ascii_of_string d) →
  Z.of_nat (String.length d) + 6 < maxTokenSize →
  scan_lines [] 0 (event_bytes d ++ rest) =
    (let '(ls, e) := scan_lines [] 0 rest in
     (list_ascii_of_string ("data: " +:+ d) :: [] :: ls, e)).
Proof.
  intros Hd Hn. unfold event_bytes. rewrite <- app_assoc. simpl ([_; _] ++ rest).
  assert (Hlen : String.length ("data: " +:+ d) = (6 + String.length d)%nat) by done.
  rewrite scan_lines_line; [| |rewrite length_list_ascii, Hlen; lia].
  - simpl. destruct (scan_lines [] 0 rest) as [ls e]. done.
  - rewrite list_ascii_app. apply Forall_app. split; [by repeat constructor|].
    eapply Forall_impl; [exact Hd|]. by intros c [? _].
Qed.

Lemma substring_all d : String.substring 0 (String.length d) d = d.
Proof. induction d as [|c d IH]; simpl; [done|]. by rewrite IH. Qed.

Lemma data_line d : HasPrefix ("data: " +:+ d) "data: " = true ∧
  TrimPrefix ("data: " +:+ d) "data: " = d.
Proof.
  assert (Hp : HasPrefix ("data: " +:+ d) "data: " = true) by (by destruct d).
  split; [done|]. unfold TrimPrefix. rewrite Hp. simpl. rewrite ?Nat.sub_0_r. apply substring_all.
Qed.

Lemma line_no_cr d :
  Forall (λ c, c ≠ char_nl ∧ c ≠ "013"%char) (list_ascii_of_string d) →
  string_of_list_ascii (dropCR (list_ascii_of_string ("data: " +:+ d))) = "data: " +:+ d.
Proof.
  intros Hd. rewrite dropCR_id; [apply string_of_list_ascii_of_string|].
  rewrite list_ascii_app. intros Hl. apply last_Some in Hl as [l' Hl].
  assert ("013"%char ∈ list_ascii_of_string "data: " ++ list_ascii_of_string d) as Hin
    by (rewrite Hl; set_solver).
  apply elem_of_app in Hin as [Hin|Hin]; [simpl in Hin; set_solver|].
  rewrite Forall_forall in Hd. by destruct (Hd _ Hin).
Qed.

Lemma sse_read_event d lines s : payload_ok d → ss_dataBuf s = "" →
  sse_read (("data: " +:+ d) :: "" :: lines) s = sse_read lines (sse_event_done d s).
Proof.
  intros [Hne Hnd _ _] Hbuf. destruct s as [r b t n bs]. simpl in Hbuf. subst b.
  cbn [sse_read]. destruct (data_line d) as [Hp Ht]. rewrite Hp, Ht.
  change (String.eqb ("data: " +:+ d) "") with false. cbn [ss_dataBuf ss_result ss_tokens].
  change (String.eqb "" "") with true. cbn [negb].
  rewrite (proj2 (String.eqb_neq d "")), (proj2 (String.eqb_neq d "[DONE]")) by done.
  unfold sse_event_done. simpl. by destruct (processSSEData d r).
Qed.

Lemma sse_read_done lines s : ss_dataBuf s = "" →
  sse_read (("data: " +:+ "[DONE]") :: "" :: lines) s =
    (mkSSE (ss_result s) "" (ss_tokens s) (ss_eventCount s) (ss_beats s), true).
Proof. intros Hbuf. destruct s as [r b t n bs]. simpl in Hbuf. by subst b. Qed.

Lemma event_done_buf d s : ss_dataBuf (sse_event_done d s) = "".
Proof. unfold sse_event_done. by destruct (processSSEData d (ss_result s)). Qed.

(** The lines of the events, and what reading them does. *)
Lemma scan_events ds rest : Forall payload_ok ds →
  scan_lines [] 0 (concat (event_bytes <$> ds) ++ rest) =
    (let '(ls, e) := scan_lines [] 0 rest in
     (concat ((λ d, [list_ascii_of_string ("data: " +:+ d); []]) <$> ds) ++ ls, e)).
Proof.
  intros Hds. induction Hds as [|d ds Hd _ IH].
  - simpl. by destruct (scan_lines [] 0 rest).
  - rewrite fmap_cons. change (concat (event_bytes d :: (event_bytes <$> ds)))
      with (event_bytes d ++ concat (event_bytes <$> ds)).
    rewrite <- app_assoc, scan_event; [|apply Hd|apply Hd]. rewrite IH.
    by destruct (scan_lines [] 0 rest).
Qed.

Lemma sse_read_lines ds ls s : Forall payload_ok ds → ss_dataBuf s = "" →
  sse_read ((λ l, string_of_list_ascii (dropCR l)) <$>
      (concat ((λ d, [list_ascii_of_string ("data: " +:+ d); []]) <$> ds) ++ ls)) s =
    sse_read ((λ l, string_of_list_ascii (dropCR l)) <$> ls)
      (foldl (λ s d, sse_event_done d s) s ds).
Proof.
  intros Hds. revert s. induction Hds as [|d ds Hd _ IH]; intros s Hbuf; [done|].
  pose proof (line_no_cr d (po_line _ Hd)) as Hl. simpl in Hl |- *. rewrite Hl.
  exact (eq_trans (sse_read_event d _ s Hd Hbuf) (IH _ (event_done_buf d s))).
Qed.

Lemma foldl_buf ds s : ss_dataBuf s = "" →
  ss_dataBuf (foldl (λ s d, sse_event_done d s) s ds) = "".
Proof.
  revert s. induction ds as [|d ds IH]; intros s Hs; simpl; [done|]. apply IH, event_done_buf.
Qed.

Lemma sse_read_events ds rest s : Forall payload_ok ds → ss_dataBuf s = "" →
  sse_read ((λ l, string_of_list_ascii (dropCR l)) <$>
      (scan_lines [] 0 (stream_bytes ds ++ rest)).1) s =
    (foldl (λ s d, sse_event_done d s) s ds, true).
Proof.
  unfold stream_bytes. intros Hds Hbuf. rewrite <- app_assoc, scan_events by done.
  rewrite scan_event; [|by repeat constructor|done].
  destruct (scan_lines [] 0 rest) as [ls e]. simpl.
  rewrite sse_read_lines by done. pose proof (foldl_buf ds s Hbuf) as Hb.
  match goal with |- sse_read _ ?s0 = _ => set (s1 := s0) in * end.
  etransitivity; [exact (sse_read_done _ s1 Hb)|]. destruct s1. simpl in *. by subst.
Qed.

Lemma events_fold ds s :
  let '(r, t) := foldl (λ '(r, t) d,
    let '(r', t') := processSSEData d r in (r', wrap64 (t + t'))) (ss_result s, ss_tokens s) ds in
  let s' := foldl (λ s d, sse_event_done d s) s ds in
  ss_result s' = r ∧ ss_tokens s' = t ∧
  ss_eventCount s' = ss_eventCount s + Z.of_nat (length ds).
Proof.
  revert s. induction ds as [|d ds IH]; intros s; simpl; [split_and!; [done|done|lia]|].
  specialize (IH (sse_event_done d s)). unfold sse_event_done in *.
  destruct (processSSEData d (ss_result s)) as [r' t']. simpl in *.
  destruct (foldl _ (r', _) ds) as [r t]. destruct IH as (? & ? & ->).
  split_and!; [done|done|lia].
Qed.

Lemma payloads_fold ds :
  let s' := foldl (λ s d, sse_event_done d s) (mkSSE "" "" 0 0 []) ds in
  ss_result s' = (payloads ds).1 ∧ ss_tokens s' = (payloads ds).2 ∧ ss_dataBuf s' = "".
Proof.
  pose proof (events_fold ds (mkSSE "" "" 0 0 [])) as Hf. unfold payloads. simpl in Hf.
  destruct (foldl _ ("", 0) ds) as [r t]. simpl. destruct Hf as (? & ? & _).
  split_and!; [done|done|].
  destruct (decide (ds = [])) as [->|Hne]; [done|].
  destruct (exists_last Hne) as (ds' & d & ->). rewrite foldl_app. apply event_done_buf.
Qed.

(** A stream that ends with its [DONE] event is read to the end, without an
    error, whatever follows that the scanner has not read yet. *)
Lemma readSSEStream_events ds rest err seen hs : Forall payload_ok ds →
  seen = false ∨ err = None →
  ∃ beats, readSSEStream (mkStream (stream_bytes ds ++ rest) err seen) hs =
    ((payloads ds).1,
     (if ((payloads ds).2 =? 0) && negb (String.eqb (header_Get hs "X-Usage-Total-Tokens") "")
      then default ((payloads ds).2) (ParseInt (header_Get hs "X-Usage-Total-Tokens"))
      else (payloads ds).2), None, beats).
Proof.
  intros Hds Herr. unfold readSSEStream, scanner_lines. cbn [st_bytes st_read st_err].
  assert ((if seen then err else None) = None) as -> by (destruct Herr as [->| ->]; [done|by destruct seen]).
  rewrite (sse_read_events ds rest (mkSSE "" "" 0 0 []) Hds eq_refl).
  destruct (payloads_fold ds) as (Hr & Ht & Hb). rewrite Hb. simpl. rewrite Hr, Ht. eauto.
Qed.

(** ** Properties *)

(** C40: reading back a Server-Sent Events answer: for any payloads that fit on
    a line, the client reassembles from the stream the contents of the
    payloads in order and the sum of their token counts; the stream ends at
    [[DONE]], so neither bytes after it matter nor a connection error that
    the scanner had not read by then, and the [X-Usage-Total-Tokens] header
    counts only when the stream reported no tokens. *)
Theorem sse_stream_roundtrip (ds : list string) (rest : bytes) (err : option error)
    (seen : bool) (hs : headers) :
  Forall payload_ok ds → seen = false ∨ err = None →
  ∃ tokens beats,
    readSSEStream (mkStream (stream_bytes ds ++ rest) err seen) hs =
      ((payloads ds).1, tokens, None, beats) ∧
    tokens = if (payloads ds).2 =? 0
             then default 0 (ParseInt (header_Get hs "X-Usage-Total-Tokens")) else (payloads ds).2.
Proof.
  intros Hds Herr. destruct (readSSEStream_events ds rest err seen hs Hds Herr) as [beats Hr].
  eexists _, beats. split; [exact Hr|].
  destruct (Z.eqb_spec (payloads ds).2 0) as [->|]; [|done].
  by destruct (String.eqb_spec (header_Get hs "X-Usage-Total-Tokens") "") as [->|].
Qed.

(** C31: a connection error between two events of a stream of well-formed
    payloads is reported, and the content received so far is kept for the
    report. *)
Theorem sse_stream_broken (ds : list string) (e : error) (seen : bool) (hs : headers) :
  Forall payload_ok ds →
  ∃ content tokens beats,
    readSSEStream (mkStream (concat (event_bytes <$> ds)) (Some e) seen) hs =
      (content, tokens, Some (ErrWrap "opencode: reading stream: " e), beats) ∧
    content = (payloads ds).1 ∧ tokens = (payloads ds).2.
Proof.
  intros Hds. unfold readSSEStream, scanner_lines, scanner_Err. cbn [st_bytes st_err].
  pose proof (scan_events ds [] Hds) as Hsc. cbn [scan_lines] in Hsc.
  rewrite !app_nil_r in Hsc. rewrite Hsc. cbn [fst snd].
  pose proof (sse_read_lines ds [] (mkSSE "" "" 0 0 []) Hds eq_refl) as Hrd.
  rewrite app_nil_r in Hrd. rewrite Hrd. cbn [sse_read fmap list_fmap]. destruct (payloads_fold ds) as (Hr & Ht & Hb). rewrite Hb. simpl. rewrite Hr, Ht.
  eauto 10.
Qed.


End client.

(** ** Witnesses *)

(** A decoder that knows one payload. *)
#[local] Instance demo_decoder : JsonDecoder := {|
  Unmarshal_map s :=
    if String.eqb s "hello" then
      Ok [("content", JStr "hi "); ("usage", JObj [("total_tokens", JNum 7 1)])]
    else Err (ErrNew "invalid");
  Decode_session _ := Ok "s";
  Decode_plain _ := Ok ("", None);
  Marshal_message s := Ok s;
|}.

Lemma payload_ok_hello : payload_ok "hello".
Proof. split; [done|done|by repeat constructor|done]. Qed.

Lemma sse_stream_roundtrip_witness :
  payloads ["hello"; "hello"] = ("hi hi ", 14) ∧
  ∃ tokens beats,
    readSSEStream (mkStream (stream_bytes ["hello"; "hello"] ++ list_ascii_of_string "junk")
      (Some ErrTooLong) false) ∅ = ((payloads ["hello"; "hello"]).1, tokens, None, beats) ∧
    tokens = if (payloads ["hello"; "hello"]).2 =? 0
             then default 0 (ParseInt (header_Get ∅ "X-Usage-Total-Tokens"))
             else (payloads ["hello"; "hello"]).2.
Proof.
  split; [vm_compute; reflexivity|].
  apply (sse_stream_roundtrip ["hello"; "hello"] (list_ascii_of_string "junk")
    (Some ErrTooLong) false ∅); [|by left]. repeat (apply Forall_cons; split; [apply payload_ok_hello|]); apply Forall_nil_2.
Defined.

Lemma sse_stream_broken_witness :
  ∃ content tokens beats,
    readSSEStream (mkStream (concat (event_bytes <$> ["hello"])) (Some (ErrNew "reset")) true) ∅ =
      (content, tokens, Some (ErrWrap "opencode: reading stream: " (ErrNew "reset")), beats) ∧
    content = (payloads ["hello"]).1 ∧ tokens = (payloads ["hello"]).2.
Proof.
  apply (sse_stream_broken ["hello"] (ErrNew "reset") true ∅).
  repeat (apply Forall_cons; split; [apply payload_ok_hello|]); apply Forall_nil_2.
Defined.
