(* ===== verification/Workflow.v ===== *)
(** * The coding-task workflow ([internal/workflow/task.go], [schema.go])

    [CodingTaskWorkflow] is a program over Temporal's operations: the
    workflow clock and the execution of an activity with its options.
    Temporal itself (its retries, its failures) is whatever answers these
    operations: the theorems are about every trace of answers. *)

From stdpp Require Import pretty.
From S2P Require Import Prelude Effects Schema.

(** ** Data ([schema.go]) *)

Record TaskInput := mkTaskInput {
  ti_UserID : string;
  ti_Prompt : string;
  ti_OutputSchema : string;
  ti_Timeout : Z;
}.

Record TaskOutput := mkTaskOutput {
  to_SessionID : string;
  to_Result : string;
  to_Duration : Z;
  to_TokensUsed : Z;
}.

Record ExecutionResult := mkExecutionResult { xr_Output : string; xr_TokensUsed : Z }.

Record SessionInfo := mkSessionInfo {
  si_ID : string;
  si_SandboxName : string;
  si_ServiceFQDN : string;
}.

(** The workflow package's own [Allocation]. *)
Record SandboxAllocation := mkSandboxAllocation {
  sa_SandboxName : string;
  sa_ServiceFQDN : string;
  sa_UserID : string;
}.

(** ** Temporal *)

Record RetryPolicy := mkRetryPolicy {
  MaximumAttempts : Z;
  InitialInterval : Z;
  BackoffCoefficient : Z;
  NonRetryableErrorTypes : list string;
}.

Record ActivityOptions := mkActivityOptions {
  StartToCloseTimeout : Z;
  HeartbeatTimeout : Z;
  ao_RetryPolicy : RetryPolicy;
}.

(** The activities, with the type of their results. *)
Inductive activity : Type → Type :=
| AllocateSandboxActivity (userID : string) : activity SandboxAllocation
| CreateSessionActivity (alloc : SandboxAllocation) : activity SessionInfo
| ExecutePromptActivity (session : SessionInfo) (prompt : string) : activity ExecutionResult
| ValidateOutputActivity (result : ExecutionResult) (jsonSchema : string) : activity ExecutionResult
| ReleaseSandboxActivity (sandboxName : string) : activity unit.

(** [workflow.Now] and [workflow.ExecuteActivity(...).Get(...)]. *)
Inductive workflowE : Type → Type :=
| WNow : workflowE Z
| WExec {X} (opts : ActivityOptions) (a : activity X) : workflowE (result X).

(** ** The workflow *)

Definition maxValidationRetries : Z := 3.

Definition releaseOptions : ActivityOptions :=
  mkActivityOptions (5 * Minute) 0 (mkRetryPolicy 3 (5 * Second) 2 []).
Definition allocOptions : ActivityOptions :=
  mkActivityOptions (5 * Minute) 0
    (mkRetryPolicy 3 (5 * Second) 2 ["pool: all sandbox slots are in use"]).
Definition sessionOptions : ActivityOptions :=
  mkActivityOptions (5 * Minute) 0 (mkRetryPolicy 3 (2 * Second) 2 []).
Definition execOptions (input : TaskInput) : ActivityOptions :=
  mkActivityOptions (if 0 <? ti_Timeout input then ti_Timeout input else 30 * Minute)
    (1 * Minute) (mkRetryPolicy 1 0 0 []).
Definition validateOptions : ActivityOptions :=
  mkActivityOptions (1 * Minute) 0 (mkRetryPolicy 1 0 0 []).

(** How the validation loop ends: with the result, the tokens so far and
    [lastErr], or by a return of the whole workflow. *)
Inductive validation :=
| ValidationEnded (execResult : ExecutionResult) (tokens : Z) (lastErr : option error)
| ValidationReturned (tokens : Z) (err : error).

(** [for attempt := 1; attempt <= maxValidationRetries; attempt++]; [left]
    iterations remain. *)
Fixpoint validation_loop (input : TaskInput) (session : SessionInfo) (left : nat) (attempt : Z)
    (execResult : ExecutionResult) (tokens : Z) (lastErr : option error) :
    prog workflowE validation :=
  match left with
  | O => mret (ValidationEnded execResult tokens lastErr)
  | S left' =>
      r ← act (WExec validateOptions (ValidateOutputActivity execResult (ti_OutputSchema input)));
      match r with
      | Ok validated => mret (ValidationEnded validated tokens None)
      | Err err =>
          if attempt <? maxValidationRetries then
            let retryPrompt := BuildRetryPrompt (ti_Prompt input) (xr_Output execResult)
                                 (Error err) (ti_OutputSchema input) in
            retry ← act (WExec (execOptions input) (ExecutePromptActivity session retryPrompt));
            match retry with
            | Err retryErr =>
                mret (ValidationReturned tokens
                  (ErrWrap ("retry prompt (attempt " +:+ pretty attempt +:+ "): ") retryErr))
            | Ok retryResult =>
                validation_loop input session left' (attempt + 1) retryResult
                  (wrap64 (tokens + xr_TokensUsed retryResult)) (Some err)
            end
          else validation_loop input session left' (attempt + 1) execResult tokens (Some err)
      end
  end.

(** Steps 2 to 4, from the allocated sandbox to the return. *)
Definition workflow_body (startTime : Z) (input : TaskInput) (alloc : SandboxAllocation) :
    prog workflowE (TaskOutput * option error) :=
  created ← act (WExec sessionOptions (CreateSessionActivity alloc));
  match created with
  | Err e => mret (mkTaskOutput "" "" 0 0, Some (ErrWrap "creating session: " e))
  | Ok session =>
      executed ← act (WExec (execOptions input) (ExecutePromptActivity session (ti_Prompt input)));
      match executed with
      | Err e => mret (mkTaskOutput (si_ID session) "" 0 0,
                       Some (ErrWrap "executing prompt: " e))
      | Ok execResult =>
          v ← (if String.eqb (ti_OutputSchema input) ""
               then mret (ValidationEnded execResult (xr_TokensUsed execResult) None)
               else validation_loop input session (Z.to_nat maxValidationRetries) 1
                      execResult (xr_TokensUsed execResult) None);
          match v with
          | ValidationReturned tokens err =>
              mret (mkTaskOutput (si_ID session) "" 0 tokens, Some err)
          | ValidationEnded execResult' tokens (Some lastErr) =>
              mret (mkTaskOutput (si_ID session) "" 0 tokens,
                    Some (ErrWrap ("validation failed after " +:+ pretty maxValidationRetries +:+
                                   " attempts: ") lastErr))
          | ValidationEnded execResult' tokens None =>
              now ← act WNow;
              mret (mkTaskOutput (si_ID session) (xr_Output execResult') (now - startTime) tokens,
                    None)
          end
      end
  end.

(** [CodingTaskWorkflow]: the deferred release runs on every return once
    the sandbox is known; its own error is dropped. *)
Definition CodingTaskWorkflow (input : TaskInput) : prog workflowE (TaskOutput * option error) :=
  startTime ← act WNow;
  allocated ← act (WExec allocOptions (AllocateSandboxActivity (ti_UserID input)));
  match allocated with
  | Err e => mret (mkTaskOutput "" "" 0 0, Some (ErrWrap "allocating sandbox: " e))
  | Ok alloc =>
      out ← workflow_body startTime input alloc;
      (if String.eqb (sa_SandboxName alloc) "" then mret tt
       else act (WExec releaseOptions (ReleaseSandboxActivity (sa_SandboxName alloc)));; mret tt);;
      mret out
  end.

(** ** What a trace says *)

Definition released (ev : event workflowE) : option string :=
  match ev with
  | Ev e _ =>
      match e with
      | WExec _ a => match a with ReleaseSandboxActivity n => Some n | _ => None end
      | WNow => None
      end
  end.

(** The name of the sandbox a successful allocation answered with. *)
Definition allocated (ev : event workflowE) : option string :=
  match ev with
  | Ev e x =>
      match e in workflowE X return X → option string with
      | WExec _ a =>
          match a in activity Y return result Y → option string with
          | AllocateSandboxActivity _ =>
              λ r, match r with Ok alloc => Some (sa_SandboxName alloc) | Err _ => None end
          | _ => λ _, None
          end
      | WNow => λ _, None
      end x
  end.

(** A prompt, with the result when it succeeded. *)
Definition prompted (ev : event workflowE) : option (result ExecutionResult) :=
  match ev with
  | Ev e x =>
      match e in workflowE X return X → option (result ExecutionResult) with
      | WExec _ a =>
          match a in activity Y return result Y → option (result ExecutionResult) with
          | ExecutePromptActivity _ _ => Some
          | _ => λ _, None
          end
      | WNow => λ _, None
      end x
  end.

(** A validation: input, schema and answer. *)
Definition validated (ev : event workflowE) :
    option (ExecutionResult * string * result ExecutionResult) :=
  match ev with
  | Ev e x =>
      match e in workflowE X return X → option (ExecutionResult * string * result ExecutionResult) with
      | WExec _ a =>
          match a in activity Y return result Y → option (ExecutionResult * string * result ExecutionResult) with
          | ValidateOutputActivity r s => λ ans, Some (r, s, ans)
          | _ => λ _, None
          end
      | WNow => λ _, None
      end x
  end.

Definition tokens_of (r : result ExecutionResult) : Z :=
  match r with Ok x => xr_TokensUsed x | Err _ => 0 end.

(** The tokens of the successful prompts, added in 64 bits. *)
Definition add_tokens (t : Z) (r : result ExecutionResult) : Z :=
  match r with Ok x => wrap64 (t + xr_TokensUsed x) | Err _ => t end.

(** ** Lemmas *)

(** The events of a part of the workflow that neither allocates nor
    releases. *)
Definition quiet (tr : list (event workflowE)) : Prop :=
  omap released tr = [] ∧ omap allocated tr = [].

Ltac fold_omap := repeat match goal with
  | |- context [list_omap ?A ?B ?f ?l] => change (list_omap A B f l) with (omap f l)
  end.

Lemma quiet_app tr1 tr2 : quiet tr1 → quiet tr2 → quiet (tr1 ++ tr2).
Proof. intros [H1 H2] [H3 H4]. split; rewrite omap_app; [by rewrite H1, H3|by rewrite H2, H4]. Qed.

Record validation_spec (input : TaskInput) (left : nat) (tokens : Z) (lastErr : option error)
    (tr : list (event workflowE)) (v : validation) : Prop := {
  vs_quiet : quiet tr;
  vs_validated : (length (omap validated tr) ≤ left)%nat;
  vs_prompted : (length (omap prompted tr) ≤ pred left)%nat;
  vs_schema r s ans : (r, s, ans) ∈ omap validated tr → s = ti_OutputSchema input;
  vs_tokens : match v with ValidationEnded _ t _ | ValidationReturned t _ =>
                t = foldl add_tokens tokens (omap prompted tr) end;
  vs_ended r t : v = ValidationEnded r t None →
    (∃ r0, (r0, ti_OutputSchema input, Ok r) ∈ omap validated tr) ∨ (left = 0%nat ∧ lastErr = None);
}.

Lemma validation_loop_spec input session left attempt execResult tokens lastErr tr v :
  attempt + Z.of_nat left = 4 →
  runs (validation_loop input session left attempt execResult tokens lastErr) tr v →
  validation_spec input left tokens lastErr tr v.
Proof.
  revert attempt execResult tokens lastErr tr.
  induction left as [|left IH]; intros attempt er tokens lastErr tr Hat Hr.
  { destruct Hr as [-> ->]. split; simpl; fold_omap; try done; try lia.
    { intros r s ans Hin. destruct (not_elem_of_nil _ Hin). }
    intros r t [= -> -> ->]. by right. }
  destruct tr as [|ev tr]; [done|]. destruct Hr as (ans & -> & Hr). simpl in Hr.
  destruct ans as [ok|err].
  { destruct Hr as [-> ->]. split; simpl; fold_omap; try done; try lia.
    - intros r s a [= -> -> ->]%list_elem_of_singleton. done.
    - intros r t [= -> ->]. left. exists er. set_solver. }
  unfold maxValidationRetries in Hr. destruct (attempt <? 3) eqn:Ha.
  - destruct tr as [|ev tr]; [done|]. destruct Hr as (ans & -> & Hr). simpl in Hr.
    destruct ans as [retry|rerr].
    + apply IH in Hr as [[Hq1 Hq2] Hv Hp Hs Ht He]; [|lia]. split; simpl; fold_omap; try done.
      * lia.
      * assert (left ≠ 0%nat) by lia. lia.
      * intros r s a [[= -> -> ->]|Hin]%elem_of_cons; [done|by eapply Hs].
      * intros r t Hvt. destruct (He r t Hvt) as [[r0 Hr0]|[-> ?]]; [|lia].
        left. exists r0. by right.
    + destruct Hr as [-> ->]. split; simpl; fold_omap; try done; try lia.
      intros r s a [= -> -> ->]%list_elem_of_singleton. done.
  - apply IH in Hr as [[Hq1 Hq2] Hv Hp Hs Ht He]; [|lia]. split; simpl; fold_omap; try done.
    + lia.
    + lia.
    + intros r s a [[= -> -> ->]|Hin]%elem_of_cons; [done|by eapply Hs].
    + intros r t Hvt. destruct (He r t Hvt) as [[r0 Hr0]|[-> [=]]].
      left. exists r0. by right.
Qed.

(** What the body does, for every trace. *)
Record body_spec (input : TaskInput) (tr : list (event workflowE))
    (out : TaskOutput * option error) : Prop := {
  bs_quiet : quiet tr;
  bs_validated : (length (omap validated tr) ≤ 3)%nat;
  bs_prompted : (length (omap prompted tr) ≤ 3)%nat;
  bs_no_schema : ti_OutputSchema input = "" →
    omap validated tr = [] ∧ (length (omap prompted tr) ≤ 1)%nat;
  bs_tokens : match omap prompted tr with
              | Ok r :: rs => to_TokensUsed out.1 = foldl add_tokens (xr_TokensUsed r) rs
              | _ => to_TokensUsed out.1 = 0
              end;
  bs_result : out.2 = None →
    if String.eqb (ti_OutputSchema input) ""
    then ∃ r, omap prompted tr = [Ok r] ∧ to_Result out.1 = xr_Output r
    else ∃ r0 r, (r0, ti_OutputSchema input, Ok r) ∈ omap validated tr ∧
           to_Result out.1 = xr_Output r;
}.

Lemma workflow_body_spec start input alloc tr out :
  runs (workflow_body start input alloc) tr out → body_spec input tr out.
Proof.
  intros Hr. destruct tr as [|ev tr]; [done|]. destruct Hr as (ans & -> & Hr).
  destruct ans as [session|e]; cycle 1.
  { destruct Hr as [-> ->]. split; simpl; fold_omap; try done; try lia; intros; auto with lia. }
  destruct tr as [|ev tr]; [done|]. destruct Hr as (ans & -> & Hr).
  destruct ans as [er|e]; cycle 1.
  { destruct Hr as [-> ->]. split; simpl; fold_omap; try done; try lia; intros; auto with lia. }
  change (runs ((if String.eqb (ti_OutputSchema input) ""
    then mret (ValidationEnded er (xr_TokensUsed er) None)
    else validation_loop input session (Z.to_nat maxValidationRetries) 1 er
           (xr_TokensUsed er) None) ≫= λ v, match v with
      | ValidationReturned tokens err =>
          mret (mkTaskOutput (si_ID session) "" 0 tokens, Some err)
      | ValidationEnded _ tokens (Some lastErr) =>
          mret (mkTaskOutput (si_ID session) "" 0 tokens,
                Some (ErrWrap ("validation failed after " +:+ pretty maxValidationRetries +:+
                               " attempts: ") lastErr))
      | ValidationEnded execResult' tokens None =>
          now ← act WNow;
          mret (mkTaskOutput (si_ID session) (xr_Output execResult') (now - start) tokens, None)
      end) tr out) in Hr.
  apply runs_bind in Hr as (tr1 & tr2 & v & -> & Hv & Hout).
  assert (Hsp : quiet tr1 ∧ (length (omap validated tr1) ≤ 3)%nat ∧
    (length (omap prompted tr1) ≤ 2)%nat ∧
    (ti_OutputSchema input = "" → omap validated tr1 = [] ∧ omap prompted tr1 = []) ∧
    match v with ValidationEnded _ t _ | ValidationReturned t _ =>
      t = foldl add_tokens (xr_TokensUsed er) (omap prompted tr1) end ∧
    ∀ r t, v = ValidationEnded r t None →
      if String.eqb (ti_OutputSchema input) "" then r = er else
      ∃ r0, (r0, ti_OutputSchema input, Ok r) ∈ omap validated tr1).
  { destruct (String.eqb_spec (ti_OutputSchema input) "") as [Hs|Hs].
    - destruct Hv as [-> ->]. by split_and!; simpl; try lia; intros; simplify_eq.
    - apply validation_loop_spec in Hv as [Hq Hv Hp _ Ht He]; [|done].
      split_and!; try done. intros r t Hvt. by destruct (He r t Hvt) as [?|[? _]]. }
  clear Hv. destruct Hsp as ([Hq1 Hq2] & Hv & Hp & Hs & Ht & He).
  assert (tr2 = [] ∧ to_TokensUsed out.1 =
      match v with ValidationEnded _ t _ | ValidationReturned t _ => t end ∧ out.2 ≠ None ∨
    (∃ now, tr2 = [Ev WNow now]) ∧ ∃ r t, v = ValidationEnded r t None ∧
      to_TokensUsed out.1 = t ∧ to_Result out.1 = xr_Output r) as Hend.
  { destruct v as [r t [le|]|t e]; simpl in Hout.
    - destruct Hout as [-> ->]. left. done.
    - destruct tr2 as [|ev tr2]; [done|]. destruct Hout as (now & -> & -> & ->).
      right. split; [by exists now|]. by exists r, t.
    - destruct Hout as [-> ->]. left. done. }
  assert (Hno : ∀ {B} (f : event workflowE → option B), (∀ now, f (Ev WNow now) = None) →
    omap f tr2 = []).
  { intros B f Hf. destruct Hend as [[-> _]|[[now ->] _]]; [done|]. simpl. by rewrite Hf. }
  split; simpl; fold_omap; rewrite ?omap_app, ?Hno, ?app_nil_r by done; simpl.
  - assert (quiet tr2) by (split; by apply Hno).
    match goal with |- quiet (?e1 :: ?e2 :: _) => apply (quiet_app (e1 :: e2 :: tr1) tr2) end;
      [by split|done].
  - done.
  - lia.
  - intros Hs0. destruct (Hs Hs0) as [-> ->]. simpl. auto with lia.
  - destruct Hend as [(_ & -> & _)|(_ & r & t & -> & -> & _)]; [by destruct v|exact Ht].
  - intros Hok. destruct Hend as [(_ & _ & ?)|(_ & r & t & -> & _ & Hres)]; [done|].
    specialize (He r t eq_refl). destruct (String.eqb_spec (ti_OutputSchema input) "") as [Hs0|Hs0].
    + subst r. destruct (Hs Hs0) as [_ ->]. by exists er.
    + destruct He as [r0 Hin]. by exists r0, r.
Qed.

(** Splits a trace of the workflow: the clock, the allocation, then the body
    and the release. *)
Lemma CodingTaskWorkflow_trace input tr out : runs (CodingTaskWorkflow input) tr out →
  ∃ now r tr',
    tr = Ev WNow now
      :: Ev (WExec allocOptions (AllocateSandboxActivity (ti_UserID input))) r :: tr' ∧
    match r with
    | Err e => tr' = [] ∧
        out = (mkTaskOutput "" "" 0 0, Some (ErrWrap "allocating sandbox: " e))
    | Ok alloc => ∃ tr1 tr2, tr' = tr1 ++ tr2 ∧ body_spec input tr1 out ∧
        if String.eqb (sa_SandboxName alloc) "" then tr2 = []
        else ∃ ans, tr2 = [Ev (WExec releaseOptions
                                 (ReleaseSandboxActivity (sa_SandboxName alloc))) ans]
    end.
Proof.
  intros Hr. destruct tr as [|ev tr]; [done|]. destruct Hr as (now & -> & Hr).
  destruct tr as [|ev tr]; [done|]. destruct Hr as (r & -> & Hr).
  exists now, r, tr. split; [done|]. destruct r as [alloc|e]; [|exact Hr].
  change (runs (workflow_body now input alloc ≫= λ out,
    (if String.eqb (sa_SandboxName alloc) "" then mret tt
     else act (WExec releaseOptions (ReleaseSandboxActivity (sa_SandboxName alloc)));; mret tt);;
    mret out) tr out) in Hr.
  apply runs_bind in Hr as (tr1 & tr2 & out' & -> & Hb & Hr).
  assert (out = out' ∧ if String.eqb (sa_SandboxName alloc) "" then tr2 = []
        else ∃ ans, tr2 = [Ev (WExec releaseOptions
                                 (ReleaseSandboxActivity (sa_SandboxName alloc))) ans])
    as [-> Hend].
  { destruct (String.eqb (sa_SandboxName alloc) ""); [by destruct Hr|].
    destruct tr2 as [|ev tr2]; [done|]. destruct Hr as (ans & -> & -> & ->). split; [done|].
    by exists ans. }
  exists tr1, tr2. split_and!; [done|by eapply workflow_body_spec|done].
Qed.

Lemma workflow_validated (input : TaskInput) (tr : list (event workflowE))
    (out : TaskOutput * option error) :
  runs (CodingTaskWorkflow input) tr out → out.2 = None →
  if String.eqb (ti_OutputSchema input) ""
  then ∃ r, omap prompted tr = [Ok r] ∧ to_Result out.1 = xr_Output r
  else ∃ r0 r, (r0, ti_OutputSchema input, Ok r) ∈ omap validated tr ∧
         to_Result out.1 = xr_Output r.
Proof.
  intros Hr Hok. apply CodingTaskWorkflow_trace in Hr as (now & r & tr' & -> & Hr).
  destruct r as [alloc|e]; cycle 1. { by destruct Hr as [_ ->]. }
  destruct Hr as (tr1 & tr2 & -> & [_ _ _ _ _ Hres] & Hend). specialize (Hres Hok).
  assert (omap prompted tr2 = [] ∧ omap validated tr2 = []) as [Hp2 Hv2].
  { destruct (String.eqb (sa_SandboxName _) _); [by subst|]. by destruct Hend as [ans ->]. }
  simpl. fold_omap. by rewrite !omap_app, Hp2, Hv2, !app_nil_r.
Qed.

(** ** Properties *)

(** C13: the sandbox is released exactly once: on every path through the
    workflow (each activity may fail, the retry loop may give up), whatever
    Temporal answers, a workflow that was given a sandbox ends by releasing
    that sandbox, once, after everything else; one that was not releases
    nothing. *)
Theorem workflow_releases_once (input : TaskInput) (tr : list (event workflowE))
    (out : TaskOutput * option error) :
  runs (CodingTaskWorkflow input) tr out →
  omap released tr =
    match omap allocated tr with
    | name :: _ => if String.eqb name "" then [] else [name]
    | [] => []
    end ∧
  (∀ name, omap released tr = [name] → ∃ tr' ev, tr = tr' ++ [ev] ∧ released ev = Some name).
Proof.
  intros Hr. apply CodingTaskWorkflow_trace in Hr as (now & r & tr' & -> & Hr).
  destruct r as [alloc|e]; cycle 1. { by destruct Hr as [-> _]. }
  destruct Hr as (tr1 & tr2 & -> & [[Hq1 Hq2] _ _ _ _ _] & Hend).
  simpl. fold_omap. rewrite !omap_app, Hq1. simpl.
  destruct (String.eqb (sa_SandboxName alloc) "") eqn:Hn.
  - subst tr2. simpl. done.
  - destruct Hend as [ans ->]. simpl. split; [done|]. intros name [= <-].
    eexists (_ :: _ :: tr1), _. split; [done|done].
Qed.

(** C26: the workflow is bounded and accounts for every token: whatever the
    activities answer it makes at most three prompts and three validations
    (one prompt and none without a schema), and the tokens it reports are
    the 64-bit sum of the tokens of the prompts that succeeded, on error
    paths too. *)
Theorem workflow_bounded_accounting (input : TaskInput) (tr : list (event workflowE))
    (out : TaskOutput * option error) :
  runs (CodingTaskWorkflow input) tr out →
  (length (omap prompted tr) ≤ 3)%nat ∧ (length (omap validated tr) ≤ 3)%nat ∧
  (ti_OutputSchema input = "" →
     omap validated tr = [] ∧ (length (omap prompted tr) ≤ 1)%nat) ∧
  to_TokensUsed out.1 =
    match omap prompted tr with
    | Ok r :: rs => foldl add_tokens (xr_TokensUsed r) rs
    | _ => 0
    end.
Proof.
  intros Hr. apply CodingTaskWorkflow_trace in Hr as (now & r & tr' & -> & Hr).
  destruct r as [alloc|e]; cycle 1.
  { destruct Hr as [-> ->]. simpl. split_and!; try done; intros; auto with lia. }
  destruct Hr as (tr1 & tr2 & -> & [_ Hv Hp Hs Ht _] & Hend).
  assert (omap prompted tr2 = [] ∧ omap validated tr2 = []) as [Hp2 Hv2].
  { destruct (String.eqb _ _); [by subst|]. by destruct Hend as [ans ->]. }
  simpl. fold_omap. rewrite !omap_app, Hp2, Hv2, !app_nil_r. split_and!; try done.
  by destruct (omap prompted tr1) as [|[]].
Qed.

(** A successful workflow returns what it was asked for: without a
    schema the output of its one prompt, with a schema the output of a
    validation activity that succeeded on exactly that schema. *)
Theorem workflow_result_validated (input : TaskInput) (tr : list (event workflowE))
    (out : TaskOutput * option error) :
  runs (CodingTaskWorkflow input) tr out → out.2 = None →
  if String.eqb (ti_OutputSchema input) ""
  then ∃ r, omap prompted tr = [Ok r] ∧ to_Result out.1 = xr_Output r
  else ∃ r0 r, (r0, ti_OutputSchema input, Ok r) ∈ omap validated tr ∧
         to_Result out.1 = xr_Output r.
Proof. apply workflow_validated. Qed.

(** ** Witnesses *)

Definition demo_input : TaskInput := mkTaskInput "alice" "list the files" "{}" 0.
Definition demo_alloc : SandboxAllocation := mkSandboxAllocation "sb-1" "sb-1:4096" "alice".
Definition demo_session : SessionInfo := mkSessionInfo "s-1" "sb-1" "sb-1:4096".

(** One failed validation, a second prompt, a success. *)
Definition demo_trace : list (event workflowE) :=
  let bad := mkExecutionResult "oops" 10 in
  let good := mkExecutionResult "{}" 5 in
  let why := ErrNew "not JSON" in
  [Ev WNow 100;
   Ev (WExec allocOptions (AllocateSandboxActivity "alice")) (Ok demo_alloc);
   Ev (WExec sessionOptions (CreateSessionActivity demo_alloc)) (Ok demo_session);
   Ev (WExec (execOptions demo_input) (ExecutePromptActivity demo_session "list the files")) (Ok bad);
   Ev (WExec validateOptions (ValidateOutputActivity bad "{}")) (Err why);
   Ev (WExec (execOptions demo_input) (ExecutePromptActivity demo_session
        (BuildRetryPrompt "list the files" "oops" "not JSON" "{}"))) (Ok good);
   Ev (WExec validateOptions (ValidateOutputActivity good "{}")) (Ok good);
   Ev WNow 160;
   Ev (WExec releaseOptions (ReleaseSandboxActivity "sb-1")) (Ok tt)].

Definition demo_output : TaskOutput * option error := (mkTaskOutput "s-1" "{}" 60 15, None).

Lemma demo_runs : runs (CodingTaskWorkflow demo_input) demo_trace demo_output.
Proof. repeat (eexists; split; [reflexivity|]). by vm_compute. Qed.

Lemma workflow_releases_once_witness :
  omap released demo_trace = ["sb-1"] ∧
  (∀ name, omap released demo_trace = [name] →
    ∃ tr' ev, demo_trace = tr' ++ [ev] ∧ released ev = Some name).
Proof. apply (workflow_releases_once demo_input demo_trace demo_output demo_runs). Defined.

Lemma workflow_bounded_accounting_witness :
  (length (omap prompted demo_trace) ≤ 3)%nat ∧ (length (omap validated demo_trace) ≤ 3)%nat ∧
  ("{}" = "" → omap validated demo_trace = [] ∧ (length (omap prompted demo_trace) ≤ 1)%nat) ∧
  to_TokensUsed demo_output.1 =
    match omap prompted demo_trace with
    | Ok r :: rs => foldl add_tokens (xr_TokensUsed r) rs
    | _ => 0
    end.
Proof. apply (workflow_bounded_accounting demo_input demo_trace demo_output demo_runs). Defined.

Lemma workflow_result_validated_witness :
  ∃ r0 r, (r0, "{}", Ok r) ∈ omap validated demo_trace ∧ to_Result demo_output.1 = xr_Output r.
Proof.
  apply (workflow_result_validated demo_input demo_trace demo_output demo_runs). reflexivity.
Defined.
