(* ===== verification/Activities.v ===== *)
(** * The activities ([internal/workflow/activities.go])

    The implementations the worker registers for the workflow's
    activities, over the pool manager, the OpenCode client and the schema
    validator. *)

From stdpp Require Import pretty.
From S2P Require Import Prelude Effects Cache Provider PoolManager PoolInv PoolSpec Schema OpencodeClient Workflow Demo.

(** ** Activities *)

(** [Activities.Pool] may be nil; a nil [Validator] is replaced by a new
    one, which is the same; [Metrics] may be nil. *)
Record Activities := mkActivities {
  act_Pool : option PoolManager;
  act_Metrics : bool;
}.

(** [a.AllocateSandboxActivity]; [ms] is [time.Now().UnixMilli()]. *)
Definition allocate_activity (a : Activities) (userID : string) :
    prog poolE (result SandboxAllocation) :=
  match act_Pool a with
  | None =>
      now ← act ENow;
      mret (Ok (mkSandboxAllocation
        ("sandbox-" +:+ userID +:+ "-" +:+ pretty (now `div` Millisecond))
        ("sandbox-" +:+ userID +:+ ".opencode-scale.svc.cluster.local:4096") userID))
  | Some p =>
      r ← Allocate p userID;
      match r with
      | Err e => mret (Err (ErrWrap "allocating sandbox: " e))
      | Ok l =>
          alloc ← act (ERead l);
          mret (Ok (mkSandboxAllocation (SandboxName alloc) (ServiceFQDN alloc) userID))
      end
  end.

Definition release_activity (a : Activities) (sandboxName : string) :
    prog poolE (option error) :=
  match act_Pool a with
  | None => mret None
  | Some p => Release p sandboxName
  end.

Section activities.
Context `{JsonDecoder} `{SchemaLib}.
Context (check_url : string → option error) (do : transport).

Definition session_activity (alloc : SandboxAllocation) : result SessionInfo :=
  let client := NewClient check_url do ("http://" +:+ sa_ServiceFQDN alloc) in
  match CreateSession client with
  | Err e => Err (ErrWrap "creating opencode session: " e)
  | Ok id => Ok (mkSessionInfo id (sa_SandboxName alloc) (sa_ServiceFQDN alloc))
  end.

(** The result, the heartbeats recorded, and the tokens metered. *)
Definition prompt_activity (a : Activities) (session : SessionInfo) (prompt : string) :
    result ExecutionResult * list string * list Z :=
  let client := NewClient check_url do ("http://" +:+ si_ServiceFQDN session) in
  let '(sent, progress) := SendMessage client (si_ID session) prompt in
  match sent with
  | Err e => (Err (ErrWrap "executing prompt: " e),
              "starting prompt execution" :: progress, [])
  | Ok r =>
      (Ok (mkExecutionResult (sr_Content r) (sr_TokensUsed r)),
       "starting prompt execution" :: progress ++ ["prompt execution complete"],
       if act_Metrics a then [sr_TokensUsed r] else [])
  end.

(** [ValidationError.Error()]. *)
Definition ValidationError (feedback failedOutput : string) : error :=
  ErrNew ("output validation failed: " +:+ feedback).

Definition validate_activity (r : ExecutionResult) (jsonSchema : string) :
    result ExecutionResult :=
  let vr := ValidateWithFeedback (xr_Output r) jsonSchema in
  if negb (vr_Valid vr) then Err (ValidationError (vr_Feedback vr) (vr_Output vr))
  else Ok (mkExecutionResult (vr_Output vr) (xr_TokensUsed r)).

(** The standalone functions of the same names, without dependencies. *)
Definition standalone_allocate (userID : string) : prog poolE (result SandboxAllocation) :=
  allocate_activity (mkActivities None false) userID.

Definition standalone_session (alloc : SandboxAllocation) : prog poolE (result SessionInfo) :=
  now ← act ENow;
  mret (Ok (mkSessionInfo ("sess-" +:+ pretty (now `div` Millisecond))
    (sa_SandboxName alloc) (sa_ServiceFQDN alloc))).

Definition standalone_prompt (session : SessionInfo) (prompt : string) :
    result ExecutionResult * list string :=
  (Ok (mkExecutionResult ("placeholder result for prompt: " +:+ prompt) 0),
   ["starting prompt execution"; "prompt execution complete"]).

Definition standalone_validate (r : ExecutionResult) (jsonSchema : string) : result ExecutionResult :=
  validate_activity r jsonSchema.

Definition standalone_release (sandboxName : string) : option error := None.

(** Every validation of the trace was answered by the activity above. *)
Definition validations_answered (tr : list (event workflowE)) : Prop :=
  ∀ r s out, (r, s, Ok out) ∈ omap validated tr → validate_activity r s = Ok out.

(** ** Lemmas *)

Lemma validate_activity_ok r s out : validate_activity r s = Ok out →
  Validate (xr_Output out) s = None ∧ xr_TokensUsed out = xr_TokensUsed r ∧
  JsonScanner.Valid (String.list_ascii_of_string (xr_Output out)) = true.
Proof.
  unfold validate_activity.
  destruct (ValidateWithFeedback_spec (xr_Output r) s) as (_ & Hv & _).
  destruct (vr_Valid _) eqn:Hvalid; [|done]. intros [= <-].
  destruct (Hv eq_refl) as [? ?]. done.
Qed.

End activities.

(** ** Properties *)

(** C16: end to end, a task with a schema that the workflow reports as
    successful has an output that is valid JSON and satisfies the schema,
    when the validations of the run were answered by the validation
    activity; whatever the other activities, retries and answers were. *)
Theorem workflow_output_satisfies_schema `{SchemaLib} (input : TaskInput)
    (tr : list (event workflowE)) (out : TaskOutput * option error) :
  runs (CodingTaskWorkflow input) tr out → validations_answered tr →
  out.2 = None → ti_OutputSchema input ≠ "" →
  Validate (to_Result out.1) (ti_OutputSchema input) = None ∧
  JsonScanner.Valid (String.list_ascii_of_string (to_Result out.1)) = true.
Proof.
  intros Hr Ha Hok Hs. apply (workflow_validated input) in Hr; [|done].
  destruct (String.eqb_spec (ti_OutputSchema input) "") as [|_]; [done|].
  destruct Hr as (r0 & r & Hin & ->). apply Ha, validate_activity_ok in Hin. tauto.
Qed.

(** The allocation activity reports the sandbox the pool assigned: on
    success the cached allocation under the reported name belongs to the
    user and has the reported address; on failure nothing was added. *)
Theorem allocate_activity_correct {P} `{SandboxProviderLaws P} `{RuntimeLaws}
    (p : PoolManager) (metrics : bool) (u : string) (w : world P) :
  pool_inv p w →
  ∃ r w', run handle (allocate_activity (mkActivities (Some p) metrics) u) w = Some (r, w') ∧
    pool_inv p w' ∧
    match r with
    | Ok sa => ∃ a, pool_view w' !! sa_SandboxName sa = Some a ∧
        ServiceFQDN a = sa_ServiceFQDN sa ∧ UserID a = u ∧ Status a = StatusActive
    | Err _ => pool_view w' = pool_view w
    end.
Proof.
  intros Hinv. destruct (Allocate_meets p u w Hinv) as (r & w' & Hrun & Hinv' & Hspec).
  unfold allocate_activity. cbn [act_Pool]. rewrite run_bind, Hrun.
  destruct r as [l|e]; simpl in *; eexists _, w'; (split_and!; [done|done|]); simpl.
  - remember (pool_view w') as m' eqn:Hm'. remember (deref (w_heap w') l) as a0 eqn:Ha0.
    inversion Hspec as [? ? n b sid now Hn Hst [Hne _]|? ? n fqdn sid now ? ? ? [Hne _]| | | | | | | | | | |];
      subst; simpl; eexists; [|by rewrite lookup_insert_eq].
    assert (SandboxName b = n) as ->; [|by rewrite lookup_insert_eq].
    unfold pool_view in Hn. rewrite view_Some in Hn by apply (pw_cache _ (pi_wf _ _ Hinv)).
    destruct Hn as (l0 & Hl0 & Hh).
    destruct (wf_name _ _ (pw_cache _ (pi_wf _ _ Hinv)) _ _ Hl0) as (b' & Hb' & <-). congruence.
  - by inversion Hspec.
Qed.

(** ** Witnesses *)

#[local] Existing Instance demo_runtime.

(** A schema library that accepts objects. *)
Definition demo_schema_lib : SchemaLib := {|
  doc := string;
  compiler := unit;
  compiled := string;
  decode_value := Ok;
  syntax_error s := ErrNew "invalid character";
  NewCompiler := tt;
  AddResource _ _ c := Ok c;
  Compile _ _ := Ok "object";
  schema_Validate d _ := if String.prefix "{" d then None else Some (ErrNew "want object");
|}.

Lemma demo_answered : @validations_answered demo_schema_lib demo_trace.
Proof.
  intros r s out Hin. simpl in Hin.
  apply elem_of_cons in Hin as [Heq|Hin]; [discriminate|].
  apply list_elem_of_singleton in Hin. injection Hin as -> -> ->. vm_compute. reflexivity.
Qed.

Lemma workflow_output_satisfies_schema_witness :
  @Validate demo_schema_lib (to_Result demo_output.1) "{}" = None ∧
  JsonScanner.Valid (String.list_ascii_of_string (to_Result demo_output.1)) = true.
Proof.
  apply (@workflow_output_satisfies_schema demo_schema_lib demo_input demo_trace demo_output
    demo_runs demo_answered); [reflexivity|discriminate].
Defined.

Lemma allocate_activity_correct_witness :
  ∃ r w', run handle (allocate_activity (mkActivities (Some demo_pool) true) "bob") demo_warm
      = Some (r, w') ∧
    pool_inv demo_pool w' ∧
    match r with
    | Ok sa => ∃ a, pool_view w' !! sa_SandboxName sa = Some a ∧
        ServiceFQDN a = sa_ServiceFQDN sa ∧ UserID a = "bob" ∧ Status a = StatusActive
    | Err _ => pool_view w' = pool_view demo_warm
    end.
Proof. apply (allocate_activity_correct demo_pool true "bob"), demo_warm_inv. Defined.
