(* ===== verification/Tasks.v ===== *)
(** * The task API ([internal/router/tasks.go])

    [TaskHandler] over a Temporal client, which is a parameter: each call
    to it may answer anything, so its answers are indexed by the number of
    calls (and clock reads) made so far, the handler's state. *)

From Stdlib Require Import Ascii String.
From S2P Require Import Prelude Strconv Effects Http Middleware Workflow.

(** ** Temporal's client *)

Inductive execution_status :=
| ExecUnspecified | ExecRunning | ExecCompleted | ExecFailed | ExecCanceled
| ExecTerminated | ExecContinuedAsNew | ExecTimedOut.

Record execution_info := mkExecutionInfo {
  ei_Status : execution_status;
  ei_StartTime : Z;
  ei_CloseTime : Z;
}.

Inductive describe_result :=
| Described (info : execution_info)
| DescribeNotFound
| DescribeFailed (e : error).

Record StartWorkflowOptions := mkStartOptions {
  so_TaskQueue : string;
  so_WorkflowExecutionTimeout : Z;
}.

(** The client, the clock and the decoder of request bodies. *)
Class TaskEnv := {
  ExecuteWorkflow : nat → StartWorkflowOptions → TaskInput → result string;
  DescribeWorkflowExecution : nat → string → describe_result;
  GetWorkflow : nat → string → result TaskOutput;
  task_now : nat → Z;
  Decode_TaskRequest : option Body → result TaskRequest;
}.

(** ** Paths *)

Fixpoint trim_left_slash (s : string) : string :=
  match s with
  | String c s' => if Ascii.eqb c "/" then trim_left_slash s' else s
  | EmptyString => s
  end.

Fixpoint trim_right_slash (s : string) : string :=
  match s with
  | EmptyString => EmptyString
  | String c s' =>
      let t := trim_right_slash s' in
      if Ascii.eqb c "/" && String.eqb t EmptyString then EmptyString else String c t
  end.

(** [strings.Split(strings.Trim(path, "/"), "/")]. *)
Definition path_parts (path : string) : list string :=
  Split "/" EmptyString (trim_right_slash (trim_left_slash path)).

(** ** Handlers *)

Definition maxTaskTimeout : Z := 2 * Hour.

(** [time.Duration(req.Timeout) * time.Second] is a 64-bit product. *)
Definition task_timeout (seconds : Z) : Z :=
  let timeout := 30 * Minute in
  let timeout := if 0 <? seconds then wrap64 (seconds * Second) else timeout in
  if maxTaskTimeout <? timeout then maxTaskTimeout else timeout.

Definition task_input (req : TaskRequest) (userID : string) : TaskInput :=
  mkTaskInput userID (tq_Prompt req) (tq_OutputSchema req) (task_timeout (tq_Timeout req)).

Definition start_options (taskQueue : string) (req : TaskRequest) : StartWorkflowOptions :=
  mkStartOptions taskQueue (wrap64 (task_timeout (tq_Timeout req) + 10 * Minute)).

Definition writeJSON (status : Z) (v : chunk) (w : ResponseWriter) : ResponseWriter :=
  Write v (WriteHeader status (w_Header_Set "Content-Type" "application/json" w)).

Definition write_error (code : Z) (msg : string) : ResponseWriter → ResponseWriter :=
  writeJSON code (CError (mkErrorResponse code msg)).

Section tasks.
Context `{TaskEnv} (taskQueue : string).

Definition createTask (r : Request) (w : ResponseWriter) (n : nat) : ResponseWriter * nat :=
  match Decode_TaskRequest (req_Body r) with
  | Err e => (write_error 400 ("invalid request body: " +:+ Error e) w, n)
  | Ok req =>
      if String.eqb (tq_Prompt req) "" then (write_error 400 "prompt is required" w, n)
      else
        let userID := tq_UserID req in
        let userID := if String.eqb userID "" then header_Get (req_Header r) "X-User-ID" else userID in
        let userID := if String.eqb userID "" then "anonymous" else userID in
        match ExecuteWorkflow n (start_options taskQueue req) (task_input req userID) with
        | Err _ => (write_error 500 "failed to start task" w, S n)
        | Ok id =>
            (writeJSON 202 (CTask (mkTaskResponse id "" TaskStatusPending "" ""
                                     (task_now (S n)) None)) w, S (S n))
        end
  end.

Definition getTask (taskID : string) (w : ResponseWriter) (n : nat) : ResponseWriter * nat :=
  match DescribeWorkflowExecution n taskID with
  | DescribeNotFound => (write_error 404 "task not found" w, S n)
  | DescribeFailed _ => (write_error 500 "failed to query task status" w, S n)
  | Described info =>
      let resp st res sess err closed :=
        CTask (mkTaskResponse taskID sess st res err (ei_StartTime info) closed) in
      match ei_Status info with
      | ExecRunning => (writeJSON 200 (resp TaskStatusRunning "" "" "" None) w, S n)
      | ExecCompleted =>
          match GetWorkflow (S n) taskID with
          | Ok out => (writeJSON 200 (resp TaskStatusCompleted (to_Result out) (to_SessionID out) ""
                                        (Some (ei_CloseTime info))) w, S (S n))
          | Err _ => (writeJSON 200 (resp TaskStatusCompleted "" "" ""
                                        (Some (ei_CloseTime info))) w, S (S n))
          end
      | ExecFailed =>
          (writeJSON 200 (resp TaskStatusFailed "" "" "workflow execution failed" None) w, S n)
      | ExecTimedOut => (writeJSON 200 (resp TaskStatusTimeout "" "" "" None) w, S n)
      | ExecTerminated | ExecCanceled =>
          (writeJSON 200 (resp TaskStatusFailed "" "" "workflow was cancelled" None) w, S n)
      | ExecUnspecified | ExecContinuedAsNew =>
          (writeJSON 200 (resp TaskStatusPending "" "" "" None) w, S n)
      end
  end.

(** [buildStreamEvent]: the event, whether it is terminal, and the calls. *)
Definition buildStreamEvent (taskID : string) (n : nat) : TaskStreamEvent * bool * nat :=
  let event st err := mkTaskStreamEvent st "" "" err 0 0 None in
  match DescribeWorkflowExecution n taskID with
  | DescribeNotFound | DescribeFailed _ => (event TaskStatusRunning "", false, S n)
  | Described info =>
      match ei_Status info with
      | ExecRunning => (event TaskStatusRunning "", false, S n)
      | ExecCompleted =>
          match GetWorkflow (S n) taskID with
          | Ok out =>
              (mkTaskStreamEvent TaskStatusCompleted (to_SessionID out) (to_Result out) ""
                 (to_Duration out) (to_TokensUsed out) (Some (ei_CloseTime info)), true, S (S n))
          | Err _ =>
              (mkTaskStreamEvent TaskStatusCompleted "" "" "" 0 0 (Some (ei_CloseTime info)),
               true, S (S n))
          end
      | ExecFailed => (event TaskStatusFailed "workflow execution failed", true, S n)
      | ExecTimedOut => (event TaskStatusTimeout "", true, S n)
      | ExecTerminated | ExecCanceled =>
          (event TaskStatusFailed "workflow was cancelled", true, S n)
      | ExecUnspecified | ExecContinuedAsNew => (event TaskStatusPending "", false, S n)
      end
  end.

(** The loop of [streamTask]: [ticks] is the number of ticks it receives
    before the client goes away. *)
Fixpoint stream_loop (taskID : string) (ticks : nat) (w : ResponseWriter) (n : nat) :
    ResponseWriter * nat :=
  match ticks with
  | O => (w, n)
  | S ticks' =>
      let '(event, terminal, n') := buildStreamEvent taskID n in
      if (terminal : bool) then (Flush (Write (CEvent "result" event) w), n')
      else stream_loop taskID ticks' (Flush (Write (CEvent "status" event) w)) n'
  end.

Definition streamTask (taskID : string) (ticks : nat) (w : ResponseWriter) (n : nat) :
    ResponseWriter * nat :=
  match DescribeWorkflowExecution n taskID with
  | DescribeNotFound => (write_error 404 "task not found" w, S n)
  | DescribeFailed _ => (write_error 500 "failed to query task status" w, S n)
  | Described _ =>
      if negb (as_Flusher w) then (write_error 500 "streaming not supported" w, S n)
      else
        let w := w_Header_Set "Content-Type" "text/event-stream" w in
        let w := w_Header_Set "Cache-Control" "no-cache" w in
        let w := w_Header_Set "Connection" "keep-alive" w in
        stream_loop taskID ticks (Flush (WriteHeader 200 w)) (S n)
  end.

(** [TaskHandler.ServeHTTP]; [ticks] is the number of ticks of a stream. *)
Definition task_ServeHTTP (ticks : nat) : handler_fn nat := λ r w n,
  if String.eqb (req_Method r) "POST" &&
     (String.eqb (URL_Path r) "/api/v1/tasks" || String.eqb (URL_Path r) "/api/v1/tasks/")
  then createTask r w n
  else
    let not_found := (http_Error "404 page not found" 404 w, n) in
    if String.eqb (req_Method r) "GET" then
      match path_parts (URL_Path r) with
      | [a; b; c; id; d] =>
          if String.eqb a "api" && String.eqb b "v1" && String.eqb c "tasks" && String.eqb d "stream"
          then streamTask id ticks w n else not_found
      | [a; b; c; id] =>
          if String.eqb a "api" && String.eqb b "v1" && String.eqb c "tasks"
          then getTask id w n else not_found
      | _ => not_found
      end
    else not_found.

(** ** Lemmas *)

(** What a stream shows of an execution it finds open, or cannot look at. *)
Inductive shown_open : describe_result → TaskStreamEvent → Prop :=
| shown_running info : ei_Status info = ExecRunning →
    shown_open (Described info) (mkTaskStreamEvent TaskStatusRunning "" "" "" 0 0 None)
| shown_pending info : ei_Status info ∈ [ExecUnspecified; ExecContinuedAsNew] →
    shown_open (Described info) (mkTaskStreamEvent TaskStatusPending "" "" "" 0 0 None)
| shown_unknown d : (∀ info, d ≠ Described info) →
    shown_open d (mkTaskStreamEvent TaskStatusRunning "" "" "" 0 0 None).

(** What it shows of one it finds closed: the time it closed and the fields
    of the output [out] of a completed one, the reason of another. *)
Inductive shown_closed (out : result TaskOutput) : describe_result → TaskStreamEvent → Prop :=
| shown_completed info o : ei_Status info = ExecCompleted → out = Ok o →
    shown_closed out (Described info)
      (mkTaskStreamEvent TaskStatusCompleted (to_SessionID o) (to_Result o) ""
         (to_Duration o) (to_TokensUsed o) (Some (ei_CloseTime info)))
| shown_unread info e : ei_Status info = ExecCompleted → out = Err e →
    shown_closed out (Described info)
      (mkTaskStreamEvent TaskStatusCompleted "" "" "" 0 0 (Some (ei_CloseTime info)))
| shown_failed info : ei_Status info = ExecFailed →
    shown_closed out (Described info)
      (mkTaskStreamEvent TaskStatusFailed "" "" "workflow execution failed" 0 0 None)
| shown_timed_out info : ei_Status info = ExecTimedOut →
    shown_closed out (Described info) (mkTaskStreamEvent TaskStatusTimeout "" "" "" 0 0 None)
| shown_cancelled info : ei_Status info ∈ [ExecTerminated; ExecCanceled] →
    shown_closed out (Described info)
      (mkTaskStreamEvent TaskStatusFailed "" "" "workflow was cancelled" 0 0 None).

#[local] Hint Constructors shown_open shown_closed : core.

(** One look at the task: the next query, and the output only of a task
    found completed. *)
Lemma buildStreamEvent_shown taskID n :
  let '(event, terminal, n') := buildStreamEvent taskID n in
  let d := DescribeWorkflowExecution n taskID in
  if (terminal : bool) then shown_closed (GetWorkflow (S n) taskID) d event
  else shown_open d event ∧ n' = S n.
Proof.
  unfold buildStreamEvent. cbn zeta. destruct (DescribeWorkflowExecution n taskID) as [info| |e];
    [|split; auto..].
  destruct (ei_Status info) eqn:Hst; try destruct (GetWorkflow (S n) taskID) eqn:Hout; eauto;
    try split; eauto; constructor; rewrite Hst; set_solver.
Qed.

Lemma body_Flush_Write c w : resp_body (sent (Flush (Write c w))) = resp_body (sent w) ++ [c].
Proof.
  unfold Flush, Write. rewrite !sent_on_response. simpl. unfold response_WriteHeader. simpl.
  by repeat (case_match; simplify_eq/=).
Qed.

(** The events of a stream: the [i]-th look, at call [n + i], gives the
    [i]-th event; all but the last are of an open task, and the last is of a
    closed one unless the client left first, after all [ticks] ticks. *)
Definition stream_shows (taskID : string) (ticks n : nat) (evs : list TaskStreamEvent)
    (final : option TaskStreamEvent) : Prop :=
  let look i := DescribeWorkflowExecution (n + i) taskID in
  (∀ i e, evs !! i = Some e → shown_open (look i) e) ∧
  match final with
  | None => length evs = ticks
  | Some e => (length evs < ticks)%nat ∧
      shown_closed (GetWorkflow (S (n + length evs)) taskID) (look (length evs)) e
  end.

Lemma stream_shows_cons taskID ticks n event evs final :
  shown_open (DescribeWorkflowExecution n taskID) event →
  stream_shows taskID ticks (S n) evs final → stream_shows taskID (S ticks) n (event :: evs) final.
Proof.
  intros He [Hevs Hf]. split.
  - intros [|i] e Hi; simplify_eq/=; [by rewrite Nat.add_0_r|].
    rewrite Nat.add_succ_r. by apply Hevs.
  - destruct final; simpl; rewrite ?Nat.add_succ_r; [|by f_equal]. simpl in Hf. destruct Hf. split; [lia|done].
Qed.

Lemma stream_loop_body taskID ticks w n :
  ∃ evs final, resp_body (sent (stream_loop taskID ticks w n).1) =
      resp_body (sent w) ++ (CEvent "status" <$> evs) ++ (CEvent "result" <$> option_list final) ∧
    stream_shows taskID ticks n evs final.
Proof.
  revert w n. induction ticks as [|ticks IH]; intros w n; simpl.
  - exists [], None. simpl. rewrite app_nil_r. by repeat split.
  - pose proof (buildStreamEvent_shown taskID n) as Hn.
    destruct (buildStreamEvent taskID n) as [[event []] n']; simpl.
    + exists [], (Some event). rewrite body_Flush_Write. split; [done|].
      split; [done|]. simpl. rewrite Nat.add_0_r. split; [lia|done].
    + destruct Hn as [Hn ->].
      destruct (IH (Flush (Write (CEvent "status" event) w)) (S n)) as (evs & final & Hb & Hs).
      exists (event :: evs), final. rewrite Hb, body_Flush_Write, <- app_assoc.
      split; [done|]. by apply stream_shows_cons.
Qed.

(** A path segment: no slash, not empty. *)
Definition segment (s : string) : Prop :=
  s ≠ "" ∧ Forall (λ c, c ≠ "/"%char) (list_ascii_of_string s).

Lemma split_segment cur s rest : Forall (λ c, c ≠ "/"%char) (list_ascii_of_string s) →
  Split "/" cur (s +:+ String "/" rest) = (cur +:+ s) :: Split "/" "" rest.
Proof.
  revert cur. induction s as [|c s IH]; intros cur Hs; simpl.
  - by rewrite string_app_nil.
  - rewrite ?string_app_cons. cbn. apply Forall_cons in Hs as [Hc Hs]. rewrite (proj2 (Ascii.eqb_neq _ _) Hc), IH by done.
    by rewrite string_app_assoc.
Qed.

Lemma split_last cur s : Forall (λ c, c ≠ "/"%char) (list_ascii_of_string s) →
  Split "/" cur s = [cur +:+ s].
Proof.
  revert cur. induction s as [|c s IH]; intros cur Hs; simpl.
  - by rewrite string_app_nil.
  - rewrite ?string_app_cons. cbn. apply Forall_cons in Hs as [Hc Hs]. rewrite (proj2 (Ascii.eqb_neq _ _) Hc), IH by done.
    by rewrite string_app_assoc.
Qed.

Lemma segment_cons c s : segment (String c s) →
  c ≠ "/"%char ∧ Forall (λ c, c ≠ "/"%char) (list_ascii_of_string s).
Proof. intros [_ Hs]. by apply Forall_cons in Hs. Qed.

Lemma trim_right_segment s : Forall (λ c, c ≠ "/"%char) (list_ascii_of_string s) →
  trim_right_slash s = s.
Proof.
  induction s as [|c s IH]; [done|]. cbn. intros [Hc Hs]%Forall_cons.
  by rewrite IH, (proj2 (Ascii.eqb_neq _ _) Hc) by done.
Qed.

Lemma trim_right_app a s : segment s → trim_right_slash (a +:+ s) = a +:+ s.
Proof.
  intros Hs. induction a as [|c a IH]; [by apply trim_right_segment, Hs|].
  rewrite string_app_cons. cbn. rewrite IH. destruct a; [|by rewrite andb_false_r].
  destruct s; [by destruct Hs|]. by rewrite andb_false_r.
Qed.

(** Splitting the path made of some segments gives them back. *)
Fixpoint join_path (segs : list string) : string :=
  match segs with [] => "" | s :: segs' => "/" +:+ s +:+ join_path segs' end.

Lemma split_join cur s segs : Forall segment segs →
  Forall (λ c, c ≠ "/"%char) (list_ascii_of_string s) →
  Split "/" cur (s +:+ join_path segs) = (cur +:+ s) :: segs.
Proof.
  revert cur s. induction segs as [|t segs IH]; intros cur s Hsegs Hs; cbn.
  - by rewrite string_app_nil, split_last.
  - apply Forall_cons in Hsegs as [Ht Hsegs].
    change ("/" +:+ t +:+ join_path segs) with (String "/" (t +:+ join_path segs)).
    rewrite split_segment, IH; auto. apply Ht.
Qed.

Lemma trim_right_join s segs : segment s → Forall segment segs →
  trim_right_slash (s +:+ join_path segs) = s +:+ join_path segs.
Proof.
  revert s. induction segs as [|t segs IH] using rev_ind; intros s Hs Hsegs.
  - cbn. rewrite string_app_nil. by apply trim_right_segment, Hs.
  - apply Forall_app in Hsegs as [_ [Ht _]%Forall_cons].
    assert (Hj : join_path (segs ++ [t]) = (join_path segs +:+ "/") +:+ t).
    { clear. induction segs as [|u segs IH]; cbn; [by rewrite string_app_nil|].
      rewrite IH, !string_app_assoc. done. }
    by rewrite Hj, <- string_app_assoc, trim_right_app.
Qed.

Lemma path_parts_join segs : segs ≠ [] → Forall segment segs → path_parts (join_path segs) = segs.
Proof.
  intros Hne Hsegs. destruct segs as [|s segs]; [done|]. apply Forall_cons in Hsegs as [Hs Hsegs].
  unfold path_parts. change (join_path (s :: segs)) with (String "/" (s +:+ join_path segs)).
  cbn [trim_left_slash]. rewrite Ascii.eqb_refl.
  assert (Ht : trim_left_slash (s +:+ join_path segs) = s +:+ join_path segs).
  { destruct s as [|c s]; [by destruct Hs|]. destruct (segment_cons _ _ Hs) as [Hc _].
    rewrite string_app_cons. cbn. by rewrite (proj2 (Ascii.eqb_neq _ _) Hc). }
  rewrite Ht, trim_right_join by done. apply (split_join EmptyString); [done|apply Hs].
Qed.

Lemma segment_api : segment "api" ∧ segment "v1" ∧ segment "tasks" ∧ segment "stream".
Proof. unfold segment. cbn. repeat split; repeat constructor; done. Qed.

(** A stream once the task is known and the writer can flush. *)
Lemma streamTask_sent id ticks w n info : DescribeWorkflowExecution n id = Described info →
  as_Flusher w = true → sent w = empty_response →
  let w' := Flush (WriteHeader 200 (w_Header_Set "Connection" "keep-alive"
      (w_Header_Set "Cache-Control" "no-cache" (w_Header_Set "Content-Type" "text/event-stream" w)))) in
  streamTask id ticks w n = stream_loop id ticks w' (S n) ∧
  resp_status (sent w') = Some 200 ∧ resp_body (sent w') = [] ∧
  header_Get (resp_header (sent w')) "Content-Type" = "text/event-stream".
Proof.
  intros Hd Hf Hs. cbn zeta. unfold streamTask. rewrite Hd, Hf. split; [done|].
  unfold Flush. rewrite sent_on_response, sent_WriteHeader. unfold w_Header_Set.
  rewrite !sent_on_response, Hs. done.
Qed.

Lemma stream_loop_status id ticks w n s : resp_status (sent w) = Some s →
  resp_status (sent (stream_loop id ticks w n).1) = Some s ∧
  resp_header (sent (stream_loop id ticks w n).1) = resp_header (sent w).
Proof.
  assert (HFW : ∀ c w, resp_status (sent w) = Some s →
    resp_status (sent (Flush (Write c w))) = Some s ∧
    resp_header (sent (Flush (Write c w))) = resp_header (sent w)).
  { intros c w' Hw. unfold Flush, Write. rewrite !sent_on_response.
    unfold response_WriteHeader. simpl. repeat (case_match; simplify_eq/=); done. }
  revert w n. induction ticks as [|ticks IH]; intros w n Hw; simpl; [done|].
  destruct (buildStreamEvent id n) as [[event []] n'].
  - by apply HFW.
  - destruct (HFW (CEvent "status" event) w Hw) as [Hs Hh].
    destruct (IH _ n' Hs) as [? Ht]. split; [done|]. by rewrite Ht, Hh.
Qed.

(** A JSON answer: its status, its only chunk and its type. *)
Definition answers (st : Z) (c : chunk) (w : ResponseWriter) : Prop :=
  resp_status (sent w) = Some st ∧ resp_body (sent w) = [c] ∧
  header_Get (resp_header (sent w)) "Content-Type" = "application/json".

Lemma writeJSON_answers st c w : sent w = empty_response → 200 ≤ st → answers st c (writeJSON st c w).
Proof.
  intros Hs Hst. unfold answers, writeJSON, Write, w_Header_Set.
  rewrite sent_on_response, sent_WriteHeader, sent_on_response, Hs. simpl.
  unfold response_WriteHeader. simpl. rewrite (proj2 (Z.leb_gt st 199)), andb_false_r by lia. done.
Qed.

End tasks.

(** The timeout of a task: within an [int64] and the clamp, exact where the
    product fits, and one turn less where it wraps around once. *)
Lemma task_timeout_ranges seconds :
  int64_min ≤ task_timeout seconds ∧ task_timeout seconds ≤ 2 * Hour ∧
  (seconds * Second ≤ int64_max →
     0 < task_timeout seconds ∧
     task_timeout seconds = if seconds <=? 0 then 30 * Minute else Z.min (seconds * Second) (2 * Hour)) ∧
  (9223372037 ≤ seconds ≤ 18446751273 → task_timeout seconds = seconds * Second - 2 ^ 64).
Proof.
  unfold task_timeout, maxTaskTimeout. cbn zeta.
  pose proof (wrap64_range (seconds * Second)) as Hr. unfold in_int64 in Hr.
  assert (Hfit : 0 < seconds → seconds * Second ≤ int64_max →
      wrap64 (seconds * Second) = seconds * Second).
  { intros. apply wrap64_id. unfold in_int64, int64_min, int64_max, Second, Millisecond in *. lia. }
  assert (Hwrap : 9223372037 ≤ seconds ≤ 18446751273 →
      wrap64 (seconds * Second) = seconds * Second - 2 ^ 64).
  { intros. unfold wrap64, Second, Millisecond.
    rewrite <- (Z.mod_unique (seconds * (1000 * 1000000) + 2 ^ 63) (2 ^ 64) 1
                  (seconds * (1000 * 1000000) + 2 ^ 63 - 2 ^ 64)); lia. }
  unfold int64_min, int64_max, Hour, Minute, Second, Millisecond in *.
  destruct (Z.ltb_spec 0 seconds); destruct (Z.leb_spec seconds 0); try lia;
    case_match; go_bools; lia.
Qed.

(** ** Properties *)

(** C33: [createTask] answers 400 to a body that does not decode or has no
    prompt, without starting a workflow; otherwise it starts one, and answers
    202 with the id of the workflow it started, pending, or 500 when it could
    not.  The workflow gets the prompt and schema of the request, the user of
    the body, else of the [X-User-ID] header, else [anonymous]. *)
Theorem create_task_correct `{TaskEnv} taskQueue r w n : sent w = empty_response →
  let '(w', n') := createTask taskQueue r w n in
  let answer st c := answers st c w' in
  match Decode_TaskRequest (req_Body r) with
  | Err e => answer 400 (CError (mkErrorResponse 400 ("invalid request body: " +:+ Error e))) ∧ n' = n
  | Ok req =>
      if String.eqb (tq_Prompt req) "" then
        answer 400 (CError (mkErrorResponse 400 "prompt is required")) ∧ n' = n
      else ∃ input opts,
        ti_Prompt input = tq_Prompt req ∧ ti_OutputSchema input = tq_OutputSchema req ∧
        ti_UserID input = List.hd "anonymous" (List.filter (λ u, negb (String.eqb u ""))
                            [tq_UserID req; header_Get (req_Header r) "X-User-ID"]) ∧
        ti_Timeout input = task_timeout (tq_Timeout req) ∧ so_TaskQueue opts = taskQueue ∧
        match ExecuteWorkflow n opts input with
        | Ok id => answer 202 (CTask (mkTaskResponse id "" TaskStatusPending "" ""
                                        (task_now (S n)) None))
        | Err _ => answer 500 (CError (mkErrorResponse 500 "failed to start task"))
        end
  end.
Proof.
  intros Hs. unfold createTask, write_error. destruct (Decode_TaskRequest (req_Body r)) as [req|e].
  2: { split; [by apply writeJSON_answers|done]. }
  destruct (String.eqb (tq_Prompt req) "").
  { split; [by apply writeJSON_answers|done]. }
  set (userID := if String.eqb (if String.eqb (tq_UserID req) "" then _ else _) "" then _ else _).
  destruct (ExecuteWorkflow n (start_options taskQueue req) (task_input req userID)) eqn:He;
    exists (task_input req userID), (start_options taskQueue req); rewrite He; simpl;
    refine (conj eq_refl (conj eq_refl (conj _ (conj eq_refl (conj eq_refl _)))));
    try by apply writeJSON_answers.
  all: unfold userID; simpl; destruct (String.eqb (tq_UserID req) "") eqn:Hu; simpl;
    [destruct (String.eqb (header_Get _ _) "")|rewrite Hu]; done.
Qed.

(** C34: a task's timeout is never more than two hours, and its workflow gets
    ten minutes more.  As long as the requested seconds fit a
    [time.Duration], the timeout is positive: the requested one clamped to
    two hours, or 30 minutes when none is requested.  Beyond that, from
    9223372037 seconds on, the product wraps around and passes the clamp: the
    timeout is 2^64 ns less than requested, which is negative up to
    18446744073 seconds (and a fraction of a second for the next request). *)
Theorem task_timeout_clamped taskQueue req user :
  let seconds := tq_Timeout req in
  let timeout := ti_Timeout (task_input req user) in
  timeout ≤ 2 * Hour ∧
  so_WorkflowExecutionTimeout (start_options taskQueue req) = timeout + 10 * Minute ∧
  (seconds * Second ≤ int64_max →
     0 < timeout ∧
     timeout = if seconds <=? 0 then 30 * Minute else Z.min (seconds * Second) (2 * Hour)) ∧
  (9223372037 ≤ seconds ≤ 18446751273 →
     timeout = seconds * Second - 2 ^ 64 ∧ (timeout < 0 ↔ seconds ≤ 18446744073)).
Proof.
  cbn zeta. pose proof (task_timeout_ranges (tq_Timeout req)) as (Hmin & Hmax & Hfit & Hwrap).
  simpl. split; [done|]. split; [|split].
  - apply wrap64_id. unfold in_int64, int64_min, int64_max, Hour, Minute, Second, Millisecond in *. lia.
  - done.
  - intros Hs. rewrite (Hwrap Hs). split; [done|]. unfold Second, Millisecond. lia.
Qed.

(** C32: the stream of a known task over a writer that can flush answers 200
    with an event stream.  Each tick asks Temporal for the task once: as long
    as it is open (or the query fails) the tick sends a status event, running
    or pending, and the first tick that finds it closed sends the result
    event that describes how it closed (with the output of a completed task),
    which is the last; without it there is a status event for each tick until
    the client leaves.  A writer that cannot flush gets 500. *)
Theorem task_stream_shape `{TaskEnv} id ticks w n info :
  DescribeWorkflowExecution n id = Described info → sent w = empty_response →
  let w' := (streamTask id ticks w n).1 in
  if as_Flusher w then
    resp_status (sent w') = Some 200 ∧
    header_Get (resp_header (sent w')) "Content-Type" = "text/event-stream" ∧
    ∃ evs final,
      resp_body (sent w') = (CEvent "status" <$> evs) ++ (CEvent "result" <$> option_list final) ∧
      stream_shows id ticks (S n) evs final
  else answers 500 (CError (mkErrorResponse 500 "streaming not supported")) w'.
Proof.
  intros Hd Hs. cbn zeta. destruct (as_Flusher w) eqn:Hf.
  - destruct (streamTask_sent id ticks w n info Hd Hf Hs) as (-> & Hst & Hb & Hc).
    set (w0 := Flush _) in *.
    destruct (stream_loop_status id ticks _ (S n) 200 Hst) as [-> ->].
    destruct (stream_loop_body id ticks w0 (S n)) as (evs & final & Hb' & ?).
    split; [done|]. split; [done|]. exists evs, final. by rewrite Hb', Hb.
  - unfold streamTask. rewrite Hd, Hf. by apply writeJSON_answers.
Qed.

(** The routes of the task API: for a task id that is a path segment,
    [GET /api/v1/tasks/{id}] asks for the task and
    [GET /api/v1/tasks/{id}/stream] streams it, with a trailing slash or
    without; [POST] to the collection creates one, and no other method of
    these paths is served. *)
Theorem task_routes `{TaskEnv} taskQueue ticks r w n id : segment id →
  let p := "/api/v1/tasks" +:+ "/" +:+ id in
  let run := task_ServeHTTP taskQueue ticks r w n in
  (req_Method r = "GET" → URL_Path r = p → run = getTask id w n) ∧
  (req_Method r = "GET" → URL_Path r = p +:+ "/stream" → run = streamTask id ticks w n) ∧
  (req_Method r = "POST" → URL_Path r = "/api/v1/tasks" → run = createTask taskQueue r w n) ∧
  (req_Method r ≠ "GET" → URL_Path r = p →
     run = (http_Error "404 page not found" 404 w, n)) ∧
  (req_Method r = "GET" → URL_Path r = "/api/v1/tasks" →
     run = (http_Error "404 page not found" 404 w, n)).
Proof.
  intros Hid. cbn zeta. destruct segment_api as (Ha & Hv & Ht & Hst).
  assert (Hg : path_parts ("/api/v1/tasks" +:+ "/" +:+ id) = ["api"; "v1"; "tasks"; id]).
  { rewrite <- (path_parts_join ["api"; "v1"; "tasks"; id]) by (try done; by rewrite !Forall_cons, Forall_nil).
    cbn. by rewrite string_app_nil. }
  assert (Hs : path_parts (("/api/v1/tasks" +:+ "/" +:+ id) +:+ "/stream") =
               ["api"; "v1"; "tasks"; id; "stream"]).
  { rewrite <- (path_parts_join ["api"; "v1"; "tasks"; id; "stream"])
      by (try done; by rewrite !Forall_cons, Forall_nil).
    cbn. by rewrite ?string_app_assoc. }
  unfold task_ServeHTTP. repeat split; intros Hm Hp; rewrite Hp, ?Hm.
  - by rewrite Hg.
  - by rewrite Hs.
  - done.
  - rewrite (proj2 (String.eqb_neq (req_Method r) "GET") Hm).
    assert (Hne : String.eqb ("/api/v1/tasks" +:+ "/" +:+ id) "/api/v1/tasks" = false ∧
                  String.eqb ("/api/v1/tasks" +:+ "/" +:+ id) "/api/v1/tasks/" = false).
    { destruct id as [|c id]; [by destruct Hid|]. done. }
    destruct Hne as [-> ->]. by rewrite andb_false_r.
  - done.
Qed.

(** ** Witnesses *)

(** A task that runs at the first three looks and is then completed. *)
Definition demo_env : TaskEnv := {|
  ExecuteWorkflow := λ _ _ _, Ok "wf-1";
  DescribeWorkflowExecution := λ n _,
    Described (mkExecutionInfo (if (n <=? 2)%nat then ExecRunning else ExecCompleted) 5 9);
  GetWorkflow := λ _ _, Ok (mkTaskOutput "ses-1" "done" 4 7);
  task_now := λ n, Z.of_nat n;
  Decode_TaskRequest := λ _, Ok (mkTaskRequest "fix it" "" 90 "" []);
|}.

Definition demo_writer : ResponseWriter := ServerWriter empty_response.

Lemma create_task_correct_witness :
  answers 202 (CTask (mkTaskResponse "wf-1" "" TaskStatusPending "" "" 1 None))
    (@createTask demo_env "q" demo_request demo_writer 0%nat).1.
Proof.
  pose proof (@create_task_correct demo_env "q" demo_request demo_writer 0%nat eq_refl) as H.
  destruct (@createTask demo_env "q" demo_request demo_writer 0%nat) as [w' n'].
  destruct H as (? & ? & _ & _ & _ & _ & _ & H). exact H.
Defined.

Lemma task_timeout_clamped_witness :
  let req := mkTaskRequest "p" "" 90 "" [] in let huge := mkTaskRequest "p" "" 9223372037 "" [] in
  90 * Second ≤ int64_max ∧ ti_Timeout (task_input req "u") = 90 * Second ∧
  ti_Timeout (task_input huge "u") < 0.
Proof.
  cbn zeta. split; [vm_compute; discriminate|].
  destruct (task_timeout_clamped "q" (mkTaskRequest "p" "" 90 "" []) "u") as (_ & _ & H & _).
  destruct (task_timeout_clamped "q" (mkTaskRequest "p" "" 9223372037 "" []) "u") as (_ & _ & _ & H').
  split; [exact (proj2 (H ltac:(by vm_compute)))|].
  apply (proj2 (H' ltac:(simpl; lia))). simpl. lia.
Defined.

Lemma task_stream_shape_witness :
  @DescribeWorkflowExecution demo_env 0 "t" = Described (mkExecutionInfo ExecRunning 5 9) ∧
  (∃ evs final, resp_body (sent (@streamTask demo_env "t" 4%nat demo_writer 0%nat).1) =
      (CEvent "status" <$> evs) ++ (CEvent "result" <$> option_list final)) ∧
  resp_body (sent (@streamTask demo_env "t" 4%nat demo_writer 0%nat).1) =
    [CEvent "status" (mkTaskStreamEvent TaskStatusRunning "" "" "" 0 0 None);
     CEvent "status" (mkTaskStreamEvent TaskStatusRunning "" "" "" 0 0 None);
     CEvent "result" (mkTaskStreamEvent TaskStatusCompleted "ses-1" "done" "" 4 7 (Some 9))].
Proof.
  split; [reflexivity|]. split; [|vm_compute; reflexivity].
  destruct (@task_stream_shape demo_env "t" 4%nat
              demo_writer 0%nat (mkExecutionInfo ExecRunning 5 9) eq_refl eq_refl)
    as (_ & _ & evs & final & Hb & _).
  exists evs, final. exact Hb.
Defined.

Lemma task_routes_witness :
  segment "t-1" ∧
  @task_ServeHTTP demo_env "q" 1%nat
    (mkRequest "GET" "/api/v1/tasks/t-1/stream" "" "" [] "" ∅ [] "" None) demo_writer 0%nat =
  @streamTask demo_env "t-1" 1%nat demo_writer 0%nat.
Proof.
  assert (Hs : segment "t-1") by (split; [done|]; by repeat constructor).
  split; [exact Hs|].
  exact (proj1 (proj2 (@task_routes demo_env "q" 1%nat
    (mkRequest "GET" "/api/v1/tasks/t-1/stream" "" "" [] "" ∅ [] "" None) demo_writer 0%nat "t-1" Hs))
    eq_refl eq_refl).
Defined.
