(* ===== verification/ServeMux.v ===== *)
(** * Paths in [http.ServeMux]

    The cleaning of a request's path before its pattern is looked up, which
    the binaries' multiplexers share. *)

From Stdlib Require Import Ascii String.
From S2P Require Import Prelude Strconv Tasks.

(** [path.Clean] of a rooted path, as the list of its segments. *)
Definition clean_segment (acc : list string) (seg : string) : list string :=
  if String.eqb seg "" || String.eqb seg "." then acc
  else if String.eqb seg ".." then List.removelast acc
  else acc ++ [seg].

Definition ends_with_slash (p : string) : bool :=
  match last (list_ascii_of_string p) with Some c => Ascii.eqb c "/" | None => false end.

(** [cleanPath] of [net/http]. *)
Definition cleanPath (p : string) : string :=
  let p := match p with
           | String c _ => if Ascii.eqb c "/" then p else String "/" p
           | EmptyString => "/"
           end in
  let np := match foldl clean_segment [] (Split "/" EmptyString p) with
            | [] => "/"
            | segs => join_path segs
            end in
  if ends_with_slash p && negb (String.eqb np "/") then np +:+ "/" else np.

(** ** Lemmas *)

Lemma Split_rooted p : Split "/" EmptyString (String "/" p) = EmptyString :: Split "/" EmptyString p.
Proof. done. Qed.

Definition plain_segment (s : string) : Prop := segment s ∧ s ≠ "." ∧ s ≠ "..".

Lemma clean_plain segs acc : Forall plain_segment segs → foldl clean_segment acc segs = acc ++ segs.
Proof.
  intros Hs. revert acc. induction Hs as [|s segs ((Hne & _) & Hd & Hdd) _ IH]; intros acc; simpl.
  { by rewrite app_nil_r. }
  unfold clean_segment at 2. apply String.eqb_neq in Hne, Hd, Hdd. rewrite Hne, Hd, Hdd. simpl.
  rewrite IH. by rewrite <- app_assoc.
Qed.

Lemma ends_with_slash_app a s : segment s → ends_with_slash (a +:+ s) = false.
Proof.
  intros [Hne Hs]. unfold ends_with_slash.
  assert (list_ascii_of_string (a +:+ s) = list_ascii_of_string a ++ list_ascii_of_string s) as ->.
  { clear. induction a as [|c a IH]; [done|]. rewrite string_app_cons. simpl. by rewrite IH. }
  destruct (exists_last (l := list_ascii_of_string s)) as (l & c & Hl).
  { by destruct s. }
  rewrite Hl, app_assoc, last_snoc. rewrite Hl in Hs. apply Forall_app in Hs as [_ Hs].
  apply Forall_cons in Hs as [Hc _]. by apply Ascii.eqb_neq.
Qed.

Lemma cleanPath_plain segs : segs ≠ [] → Forall plain_segment segs →
  cleanPath (join_path segs) = join_path segs.
Proof.
  intros Hne Hsegs. destruct segs as [|s segs]; [done|]. unfold cleanPath.
  change (join_path (s :: segs)) with (String "/" (s +:+ join_path segs)).
  cbv beta iota zeta. rewrite Ascii.eqb_refl, Split_rooted. cbn [foldl].
  assert (Hsg : Forall segment (s :: segs)) by (eapply Forall_impl; [exact Hsegs|]; by intros ? []).
  pose proof Hsg as Hsg'. apply Forall_cons in Hsg' as [[_ Hs] Hrest].
  rewrite (split_join EmptyString s segs Hrest Hs). change (EmptyString +:+ s) with s.
  change (clean_segment [] EmptyString) with (@nil string). rewrite (clean_plain (s :: segs) [] Hsegs).
  simpl app. cbv iota zeta. change (String "/" (s +:+ join_path segs)) with (join_path (s :: segs)).
  destruct (exists_last (l := s :: segs)) as (l & t & Hl); [done|]. rewrite Hl in *.
  assert (join_path (l ++ [t]) = (join_path l +:+ "/") +:+ t) as ->.
  { clear. induction l as [|u l IH]; cbn; [by rewrite string_app_nil|].
    rewrite IH, !string_app_assoc. done. }
  apply Forall_app in Hsg as [_ [Ht _]%Forall_cons]. by rewrite ends_with_slash_app.
Qed.
