(* ===== verification/K8sProvider.v ===== *)
(** * The Kubernetes sandbox provider ([internal/pool/k8s_provider.go])

    [K8sSandboxProvider] as programs over the calls it makes to the API
    server, the clock and [wait.PollUntilContextTimeout].  Two views of the
    same programs: their traces, with arbitrary answers, and their execution
    against an API server that keeps the documented promises, which makes
    them an instance of the pool's [SandboxProvider] interface. *)

From stdpp Require Import pretty.
From S2P Require Import Prelude Effects Provider.

(** [type K8sSandboxProvider struct], less the client. *)
Record K8sSandboxProvider := mkK8sProvider {
  kp_namespace : string;
  kp_templateName : string;
  kp_port : Z;
}.

Definition NewK8sSandboxProvider (namespace templateName : string) (port : Z) : K8sSandboxProvider :=
  mkK8sProvider namespace templateName port.

(** What [NestedString] finds under [status] in a claim; [None] is a field
    that is missing or no string. *)
Record claim_status := mkClaimStatus {
  cs_phase : option string;
  cs_sandboxName : option string;
  cs_message : option string;
}.

(** The claim of a [Create] call. *)
Record SandboxClaim := mkSandboxClaim {
  sc_name : string;
  sc_namespace : string;
  sc_labels : list (string * string);
  sc_templateRef : string;
}.

(** [PollWait] is the wait between two calls of the condition: [None] when
    the interval has passed, an error when the context is done first. *)
Inductive k8sE : Type → Type :=
| UnixMilli : k8sE Z
| ClaimCreate (ns : string) (claim : SandboxClaim) : k8sE (option error)
| ClaimGet (ns name : string) : k8sE (result claim_status)
| ClaimDelete (ns name : string) : k8sE (option error)
| PollWait (interval : Z) : k8sE (option error).

Definition DeadlineExceeded : error :=
  ErrVar "context.DeadlineExceeded" "context deadline exceeded".

(** [wait.PollUntilContextTimeout(ctx, interval, timeout, true, condition)]:
    the condition is called at once, then after every interval, until it is
    done, fails, or the context ends; [calls] bounds the number of calls
    that fit in the timeout.  The condition's result is kept with it. *)
Fixpoint poll_until {A} (calls : nat) (interval : Z) (condition : prog k8sE (result (option A))) :
    prog k8sE (result A) :=
  match calls with
  | O => Ret (Err DeadlineExceeded)
  | S calls' =>
      condition ≫= λ r,
      match r with
      | Err e => Ret (Err e)
      | Ok (Some a) => Ret (Ok a)
      | Ok None =>
          act (PollWait interval) ≫= λ w,
          match w with
          | Some e => Ret (Err e)
          | None => poll_until calls' interval condition
          end
      end
  end.

(** The calls that fit: one at once and one after each interval. *)
Definition poll_calls (interval timeout : Z) : nat := S (Z.to_nat (timeout / interval)).
Arguments poll_calls : simpl never.

Section k8s.
Context (p : K8sSandboxProvider).

Definition claim_name (millis : Z) : string := "oc-" +:+ pretty millis.

Definition claim_object (name : string) : SandboxClaim :=
  mkSandboxClaim name (kp_namespace p)
    [("app.kubernetes.io/managed-by", "opencode-scale")] (kp_templateName p).

Definition claim_fqdn (sandboxName : string) : string :=
  sandboxName +:+ "." +:+ kp_namespace p +:+ ".svc.cluster.local:" +:+ pretty (kp_port p).

(** The condition: [Some fqdn] is the outer variable set and [true]. *)
Definition claim_condition (name : string) : prog k8sE (result (option string)) :=
  act (ClaimGet (kp_namespace p) name) ≫= λ r,
  Ret match r with
  | Err _ => Ok None
  | Ok got =>
      match cs_phase got with
      | None => Ok None
      | Some phase =>
          if String.eqb phase "Ready" then
            let sandboxName := default "" (cs_sandboxName got) in
            let sandboxName := if String.eqb sandboxName "" then name else sandboxName in
            Ok (Some (claim_fqdn sandboxName))
          else if String.eqb phase "Failed" then
            Err (ErrNew ("sandbox claim failed: " +:+ default "" (cs_message got)))
          else Ok None
      end
  end.

Definition k8s_CreateSandbox : prog k8sE (result (string * string)) :=
  act UnixMilli ≫= λ ms,
  let name := claim_name ms in
  act (ClaimCreate (kp_namespace p) (claim_object name)) ≫= λ err,
  match err with
  | Some e => Ret (Err (ErrWrap "creating sandbox claim: " e))
  | None =>
      poll_until (poll_calls (2 * Second) (5 * Minute)) (2 * Second) (claim_condition name) ≫= λ r,
      match r with
      | Err e =>
          act (ClaimDelete (kp_namespace p) name) ≫= λ _,
          Ret (Err (ErrWrap "waiting for sandbox ready: " e))
      | Ok fqdn => Ret (Ok (name, fqdn))
      end
  end.

Definition k8s_DeleteSandbox (name : string) : prog k8sE (option error) :=
  act (ClaimDelete (kp_namespace p) name) ≫= λ err,
  Ret match err with
  | Some e => Some (ErrWrap "deleting sandbox claim: " e)
  | None => None
  end.

End k8s.

(** ** The API server *)

(** An API server and a clock as the provider sees them: a state that moves
    on as it likes at every call (others may create and delete claims at any
    time), and the answers. *)
Class K8sServer (S : Type) := k8s_answer : ∀ X, k8sE X → S → X * S.

Fixpoint exec {S A} `{K8sServer S} (m : prog k8sE A) (s : S) : A * S :=
  match m with
  | Ret a => (a, s)
  | Vis e k => let '(x, s') := k8s_answer _ e s in exec (k x) s'
  end.

(** What they promise.  [claims] are the names of the claims that exist in
    the namespace, [issued] those of all claims made so far.  The server
    refuses to create a claim under the name of one that exists.  A claim
    outlives the millisecond it is named after: when the clock reads a
    millisecond a claim was already named after, that claim is still there,
    since it is not deleted within the millisecond it was made in, and the
    clock does not go back. *)
Class K8sServerLaws (S : Type) `{K8sServer S} (ns : string) := {
  claims : S → gset string;
  issued : S → gset string;
  claim_refused s claim s' :
    k8s_answer _ (ClaimCreate ns claim) s = (None, s') → sc_name claim ∉ claims s;
  claim_issued s claim s' :
    k8s_answer _ (ClaimCreate ns claim) s = (None, s') → sc_name claim ∈ issued s';
  issued_grows X (e : k8sE X) s x s' : k8s_answer _ e s = (x, s') → issued s ⊆ issued s';
  claim_outlives s ms s' :
    k8s_answer _ UnixMilli s = (ms, s') →
    "oc-" +:+ pretty ms ∈ issued s' → "oc-" +:+ pretty ms ∈ claims s';
}.

(** The provider over a server is one the pool can use. *)
#[export] Instance k8s_provider {S} `{K8sServer S} (p : K8sSandboxProvider) : SandboxProvider S := {|
  CreateSandbox := exec (k8s_CreateSandbox p);
  DeleteSandbox := λ name, exec (k8s_DeleteSandbox p name);
|}.

(** ** Lemmas *)

(** The calls of a trace. *)
Definition created_name (ev : event k8sE) : option string :=
  match ev with Ev e _ => match e with ClaimCreate _ c => Some (sc_name c) | _ => None end end.
Definition deleted_name (ev : event k8sE) : option string :=
  match ev with Ev e _ => match e with ClaimDelete _ n => Some n | _ => None end end.
Definition polled_name (ev : event k8sE) : option string :=
  match ev with Ev e _ => match e with ClaimGet _ n => Some n | _ => None end end.

Lemma poll_runs {A} calls interval (condition : prog k8sE (result (option A))) tr r
    (Q : event k8sE → Prop) (ok : list (event k8sE) → A → Prop) :
  (∀ n, Q (Ev (PollWait interval) n)) →
  (∀ tr o, runs condition tr o → length tr = 1%nat ∧ Forall Q tr ∧ ∀ a, o = Ok (Some a) → ok tr a) →
  (∀ tr1 tr2 a, ok tr2 a → ok (tr1 ++ tr2) a) →
  runs (poll_until calls interval condition) tr r →
  Forall Q tr ∧ (length tr ≤ 2 * calls)%nat ∧ ∀ a, r = Ok a → ok tr a.
Proof.
  intros HQ Hc Hok. revert tr. induction calls as [|calls IH]; intros tr Hr; simpl in Hr.
  { destruct Hr as [-> ->]. split; [constructor|]. split; [simpl; lia|done]. }
  apply runs_bind in Hr as (tr1 & tr2 & o & -> & (Hl & HQ1 & Ho)%Hc & Hr).
  destruct o as [[a|]|e].
  - destruct Hr as [-> ->]. rewrite app_nil_r. split_and!; [done|lia|]. intros ? [= <-]. auto.
  - destruct tr2 as [|ev tr2]; [done|]. destruct Hr as (n & -> & Hr). destruct n as [e|].
    + destruct Hr as [-> ->]. rewrite Forall_app, length_app. simpl.
      split_and!; [done|by constructor|lia|done].
    + apply IH in Hr as (HQ2 & Hl2 & Ho2). rewrite Forall_app, length_app. simpl.
      split_and!; [done|by constructor|lia|].
      intros a Ha. apply Hok, (Hok [_]), Ho2, Ha.
  - destruct Hr as [-> ->]. rewrite app_nil_r. split_and!; [done|lia|done].
Qed.

(** [fqdn] is the one of a claim some poll of the trace found ready. *)
Definition found_ready (p : K8sSandboxProvider) (name : string) (tr : list (event k8sE))
    (fqdn : string) : Prop :=
  ∃ got, Ev (ClaimGet (kp_namespace p) name) (Ok got) ∈ tr ∧ cs_phase got = Some "Ready" ∧
    fqdn = claim_fqdn p (let n := default "" (cs_sandboxName got) in if String.eqb n "" then name else n).

(** What the wait does: only polls, of one claim, at most 151 times. *)
Definition polls_only (name : string) (ev : event k8sE) : Prop :=
  created_name ev = None ∧ deleted_name ev = None ∧ (polled_name ev = None ∨ polled_name ev = Some name).

Lemma wait_runs p name tr r :
  runs (poll_until (poll_calls (2 * Second) (5 * Minute)) (2 * Second) (claim_condition p name)) tr r →
  Forall (polls_only name) tr ∧ (length tr ≤ 302)%nat ∧ ∀ fqdn, r = Ok fqdn → found_ready p name tr fqdn.
Proof.
  assert (poll_calls (2 * Second) (5 * Minute) = 151%nat) as -> by (vm_compute; reflexivity).
  apply (poll_runs 151 _ _ _ _ (polls_only name) (found_ready p name)).
  - intros n. unfold polls_only. simpl. auto.
  - intros tr' o Ho. destruct tr' as [|ev tr']; [done|]. destruct Ho as (g & -> & -> & ->).
    split; [done|]. split; [by constructor; [split_and!; auto|]|]. intros a Ha.
    destruct g as [got|]; [|done]. exists got. split; [left|].
    destruct (cs_phase got) as [phase|] eqn:Hp; [|done].
    destruct (String.eqb_spec phase "Ready") as [->|]; [|by destruct (String.eqb phase "Failed")].
    by injection Ha.
  - intros tr1 tr2 a (got & Hin & ?). exists got. split; [apply elem_of_app; by right|done].
Qed.

Lemma polls_only_none name tr : Forall (polls_only name) tr →
  omap created_name tr = [] ∧ omap deleted_name tr = [].
Proof.
  induction 1 as [|ev tr (Hc & Hd & _) _ [IHc IHd]]; [done|]. simpl.
  by rewrite Hc, Hd.
Qed.

Section exec.
Context {S : Type} `{K8sServerLaws S ns}.

Lemma exec_bind {A B} (m : prog k8sE A) (f : A → prog k8sE B) s :
  exec (m ≫= f) s = let '(a, s') := exec m s in exec (f a) s'.
Proof.
  revert s. induction m as [a|X e k IH]; intros s; [done|]. simpl.
  destruct (k8s_answer X e s) as [x s']. apply IH.
Qed.

Lemma exec_issued {A} (m : prog k8sE A) s a s' : exec m s = (a, s') → issued s ⊆ issued s'.
Proof.
  revert s. induction m as [b|X e k IH]; intros s Hr; simpl in *; [by injection Hr as _ ->|].
  destruct (k8s_answer X e s) as [x s1] eqn:Ha.
  etrans; [by eapply issued_grows|]. by eapply IH.
Qed.

Lemma create_issues p s name fqdn s' : kp_namespace p = ns →
  exec (k8s_CreateSandbox p) s = (Ok (name, fqdn), s') → name ∉ issued s ∧ name ∈ issued s'.
Proof.
  intros Hns. unfold k8s_CreateSandbox, act. cbn [mbind prog_mbind prog_bind exec].
  destruct (k8s_answer Z UnixMilli s) as [ms s1] eqn:Hms.
  rewrite Hns. destruct (k8s_answer _ (ClaimCreate _ _) s1) as [[e|] s2] eqn:Hc; [done|].
  pose proof (claim_refused _ _ _ Hc) as Hfree. apply claim_issued in Hc. simpl in Hfree, Hc.
  rewrite exec_bind. destruct (exec (poll_until _ _ _) s2) as [[r|e] s3] eqn:Hw; cbn.
  - intros [= <- <- <-]. apply exec_issued in Hw. split; [|set_solver].
    intros Hin. apply Hfree, (claim_outlives _ _ _ Hms). by apply (issued_grows _ _ _ _ _ Hms).
  - by destruct (k8s_answer _ (ClaimDelete _ _) s3) as [d s4].
Qed.

End exec.

(** The pool can run over a Kubernetes server: a name in use is one that
    was handed out. *)
#[export] Program Instance k8s_provider_laws {S} `{K8sServer S} (p : K8sSandboxProvider)
    `{!K8sServerLaws S (kp_namespace p)} : @SandboxProviderLaws S (k8s_provider p) :=
  { live := issued }.
Next Obligation.
  intros S ? p ? s name fqdn s' Hc. destruct (create_issues p s name fqdn s' eq_refl Hc).
  apply exec_issued in Hc. set_solver.
Qed.
Next Obligation. intros S ? p ? s e s' Hc. by apply exec_issued in Hc. Qed.
Next Obligation. intros S ? p ? s name r s' Hd. apply exec_issued in Hd. set_solver. Qed.
Next Obligation. intros S ? p ? s name e s' Hd. by apply exec_issued in Hd. Qed.




(** ** Properties *)

(** C24: [CreateSandbox] creates one claim, named by the clock and labelled
    as managed.  If the creation fails nothing else is called.  Otherwise it
    only polls that claim, at most 302 calls; it succeeds with the claim's
    name, and the address of a claim that a poll found [Ready], and deletes
    nothing; in every other case it fails after one deletion of the claim. *)
Theorem k8s_create_correct p tr r : runs (k8s_CreateSandbox p) tr r →
  ∃ ms err rest, let name := claim_name ms in
    tr = Ev UnixMilli ms :: Ev (ClaimCreate (kp_namespace p) (claim_object p name)) err :: rest ∧
    match err, r with
    | Some e, _ => rest = [] ∧ r = Err (ErrWrap "creating sandbox claim: " e)
    | None, Ok (n, fqdn) => n = name ∧ found_ready p name rest fqdn ∧
        Forall (polls_only name) rest ∧ (length rest ≤ 302)%nat
    | None, Err e => ∃ polls d, rest = polls ++ [Ev (ClaimDelete (kp_namespace p) name) d] ∧
        Forall (polls_only name) polls ∧ (length polls ≤ 302)%nat
    end.
Proof.
  intros Hr. unfold k8s_CreateSandbox, act in Hr. cbn [mbind prog_mbind prog_bind] in Hr.
  destruct tr as [|ev tr]; [done|].
  destruct Hr as (ms & -> & Hr). destruct tr as [|ev tr]; [done|].
  destruct Hr as (err & -> & Hr). exists ms, err, tr. split; [done|].
  destruct err as [e|]; [by destruct Hr as [-> ->]|].
  apply runs_bind in Hr as (tr1 & tr2 & o & -> & (Hp & Hl & Hok)%wait_runs & Hr).
  destruct o as [fqdn|e].
  - destruct Hr as [-> ->]. rewrite app_nil_r. auto.
  - destruct tr2 as [|ev tr2]; [done|]. destruct Hr as (d & -> & -> & ->). by exists tr1, d.
Qed.


(** ** Witnesses *)

(** A server that makes every claim ready, with the claims that exist and a
    clock that moves on when it is read and when a claim is deleted; it lets
    no claim be deleted that is not named after a millisecond of the past. *)
Definition demo_cluster : Type := Z * gset string.

Definition demo_past (t : Z) : list string := claim_name <$> seqZ 0 t.

Definition demo_claim_status : claim_status := mkClaimStatus (Some "Ready") (Some "pod-7") None.

#[export] Instance demo_server : K8sServer demo_cluster := λ X e s,
  match e in k8sE X return X * demo_cluster with
  | UnixMilli => (s.1 + 1, (s.1 + 1, s.2))
  | ClaimCreate ns c =>
      if decide (sc_name c ∈ s.2) then (Some (ErrNew "already exists"), s)
      else (None, (s.1, {[sc_name c]} ∪ s.2))
  | ClaimGet ns n =>
      if decide (n ∈ s.2) then (Ok demo_claim_status, s) else (Err (ErrNew "not found"), s)
  | ClaimDelete ns n =>
      if decide (n ∈ s.2) then
        if decide (n ∈ demo_past (s.1 + 1)) then (None, (s.1 + 1, s.2 ∖ {[n]}))
        else (Some (ErrNew "forbidden"), s)
      else (Some (ErrNew "not found"), s)
  | PollWait _ => (None, s)
  end.

Lemma claim_name_inj m n : claim_name m = claim_name n → m = n.
Proof. unfold claim_name. intros Heq%(inj (String.app "oc-")). by apply (inj pretty). Qed.

Lemma elem_of_demo_past n t : n ∈ demo_past t ↔ ∃ ms, n = claim_name ms ∧ 0 ≤ ms < t.
Proof.
  unfold demo_past. rewrite list_elem_of_fmap. by setoid_rewrite elem_of_seqZ.
Qed.

#[export] Program Instance demo_server_laws : K8sServerLaws demo_cluster "default" :=
  { claims := snd; issued := λ s, s.2 ∪ list_to_set (demo_past s.1) }.
Next Obligation. intros [t g] c s'. unfold k8s_answer, demo_server. simpl. by case_decide. Qed.
Next Obligation.
  intros [t g] c s'. unfold k8s_answer, demo_server. simpl. case_decide; [done|].
  intros [= <-]. simpl. set_solver.
Qed.
Next Obligation.
  intros X e [t g] x s'.
  assert (Hp : ∀ n, n ∈ demo_past t → n ∈ demo_past (t + 1)).
  { intros n (ms & -> & ?)%elem_of_demo_past. apply elem_of_demo_past. exists ms. split; [done|lia]. }
  unfold k8s_answer, demo_server. destruct e; simpl; repeat case_decide; intros [= <- <-]; simpl;
    intros m; rewrite !elem_of_union, !elem_of_list_to_set; try tauto; [naive_solver|].
  rewrite elem_of_difference, elem_of_singleton. destruct (decide (m = name)) as [->|]; naive_solver.
Qed.
Next Obligation.
  intros [t g] ms s'. unfold k8s_answer, demo_server. intros [= <- <-]. simpl.
  rewrite elem_of_union, elem_of_list_to_set. intros [Hin|(ms & Heq & ?)%elem_of_demo_past]; [done|].
  apply claim_name_inj in Heq. lia.
Qed.

Definition demo_k8s : K8sSandboxProvider := NewK8sSandboxProvider "default" "opencode" 4096.

Lemma k8s_create_correct_witness :
  let tr := [Ev UnixMilli 5; Ev (ClaimCreate "default" (claim_object demo_k8s "oc-5")) None;
             Ev (ClaimGet "default" "oc-5") (Err (ErrNew "timeout"));
             Ev (PollWait (2 * Second)) (Some DeadlineExceeded);
             Ev (ClaimDelete "default" "oc-5") None] in
  let r := Err (ErrWrap "waiting for sandbox ready: " DeadlineExceeded) in
  runs (k8s_CreateSandbox demo_k8s) tr r ∧
  ∃ ms err rest,
    tr = Ev UnixMilli ms :: Ev (ClaimCreate "default" (claim_object demo_k8s (claim_name ms))) err :: rest.
Proof.
  intros tr r.
  assert (Hr : runs (k8s_CreateSandbox demo_k8s) tr r).
  { unfold k8s_CreateSandbox, tr. exists 5. split; [done|]. exists None. split; [done|].
    change (poll_calls (2 * Second) (5 * Minute)) with 151%nat.
    exists (Err (ErrNew "timeout")). split; [done|]. exists (Some DeadlineExceeded).
    split; [done|]. exists None. by split. }
  split; [exact Hr|].
  destruct (k8s_create_correct demo_k8s tr r Hr) as (ms & err & rest & Htr & _).
  exists ms, err, rest. exact Htr.
Defined.

