(* ===== verification/Config.v ===== *)
(** * Configuration ([internal/config/config.go])

    [Load] over three parameters: the files, the YAML decoder, which
    overwrites the fields a document names, and the environment. *)

From Stdlib Require Import Ascii String.
From stdpp Require Import pretty.
From S2P Require Import Prelude Strconv.

Record PoolConfig := mkPoolConfig {
  MinReady : Z;
  cfg_MaxSize : Z;
  IdleTimeout : Z;
  GCInterval : Z;
  WarmPoolName : string;
  cfg_Namespace : string;
  Mode : string;
  MockTarget : string;
}.

Record RouterConfig := mkRouterConfig {
  ListenAddr : string;
  SessionHeader : string;
  SessionCookie : string;
  SessionQuery : string;
  APIKeys : list string;
  MaxBodyBytes : Z;
}.

Record TemporalConfig := mkTemporalConfig {
  HostPort : string;
  tc_Namespace : string;
  TaskQueue : string;
}.

Record TelemetryConfig := mkTelemetryConfig {
  ServiceName : string;
  OTelEndpoint : string;
  PrometheusPort : Z;
  LogLevel : string;
}.

Record LiteLLMConfig := mkLiteLLMConfig { Endpoint : string; APIKey : string }.

Record Config := mkConfig {
  cfg_Pool : PoolConfig;
  cfg_Router : RouterConfig;
  cfg_Temporal : TemporalConfig;
  cfg_Telemetry : TelemetryConfig;
  cfg_LiteLLM : LiteLLMConfig;
}.

Definition DefaultConfig : Config := {|
  cfg_Pool := mkPoolConfig 3 50 (10 * Minute) (30 * Second) "default" "opencode-scale" "local"
                "localhost:4096";
  cfg_Router := mkRouterConfig ":8080" "X-Session-ID" "session_id" "session_id" [] (Z.shiftl 1 20);
  cfg_Temporal := mkTemporalConfig "localhost:7233" "opencode-scale" "coding-tasks";
  cfg_Telemetry := mkTelemetryConfig "opencode-scale" "localhost:4317" 9090 "info";
  cfg_LiteLLM := mkLiteLLMConfig "http://localhost:4000" "";
|}.

(** What [Load] reads: a file, a YAML document on top of a configuration,
    and [os.Getenv], which is [""] for a variable that is not set. *)
Class ConfigEnv := {
  ReadFile : string → result string;
  yaml_Unmarshal : string → Config → result Config;
  Getenv : string → string;
}.

Section config.
Context `{ConfigEnv}.

Definition getEnv (key : string) : string := Getenv key.

Definition getEnvInt (key : string) : option Z :=
  let s := Getenv key in if String.eqb s "" then None else ParseInt s.

Definition getEnvDuration (key : string) : option Z :=
  let s := Getenv key in if String.eqb s "" then None else ParseDuration s.

(** [if v := getEnv(key); v != "" { field = v }], and the same for the
    variables that are parsed. *)
Definition over_string (key field : string) : string :=
  let v := getEnv key in if String.eqb v "" then field else v.
Definition over_int (key : string) (field : Z) : Z := default field (getEnvInt key).
Definition over_duration (key : string) (field : Z) : Z := default field (getEnvDuration key).

Definition applyEnvOverrides (cfg : Config) : Config :=
  let '(mkConfig p r t o l) := cfg in {|
  cfg_Pool := {|
    MinReady := over_int "POOL_MIN_READY" (MinReady p);
    cfg_MaxSize := over_int "POOL_MAX_SIZE" (cfg_MaxSize p);
    IdleTimeout := over_duration "POOL_IDLE_TIMEOUT" (IdleTimeout p);
    GCInterval := GCInterval p;
    WarmPoolName := WarmPoolName p;
    cfg_Namespace := over_string "POOL_NAMESPACE" (cfg_Namespace p);
    Mode := over_string "POOL_MODE" (Mode p);
    MockTarget := over_string "MOCK_OPENCODE_TARGET" (MockTarget p) |};
  cfg_Router := {|
    ListenAddr := over_string "ROUTER_LISTEN_ADDR" (ListenAddr r);
    SessionHeader := SessionHeader r;
    SessionCookie := SessionCookie r;
    SessionQuery := SessionQuery r;
    APIKeys := (let v := getEnv "API_KEYS" in
                if String.eqb v "" then APIKeys r else Split "," "" v);
    MaxBodyBytes := over_int "MAX_BODY_BYTES" (MaxBodyBytes r) |};
  cfg_Temporal := {|
    HostPort := over_string "TEMPORAL_HOST_PORT" (HostPort t);
    tc_Namespace := over_string "TEMPORAL_NAMESPACE" (tc_Namespace t);
    TaskQueue := over_string "TEMPORAL_TASK_QUEUE" (TaskQueue t) |};
  cfg_Telemetry := {|
    ServiceName := ServiceName o;
    OTelEndpoint := over_string "OTEL_ENDPOINT" (OTelEndpoint o);
    PrometheusPort := over_int "PROMETHEUS_PORT" (PrometheusPort o);
    LogLevel := LogLevel o |};
  cfg_LiteLLM := {|
    Endpoint := over_string "LITELLM_ENDPOINT" (Endpoint l);
    APIKey := over_string "LITELLM_API_KEY" (APIKey l) |}
|}.

(** [Config.Validate]: [None] for no error. *)
Definition config_Validate (c : Config) : option error :=
  let p := cfg_Pool c in
  if MinReady p <? 0 then
    Some (ErrNew ("pool.minReady must be >= 0, got " +:+ pretty (MinReady p)))
  else if cfg_MaxSize p <? 1 then
    Some (ErrNew ("pool.maxSize must be >= 1, got " +:+ pretty (cfg_MaxSize p)))
  else if cfg_MaxSize p <? MinReady p then
    Some (ErrNew ("pool.minReady (" +:+ pretty (MinReady p) +:+ ") must be <= pool.maxSize ("
                  +:+ pretty (cfg_MaxSize p) +:+ ")"))
  else if String.eqb (ListenAddr (cfg_Router c)) "" then Some (ErrNew "router.listenAddr is required")
  else if String.eqb (HostPort (cfg_Temporal c)) "" then Some (ErrNew "temporal.hostPort is required")
  else if String.eqb (tc_Namespace (cfg_Temporal c)) "" then
    Some (ErrNew "temporal.namespace is required")
  else if String.eqb (TaskQueue (cfg_Temporal c)) "" then
    Some (ErrNew "temporal.taskQueue is required")
  else None.

Definition Load (path : string) : result Config :=
  let cfg := DefaultConfig in
  match ReadFile path with
  | Err err => Err (ErrWrap "reading config file: " err)
  | Ok data =>
      match yaml_Unmarshal data cfg with
      | Err err => Err (ErrWrap "parsing config file: " err)
      | Ok cfg =>
          let cfg := applyEnvOverrides cfg in
          match config_Validate cfg with
          | Some err => Err (ErrWrap "validating config: " err)
          | None => Ok cfg
          end
      end
  end.

End config.

(** ** Lemmas *)

(** What a configuration must satisfy. *)
Definition config_ok (c : Config) : Prop :=
  0 ≤ MinReady (cfg_Pool c) ≤ cfg_MaxSize (cfg_Pool c) ∧ 1 ≤ cfg_MaxSize (cfg_Pool c) ∧
  ListenAddr (cfg_Router c) ≠ "" ∧ HostPort (cfg_Temporal c) ≠ "" ∧
  tc_Namespace (cfg_Temporal c) ≠ "" ∧ TaskQueue (cfg_Temporal c) ≠ "".

Lemma config_Validate_ok c : config_Validate c = None ↔ config_ok c.
Proof.
  unfold config_Validate, config_ok. repeat case_match; go_bools;
    repeat match goal with
    | H : String.eqb _ _ = true |- _ => apply String.eqb_eq in H
    | H : String.eqb _ _ = false |- _ => apply String.eqb_neq in H
    end; split; try done; try (intros; lia); naive_solver lia.
Qed.

Lemma applyEnvOverrides_unset `{ConfigEnv} c :
  (∀ k, Getenv k = "") → applyEnvOverrides c = c.
Proof.
  intros Hg. destruct c as [[] [] [] [] []]. unfold applyEnvOverrides. simpl.
  unfold over_string, over_int, over_duration, getEnvInt, getEnvDuration, getEnv.
  by rewrite !Hg.
Qed.

(** ** Properties *)

(** C35: [Load] succeeds exactly when the file can be read and parsed and
    the result, with the environment on top of the document on top of the
    defaults, satisfies the constraints; an integer variable overrides the
    pool's size when it holds a 64-bit number and is ignored otherwise. *)
Theorem config_load_correct `{ConfigEnv} path c :
  (Load path = Ok c ↔
    ∃ data y, ReadFile path = Ok data ∧ yaml_Unmarshal data DefaultConfig = Ok y ∧
      c = applyEnvOverrides y ∧
      0 ≤ MinReady (cfg_Pool c) ≤ cfg_MaxSize (cfg_Pool c) ∧ 1 ≤ cfg_MaxSize (cfg_Pool c) ∧
      ListenAddr (cfg_Router c) ≠ "" ∧ HostPort (cfg_Temporal c) ≠ "" ∧
      tc_Namespace (cfg_Temporal c) ≠ "" ∧ TaskQueue (cfg_Temporal c) ≠ "") ∧
  (∀ y, cfg_MaxSize (cfg_Pool (applyEnvOverrides y)) =
     default (cfg_MaxSize (cfg_Pool y)) (ParseInt (Getenv "POOL_MAX_SIZE"))) ∧
  ((∀ k, Getenv k = "") → ∀ data, ReadFile path = Ok data →
     yaml_Unmarshal data DefaultConfig = Ok DefaultConfig → Load path = Ok DefaultConfig).
Proof.
  split; [|split].
  - unfold Load. split.
    + intros Hl. destruct (ReadFile path) as [data|]; [|done].
      destruct (yaml_Unmarshal data DefaultConfig) as [y|] eqn:Hy; [|done].
      destruct (config_Validate (applyEnvOverrides y)) eqn:Hv; [done|].
      injection Hl as <-. apply config_Validate_ok in Hv. by exists data, y.
    + intros (data & y & -> & -> & -> & Hok). by rewrite (proj2 (config_Validate_ok _) Hok).
  - intros [[] [] [] [] []]. simpl. unfold over_int, getEnvInt.
    by destruct (String.eqb_spec (Getenv "POOL_MAX_SIZE") "") as [->|].
  - intros Hg data Hf Hy. unfold Load. by rewrite Hf, Hy, applyEnvOverrides_unset.
Qed.

(** ** Witnesses *)

(** A file the decoder takes as it is, and two variables that are set. *)
Definition demo_config_env : ConfigEnv := {|
  ReadFile := λ path, if String.eqb path "config.yaml" then Ok "pool: {}" else Err (ErrNew "no file");
  yaml_Unmarshal := λ _ c, Ok c;
  Getenv := λ k, if String.eqb k "POOL_MAX_SIZE" then "8"
                 else if String.eqb k "POOL_IDLE_TIMEOUT" then "1h30m" else "";
|}.

Example demo_config_load :
  match @Load demo_config_env "config.yaml" with
  | Ok c => (cfg_MaxSize (cfg_Pool c), IdleTimeout (cfg_Pool c)) = (8, 90 * Minute)
  | Err _ => False
  end.
Proof. vm_compute. reflexivity. Qed.
