(* ===== verification/Controller.v ===== *)
(** * The claim controller ([internal/controller/reconciler.go])

    [SandboxReconciler] over its own calls to the API server and the clock:
    the handlers of claim events, the periodic cleanup of claims left in a
    terminal phase, and the metrics calls of both. *)

From Stdlib Require Import String.
From S2P Require Import Prelude Effects.

(** [type SandboxReconciler struct], less client and logger; [metrics] is
    whether the pointer is not nil. *)
Record SandboxReconciler := mkReconciler {
  rc_namespace : string;
  rc_metrics : bool;
  gcTimeout : Z;
}.

Definition ReconcilerOption : Type := SandboxReconciler → SandboxReconciler.

Definition WithMetrics (m : bool) : ReconcilerOption :=
  λ r, mkReconciler (rc_namespace r) m (gcTimeout r).

Definition WithGCTimeout (d : Z) : ReconcilerOption :=
  λ r, mkReconciler (rc_namespace r) (rc_metrics r) d.

Definition NewSandboxReconciler (namespace : string) (opts : list ReconcilerOption) :
    SandboxReconciler :=
  foldl (λ r opt, opt r) (mkReconciler namespace false (10 * Minute)) opts.

(** A claim in a list or an event; [cl_phase] is [""] when [NestedString]
    does not find it. *)
Record claim := mkClaim {
  cl_name : string;
  cl_phase : string;
  cl_created : Z;
}.

Inductive controllerE : Type → Type :=
| ListClaims (ns labelSelector : string) : controllerE (result (list claim))
| DeleteClaim (ns name : string) : controllerE (option error)
| ControllerNow : controllerE Z
| RecordClaimEvent (phase : string) : controllerE unit
| RecordGCDeletion : controllerE unit.

Definition managed_selector : string := "app.kubernetes.io/managed-by=opencode-scale".

(** An informer's events; the payload is [None] when the object is no
    [*unstructured.Unstructured]. *)
Inductive claim_event :=
| ClaimAdded (obj : option claim)
| ClaimUpdated (oldObj newObj : option claim)
| ClaimDeleted (obj : option claim).

(** How the loop of [runGCLoop] ends; its interval is a positive constant. *)
Inductive gc_loop_outcome := GCLoopReturned | GCLoopWaiting.

Section reconciler.
Context (r : SandboxReconciler).

Definition record_phase (obj : option claim) : prog controllerE unit :=
  match obj with
  | None => mret tt
  | Some u =>
      if rc_metrics r && negb (String.eqb (cl_phase u) "")
      then act (RecordClaimEvent (cl_phase u)) else mret tt
  end.

(** The three handlers of [Start]. *)
Definition handle_event (ev : claim_event) : prog controllerE unit :=
  match ev with
  | ClaimAdded obj => record_phase obj
  | ClaimUpdated _ newObj => record_phase newObj
  | ClaimDeleted _ => mret tt
  end.

(** The loop of [cleanupOrphaned] over the listed claims. *)
Fixpoint cleanup_loop (cutoff : Z) (items : list claim) : prog controllerE unit :=
  match items with
  | [] => mret tt
  | item :: rest =>
      let phase := cl_phase item in
      if negb (String.eqb phase "Failed") && negb (String.eqb phase "Completed")
      then cleanup_loop cutoff rest
      else
        (if cl_created item <? cutoff then
           err ← act (DeleteClaim (rc_namespace r) (cl_name item));
           match err with
           | Some _ => mret tt
           | None => if rc_metrics r then act RecordGCDeletion else mret tt
           end
         else mret tt);;
        cleanup_loop cutoff rest
  end.

Definition cleanupOrphaned : prog controllerE unit :=
  list ← act (ListClaims (rc_namespace r) managed_selector);
  match list with
  | Err _ => mret tt
  | Ok items =>
      now ← act ControllerNow;
      cleanup_loop (now - gcTimeout r) items
  end.

Fixpoint runGCLoop (events : list loop_event) : prog controllerE gc_loop_outcome :=
  match events with
  | [] => mret GCLoopWaiting
  | ContextDone :: _ => mret GCLoopReturned
  | TickerFired :: events' => cleanupOrphaned;; runGCLoop events'
  end.

(** What [Start] asks of the informer library: an informer for the claims
    of a namespace with a label, resynchronised at an interval; the
    registration of [handle_event]; its goroutine; and the wait for its
    first list, [false] when the context ends before it. *)
Inductive startE : Type → Type :=
| NewInformer (resync : Z) (ns labelSelector : string) : startE unit
| AddEventHandler (handler : claim_event → prog controllerE unit) : startE unit
| GoRunInformer : startE unit
| WaitForCacheSync : startE bool
| Reconcile {X} (e : controllerE X) : startE X.

(** A failed synchronisation is only logged; the error is always [nil]. *)
Definition Start (events : list loop_event) : prog startE gc_loop_outcome :=
  act (NewInformer (30 * Second) (rc_namespace r) managed_selector);;
  act (AddEventHandler handle_event);;
  act GoRunInformer;;
  act WaitForCacheSync;;
  translate (@Reconcile) (runGCLoop events).

End reconciler.

(** ** Lemmas *)

(** A claim the cleanup is for. *)
Definition orphaned (cutoff : Z) (c : claim) : bool :=
  (String.eqb (cl_phase c) "Failed" || String.eqb (cl_phase c) "Completed") && (cl_created c <? cutoff).

(** The deletions of a trace, with their outcome, and what it counted. *)
Definition deletion (ev : event controllerE) : option (string * string * bool) :=
  match ev with
  | @Ev _ X e x =>
      match e in controllerE X return X → option (string * string * bool) with
      | DeleteClaim ns n => λ err, Some (ns, n, bool_decide (err = None))
      | _ => λ _, None
      end x
  end.

Definition counted (ev : event controllerE) : option unit :=
  match ev with Ev e _ => match e with RecordGCDeletion => Some tt | _ => None end end.

Lemma cleanup_loop_runs r cutoff items tr :
  runs (cleanup_loop r cutoff items) tr tt →
  (omap deletion tr).*1 = (λ c, (rc_namespace r, cl_name c)) <$> List.filter (orphaned cutoff) items ∧
  length (omap counted tr) =
    if rc_metrics r then length (List.filter snd (omap deletion tr)) else 0%nat.
Proof.
  revert tr. induction items as [|c items IH]; intros tr Hr.
  { destruct Hr as [-> _]. by destruct (rc_metrics r). }
  cbn [cleanup_loop] in Hr. cbn [List.filter]. unfold orphaned at 1.
  assert (Hneg : negb (String.eqb (cl_phase c) "Failed") && negb (String.eqb (cl_phase c) "Completed") =
                 negb (String.eqb (cl_phase c) "Failed" || String.eqb (cl_phase c) "Completed")).
  { by rewrite negb_orb. }
  cbv zeta in Hr. rewrite Hneg in Hr.
  destruct (String.eqb (cl_phase c) "Failed" || String.eqb (cl_phase c) "Completed");
    cbn [negb andb] in *; [|by apply IH].
  apply runs_bind in Hr as (tr1 & tr2 & [] & -> & H1 & [Hd Hc]%IH).
  rewrite !omap_app, fmap_app, Hd, length_app, Hc.
  destruct (cl_created c <? cutoff).
  - destruct tr1 as [|ev tr1]; [done|]. destruct H1 as (err & -> & H1).
    destruct err as [e|].
    + destruct H1 as [-> _]. simpl. by destruct (rc_metrics r).
    + destruct (rc_metrics r); simpl in H1.
      * destruct tr1 as [|ev tr1]; [done|]. by destruct H1 as ([] & -> & -> & _).
      * by destruct H1 as [-> _].
  - destruct H1 as [-> _]. simpl. by destruct (rc_metrics r).
Qed.

(** ** Properties *)

(** C36: a cleanup lists the managed claims of its namespace and deletes, in
    order and in that namespace, exactly the failed or completed ones created
    before the cutoff, whatever the outcome of each deletion; with metrics it
    counts the deletions that succeeded, and when the list fails it does
    nothing. *)
Theorem cleanup_exact r tr : runs (cleanupOrphaned r) tr tt →
  ∃ res rest, tr = Ev (ListClaims (rc_namespace r) managed_selector) res :: rest ∧
  match res with
  | Err _ => rest = []
  | Ok items => ∃ now calls, rest = Ev ControllerNow now :: calls ∧
      (omap deletion calls).*1 =
        (λ c, (rc_namespace r, cl_name c)) <$> List.filter (orphaned (now - gcTimeout r)) items ∧
      length (omap counted calls) =
        if rc_metrics r then length (List.filter snd (omap deletion calls)) else 0%nat
  end.
Proof.
  unfold cleanupOrphaned. destruct tr as [|ev tr]; [done|]. intros (res & -> & Hr).
  exists res, tr. split; [done|]. destruct res as [items|e]; [|by destruct Hr].
  destruct tr as [|ev tr]; [done|]. destruct Hr as (now & -> & Hr). exists now, tr.
  split; [done|]. by apply cleanup_loop_runs.
Qed.

Definition demo_reconciler : SandboxReconciler :=
  NewSandboxReconciler "default" [WithGCTimeout (5 * Minute)].

Lemma cleanup_exact_witness :
  let items := [mkClaim "a" "Ready" 0; mkClaim "b" "Failed" 1] in
  let tr := [Ev (ListClaims "default" managed_selector) (Ok items); Ev ControllerNow (1 * Hour);
             Ev (DeleteClaim "default" "b") None] in
  runs (cleanupOrphaned demo_reconciler) tr tt ∧
  (omap deletion (drop 2 tr)).*1 = [("default", "b")].
Proof.
  intros items tr.
  assert (Hr : runs (cleanupOrphaned demo_reconciler) tr tt).
  { eexists. split; [reflexivity|]. eexists. split; [reflexivity|]. cbn.
    eexists. split; [reflexivity|]. by split. }
  split; [exact Hr|].
  destruct (cleanup_exact demo_reconciler tr Hr) as (res & rest & Htr & H).
  injection Htr as Hres Hrest. reflexivity.
Defined.
