(* ===== verification/Metrics.v ===== *)
(** * Metric instruments ([internal/pool], [internal/workflow] and [internal/controller], [metrics.go])

    The constructors of the three sets of instruments, over a meter that may
    refuse one, and what each recording method sends to which instrument. *)

From S2P Require Import Prelude Effects PoolManager Controller.

(** ** Instruments *)

Inductive instrument_kind := Int64Gauge | Int64Counter | Float64Histogram.

Record instrument := mkInstrument {
  in_kind : instrument_kind;
  in_name : string;
  in_unit : string;
  in_description : string;
}.

(** The methods of [metric.Meter]. *)
Inductive meterE : Type → Type :=
| CreateInstrument (i : instrument) : meterE (option error).

(** [i, err := meter.<Kind>(...); if err != nil { return nil, err }], with
    the rest of the constructor. *)
Definition create {M} (i : instrument) (rest : prog meterE (result M)) : prog meterE (result M) :=
  err ← act (CreateInstrument i);
  match err with Some e => mret (Err e) | None => rest end.

(** One measurement; a [float64] is the fraction it stands for. *)
Record measurement := mkMeasurement {
  me_instrument : instrument;
  me_value : Z * Z;
  me_attributes : list (string * string);
}.

(** [duration.Seconds()]. *)
Definition Seconds (duration : Z) : Z * Z := (duration, Second).

(** ** The pool *)

Record PoolMetrics := mkPoolMetrics {
  poolSize : instrument;
  allocatedCount : instrument;
  waitQueueLength : instrument;
  allocationLatency : instrument;
}.

Definition NewPoolMetrics : prog meterE (result PoolMetrics) :=
  let poolSize := mkInstrument Int64Gauge "opencode_scale_pool_size" "" "" in
  create poolSize (
  let allocatedCount := mkInstrument Int64Gauge "opencode_scale_allocated_count" "" "" in
  create allocatedCount (
  let waitQueueLength := mkInstrument Int64Gauge "opencode_scale_wait_queue_length" "" "" in
  create waitQueueLength (
  let allocationLatency := mkInstrument Float64Histogram "opencode_scale_allocation_latency" "s" "" in
  create allocationLatency (
  mret (Ok (mkPoolMetrics poolSize allocatedCount waitQueueLength allocationLatency)))))).

(** The methods the manager calls are its [metric_event]s; nothing calls
    [SetQueueLength]. *)
Definition pool_record (m : PoolMetrics) (ev : metric_event) : measurement :=
  match ev with
  | RecordAllocation duration => mkMeasurement (allocationLatency m) (Seconds duration) []
  | SetPoolSize size => mkMeasurement (poolSize m) (size, 1) []
  | SetAllocatedCount count => mkMeasurement (allocatedCount m) (count, 1) []
  end.

Definition SetQueueLength (m : PoolMetrics) (length : Z) : measurement :=
  mkMeasurement (waitQueueLength m) (length, 1) [].

(** ** The workflow *)

Record WorkflowMetrics := mkWorkflowMetrics {
  taskDuration : instrument;
  taskStatus : instrument;
  llmTokensUsed : instrument;
}.

Definition NewWorkflowMetrics : prog meterE (result WorkflowMetrics) :=
  let taskDuration := mkInstrument Float64Histogram "opencode_scale_task_duration" "s"
    "Duration of workflow task execution" in
  create taskDuration (
  let taskStatus := mkInstrument Int64Counter "opencode_scale_task_status" ""
    "Count of workflow task completions by status" in
  create taskStatus (
  let llmTokensUsed := mkInstrument Int64Counter "opencode_scale_llm_tokens_total" ""
    "Total LLM tokens used across workflow tasks" in
  create llmTokensUsed (
  mret (Ok (mkWorkflowMetrics taskDuration taskStatus llmTokensUsed))))).

Definition RecordTaskDuration (m : WorkflowMetrics) (duration : Z) (status : string) : measurement :=
  mkMeasurement (taskDuration m) (Seconds duration) [("status", status)].

Definition RecordTaskStatus (m : WorkflowMetrics) (status : string) : measurement :=
  mkMeasurement (taskStatus m) (1, 1) [("status", status)].

Definition RecordTokens (m : WorkflowMetrics) (count : Z) : measurement :=
  mkMeasurement (llmTokensUsed m) (count, 1) [].

(** ** The controller *)

Record ControllerMetrics := mkControllerMetrics {
  sandboxClaims : instrument;
  gcDeletions : instrument;
}.

Definition NewControllerMetrics : prog meterE (result ControllerMetrics) :=
  let claims := mkInstrument Int64Counter "opencode_scale_sandbox_claims_total" ""
    "Total sandbox claim events by phase" in
  create claims (
  let gc := mkInstrument Int64Counter "opencode_scale_gc_deletions_total" ""
    "Total GC deletions of orphaned sandbox claims" in
  create gc (
  mret (Ok (mkControllerMetrics claims gc)))).

(** The recording actions of [controllerE]. *)
Definition controller_record {X} (m : ControllerMetrics) (e : controllerE X) : option measurement :=
  match e with
  | RecordClaimEvent phase => Some (mkMeasurement (sandboxClaims m) (1, 1) [("phase", phase)])
  | RecordGCDeletion => Some (mkMeasurement (gcDeletions m) (1, 1) [])
  | _ => None
  end.

(** ** Lemmas *)

(** A constructor stops at the first refusal. *)
Lemma create_follows {M} i (rest : prog meterE (result M)) plan m tr r :
  (∀ tr, runs rest tr r → follows plan m tr r) →
  runs (create i rest) tr r → follows (Ev (CreateInstrument i) None :: plan) m tr r.
Proof.
  intros Hrest ([e|] & tr' & -> & Hr)%runs_act_bind; [|by apply follows_cons, Hrest].
  destruct Hr as [-> ->]. right. eauto using cut_short_here.
Qed.

Lemma ret_follows {E M} (m : M) tr r : runs (E := E) (mret (Ok m)) tr r → follows [] m tr r.
Proof. intros [-> ->]. by left. Qed.

(** The instruments of each set. *)
Definition pool_instruments (m : PoolMetrics) : list instrument :=
  [poolSize m; allocatedCount m; waitQueueLength m; allocationLatency m].
Definition workflow_instruments (m : WorkflowMetrics) : list instrument :=
  [taskDuration m; taskStatus m; llmTokensUsed m].
Definition controller_instruments (m : ControllerMetrics) : list instrument :=
  [sandboxClaims m; gcDeletions m].

Definition creations (is_ : list instrument) : list (event meterE) :=
  (λ i, Ev (CreateInstrument i) None) <$> is_.

(** The sets the constructors return, which are what they created. *)
Definition pool_metrics : PoolMetrics := mkPoolMetrics
  (mkInstrument Int64Gauge "opencode_scale_pool_size" "" "")
  (mkInstrument Int64Gauge "opencode_scale_allocated_count" "" "")
  (mkInstrument Int64Gauge "opencode_scale_wait_queue_length" "" "")
  (mkInstrument Float64Histogram "opencode_scale_allocation_latency" "s" "").

Definition workflow_metrics : WorkflowMetrics := mkWorkflowMetrics
  (mkInstrument Float64Histogram "opencode_scale_task_duration" "s"
     "Duration of workflow task execution")
  (mkInstrument Int64Counter "opencode_scale_task_status" ""
     "Count of workflow task completions by status")
  (mkInstrument Int64Counter "opencode_scale_llm_tokens_total" ""
     "Total LLM tokens used across workflow tasks").

Definition controller_metrics : ControllerMetrics := mkControllerMetrics
  (mkInstrument Int64Counter "opencode_scale_sandbox_claims_total" ""
     "Total sandbox claim events by phase")
  (mkInstrument Int64Counter "opencode_scale_gc_deletions_total" ""
     "Total GC deletions of orphaned sandbox claims").

Ltac creates := repeat (apply create_follows; intros ?); apply ret_follows.

Lemma NewPoolMetrics_runs tr r : runs NewPoolMetrics tr r →
  follows (creations (pool_instruments pool_metrics)) pool_metrics tr r.
Proof. creates. Qed.

Lemma NewWorkflowMetrics_runs tr r : runs NewWorkflowMetrics tr r →
  follows (creations (workflow_instruments workflow_metrics)) workflow_metrics tr r.
Proof. creates. Qed.

Lemma NewControllerMetrics_runs tr r : runs NewControllerMetrics tr r →
  follows (creations (controller_instruments controller_metrics)) controller_metrics tr r.
Proof. creates. Qed.

(** The kind of instrument each recording method needs: gauges and
    histograms are recorded, counters are added to. *)
Lemma pool_record_kind tr m ev : runs NewPoolMetrics tr (Ok m) →
  in_kind (me_instrument (pool_record m ev)) =
    (match ev with RecordAllocation _ => Float64Histogram | _ => Int64Gauge end) ∧
  Ev (CreateInstrument (me_instrument (pool_record m ev))) None ∈ tr.
Proof.
  intros [[[= ->] ->]|[[? [=]] _]]%NewPoolMetrics_runs.
  destruct ev; (split; [done|]); unfold creations; simpl; set_solver.
Qed.
