(* ===== verification/Telemetry.v ===== *)
(** * Telemetry ([internal/telemetry])

    [Setup] builds the tracer, the meter and the logger of a binary, makes
    them the process's own, serves the metrics, and returns the function that
    shuts them down.  The exporters are libraries: their answers are the
    trace's. *)

From stdpp Require Import pretty.
From S2P Require Import Prelude Effects Config.

(** ** Providers *)

(** The resource of both providers. *)
Record resource := mkResource { res_ServiceName : string; res_ServiceVersion : string }.

(** [tp_exporter] is the endpoint spans are sent to, if any. *)
Record TracerProvider := mkTracerProvider { tp_resource : resource; tp_exporter : option string }.

Record MeterProvider := mkMeterProvider { mp_resource : resource }.

(** A JSON logger on the standard output with its default attributes; the
    handler's options are empty, so its level is the default one. *)
Record Logger := mkLogger { lg_attributes : list (string * string) }.

Inductive telemetryE : Type → Type :=
| NewOTLPExporter (endpoint : string) : telemetryE (option error)
| NewPrometheusExporter : telemetryE (option error)
| SetTracerProvider (tp : TracerProvider) : telemetryE unit
| SetMeterProvider (mp : MeterProvider) : telemetryE unit
| SetDefaultLogger (l : Logger) : telemetryE unit
| GoServeMetrics (addr : string) : telemetryE unit
| ShutdownTracer (tp : TracerProvider) : telemetryE (option error)
| ShutdownMeter (mp : MeterProvider) : telemetryE (option error).

Definition InitTracer (serviceName otlpEndpoint : string) : prog telemetryE (result TracerProvider) :=
  let res := mkResource serviceName "0.1.0" in
  if String.eqb otlpEndpoint "" then mret (Ok (mkTracerProvider res None))
  else
    err ← act (NewOTLPExporter otlpEndpoint);
    match err with
    | Some e => mret (Err e)
    | None => mret (Ok (mkTracerProvider res (Some otlpEndpoint)))
    end.

Definition InitMeter (serviceName : string) : prog telemetryE (result MeterProvider) :=
  let res := mkResource serviceName "0.1.0" in
  err ← act NewPrometheusExporter;
  match err with
  | Some e => mret (Err e)
  | None => mret (Ok (mkMeterProvider res))
  end.

Definition InitLogger (serviceName : string) : Logger := mkLogger [("service.name", serviceName)].

(** The function [Setup] returns: both providers are shut down, and the
    tracer's error hides the meter's. *)
Definition telemetry_shutdown (tp : TracerProvider) (mp : MeterProvider) :
    prog telemetryE (option error) :=
  tpErr ← act (ShutdownTracer tp);
  mpErr ← act (ShutdownMeter mp);
  mret (match tpErr with Some e => Some e | None => mpErr end).

(** The configuration is that of [Config], which the binaries copy field by
    field; the shutdown function is given by the providers it closes over. *)
Definition Setup (cfg : TelemetryConfig) :
    prog telemetryE (result (TracerProvider * MeterProvider)) :=
  tracer ← InitTracer (ServiceName cfg) (OTelEndpoint cfg);
  match tracer with
  | Err err => mret (Err (ErrWrap "init tracer: " err))
  | Ok tp =>
      act (SetTracerProvider tp);;
      meter ← InitMeter (ServiceName cfg);
      match meter with
      | Err err => mret (Err (ErrWrap "init meter: " err))
      | Ok mp =>
          act (SetMeterProvider mp);;
          act (SetDefaultLogger (InitLogger (ServiceName cfg)));;
          (if 0 <? PrometheusPort cfg
           then act (GoServeMetrics (":" +:+ pretty (PrometheusPort cfg))) else mret tt);;
          mret (Ok (tp, mp))
      end
  end.

(** ** Lemmas *)

(** What a set-up builds, and the calls it makes, each granted. *)
Definition built (cfg : TelemetryConfig) : TracerProvider * MeterProvider :=
  let res := mkResource (ServiceName cfg) "0.1.0" in
  (mkTracerProvider res (if String.eqb (OTelEndpoint cfg) "" then None else Some (OTelEndpoint cfg)),
   mkMeterProvider res).

Definition setup_plan (cfg : TelemetryConfig) : list (event telemetryE) :=
  (if String.eqb (OTelEndpoint cfg) "" then []
   else [Ev (NewOTLPExporter (OTelEndpoint cfg)) None]) ++
  [Ev (SetTracerProvider (built cfg).1) tt; Ev NewPrometheusExporter None;
   Ev (SetMeterProvider (built cfg).2) tt;
   Ev (SetDefaultLogger (mkLogger [("service.name", ServiceName cfg)])) tt] ++
  (if 0 <? PrometheusPort cfg
   then [Ev (GoServeMetrics (":" +:+ pretty (PrometheusPort cfg))) tt] else []).

Lemma InitTracer_runs cfg tr r : runs (InitTracer (ServiceName cfg) (OTelEndpoint cfg)) tr r →
  follows (if String.eqb (OTelEndpoint cfg) "" then []
           else [Ev (NewOTLPExporter (OTelEndpoint cfg)) None]) (built cfg).1 tr r.
Proof.
  unfold InitTracer, built, follows. cbn zeta. destruct (String.eqb (OTelEndpoint cfg) "").
  { intros [-> ->]. by left. }
  intros ([e|] & tr' & -> & [-> ->])%runs_act_bind; [right|by left]. eauto using cut_short_here.
Qed.

(** The set-up once the tracer is there. *)
Lemma meter_runs cfg tp tr r :
  runs (act (SetTracerProvider tp);;
    meter ← InitMeter (ServiceName cfg);
    match meter with
    | Err err => mret (Err (ErrWrap "init meter: " err))
    | Ok mp =>
        act (SetMeterProvider mp);;
        act (SetDefaultLogger (InitLogger (ServiceName cfg)));;
        (if 0 <? PrometheusPort cfg
         then act (GoServeMetrics (":" +:+ pretty (PrometheusPort cfg))) else mret tt);;
        mret (Ok (tp, mp))
    end) tr r →
  follows ([Ev (SetTracerProvider tp) tt; Ev NewPrometheusExporter None;
     Ev (SetMeterProvider (built cfg).2) tt;
     Ev (SetDefaultLogger (mkLogger [("service.name", ServiceName cfg)])) tt] ++
    (if 0 <? PrometheusPort cfg
     then [Ev (GoServeMetrics (":" +:+ pretty (PrometheusPort cfg))) tt] else []))
    (tp, (built cfg).2) tr r.
Proof.
  intros ([] & tr1 & -> & Hr)%runs_act_bind. apply runs_bind in Hr as (t & tr2 & m & -> & Hm & Hr).
  apply runs_act_bind in Hm as ([e|] & t' & -> & [-> ->]).
  { destruct Hr as [-> ->]. right. split; [eauto|].
    apply (cut_short_after [Ev (SetTracerProvider tp) tt]), cut_short_here. }
  apply runs_act_bind in Hr as ([] & tr3 & -> & Hr). apply runs_act_bind in Hr as ([] & tr4 & -> & Hr).
  apply runs_bind in Hr as (tr5 & tr6 & [] & -> & Hs & [-> ->]). left. split; [done|].
  destruct (0 <? PrometheusPort cfg); [|by destruct Hs as [-> _]].
  destruct tr5 as [|ev tr5]; [done|]. by destruct Hs as ([] & -> & -> & _).
Qed.

(** [Setup] makes the calls of its plan in order, returns what it built when
    no exporter refuses, and stops at the first refusal. *)
Lemma Setup_runs cfg tr r : runs (Setup cfg) tr r → follows (setup_plan cfg) (built cfg) tr r.
Proof.
  intros (tr1 & tr2 & t & -> & [[-> ->]|[[e ->] Hc]]%InitTracer_runs & Hr)%runs_bind; cycle 1.
  { destruct Hr as [-> ->]. rewrite app_nil_r. right. split; [eauto|]. by apply cut_short_before. }
  apply meter_runs in Hr as [[-> ->]|[He Hc]]; [by left|right].
  split; [done|]. by apply cut_short_after.
Qed.

(** Both providers are shut down whatever the first answers. *)
Lemma telemetry_shutdown_runs tp mp tr r : runs (telemetry_shutdown tp mp) tr r ↔
  ∃ tpErr mpErr, tr = [Ev (ShutdownTracer tp) tpErr; Ev (ShutdownMeter mp) mpErr] ∧
    r = match tpErr with Some e => Some e | None => mpErr end.
Proof.
  split.
  - intros Hr. destruct tr as [|ev tr]; [done|]. destruct Hr as (e1 & -> & Hr).
    destruct tr as [|ev tr]; [done|]. destruct Hr as (e2 & -> & [-> ->]). by exists e1, e2.
  - intros (e1 & e2 & -> & ->). simpl. eauto 10.
Qed.

(** The configured log level has no effect. *)
Lemma Setup_ignores_LogLevel cfg level :
  Setup (mkTelemetryConfig (ServiceName cfg) (OTelEndpoint cfg) (PrometheusPort cfg) level) = Setup cfg.
Proof. done. Qed.
