(* ===== verification/RateLimiter.v ===== *)
(** * The mock LLM API ([cmd/mock-llm-api/main.go])

    The per-key sliding-window [rateLimiter] with its in-place pruning, and
    the handlers of the server built on it.  [time.Now] is an argument:
    the limiter's mutex orders its calls, so their clock readings are a
    nondecreasing sequence. *)

From Stdlib Require Import Ascii String.
From stdpp Require Import pretty sorting.
From S2P Require Import Prelude Http Middleware.

(** ** The limiter *)

Record window := mkWindow { requests : list Z; tokens : list Z }.

Record rateLimiter := mkLimiter {
  windows : gmap string window;
  rpmLimit : Z;
  tpmLimit : Z;
}.

Definition newRateLimiter (rpm tpm : Z) : rateLimiter := mkLimiter ∅ rpm tpm.

(** The loop of [pruneTime]: [times] is the array it reads and overwrites,
    [j] the index of [range], [i] the next index to keep. *)
Fixpoint prune_loop (n : nat) (cutoff : Z) (times : list Z) (j i : nat) : list Z :=
  match n with
  | O => take i times
  | S n' =>
      match times !! j with
      | Some t =>
          if cutoff <? t then prune_loop n' cutoff (<[i := t]> times) (S j) (S i)
          else prune_loop n' cutoff times (S j) i
      | None => take i times
      end
  end.

Definition pruneTime (times : list Z) (cutoff : Z) : list Z :=
  prune_loop (length times) cutoff times 0 0.

Definition pruneTokens (times tokens : list Z) : list Z :=
  if Nat.ltb (length times) (length tokens)
  then drop (length tokens - length times) tokens else tokens.

Definition total (tokens : list Z) : Z := foldl (λ acc t, wrap64 (acc + t)) 0 tokens.

(** The results of [check], and its index panic. *)
Inductive check_outcome :=
| Allowed
| Limited (retryAfterMs : Z)
| CheckPanic.

Definition with_window (rl : rateLimiter) (apiKey : string) (w : window) : rateLimiter :=
  mkLimiter (<[apiKey := w]> (windows rl)) (rpmLimit rl) (tpmLimit rl).

(** [now] is the reading of [time.Now], [later] the one of [time.Until]. *)
Definition check (rl : rateLimiter) (apiKey : string) (tokensUsed now later : Z) :
    check_outcome * rateLimiter :=
  let w := default (mkWindow [] []) (windows rl !! apiKey) in
  let cutoff := now + -1 * Minute in
  let reqs := pruneTime (requests w) cutoff in
  let toks := pruneTokens reqs (tokens w) in
  let rl' := with_window rl apiKey (mkWindow reqs toks) in
  if rpmLimit rl <=? Z.of_nat (length reqs) then
    match reqs with
    | oldest :: _ => (Limited (Z.quot (oldest + Minute - later) Millisecond), rl')
    | [] => (CheckPanic, rl')
    end
  else if (0 <? tpmLimit rl) && (tpmLimit rl <? wrap64 (total toks + tokensUsed)) then
    (Limited 30000, rl')
  else (Allowed, with_window rl apiKey (mkWindow (reqs ++ [now]) (toks ++ [tokensUsed]))).

Definition stats (rl : rateLimiter) (apiKey : string) (now : Z) : (Z * Z) * rateLimiter :=
  match windows rl !! apiKey with
  | None => ((0, 0), rl)
  | Some w =>
      let cutoff := now + -1 * Minute in
      let reqs := pruneTime (requests w) cutoff in
      let toks := pruneTokens reqs (tokens w) in
      ((Z.of_nat (length reqs), total toks), with_window rl apiKey (mkWindow reqs toks))
  end.

(** The loop of [/debug/rate-limits]: it prunes the requests alone, with the
    reading of the clock made for each key. *)
Definition debug_limits (rl : rateLimiter) (clock : string → Z) : rateLimiter :=
  mkLimiter (map_imap (λ k w,
      Some (mkWindow (pruneTime (requests w) (clock k + -1 * Minute)) (tokens w))) (windows rl))
    (rpmLimit rl) (tpmLimit rl).

(** ** Handlers *)

Record message := mkMessage { Role : string; Content : string }.
Record chatRequest := mkChatRequest { Model : string; Messages : list message }.

Definition llm_extractAPIKey (hs : headers) : string :=
  let auth := header_Get hs "Authorization" in
  if HasPrefix auth "Bearer " then TrimPrefix auth "Bearer " else header_Get hs "x-api-key".

Definition maskKey (key : string) : string :=
  if (String.length key <=? 8)%nat then "***"
  else String.substring 0 4 key +:+ "..." +:+ String.substring (String.length key - 4) 4 key.

Definition estimateTokens (req : chatRequest) : Z :=
  let total := foldl (λ acc m, wrap64 (acc + body_length (Content m) / 4)) 0 (Messages req) in
  if total <? 10 then 10 else total.

Definition truncate (s : string) (maxLen : nat) : string :=
  if (String.length s <=? maxLen)%nat then s else String.substring 0 maxLen s +:+ "...".

Definition generateResponse (req : chatRequest) : string :=
  let lastContent := foldl (λ acc m, if String.eqb (Role m) "user" then Content m else acc)
                       EmptyString (Messages req) in
  if HasPrefix lastContent "OUTPUT:" then TrimPrefix lastContent "OUTPUT:"
  else "This is a mock response from model " +:+ Model req +:+ " for prompt: "
       +:+ truncate lastContent 100.

(** What the completions endpoint answers: an error, with the
    [Retry-After] of a 429, or content with its usage. *)
Inductive llm_answer :=
| LLMError (status : Z) (retryAfter : option Z) (msg : string)
| LLMCompletion (model content : string) (promptTokens completionTokens totalTokens : Z)
| LLMPanic.

(** [POST /v1/chat/completions]; [body] is the decoded request, [fails] the
    outcome of the simulated failure, [clock] the readings it makes: in
    [check] two, in [stats] one. *)
Definition chat_completions (hs : headers) (body : option chatRequest) (fails : bool)
    (clock : Z * Z * Z) (rl : rateLimiter) : llm_answer * rateLimiter :=
  let '(now, later, after) := clock in
  let apiKey := llm_extractAPIKey hs in
  if String.eqb apiKey "" then (LLMError 401 None "missing api key", rl)
  else match body with
  | None => (LLMError 400 None "invalid request", rl)
  | Some req =>
      let promptTokens := estimateTokens req in
      match check rl apiKey (wrap64 (promptTokens + 200)) now later with
      | (CheckPanic, rl) => (LLMPanic, rl)
      | (Limited retryAfterMs, rl) =>
          let rl := (stats rl apiKey after).2 in
          (LLMError 429 (Some (Z.quot retryAfterMs 1000 + 1))
             ("Rate limit exceeded. Retry after " +:+ pretty retryAfterMs +:+ "ms"), rl)
      | (Allowed, rl) =>
          if fails then (LLMError 500 None "simulated server error", rl)
          else
            let content := generateResponse req in
            let completionTokens := body_length content / 4 in
            let rl := (stats rl apiKey after).2 in
            (LLMCompletion (Model req) content promptTokens completionTokens
               (wrap64 (promptTokens + completionTokens)), rl)
      end
  end.

(** The usage [/debug/rate-limits] reports, by masked key: the [keys] are
    those of the limiter in the order of the range loop, and a key masked
    like an earlier one replaces it. *)
Definition debug_report (keys : list string) (clock : string → Z) (rl : rateLimiter) :
    gmap string (Z * Z) * rateLimiter :=
  let rl := debug_limits rl clock in
  (foldl (λ stats key,
     match windows rl !! key with
     | Some win => <[maskKey key := (Z.of_nat (length (requests win)), total (tokens win))]> stats
     | None => stats
     end) ∅ keys, rl).

Example debug_report_masks : (debug_report ["key-one"; "key-two"] (λ _, 0)
    (check (check (newRateLimiter 5 100) "key-one" 1 0 0).2 "key-two" 2 0 0).2).1 = {["***" := (1, 2)]}.
Proof. vm_compute. reflexivity. Qed.

(** ** Histories *)

(** The locked operations, with the clock they read; a debug request reads
    it once per key, at the latest at [now]. *)
Inductive limiter_op :=
| OpCheck (apiKey : string) (tokensUsed now later : Z)
| OpStats (apiKey : string) (now : Z)
| OpDebug (clock : string → Z) (now : Z).

Definition op_now (op : limiter_op) : Z :=
  match op with OpCheck _ _ now _ => now | OpStats _ now => now | OpDebug _ now => now end.

(** One operation, and the request it admits: key, time, tokens. *)
Definition limiter_step (op : limiter_op) (rl : rateLimiter) :
    option (string * (Z * Z)) * rateLimiter :=
  match op with
  | OpCheck k t now later =>
      match check rl k t now later with
      | (Allowed, rl') => (Some (k, (now, t)), rl')
      | (_, rl') => (None, rl')
      end
  | OpStats k now => (None, (stats rl k now).2)
  | OpDebug clock _ => (None, debug_limits rl clock)
  end.

Fixpoint limiter_run (ops : list limiter_op) (rl : rateLimiter) :
    list (string * (Z * Z)) * rateLimiter :=
  match ops with
  | [] => ([], rl)
  | op :: ops' =>
      let '(a, rl') := limiter_step op rl in
      let '(log, rl'') := limiter_run ops' rl' in
      (option_list a ++ log, rl'')
  end.

(** What was admitted for a key, and within the minute up to [t]. *)
Definition key_log (k : string) (log : list (string * (Z * Z))) : list (Z * Z) :=
  omap (λ e, if String.eqb e.1 k then Some e.2 else None) log.

Definition in_minute (t : Z) (e : Z * Z) : bool := (t - Minute <? e.1) && (e.1 <=? t).

Definition admitted (k : string) (t : Z) (log : list (string * (Z * Z))) : list (Z * Z) :=
  List.filter (in_minute t) (key_log k log).

Fixpoint sum (l : list Z) : Z := match l with [] => 0 | x :: l' => x + sum l' end.

(** ** Lemmas *)

Definition recent (cutoff : Z) (t : Z) : bool := cutoff <? t.

(** The loop keeps a prefix that is done, junk between the two indices, and
    the elements it has not read. *)
Lemma prune_loop_spec cutoff rest done junk :
  prune_loop (length rest) cutoff (done ++ junk ++ rest) (length (done ++ junk)) (length done) =
    done ++ List.filter (recent cutoff) rest.
Proof.
  revert done junk. induction rest as [|t rest IH]; intros done junk; cbn [prune_loop length].
  { by rewrite take_app_length, app_nil_r. }
  rewrite (app_assoc done junk). rewrite list_lookup_middle by done.
  cbn [List.filter]. unfold recent at 1. destruct (cutoff <? t).
  - destruct junk as [|x junk].
    + rewrite app_nil_r. rewrite (insert_app_r_alt _ _ _ _ (le_n _)), Nat.sub_diag. simpl.
      specialize (IH (done ++ [t]) []). rewrite <- !app_assoc in IH. simpl in IH.
      rewrite length_app in IH. simpl in IH. rewrite Nat.add_1_r in IH. apply IH.
    + rewrite <- app_assoc. rewrite (insert_app_r_alt _ _ _ _ (le_n _)), Nat.sub_diag. simpl.
      specialize (IH (done ++ [t]) (junk ++ [t])). rewrite <- !app_assoc in IH. simpl in IH.
      rewrite !length_app in IH. simpl in IH. rewrite length_app. simpl.
      rewrite length_app in IH. simpl in IH.
      replace (S (length done + S (length junk)))%nat
        with (length done + S (length junk + 1))%nat by lia.
      replace (S (length done)) with (length done + 1)%nat by lia. apply IH.
  - specialize (IH done (junk ++ [t])). rewrite <- !app_assoc in *. simpl in IH.
    rewrite !length_app in *. simpl in IH.
    replace (S (length done + length junk))%nat with (length done + (length junk + 1))%nat by lia.
    apply IH.
Qed.

Lemma pruneTime_filter times cutoff : pruneTime times cutoff = List.filter (recent cutoff) times.
Proof. apply (prune_loop_spec cutoff times [] []). Qed.

Abbreviation by_time := (StronglySorted (λ a b : Z * Z, a.1 ≤ b.1)).

(** Pruning a window in order of time drops a prefix of it. *)
Lemma prune_sorted (l : list (Z * Z)) cutoff : by_time l →
  ∃ a b, l = a ++ b ∧ pruneTime l.*1 cutoff = b.*1 ∧
    Forall (λ e, e.1 ≤ cutoff) a ∧ Forall (λ e, cutoff < e.1) b.
Proof.
  rewrite pruneTime_filter. induction 1 as [|e l Hl IH He]; [by exists [], []|].
  cbn [fmap list_fmap List.filter]. unfold recent at 1. destruct (Z.ltb_spec cutoff e.1) as [Hc|Hc].
  - assert (Hall : Forall (λ e, cutoff < e.1) l).
    { eapply Forall_impl; [exact He|]. simpl. lia. }
    exists [], (e :: l). split_and!; [done| |done|by constructor]. simpl. f_equal.
    clear -Hall. induction Hall as [|x l Hx _ IH]; [done|]. simpl. unfold recent at 1.
    apply Z.ltb_lt in Hx as ->. by f_equal.
  - destruct IH as (a & b & -> & -> & Ha & Hb). exists (e :: a), b.
    split_and!; [done..|by constructor|done].
Qed.

Lemma pruneTokens_app times x y : length y = length times → pruneTokens times (x ++ y) = y.
Proof.
  intros Hl. unfold pruneTokens. rewrite length_app. destruct (Nat.ltb_spec (length times) (length x + length y)).
  - by rewrite Hl, Nat.add_sub, drop_app_length.
  - assert (x = []) as -> by (apply nil_length_inv; lia). done.
Qed.

Lemma total_from l acc : Forall (Z.le 0) l → 0 ≤ acc → acc + sum l ≤ int64_max →
  foldl (λ acc t, wrap64 (acc + t)) acc l = acc + sum l.
Proof.
  revert acc. induction l as [|t l IH]; intros acc Hl Hacc Hs; simpl in *; [lia|].
  apply Forall_cons in Hl as [Ht Hl].
  assert (0 ≤ sum l) by (clear -Hl; induction Hl; simpl; lia).
  assert (wrap64 (acc + t) = acc + t) as ->.
  { apply wrap64_id. unfold in_int64, int64_min, int64_max in *. lia. }
  rewrite IH; [lia|done|lia|lia].
Qed.

Lemma filter_sum (f : Z * Z → bool) l : Forall (λ e, 0 ≤ e.2) l → sum (List.filter f l).*2 ≤ sum l.*2.
Proof.
  induction 1 as [|e l He _ IH]; [done|]. cbn [List.filter].
  destruct (f e); rewrite !fmap_cons; cbn [sum]; lia.
Qed.

Lemma filter_length_le {A} (f : A → bool) l : (length (List.filter f l) ≤ length l)%nat.
Proof. induction l as [|x l IH]; simpl; [done|]. destruct (f x); simpl; lia. Qed.

Lemma in_minute_old t now l : Forall (λ e, e.1 ≤ now - Minute) l → now ≤ t →
  List.filter (in_minute t) l = [].
Proof.
  intros Hl Ht. induction Hl as [|e l He _ IH]; [done|]. simpl. unfold in_minute at 1.
  rewrite (proj2 (Z.ltb_ge _ _)) by lia. done.
Qed.

Lemma in_minute_all now l : Forall (λ e, now - Minute < e.1) l → Forall (λ e, e.1 ≤ now) l →
  List.filter (in_minute now) l = l.
Proof.
  intros Hl Hu. induction Hl as [|e l He _ IH]; [done|]. apply Forall_cons in Hu as [Hu1 Hu].
  simpl. unfold in_minute at 1. rewrite (proj2 (Z.ltb_lt _ _)), (proj2 (Z.leb_le _ _)) by lia.
  simpl. by f_equal; auto.
Qed.

Section window_inv.
Context (rpm tpm : Z).

(** The limits over a log: at most [rpm] requests and [tpm] tokens in any
    minute. *)
Definition within_limits (L : list (Z * Z)) : Prop :=
  ∀ t, Z.of_nat (length (List.filter (in_minute t) L)) ≤ Z.max 0 rpm ∧
    (0 < tpm < 2 ^ 62 → sum (List.filter (in_minute t) L).*2 ≤ tpm).

(** A key's window against what was admitted for it, [L]: the window is the
    end of [L], what it dropped is a minute old, and the tokens may still
    hold more at their front. *)
Definition window_ok (clk : Z) (w : window) (L : list (Z * Z)) : Prop :=
  (∃ pre suf extra, L = pre ++ suf ∧ requests w = suf.*1 ∧ tokens w = extra ++ suf.*2 ∧
     Forall (λ e, e.1 ≤ clk - Minute) pre) ∧
  by_time L ∧ Forall (λ e, e.1 ≤ clk) L ∧ Forall (λ e, 0 ≤ e.2 ≤ 2 ^ 62) L ∧ within_limits L.

(** A window that was just pruned. *)
Definition pruned_ok (now : Z) (w : window) (L : list (Z * Z)) : Prop :=
  ∃ old b, L = old ++ b ∧ w = mkWindow b.*1 b.*2 ∧
    Forall (λ e, e.1 ≤ now - Minute) old ∧ Forall (λ e, now - Minute < e.1) b.

Lemma by_time_app (a b : list (Z * Z)) : by_time (a ++ b) → by_time b.
Proof. induction a as [|x a IH]; simpl; [done|]. intros Hs. inversion Hs; subst. by apply IH. Qed.

Lemma by_time_snoc (l : list (Z * Z)) e : by_time l → Forall (λ x, x.1 ≤ e.1) l → by_time (l ++ [e]).
Proof.
  induction 1 as [|x l Hl IH Hx]; intros He; simpl; [by repeat constructor|].
  apply Forall_cons in He as [Hxe He]. constructor; [auto|].
  apply Forall_app. split; [done|]. by constructor.
Qed.

Lemma window_ok_mono clk now w L : clk ≤ now → window_ok clk w L → window_ok now w L.
Proof.
  intros Hle ((pre & suf & extra & ? & ? & ? & Hp) & ? & Hc & ? & ?). split_and!; try done.
  - exists pre, suf, extra. split_and!; try done. eapply Forall_impl; [exact Hp|]. simpl. lia.
  - eapply Forall_impl; [exact Hc|]. simpl. lia.
Qed.

Lemma prune_window now w L : window_ok now w L →
  let reqs := pruneTime (requests w) (now + -1 * Minute) in
  pruned_ok now (mkWindow reqs (pruneTokens reqs (tokens w))) L.
Proof.
  intros ((pre & suf & extra & -> & Hr & Ht & Hp) & Hs & _). cbn zeta. rewrite Hr, Ht.
  destruct (prune_sorted suf (now + -1 * Minute) (by_time_app _ _ Hs)) as (a & b & -> & -> & Ha & Hb).
  exists (pre ++ a), b. split_and!.
  - by rewrite app_assoc.
  - f_equal. rewrite fmap_app, app_assoc. apply pruneTokens_app. by rewrite !length_fmap.
  - apply Forall_app. split; [done|]. eapply Forall_impl; [exact Ha|]. simpl. lia.
  - eapply Forall_impl; [exact Hb|]. simpl. lia.
Qed.

Lemma pruned_window_ok now w w' L : window_ok now w L → pruned_ok now w' L → window_ok now w' L.
Proof.
  intros (_ & ?) (old & b & -> & -> & Ho & _). split; [|done]. by exists old, b, [].
Qed.

Lemma sum_app l1 l2 : sum (l1 ++ l2) = sum l1 + sum l2.
Proof. induction l1 as [|x l1 IH]; simpl; lia. Qed.

(** Admitting a request that passed the checks. *)
Lemma admit_window_ok now w b t L : window_ok now w L → pruned_ok now w L → w = mkWindow b.*1 b.*2 →
  0 ≤ t ≤ 2 ^ 62 → Z.of_nat (length b) < rpm → (0 < tpm < 2 ^ 62 → sum b.*2 + t ≤ tpm) →
  window_ok now (mkWindow (b.*1 ++ [now]) (b.*2 ++ [t])) (L ++ [(now, t)]).
Proof.
  intros (_ & Hs & Hclk & Hpos & Hlim) (old & b' & -> & -> & Ho & Hb) Heq Ht Hrpm Htpm.
  assert (b' = b) as ->.
  { injection Heq as H1 H2. clear -H1 H2. revert b H1 H2.
    induction b' as [|[] b' IH]; intros [|[] b] H1 H2; simplify_eq/=; [done|]. f_equal. auto. }
  split; [|split; [|split; [|split]]].
  - exists old, (b ++ [(now, t)]), []. rewrite !fmap_app, app_assoc. split_and!; done.
  - by apply by_time_snoc.
  - apply Forall_app. split; [done|]. by constructor.
  - apply Forall_app. split; [done|]. by constructor.
  - intros u. rewrite List.filter_app. cbn [List.filter].
    destruct (in_minute u (now, t)) eqn:Hu; [|by rewrite app_nil_r; apply Hlim].
    unfold in_minute in Hu. simpl in Hu. go_bools.
    rewrite List.filter_app, (in_minute_old u now old) by done. simpl.
    rewrite length_app, fmap_app, sum_app. simpl.
    pose proof (filter_length_le (in_minute u) b). split; [lia|]. intros Hq.
    apply Forall_app in Hpos as [_ Hpos].
    pose proof (filter_sum (in_minute u) b
      ltac:(eapply Forall_impl; [exact Hpos|]; simpl; lia)). specialize (Htpm Hq). lia.
Qed.

(** The total of a pruned window under a token limit does not wrap. *)
Lemma pruned_total now w b L : window_ok now w L → pruned_ok now w L → w = mkWindow b.*1 b.*2 →
  0 < tpm < 2 ^ 62 → total b.*2 = sum b.*2 ∧ 0 ≤ sum b.*2 ≤ tpm.
Proof.
  intros (_ & Hs & Hclk & Hpos & Hlim) (old & b' & -> & -> & Ho & Hb) Heq Hq.
  assert (b'.*2 = b.*2) as <- by congruence.
  apply Forall_app in Hclk as [_ Hclk]. apply Forall_app in Hpos as [_ Hpos].
  destruct (Hlim now) as [_ Hsum]. specialize (Hsum Hq).
  rewrite List.filter_app, (in_minute_old now now old), (in_minute_all now b') in Hsum by (done || lia).
  simpl in Hsum.
  assert (Hn : Forall (Z.le 0) b'.*2).
  { apply Forall_fmap. eapply Forall_impl; [exact Hpos|]. simpl. lia. }
  assert (0 ≤ sum b'.*2) by (clear -Hn; induction Hn; simpl; lia).
  unfold total. rewrite total_from; try done; unfold int64_max; lia.
Qed.

(** The limiter against the log of a history. *)
Definition limiter_inv (clk : Z) (rl : rateLimiter) (log : list (string * (Z * Z))) : Prop :=
  rpmLimit rl = rpm ∧ tpmLimit rl = tpm ∧
  ∀ k, window_ok clk (default (mkWindow [] []) (windows rl !! k)) (key_log k log).

Definition op_ok (op : limiter_op) : Prop :=
  match op with
  | OpCheck _ t _ _ => 0 ≤ t ≤ 2 ^ 62
  | OpStats _ _ => True
  | OpDebug clock now => ∀ k, clock k ≤ now
  end.

Lemma limiter_inv_mono clk now rl log : clk ≤ now → limiter_inv clk rl log → limiter_inv now rl log.
Proof.
  intros Hle (? & ? & Hk). split_and!; [done..|]. intros k. by eapply window_ok_mono.
Qed.

Lemma limiter_inv_with now rl log k w : limiter_inv now rl log → window_ok now w (key_log k log) →
  limiter_inv now (with_window rl k w) log.
Proof.
  intros (? & ? & Hk) Hw. split_and!; [done..|]. intros k'. simpl.
  destruct (decide (k' = k)) as [->|Hne]; [by rewrite lookup_insert_eq|].
  by rewrite lookup_insert_ne.
Qed.

Lemma key_log_snoc k log k' e :
  key_log k (log ++ [(k', e)]) = key_log k log ++ (if String.eqb k' k then [e] else []).
Proof. unfold key_log. rewrite omap_app. simpl. by destruct (String.eqb k' k). Qed.

Lemma check_step now later rl log k t : limiter_inv now rl log → 0 ≤ t ≤ 2 ^ 62 →
  let '(o, rl') := check rl k t now later in
  limiter_inv now rl' (log ++ match o with Allowed => [(k, (now, t))] | _ => [] end).
Proof.
  intros Hinv Ht. pose proof Hinv as (Hr & Hp & Hk). unfold check. cbv zeta.
  set (w := default (mkWindow [] []) (windows rl !! k)).
  assert (Hpr := prune_window now w (key_log k log) (Hk k)). cbv zeta in Hpr.
  destruct Hpr as (old & b & HL & Hw & Ho & Hb). injection Hw as H1 H2.
  rewrite H1 in *. rewrite H2 in *.
  assert (Hpok : pruned_ok now (mkWindow b.*1 b.*2) (key_log k log)) by (by exists old, b).
  assert (Hwok := pruned_window_ok _ _ _ _ (Hk k) Hpok).
  rewrite Hr, Hp. destruct (Z.leb_spec rpm (Z.of_nat (length b.*1))) as [Hle|Hlt].
  { destruct b.*1; rewrite app_nil_r; by apply limiter_inv_with. }
  rewrite length_fmap in Hlt.
  destruct ((0 <? tpm) && _) eqn:Htp; [rewrite app_nil_r; by apply limiter_inv_with|].
  assert (Hnew : window_ok now (mkWindow (b.*1 ++ [now]) (b.*2 ++ [t])) (key_log k log ++ [(now, t)])).
  { eapply admit_window_ok; try done. intros Hq.
    destruct (pruned_total _ _ _ _ Hwok Hpok eq_refl Hq) as [Htot Hsum].
    rewrite (proj2 (Z.ltb_lt 0 tpm)), Htot in Htp by lia. simpl in Htp. apply Z.ltb_ge in Htp.
    rewrite wrap64_id in Htp; [done|]. unfold in_int64, int64_min, int64_max. lia. }
  split_and!; [done..|]. intros k'. rewrite key_log_snoc. simpl.
  destruct (String.eqb_spec k k') as [<-|Hne]; [by rewrite lookup_insert_eq|].
  rewrite lookup_insert_ne by done. rewrite app_nil_r. apply Hk.
Qed.

Lemma stats_step now rl log k : limiter_inv now rl log → limiter_inv now (stats rl k now).2 log.
Proof.
  intros Hinv. pose proof Hinv as (_ & _ & Hk). specialize (Hk k). unfold stats.
  destruct (windows rl !! k) as [w|]; [|done]. simpl in *.
  apply limiter_inv_with; [done|]. by eapply pruned_window_ok, prune_window.
Qed.

(** Pruning the requests alone leaves tokens at the front. *)
Lemma debug_window at_ now w L : at_ ≤ now → window_ok now w L →
  window_ok now (mkWindow (pruneTime (requests w) (at_ + -1 * Minute)) (tokens w)) L.
Proof.
  intros Hle ((pre & suf & extra & -> & Hr & Ht & Hp) & Hs & ?). split; [|done]. rewrite Hr, Ht.
  destruct (prune_sorted suf (at_ + -1 * Minute) (by_time_app _ _ Hs)) as (a & b & -> & -> & Ha & Hb).
  exists (pre ++ a), b, (extra ++ a.*2). rewrite fmap_app, !app_assoc. split_and!; [done..|].
  apply Forall_app. split; [done|]. eapply Forall_impl; [exact Ha|]. simpl. lia.
Qed.

Lemma debug_step clock now rl log : (∀ k, clock k ≤ now) → limiter_inv now rl log →
  limiter_inv now (debug_limits rl clock) log.
Proof.
  intros Hc (? & ? & Hk). split_and!; [done..|]. intros k. specialize (Hk k). simpl.
  rewrite map_lookup_imap. destruct (windows rl !! k) as [w|]; simpl in *; [|done].
  by apply debug_window.
Qed.

Lemma limiter_run_inv ops clk rl log : limiter_inv clk rl log → Forall op_ok ops →
  StronglySorted Z.le (clk :: (op_now <$> ops)) →
  ∃ now, limiter_inv now (limiter_run ops rl).2 (log ++ (limiter_run ops rl).1).
Proof.
  revert clk rl log. induction ops as [|op ops IH]; intros clk rl log Hinv Hok Hs.
  { exists clk. simpl. by rewrite app_nil_r. }
  apply Forall_cons in Hok as [Hop Hok]. cbn [fmap list_fmap] in Hs.
  apply StronglySorted_inv in Hs as [Hs Hclk]. apply Forall_cons in Hclk as [Hclk _].
  apply (limiter_inv_mono _ _ _ _ Hclk) in Hinv.
  assert (Hstep : limiter_inv (op_now op) (limiter_step op rl).2
                    (log ++ option_list (limiter_step op rl).1)).
  { destruct op as [k t now later|k now|clock now]; simpl in *.
    - pose proof (check_step now later rl log k t Hinv Hop) as Hc.
      by destruct (check rl k t now later) as [[] rl'].
    - rewrite app_nil_r. by apply stats_step.
    - rewrite app_nil_r. by apply debug_step. }
  cbn [limiter_run]. destruct (limiter_step op rl) as [a rl']. simpl in Hstep.
  destruct (IH _ _ _ Hstep Hok Hs) as [now Hnow]. exists now.
  destruct (limiter_run ops rl') as [l2 rl2]. simpl in *. by rewrite app_assoc.
Qed.

Lemma sorted_from (l : list Z) : StronglySorted Z.le l → ∃ clk, StronglySorted Z.le (clk :: l).
Proof.
  intros Hs. destruct l as [|n l]; [exists 0; by repeat constructor|].
  exists n. constructor; [done|]. apply StronglySorted_inv in Hs as [_ Hn]. by constructor.
Qed.

Lemma limiter_init clk : limiter_inv clk (newRateLimiter rpm tpm) [].
Proof.
  split_and!; [done..|]. intros k. simpl. rewrite lookup_empty. simpl.
  split; [by exists [], [], []|]. split; [constructor|]. split; [constructor|].
  split; [constructor|]. intros u. simpl. lia.
Qed.

End window_inv.

(** ** Properties *)

(** C19: whatever checks, statistics and debug requests a limiter has served,
    with a clock that does not go back, no minute saw it admit more than
    [rpmLimit] requests of a key, nor, under a token limit, more than
    [tpmLimit] tokens. *)
Theorem limiter_window_bound rpm tpm ops k t :
  StronglySorted Z.le (op_now <$> ops) → Forall op_ok ops →
  let log := (limiter_run ops (newRateLimiter rpm tpm)).1 in
  Z.of_nat (length (admitted k t log)) ≤ Z.max 0 rpm ∧
  (0 < tpm < 2 ^ 62 → sum (admitted k t log).*2 ≤ tpm).
Proof.
  intros Hs Hok. destruct (sorted_from _ Hs) as [clk Hclk].
  destruct (limiter_run_inv rpm tpm ops clk _ [] (limiter_init rpm tpm clk) Hok Hclk)
    as (now & _ & _ & Hk).
  destruct (Hk k) as (_ & _ & _ & _ & Hlim). apply Hlim.
Qed.

(** The in-place loop of [pruneTime], which overwrites the array it is
    reading, keeps exactly the times after the cutoff, in order. *)
Theorem prune_in_place (times : list Z) (cutoff : Z) :
  pruneTime times cutoff = List.filter (λ t, cutoff <? t) times.
Proof. apply pruneTime_filter. Qed.

(** [check] on an idle key: with a positive request limit it admits the
    request, unless the request alone is over the token limit; with a limit
    of zero or less it panics, since it reads the oldest request of an empty
    window. *)
Theorem check_idle_key rl k t now later :
  pruneTime (requests (default (mkWindow [] []) (windows rl !! k))) (now + -1 * Minute) = [] →
  (check rl k t now later).1 =
    if rpmLimit rl <=? 0 then CheckPanic
    else if (0 <? tpmLimit rl) && (tpmLimit rl <? wrap64 t) then Limited 30000 else Allowed.
Proof.
  intros He. unfold check. rewrite He. cbv zeta.
  change (Z.of_nat (length [])) with 0. destruct (rpmLimit rl <=? 0); [done|].
  assert (pruneTokens [] (tokens (default (mkWindow [] []) (windows rl !! k))) = []) as ->.
  { rewrite <- (app_nil_r (tokens _)). by apply pruneTokens_app. }
  change (total [] + t) with t. by destruct (_ && _).
Qed.

(** ** Witnesses *)

Definition demo_ops : list limiter_op :=
  [OpCheck "k" 10 0 0; OpCheck "k" 10 1 1; OpCheck "k" 10 2 2; OpDebug (λ _, 3) 3; OpStats "k" 4;
   OpCheck "k" 10 (2 * Minute) (2 * Minute)].

Lemma limiter_window_bound_witness :
  StronglySorted Z.le (op_now <$> demo_ops) ∧
  (limiter_run demo_ops (newRateLimiter 2 100)).1 =
    [("k", (0, 10)); ("k", (1, 10)); ("k", (2 * Minute, 10))] ∧
  Z.of_nat (length (admitted "k" 5 (limiter_run demo_ops (newRateLimiter 2 100)).1)) ≤ 2.
Proof.
  assert (Hs : StronglySorted Z.le (op_now <$> demo_ops))
    by (cbn; repeat constructor; unfold Minute, Second, Millisecond; lia).
  assert (Hok : Forall op_ok demo_ops) by (repeat constructor; simpl; try lia; intros; lia).
  split; [exact Hs|]. split; [by vm_compute|].
  exact (proj1 (limiter_window_bound 2 100 demo_ops "k" 5 Hs Hok)).
Defined.

Lemma check_idle_key_witness :
  pruneTime (requests (default (mkWindow [] []) (windows (newRateLimiter 0 100) !! "k")))
    (5 + -1 * Minute) = [] ∧
  (check (newRateLimiter 0 100) "k" 10 5 5).1 = CheckPanic.
Proof.
  split; [reflexivity|]. exact (check_idle_key (newRateLimiter 0 100) "k" 10 5 5 eq_refl).
Defined.
