(* ===== verification/MockOpencode.v ===== *)
(** * The mock OpenCode server: messages ([cmd/mock-opencode/main.go])

    The messages endpoint: the output it derives from the message, its
    chunks, and the stream it sends, which the client of
    [internal/opencode] reads back. *)

From Stdlib Require Import Ascii String.
From S2P Require Import Prelude Http Middleware OpencodeClient.

(** [json.Marshal] of the maps the handler sends. *)
Class MockEncoder := {
  Marshal_content : string → string;
  Marshal_usage : Z → Z → Z → string;
}.

(** What the endpoint answers; the payloads of a stream are its
    [data:] lines, each flushed on its own. *)
Inductive mock_answer :=
| MockBadRequest
| MockJSON (content : string)
| MockStream (payloads : list string).

Definition chunkSize : nat := 100.

(** [output[i:end]] for [end = min(i+chunkSize, len(output))]. *)
Definition chunk_at (output : string) (i : nat) : string :=
  let e := (i + chunkSize)%nat in
  let e := if (String.length output <? e)%nat then String.length output else e in
  String.substring i (e - i) output.

(** The message's output. *)
Definition mock_output (content : string) : string :=
  if HasPrefix content "OUTPUT:" then TrimPrefix content "OUTPUT:"
  else "placeholder result for prompt: " +:+ content.

Section mock.
Context `{MockEncoder}.

(** The loop over the chunks from [i]; [gone i] is whether the client left
    during the delay after the chunk at [i].  The flag tells that the
    handler returned.  The fuel is the number of bytes left. *)
Fixpoint chunk_loop (fuel : nat) (output : string) (gone : nat → bool) (i : nat) :
    list string * bool :=
  match fuel with
  | O => ([], false)
  | S fuel' =>
      if (i <? String.length output)%nat then
        let data := Marshal_content (chunk_at output i) in
        if gone i then ([data], true)
        else
          let '(rest, stopped) := chunk_loop fuel' output gone (i + chunkSize) in
          (data :: rest, stopped)
      else ([], false)
  end.

(** [POST /sessions/{id}/messages]; [gone_thinking] is whether the client
    left during the simulated thinking time. *)
Definition messages_handler (body : option string) (flusher gone_thinking : bool)
    (gone : nat → bool) : mock_answer :=
  match body with
  | None => MockBadRequest
  | Some content =>
      let output := mock_output content in
      if negb flusher then MockJSON output
      else if gone_thinking then MockStream []
      else
        let '(chunks, stopped) := chunk_loop (String.length output) output gone 0 in
        if (stopped : bool) then MockStream chunks
        else
          let n := body_length output in
          let chunks := if n =? 0 then [Marshal_content ""] else chunks in
          MockStream (chunks ++ [Marshal_usage (n / 12) (n / 6) (n / 4); "[DONE]"])
  end.

End mock.

(** ** The encoder and the client's decoder *)

(** What is used of [encoding/json]: text (valid UTF-8) comes back as it
    was, in one line; [text] says which strings are text. *)
Class MockEncoderLaws `{MockEncoder, JsonDecoder} (text : string → Prop) := {
  content_back s : text s → Unmarshal_map (Marshal_content s) = Ok [("content", JStr s)];
  usage_back p c t : 0 ≤ t < 2 ^ 53 → ∃ rest,
    Unmarshal_map (Marshal_usage p c t) =
      Ok [("content", JStr ""); ("usage", JObj (rest ++ [("total_tokens", JNum t 1)]))] ∧
    obj_get "total_tokens" rest = None;
  content_line s : text s → (String.length s ≤ chunkSize)%nat → payload_ok (Marshal_content s);
  usage_line p c t : 0 ≤ t < 2 ^ 53 → payload_ok (Marshal_usage p c t);
}.

(** ** Lemmas *)

(** The chunks of an output from an offset. *)
Fixpoint chunks_from (fuel : nat) (output : string) (i : nat) : list string :=
  match fuel with
  | O => []
  | S fuel' =>
      if (i <? String.length output)%nat
      then chunk_at output i :: chunks_from fuel' output (i + chunkSize) else []
  end.

Lemma chunk_loop_chunks `{MockEncoder} fuel output i :
  chunk_loop fuel output (λ _, false) i = (Marshal_content <$> chunks_from fuel output i, false).
Proof.
  revert i. induction fuel as [|fuel IH]; intros i; [done|]. cbn [chunk_loop chunks_from].
  case_match; [|done]. by rewrite IH.
Qed.

Lemma substring_split i n m s : (i + n + m ≤ String.length s)%nat →
  String.substring i n s +:+ String.substring (i + n) m s = String.substring i (n + m) s.
Proof.
  revert i n. induction s as [|c s IH]; intros i n Hl; simpl in Hl.
  - assert (i = 0 ∧ n = 0 ∧ m = 0)%nat as (-> & -> & ->) by lia. done.
  - destruct i as [|i].
    + destruct n as [|n]; [by simpl|]. simpl. rewrite string_app_cons. f_equal. apply (IH O). lia.
    + simpl. apply IH. lia.
Qed.

Lemma substring_nil i s : String.substring i 0 s = EmptyString.
Proof. revert i. induction s as [|c s IH]; intros [|i]; simpl; auto. Qed.

Lemma substring_length i n s : (i + n ≤ String.length s)%nat →
  String.length (String.substring i n s) = n.
Proof.
  revert i n. induction s as [|c s IH]; intros i n Hl; simpl in Hl.
  - assert (i = 0 ∧ n = 0)%nat as [-> ->] by lia. done.
  - destruct i as [|i]; [destruct n as [|n]; [done|]; simpl; f_equal; apply (IH O); lia|].
    simpl. apply IH. lia.
Qed.

Definition concat_strings (l : list string) : string := foldr String.append EmptyString l.

(** The chunks are short, none is empty, and together they are the output. *)
Lemma chunks_spec fuel output i : (String.length output ≤ fuel + i)%nat →
  (i ≤ String.length output)%nat →
  concat_strings (chunks_from fuel output i) =
    String.substring i (String.length output - i) output ∧
  Forall (λ s, (0 < String.length s ≤ chunkSize)%nat) (chunks_from fuel output i).
Proof.
  revert i. induction fuel as [|fuel IH]; intros i Hf Hi.
  { assert (i = String.length output) as -> by lia. rewrite Nat.sub_diag.
    split; [|constructor]. apply eq_sym, substring_nil. }
  cbn [chunks_from]. destruct (Nat.ltb_spec i (String.length output)) as [Hlt|Hge].
  - unfold chunk_at. destruct (Nat.ltb_spec (String.length output) (i + chunkSize)) as [Hc|Hc].
    + assert (chunks_from fuel output (i + chunkSize) = []) as ->.
      { destruct fuel; [done|]. cbn [chunks_from].
        by destruct (Nat.ltb_spec (i + chunkSize) (String.length output)); [lia|]. }
      split; [apply string_app_nil|]. constructor; [|constructor].
      rewrite substring_length; lia.
    + destruct (IH (i + chunkSize)%nat) as [Hcat Hall]; [unfold chunkSize in *; lia|lia|].
      split.
      * change (concat_strings (?x :: ?l)) with (x +:+ concat_strings l). rewrite Hcat.
        replace (i + chunkSize - i)%nat with chunkSize by lia.
        rewrite substring_split by lia. f_equal. lia.
      * constructor; [|done]. rewrite substring_length by lia. unfold chunkSize. lia.
  - assert (i = String.length output) as -> by lia. rewrite Nat.sub_diag.
    split; [|constructor]. apply eq_sym, substring_nil.
Qed.

Section roundtrip.
Context `{MockEncoderLaws text}.

(** The payloads before [DONE] of a complete answer. *)
Definition answer_payloads (output : string) : list string :=
  let n := body_length output in
  (if n =? 0 then [Marshal_content ""]
   else Marshal_content <$> chunks_from (String.length output) output 0) ++
  [Marshal_usage (n / 12) (n / 6) (n / 4)].

Lemma messages_handler_complete content :
  messages_handler (Some content) true false (λ _, false) =
    MockStream (answer_payloads (mock_output content) ++ ["[DONE]"]).
Proof.
  unfold messages_handler, answer_payloads. cbn [negb]. rewrite chunk_loop_chunks. cbn zeta iota.
  by rewrite <- app_assoc.
Qed.

Lemma content_payload s r : text s → processSSEData (Marshal_content s) r = (r +:+ s, 0).
Proof. intros Hs. unfold processSSEData. by rewrite (content_back s Hs). Qed.

Lemma obj_get_last k m v : obj_get k m = None → obj_get k (m ++ [(k, v)]) = Some v.
Proof.
  induction m as [|[k' v'] m IH]; simpl; [by rewrite String.eqb_refl|].
  by destruct (String.eqb k' k).
Qed.

Lemma usage_payload p c t r : 0 ≤ t < 2 ^ 53 → processSSEData (Marshal_usage p c t) r = (r, t).
Proof.
  intros Ht. unfold processSSEData. destruct (usage_back p c t Ht) as (m & -> & Hm).
  cbn [obj_get String.eqb Ascii.eqb Bool.eqb as_string as_object].
  rewrite (obj_get_last _ _ _ Hm). cbn [as_int64]. unfold float_to_int64.
  rewrite Z.quot_1_r, string_app_nil. unfold int64_min, int64_max.
  rewrite (proj2 (Z.leb_le _ t)), (proj2 (Z.leb_le t _)) by lia. done.
Qed.

Lemma contents_fold l r : Forall text l →
  foldl (λ '(r, t) d, let '(r', t') := processSSEData d r in (r', wrap64 (t + t')))
    (r, 0) (Marshal_content <$> l) = (r +:+ concat_strings l, 0).
Proof.
  intros Hl. revert r. induction Hl as [|s l Hs _ IH]; intros r.
  - simpl. by rewrite string_app_nil.
  - cbn [fmap list_fmap foldl]. rewrite content_payload by done. change (wrap64 (0 + 0)) with 0.
    rewrite IH. change (concat_strings (s :: l)) with (s +:+ concat_strings l).
    by rewrite string_app_assoc.
Qed.

Lemma answer_payloads_value output : text "" →
  Forall text (chunks_from (String.length output) output 0) → body_length output < 2 ^ 53 →
  payloads (answer_payloads output) = (output, body_length output / 4) ∧
  Forall payload_ok (answer_payloads output).
Proof.
  intros He Hc Hn. unfold answer_payloads, payloads.
  destruct (chunks_spec (String.length output) output 0 ltac:(lia) ltac:(lia)) as [Hcat Hlen].
  rewrite Nat.sub_0_r, substring_all in Hcat.
  assert (0 ≤ body_length output / 4 < 2 ^ 53) as Ht.
  { unfold body_length in *. split; [apply Z.div_pos; lia|].
    pose proof (Z.div_le_upper_bound (Z.of_nat (String.length output)) 4 (Z.of_nat (String.length output))). lia. }
  assert (Hr : foldl (λ '(r, t) d, let '(r', t') := processSSEData d r in (r', wrap64 (t + t')))
    ("", 0) (if body_length output =? 0 then [Marshal_content ""]
     else Marshal_content <$> chunks_from (String.length output) output 0) = (output, 0)).
  { destruct (body_length output =? 0) eqn:Hz.
    - destruct output; [|unfold body_length in Hz; simpl in Hz; lia].
      change [Marshal_content ""] with (Marshal_content <$> [""]).
      rewrite contents_fold; [done|by constructor].
    - rewrite contents_fold by done. by rewrite Hcat. }
  rewrite foldl_app, Hr. cbn [foldl]. rewrite usage_payload by done. split.
  - f_equal. apply wrap64_id. unfold in_int64, int64_min, int64_max. lia.
  - apply Forall_app. split; [|constructor; [by apply usage_line|constructor]].
    destruct (body_length output =? 0).
    + constructor; [|constructor]. apply content_line; [done|]. simpl. lia.
    + apply Forall_fmap. rewrite Forall_forall in *. intros s Hs. simpl.
      apply content_line; [by apply Hc|by apply Hlen].
Qed.

(** The client reads back from the mock server exactly the output the
    server derived from the message, and its token count, provided the cut
    into chunks of 100 bytes leaves every chunk valid text (a cut inside a
    multi-byte character does not). *)
Theorem mock_stream_roundtrip content rest err seen hs :
  let output := mock_output content in
  text "" → Forall text (chunks_from (String.length output) output 0) →
  body_length output < 2 ^ 53 → header_Get hs "X-Usage-Total-Tokens" = "" →
  seen = false ∨ err = None →
  ∃ ds beats,
    messages_handler (Some content) true false (λ _, false) = MockStream (ds ++ ["[DONE]"]) ∧
    readSSEStream (mkStream (stream_bytes ds ++ rest) err seen) hs =
      (output, body_length output / 4, None, beats).
Proof.
  intros output He Hc Hn Hh Herr. destruct (answer_payloads_value output He Hc Hn) as [Hp Hok].
  destruct (readSSEStream_events (answer_payloads output) rest err seen hs Hok Herr) as [beats Hr].
  exists (answer_payloads output), beats. split; [apply messages_handler_complete|].
  rewrite Hr, Hp, Hh. cbn [fst snd]. by rewrite andb_false_r.
Qed.

End roundtrip.

(** ** Witnesses *)

(** A small encoding with its decoder: a letter, then the text or the bits
    of a number. *)
Fixpoint pos_bits (p : positive) : string :=
  match p with
  | xH => EmptyString
  | xO p => String "0" (pos_bits p)
  | xI p => String "1" (pos_bits p)
  end.

Fixpoint bits_pos (s : string) : positive :=
  match s with
  | EmptyString => 1
  | String c s => if Ascii.eqb c "0" then xO (bits_pos s) else xI (bits_pos s)
  end.

#[local] Instance demo_encoder : MockEncoder := {|
  Marshal_content s := String "c" s;
  Marshal_usage _ _ t := match t with Zpos p => String "p" (pos_bits p) | _ => "z" end;
|}.

Definition demo_usage (t : Z) : list (string * json) :=
  [("content", JStr ""); ("usage", JObj ([] ++ [("total_tokens", JNum t 1)]))].

#[local] Instance demo_decoder : JsonDecoder := {|
  Unmarshal_map s :=
    match s with
    | String c s' =>
        if Ascii.eqb c "c" then Ok [("content", JStr s')]
        else if Ascii.eqb c "z" then Ok (demo_usage 0)
        else Ok (demo_usage (Zpos (bits_pos s')))
    | EmptyString => Err (ErrNew "empty")
    end;
  Decode_session s := Ok (String.substring 0 (String.length s - 1) s);
  Decode_plain _ := Ok ("", None);
  Marshal_message s := Ok s;
|}.

Definition demo_text (s : string) : Prop :=
  Forall (λ c, c ≠ char_nl ∧ c ≠ "013"%char) (list_ascii_of_string s).

Lemma bits_pos_bits p : bits_pos (pos_bits p) = p.
Proof. induction p as [p IH|p IH|]; simpl; by rewrite ?IH. Qed.

Lemma pos_bits_size p : 2 ^ Z.of_nat (String.length (pos_bits p)) ≤ Zpos p.
Proof.
  induction p as [p IH|p IH|]; simpl String.length; [| |done];
    rewrite Nat2Z.inj_succ, Z.pow_succ_r by lia; lia.
Qed.

Lemma pos_bits_text p : demo_text (pos_bits p).
Proof. unfold demo_text. induction p; simpl; try constructor; done. Qed.

#[local] Instance demo_encoder_laws : MockEncoderLaws demo_text.
Proof.
  split.
  - done.
  - intros p c t Ht. exists []. split; [|done]. destruct t as [|t|t]; [done| |lia].
    simpl. by rewrite bits_pos_bits.
  - intros s Hs Hl. split; [done|done|by constructor|]. simpl. unfold chunkSize, maxTokenSize in *. lia.
  - intros p c t Ht. destruct t as [|t|t]; [|split|lia].
    + split; [done|done|by repeat constructor|done].
    + done.
    + done.
    + constructor; [done|]. apply pos_bits_text.
    + pose proof (pos_bits_size t) as Hs. simpl.
      assert (Z.of_nat (String.length (pos_bits t)) < 53).
      { apply (Z.pow_lt_mono_r_iff 2); lia. }
      unfold maxTokenSize. lia.
Qed.

Lemma mock_stream_roundtrip_witness :
  mock_output "OUTPUT:package main" = "package main" ∧
  ∃ ds beats,
    messages_handler (Some "OUTPUT:package main") true false (λ _, false) =
      MockStream (ds ++ ["[DONE]"]) ∧
    readSSEStream (mkStream (stream_bytes ds ++ []) None true) ∅ = ("package main", 3, None, beats).
Proof.
  split; [reflexivity|].
  apply (mock_stream_roundtrip (text := demo_text) "OUTPUT:package main" [] None true ∅).
  - constructor.
  - vm_compute. repeat constructor; discriminate.
  - reflexivity.
  - reflexivity.
  - by right.
Defined.
