(* ===== verification/MockServer.v ===== *)
(** * The mock OpenCode server ([cmd/mock-opencode/main.go])

    Its endpoints behind the multiplexer, as the transport of the client:
    the activities of [Activities] run against it. *)

From Stdlib Require Import Ascii String.
From S2P Require Import Prelude Strconv Http Middleware OpencodeClient Workflow Activities Tasks ServeMux MockOpencode.

(** [json.Encode] of a session and [json.Decode] of a message, and what the
    server gets from [uuid.NewString] and the clock for its [n]th session. *)
Class MockServerEnv := {
  Encode_session : string → string → string;
  Decode_message : string → option string;
  uuid_NewString : nat → string;
  createdAt : nat → string;
}.

(** ** Endpoints *)

Definition json_header : headers := header_Set "Content-Type" "application/json" ∅.

Definition sse_header : headers :=
  header_Set "Connection" "keep-alive"
    (header_Set "Cache-Control" "no-cache" (header_Set "Content-Type" "text/event-stream" ∅)).

Definition error_header : headers :=
  header_Set "X-Content-Type-Options" "nosniff"
    (header_Set "Content-Type" "text/plain; charset=utf-8" ∅).

(** An answer whose body arrives in full. *)
Definition complete (code : Z) (hs : headers) (body : bytes) : http_response :=
  mkHttpResponse code hs (mkStream body None true).

Definition text_answer (code : Z) (hs : headers) (body : string) : http_response :=
  complete code hs (list_ascii_of_string body).

Definition health_body : string :=
  "{" +:+ String char_dq "status" +:+ String char_dq ":" +:+
  String char_dq "ok" +:+ String char_dq "}" +:+ newline.

(** What the client receives of an answer of the messages endpoint. *)
Definition answer_response `{MockEncoder} (a : mock_answer) : http_response :=
  match a with
  | MockBadRequest => text_answer 400 error_header ("invalid request body" +:+ newline)
  | MockJSON content => text_answer 200 json_header (Marshal_content content +:+ newline)
  | MockStream ds => complete 200 sse_header (concat (event_bytes <$> ds))
  end.

Section server.
Context `{MockEncoder} `{MockServerEnv}.

(** [POST /sessions], with [n] sessions made before. *)
Definition sessions_handler (n : nat) : http_response :=
  text_answer 201 json_header (Encode_session (uuid_NewString n) (createdAt n) +:+ newline).

Definition mock_health_handler : http_response := text_answer 200 json_header health_body.

(** The mux: the pattern of a clean path, then its method. *)
Inductive mock_pattern := PatSessions | PatMessages (id : string) | PatHealth.

Definition mock_match (path : string) : option mock_pattern :=
  match Split "/" "" path with
  | [s0; s1] =>
      if String.eqb s0 "" && String.eqb s1 "sessions" then Some PatSessions
      else if String.eqb s0 "" && String.eqb s1 "health" then Some PatHealth else None
  | [s0; s1; id; s3] =>
      if String.eqb s0 "" && String.eqb s1 "sessions" && negb (String.eqb id "")
         && String.eqb s3 "messages"
      then Some (PatMessages id) else None
  | _ => None
  end.

(** [http.Error] of the mux, for a path that only other methods have. *)
Definition method_not_allowed (allow : string) : http_response :=
  text_answer 405 (header_Set "Allow" allow error_header) ("Method Not Allowed" +:+ newline).

(** The server sends no body in answer to a [HEAD]. *)
Definition for_method (method : string) (a : http_response) : http_response :=
  if String.eqb method "HEAD" then mkHttpResponse (hp_StatusCode a) (hp_Header a) (mkStream [] None true)
  else a.

(** A [GET] pattern, which the mux also uses for [HEAD]. *)
Definition on_get (method : string) (a : http_response) : http_response :=
  if String.eqb method "GET" || String.eqb method "HEAD" then a else method_not_allowed "GET, HEAD".

(** A request for a clean path from a client that stays to the end. *)
Definition mock_mux (n : nat) (method path body : string) : http_response :=
  for_method method match mock_match path with
  | None => text_answer 404 error_header ("404 page not found" +:+ newline)
  | Some PatSessions =>
      if String.eqb method "POST" then sessions_handler n else method_not_allowed "POST"
  | Some (PatMessages _) =>
      if String.eqb method "POST"
      then answer_response (messages_handler (Decode_message body) true false (λ _, false))
      else method_not_allowed "POST"
  | Some PatHealth => on_get method mock_health_handler
  end.

(** ** The server as a transport *)

Definition is_query (c : ascii) : bool := Ascii.eqb c "?" || Ascii.eqb c "#".

Fixpoint cut_query (s : string) : string :=
  match s with
  | EmptyString => EmptyString
  | String c s' => if is_query c then EmptyString else String c (cut_query s')
  end.

(** The path of a URL on the host, or nothing for another host. *)
Definition path_on (host url : string) : option string :=
  let u := cut_query url in
  if HasPrefix u ("http://" +:+ host) then
    match TrimPrefix u ("http://" +:+ host) with
    | EmptyString => Some "/"
    | String c p => if Ascii.eqb c "/" then Some (String c p) else None
    end
  else None.

(** The client follows the mux's redirect of an unclean path; a [POST] is
    repeated as a [GET] without a body. *)
Definition mock_transport (host : string) (n : nat) : transport := λ method url hs body,
  match path_on host url with
  | None => Err (ErrNew "no such host")
  | Some path =>
      if String.eqb (cleanPath path) path then Ok (mock_mux n method path body)
      else Ok (mock_mux n (if String.eqb method "POST" then "GET" else method) (cleanPath path) "")
  end.

End server.

(** What the theorems need of the JSON of sessions and messages; [text] is
    the valid text of [MockEncoderLaws]. *)
Class MockServerLaws `{MockEncoder, JsonDecoder, MockServerEnv} (text : string → Prop) := {
  session_back id t : Decode_session (Encode_session id t +:+ newline) = Ok id;
  message_back p : text p → ∃ body, Marshal_message p = Ok body ∧ Decode_message body = Some p;
}.

(** ** Lemmas *)

Lemma prefix_app a b : String.prefix a (a +:+ b) = true.
Proof. induction a as [|c a IH]; [by destruct b|]. rewrite string_app_cons. simpl. by case ascii_dec. Qed.

Lemma substring_drop a b : String.substring (String.length a) (String.length b) (a +:+ b) = b.
Proof. induction a as [|c a IH]; [apply substring_all|]. rewrite string_app_cons. exact IH. Qed.

Lemma string_length_app a b : String.length (a +:+ b) = (String.length a + String.length b)%nat.
Proof. induction a as [|c a IH]; [done|]. rewrite string_app_cons. simpl. by rewrite IH. Qed.

Lemma TrimPrefix_app a b : TrimPrefix (a +:+ b) a = b.
Proof.
  unfold TrimPrefix, HasPrefix. rewrite prefix_app, string_length_app.
  by rewrite Nat.add_comm, Nat.add_sub, substring_drop.
Qed.

(** Text that ends nowhere in a URL. *)
Definition no_query (s : string) : Prop :=
  Forall (λ c, is_query c = false) (list_ascii_of_string s).

Lemma no_query_app a b : no_query a → no_query b → no_query (a +:+ b).
Proof. unfold no_query. rewrite list_ascii_app. intros. by apply Forall_app. Qed.

Lemma cut_query_id s : no_query s → cut_query s = s.
Proof.
  unfold no_query. induction s as [|c s IH]; simpl; [done|].
  intros [Hc Hs]%Forall_cons. by rewrite Hc, IH.
Qed.

Lemma path_on_host host p : no_query host → no_query p →
  path_on host ("http://" +:+ host +:+ String "/" p) = Some (String "/" p).
Proof.
  intros Hh Hp. unfold path_on.
  rewrite cut_query_id.
  2: { repeat apply no_query_app; try done; [by repeat constructor|by constructor]. }
  rewrite <- (string_app_assoc "http://" host). unfold HasPrefix at 1.
  by rewrite TrimPrefix_app, prefix_app.
Qed.

Lemma trim_right_keep cut c l : c ≠ cut → trim_right_loop cut (c :: l) = c :: l.
Proof. intros Hc. cbn. by rewrite (proj2 (Ascii.eqb_neq _ _) Hc). Qed.

(** The client keeps the URL of a host as it is. *)
Lemma base_url host : segment host → TrimRightSlash ("http://" +:+ host) = "http://" +:+ host.
Proof.
  intros [Hne Hs]. unfold TrimRightSlash.
  assert (Ht : trim_right_loop "/" (rev (list_ascii_of_string ("http://" +:+ host))) =
    rev (list_ascii_of_string ("http://" +:+ host))).
  { rewrite list_ascii_app, rev_app_distr.
    destruct (rev (list_ascii_of_string host)) as [|c l] eqn:Hr.
    { apply (f_equal (@rev ascii)) in Hr. rewrite rev_involutive in Hr. by destruct host. }
    apply (trim_right_keep _ c (l ++ _)). rewrite Forall_forall in Hs. apply Hs.
    rewrite list_elem_of_In, in_rev, Hr. by left. }
  by rewrite Ht, rev_involutive, string_of_list_ascii_of_string.
Qed.

(** ** The client against the server *)

(** A host, or a session, that is one segment of a URL. *)
Definition url_segment (s : string) : Prop := plain_segment s ∧ no_query s.

Section client.
Context `{MockEncoderLaws text} `{MockServerEnv} `{!MockServerLaws text}.
Context (check_url : string → option error) (host : string) (n : nat).
Context (Hurl : ∀ url, check_url url = None) (Hhost : url_segment host).

#[local] Abbreviation client := (NewClient check_url (mock_transport host n) ("http://" +:+ host)).

(** A request of the client for a clean path of the server. *)
Lemma client_request segs hs body what : segs ≠ [] → Forall url_segment segs →
  request client (baseURL client +:+ join_path segs) hs body what =
    Ok (mock_mux n "POST" (join_path segs) body).
Proof.
  intros Hne Hsegs. unfold request. cbn [NewRequest NewClient httpDo]. rewrite Hurl.
  unfold mock_transport. cbn [NewClient baseURL]. rewrite base_url by apply Hhost.
  destruct segs as [|s segs]; [done|].
  change (join_path (s :: segs)) with (String "/" (s +:+ join_path segs)).
  rewrite string_app_assoc, path_on_host; [|apply Hhost|].
  - change (String "/" (s +:+ join_path segs)) with (join_path (s :: segs)).
    rewrite cleanPath_plain; [by rewrite String.eqb_refl|done|].
    eapply Forall_impl; [exact Hsegs|]. by intros ? [].
  - apply (no_query_app s); [by apply Forall_cons in Hsegs as [[] _]|].
    apply Forall_cons in Hsegs as [_ Hsegs]. clear Hne.
    induction Hsegs as [|t segs [_ Ht] _ IH]; [by constructor|].
    change (join_path (t :: segs)) with ("/" +:+ (t +:+ join_path segs)).
    apply no_query_app; [by repeat constructor|]. by apply no_query_app.
Qed.

Lemma mock_match_split segs : Forall segment segs → Split "/" "" (join_path segs) = "" :: segs.
Proof. intros Hs. by apply (split_join "" ""). Qed.

Lemma sessions_segment : url_segment "sessions" ∧ url_segment "messages".
Proof. repeat split; try done; by repeat constructor. Qed.

Lemma CreateSession_mock : CreateSession client = Ok (uuid_NewString n).
Proof.
  unfold CreateSession. pose proof sessions_segment as [Hs _].
  change "/sessions" with (join_path ["sessions"]).
  rewrite client_request by (done || by rewrite !Forall_cons, Forall_nil).
  change (mock_mux n "POST" (join_path ["sessions"]) "{}") with (sessions_handler n). cbn.
  unfold body_text. cbn. by rewrite string_of_list_ascii_of_string, session_back.
Qed.

Lemma mock_mux_messages id body : url_segment id →
  mock_mux n "POST" (join_path ["sessions"; id; "messages"]) body =
    answer_response (messages_handler (Decode_message body) true false (λ _, false)).
Proof.
  intros [[[Hne Hid] _] _]. pose proof sessions_segment as [[[Hs _] _] [[Hm _] _]].
  unfold mock_mux, mock_match. rewrite mock_match_split by (by rewrite !Forall_cons, Forall_nil).
  apply String.eqb_neq in Hne. by rewrite Hne.
Qed.

Lemma SendMessage_mock id prompt : url_segment id → text prompt → text "" →
  let output := mock_output prompt in
  Forall text (chunks_from (String.length output) output 0) → body_length output < 2 ^ 53 →
  ∃ beats, SendMessage client id prompt =
    (Ok (mkSendResult output (body_length output / 4)), beats).
Proof.
  intros Hid Hp He output Hc Hn. unfold SendMessage.
  destruct (message_back prompt Hp) as (body & -> & Hb). pose proof sessions_segment as [Hs Hm].
  change ("/sessions/" +:+ id +:+ "/messages") with (join_path ["sessions"; id; "messages"]).
  rewrite client_request by (done || by rewrite !Forall_cons, Forall_nil).
  rewrite mock_mux_messages, Hb by done.
  destruct (mock_stream_roundtrip prompt [] None true sse_header He Hc Hn eq_refl (or_intror eq_refl))
    as (ds & beats & -> & Hr).
  exists beats. cbn [answer_response complete hp_StatusCode Z.eqb negb hp_Header hp_Body].
  change (Contains (header_Get sse_header "Content-Type") "text/event-stream") with true. cbv iota.
  rewrite fmap_app, concat_app. cbn [fmap list_fmap concat].
  unfold stream_bytes in Hr. rewrite <- app_assoc in Hr. by rewrite Hr.
Qed.

Lemma session_mock alloc : sa_ServiceFQDN alloc = host →
  session_activity check_url (mock_transport host n) alloc =
    Ok (mkSessionInfo (uuid_NewString n) (sa_SandboxName alloc) host).
Proof. intros Ha. unfold session_activity. rewrite Ha. by rewrite CreateSession_mock. Qed.

Lemma prompt_mock a session prompt :
  si_ServiceFQDN session = host → url_segment (si_ID session) → text prompt → text "" →
  let output := mock_output prompt in
  Forall text (chunks_from (String.length output) output 0) → body_length output < 2 ^ 53 →
  let tokens := body_length output / 4 in
  ∃ progress, prompt_activity check_url (mock_transport host n) a session prompt =
    (Ok (mkExecutionResult output tokens), progress, if act_Metrics a then [tokens] else []).
Proof.
  intros Ha Hid Hp He output Hc Hn tokens. unfold prompt_activity. rewrite Ha.
  destruct (SendMessage_mock (si_ID session) prompt Hid Hp He Hc Hn) as [beats ->]. by eexists.
Qed.

(** C23: the worker's activities against the mock server: the session they
    open has the identifier the server made for it, and a prompt's result is
    exactly the output the server derives from the prompt, with the tokens it
    counts, which are metered, provided the cut into chunks of 100 bytes
    leaves every chunk valid text (a cut inside a multi-byte character does
    not). *)
Theorem mock_activities_roundtrip a alloc prompt :
  sa_ServiceFQDN alloc = host → url_segment (uuid_NewString n) → text prompt → text "" →
  let output := mock_output prompt in
  Forall text (chunks_from (String.length output) output 0) → body_length output < 2 ^ 53 →
  let session := mkSessionInfo (uuid_NewString n) (sa_SandboxName alloc) host in
  let tokens := body_length output / 4 in
  session_activity check_url (mock_transport host n) alloc = Ok session ∧
  ∃ progress, prompt_activity check_url (mock_transport host n) a session prompt =
    (Ok (mkExecutionResult output tokens), progress, if act_Metrics a then [tokens] else []).
Proof.
  intros Ha Hid Hp He output Hc Hn session tokens. split; [by apply session_mock|].
  by apply (prompt_mock a session prompt).
Qed.

End client.

(** ** Witness *)

#[local] Existing Instances MockOpencode.demo_encoder MockOpencode.demo_decoder
  MockOpencode.demo_encoder_laws.

#[local] Instance demo_server_env : MockServerEnv := {|
  Encode_session id _ := id;
  Decode_message s := Some s;
  uuid_NewString n := "session-" +:+ pos_bits (Pos.of_succ_nat n);
  createdAt _ := "now";
|}.

Lemma substring_keep a b : String.substring 0 (String.length a) (a +:+ b) = a.
Proof. induction a as [|c a IH]; [by destruct b|]. rewrite string_app_cons. simpl. by rewrite IH. Qed.

#[local] Instance demo_server_laws : MockServerLaws demo_text.
Proof.
  split.
  - intros id t. cbn. rewrite string_length_app. simpl String.length.
    by rewrite Nat.add_sub, substring_keep.
  - intros p _. by exists p.
Qed.

Lemma mock_activities_roundtrip_witness :
  let alloc := mkSandboxAllocation "oc-1" "localhost:4096" "alice" in
  let session := mkSessionInfo "session-1" "oc-1" "localhost:4096" in
  session_activity (λ _, None) (mock_transport "localhost:4096" 2) alloc = Ok session ∧
  ∃ progress, prompt_activity (λ _, None) (mock_transport "localhost:4096" 2) (mkActivities None true)
      session "OUTPUT:package main" =
    (Ok (mkExecutionResult "package main" 3), progress, [3]).
Proof.
  apply (mock_activities_roundtrip (text := demo_text) (λ _, None) "localhost:4096" 2
    (λ _, eq_refl) ltac:(repeat split; try done; by repeat constructor) (mkActivities None true)
    (mkSandboxAllocation "oc-1" "localhost:4096" "alice") "OUTPUT:package main").
  - reflexivity.
  - repeat split; try done; by repeat constructor.
  - by repeat constructor.
  - by constructor.
  - vm_compute. repeat constructor; discriminate.
  - reflexivity.
Defined.
