(* ===== verification/MockLLM.v ===== *)
(** * The server of the mock LLM API ([cmd/mock-llm-api/main.go])

    The endpoints around the limiter of [RateLimiter]: what they answer as
    JSON, the multiplexer, and a server that handles request after request.
    The text of a JSON value is the encoder's. *)

From Stdlib Require Import Ascii String.
From stdpp Require Import pretty sorting.
From S2P Require Import Prelude Strconv Http Middleware OpencodeClient MockServer RateLimiter.

(** ** JSON *)

(** A value to encode: the members of an object are in the order in which
    they are written, which for a Go map is that of its keys. *)
Inductive json :=
| JString (s : string)
| JInt (z : Z)
| JArray (l : list json)
| JObject (members : list (string * json)).

(** [json.Encoder.Encode], with its newline, and the decoder of a request. *)
Class LLMEncoding := {
  Encode : json → string;
  Decode_chat : string → option chatRequest;
}.

Record choice := mkChoice { Index : Z; ch_Message : message; FinishReason : string }.

Record usage := mkUsage { PromptTokens : Z; CompletionTokens : Z; TotalTokens : Z }.

Record chatResponse := mkChatResponse {
  cr_ID : string;
  cr_Object : string;
  Created : Z;
  cr_Model : string;
  Choices : list choice;
  Usage : usage;
}.

Definition message_json (m : message) : json :=
  JObject [("role", JString (Role m)); ("content", JString (Content m))].

Definition choice_json (c : choice) : json :=
  JObject [("index", JInt (Index c)); ("message", message_json (ch_Message c));
           ("finish_reason", JString (FinishReason c))].

Definition usage_json (u : usage) : json :=
  JObject [("prompt_tokens", JInt (PromptTokens u)); ("completion_tokens", JInt (CompletionTokens u));
           ("total_tokens", JInt (TotalTokens u))].

Definition chatResponse_json (r : chatResponse) : json :=
  JObject [("id", JString (cr_ID r)); ("object", JString (cr_Object r)); ("created", JInt (Created r));
           ("model", JString (cr_Model r)); ("choices", JArray (choice_json <$> Choices r));
           ("usage", usage_json (Usage r))].

(** ** Endpoints *)

(** A request, and what the handlers read while they serve it: the outcome
    of the simulated failure, the clock (in [check] twice, in [stats] once),
    [uuid.NewString] and the Unix time of the response, and for the debug
    endpoint the order of the keys and the clock read for each. *)
Record llm_request := mkLLMRequest {
  lr_Method : string;
  lr_Path : string;
  lr_Header : headers;
  lr_Body : string;
  lr_fails : bool;
  lr_now : Z;
  lr_later : Z;
  lr_after : Z;
  lr_uuid : string;
  lr_Unix : Z;
  lr_keys : list string;
  lr_clock : string → Z;
}.

Section server.
Context `{LLMEncoding}.

Definition json_answer (code : Z) (hs : headers) (v : json) : http_response :=
  text_answer code (header_Set "Content-Type" "application/json" hs) (Encode v).

Definition writeError (hs : headers) (status : Z) (msg : string) : http_response :=
  json_answer status hs (JObject [("error",
    JObject [("code", JInt status); ("message", JString msg); ("type", JString "error")])]).

(** The headers an error of the completions endpoint carries. *)
Definition limit_headers (retryAfter : option Z) : headers :=
  match retryAfter with
  | Some n => header_Set "X-RateLimit-Remaining-Requests" "0" (header_Set "Retry-After" (pretty n) ∅)
  | None => ∅
  end.

Definition completion (id : string) (created : Z) (model content : string)
    (promptTokens completionTokens totalTokens : Z) : chatResponse :=
  mkChatResponse ("chatcmpl-" +:+ String.substring 0 8 id) "chat.completion" created model
    [mkChoice 0 (mkMessage "assistant" content) "stop"]
    (mkUsage promptTokens completionTokens totalTokens).

(** [POST /v1/chat/completions]; a panic of the handler ends the connection
    without an answer. *)
Definition chat_handler (r : llm_request) (rl : rateLimiter) : option http_response * rateLimiter :=
  let '(a, rl') := chat_completions (lr_Header r) (Decode_chat (lr_Body r)) (lr_fails r)
                     (lr_now r, lr_later r, lr_after r) rl in
  (match a with
   | LLMError status retryAfter msg => Some (writeError (limit_headers retryAfter) status msg)
   | LLMCompletion model content prompt completion_ total_ =>
       Some (json_answer 200 ∅ (chatResponse_json
         (completion (lr_uuid r) (lr_Unix r) model content prompt completion_ total_)))
   | LLMPanic => None
   end, rl').

(** [GET /v1/models]. *)
Definition models_handler : http_response :=
  let model id := JObject [("id", JString id); ("object", JString "model")] in
  json_answer 200 ∅ (JObject [("data", JArray [model "gemini-2.5-pro"; model "gemini-2.5-flash"; model "gpt-4o"]);
                              ("object", JString "list")]).

(** The members of a Go map, as they are encoded. *)
Definition key_le (p q : string * json) : Prop := String.leb p.1 q.1 = true.

#[global] Instance key_le_dec : RelDecision key_le := λ p q, decide (String.leb p.1 q.1 = true).

Definition map_json (m : gmap string json) : json := JObject (merge_sort key_le (map_to_list m)).

(** [GET /debug/rate-limits]. *)
Definition debug_handler (r : llm_request) (rl : rateLimiter) : http_response * rateLimiter :=
  let '(used, rl') := debug_report (lr_keys r) (lr_clock r) rl in
  let entry (u : Z * Z) :=
    JObject [("rpm_limit", JInt (rpmLimit rl')); ("rpm_used", JInt u.1);
             ("tpm_limit", JInt (tpmLimit rl')); ("tpm_used", JInt u.2)] in
  (json_answer 200 ∅ (JObject
     [("config", JObject [("rpm", JInt (rpmLimit rl')); ("tpm", JInt (tpmLimit rl'))]);
      ("limits", map_json (entry <$> used))]), rl').

(** [GET /health]. *)
Definition llm_health_handler : http_response :=
  json_answer 200 ∅ (JObject [("status", JString "ok")]).

(** ** The server *)

(** The mux, for a request with a clean path. *)
Definition llm_mux (r : llm_request) (rl : rateLimiter) : option http_response * rateLimiter :=
  let method := lr_Method r in
  let '(a, rl') :=
    if String.eqb (lr_Path r) "/v1/chat/completions" then
      if String.eqb method "POST" then chat_handler r rl else (Some (method_not_allowed "POST"), rl)
    else if String.eqb (lr_Path r) "/v1/models" then (Some (on_get method models_handler), rl)
    else if String.eqb (lr_Path r) "/debug/rate-limits" then
      if String.eqb method "GET" || String.eqb method "HEAD"
      then let '(a, rl') := debug_handler r rl in (Some a, rl')
      else (Some (method_not_allowed "GET, HEAD"), rl)
    else if String.eqb (lr_Path r) "/health" then (Some (on_get method llm_health_handler), rl)
    else (Some (text_answer 404 error_header ("404 page not found" +:+ newline)), rl) in
  (for_method method <$> a, rl').

Fixpoint llm_serve (rs : list llm_request) (rl : rateLimiter) :
    list (llm_request * option http_response) * rateLimiter :=
  match rs with
  | [] => ([], rl)
  | r :: rs' =>
      let '(a, rl1) := llm_mux r rl in
      let '(log, rl2) := llm_serve rs' rl1 in ((r, a) :: log, rl2)
  end.

End server.

(** ** Lemmas *)

(** The tokens a request is charged. *)
Definition charged (req : chatRequest) : Z := wrap64 (estimateTokens req + 200).

Section lemmas.
Context `{LLMEncoding}.

(** The request that an answer of the completions endpoint shows to have
    passed the limiter: it is served, or fails only after the check. *)
Definition passed (r : llm_request) (a : option http_response) : option (string * (Z * Z)) :=
  if String.eqb (lr_Path r) "/v1/chat/completions" && String.eqb (lr_Method r) "POST" then
    match a, Decode_chat (lr_Body r) with
    | Some a, Some req =>
        if (hp_StatusCode a =? 200) || (hp_StatusCode a =? 500)
        then Some (llm_extractAPIKey (lr_Header r), (lr_now r, charged req)) else None
    | _, _ => None
    end
  else None.

(** The clock does not go back during a request, and no request is charged
    more than an integer can hold. *)
Definition request_ok (r : llm_request) : Prop :=
  lr_now r ≤ lr_after r ∧ (∀ k, lr_clock r k ≤ lr_after r) ∧
  ∀ req, Decode_chat (lr_Body r) = Some req → 0 ≤ charged req ≤ 2 ^ 62.

Context (rpm tpm : Z).

Lemma chat_step clk rl log r a rl' : limiter_inv rpm tpm clk rl log → clk ≤ lr_now r → request_ok r →
  lr_Path r = "/v1/chat/completions" → lr_Method r = "POST" → chat_handler r rl = (a, rl') →
  limiter_inv rpm tpm (lr_after r) rl' (log ++ option_list (passed r a)).
Proof.
  intros Hinv Hclk (Hafter & _ & Hcharge) Hp Hm Hh. unfold passed. rewrite Hp, Hm. cbn [String.eqb andb].
  revert Hh. unfold chat_handler, chat_completions. cbv beta iota zeta.
  apply (limiter_inv_mono _ _ _ _ _ _ Hclk) in Hinv.
  assert (Hlate := limiter_inv_mono _ _ _ _ _ _ Hafter Hinv).
  destruct (String.eqb _ ""); [intros [= <- <-]; simpl; destruct (Decode_chat _); by rewrite app_nil_r|].
  destruct (Decode_chat (lr_Body r)) as [req|] eqn:Hd; [|intros [= <- <-]; by rewrite app_nil_r].
  assert (Hc := check_step rpm tpm (lr_now r) (lr_later r) rl log (llm_extractAPIKey (lr_Header r))
                  (charged req) Hinv (Hcharge req eq_refl)).
  unfold charged in *. destruct (check _ _ _ _ _) as [o rl1].
  apply (limiter_inv_mono _ _ _ _ _ _ Hafter) in Hc.
  destruct o as [|ms|]; [|intros [= <- <-]; by apply stats_step|intros [= <- <-]; exact Hc].
  destruct (lr_fails r); intros [= <- <-]; [exact Hc|]. by apply stats_step.
Qed.

Lemma for_method_fmap_POST (a : option http_response) : for_method "POST" <$> a = a.
Proof. by destruct a. Qed.

Lemma llm_mux_step clk rl log r : limiter_inv rpm tpm clk rl log → clk ≤ lr_now r → request_ok r →
  limiter_inv rpm tpm (lr_after r) (llm_mux r rl).2 (log ++ option_list (passed r (llm_mux r rl).1)).
Proof.
  intros Hinv Hclk Hok. pose proof Hok as (Hafter & Hclock & _).
  assert (Hlate : limiter_inv rpm tpm (lr_after r) rl log) by (eapply limiter_inv_mono; [|done]; lia).
  unfold llm_mux. cbv zeta. destruct (String.eqb_spec (lr_Path r) "/v1/chat/completions") as [Hp|Hp].
  - destruct (String.eqb_spec (lr_Method r) "POST") as [Hm|Hm].
    + destruct (chat_handler r rl) as [a rl'] eqn:Hh. rewrite Hm, for_method_fmap_POST.
      by apply (chat_step clk rl log r a rl').
    + unfold passed. rewrite (proj2 (String.eqb_neq _ _) Hm), andb_false_r. by rewrite app_nil_r.
  - assert (Hnone : ∀ a, passed r a = None).
    { intros a. unfold passed. by rewrite (proj2 (String.eqb_neq _ _) Hp). }
    rewrite Hnone, app_nil_r. destruct (String.eqb (lr_Path r) "/v1/models"); [done|].
    destruct (String.eqb (lr_Path r) "/debug/rate-limits"); cycle 1.
    { by destruct (String.eqb (lr_Path r) "/health"). }
    destruct (_ || _); [|done]. by apply debug_step.
Qed.

(** The times of a server's requests. *)
Definition request_times (rs : list llm_request) : list Z := r ← rs; [lr_now r; lr_after r].

Lemma llm_serve_cons r rs rl : llm_serve (r :: rs) rl =
  ((r, (llm_mux r rl).1) :: (llm_serve rs (llm_mux r rl).2).1, (llm_serve rs (llm_mux r rl).2).2).
Proof. simpl. destruct (llm_mux r rl) as [a rl1]. simpl. by destruct (llm_serve rs rl1). Qed.

Lemma llm_serve_inv rs clk rl log : limiter_inv rpm tpm clk rl log → Forall request_ok rs →
  StronglySorted Z.le (clk :: request_times rs) →
  ∃ now, limiter_inv rpm tpm now (llm_serve rs rl).2
    (log ++ omap (λ p, passed p.1 p.2) (llm_serve rs rl).1).
Proof.
  revert clk rl log. induction rs as [|r rs IH]; intros clk rl log Hinv Hok Hs.
  { exists clk. by rewrite app_nil_r. }
  apply Forall_cons in Hok as [Hr Hok].
  change (request_times (r :: rs)) with (lr_now r :: lr_after r :: request_times rs) in Hs.
  apply StronglySorted_inv in Hs as [Hs Hclk]. apply Forall_cons in Hclk as [Hclk _].
  apply StronglySorted_inv in Hs as [Hs _].
  assert (Hstep := llm_mux_step clk rl log r Hinv Hclk Hr).
  destruct (IH _ _ _ Hstep Hok Hs) as [now Hnow]. exists now. rewrite llm_serve_cons.
  rewrite <- app_assoc in Hnow. simpl. destruct (passed r _); exact Hnow.
Qed.

End lemmas.

(** ** Properties *)

(** C37: the limits of the mock LLM API, as its clients see them: however
    requests to its endpoints follow each other, in no minute are more than
    [rpm] completions of a key answered (with content or a simulated
    failure), nor, under a token limit, completions charged more than [tpm]
    tokens; what the other endpoints do, the debug report's partial pruning
    included, never lets one more through. *)
Theorem llm_api_rate_limit `{LLMEncoding} rpm tpm rs k t :
  StronglySorted Z.le (request_times rs) → Forall request_ok rs →
  let answered := omap (λ p, passed p.1 p.2) (llm_serve rs (newRateLimiter rpm tpm)).1 in
  Z.of_nat (length (admitted k t answered)) ≤ Z.max 0 rpm ∧
  (0 < tpm < 2 ^ 62 → sum (admitted k t answered).*2 ≤ tpm).
Proof.
  intros Hs Hok. destruct (sorted_from _ Hs) as [clk Hclk].
  destruct (llm_serve_inv rpm tpm rs clk _ [] (limiter_init rpm tpm clk) Hok Hclk) as (now & _ & _ & Hk).
  destruct (Hk k) as (_ & _ & _ & _ & Hlim). apply Hlim.
Qed.

(** ** Witness *)

#[local] Instance demo_encoding : LLMEncoding := {|
  Encode v := match v with JObject ((k, _) :: _) => k | _ => "" end;
  Decode_chat s := if String.eqb s "" then None else Some (mkChatRequest "m" [mkMessage "user" s]);
|}.

Definition demo_chat (key : string) (now : Z) : llm_request :=
  mkLLMRequest "POST" "/v1/chat/completions" (header_Set "Authorization" ("Bearer " +:+ key) ∅) "hello"
    false now now now "0123456789" 0 [] (λ _, now).

Definition demo_debug (now : Z) : llm_request :=
  mkLLMRequest "GET" "/debug/rate-limits" ∅ "" false now now now "" 0 ["a"; "b"] (λ _, now).

Definition demo_requests : list llm_request :=
  [demo_chat "a" 1; demo_chat "b" 2; demo_chat "a" 3; demo_chat "a" 4; demo_debug 5;
   demo_chat "a" (2 * Minute)].

Lemma demo_chat_ok key now : request_ok (demo_chat key now).
Proof.
  split; [by simpl|]. split; [by simpl|]. intros req Hr. injection Hr as <-. vm_compute. split; congruence.
Qed.

Lemma demo_debug_ok now : request_ok (demo_debug now).
Proof. split; [by simpl|]. split; [by simpl|]. intros req Hr. discriminate Hr. Qed.

Lemma llm_api_rate_limit_witness :
  let answered : list (llm_request * option http_response) :=
    (llm_serve demo_requests (newRateLimiter 2 1000)).1 in
  (λ p : llm_request * option http_response, hp_StatusCode <$> p.2) <$> answered =
    [Some 200; Some 200; Some 200; Some 429; Some 200; Some 200] ∧
  Z.of_nat (length (admitted "a" 5 (omap (λ p, passed p.1 p.2) answered))) ≤ 2.
Proof.
  split; [by vm_compute|].
  refine (proj1 (llm_api_rate_limit 2 1000 demo_requests "a" 5 _ _)).
  - cbn. repeat constructor; unfold Minute, Second, Millisecond; lia.
  - unfold demo_requests. do 4 (constructor; [apply demo_chat_ok|]).
    constructor; [apply demo_debug_ok|]. by constructor; [apply demo_chat_ok|].
Defined.
