(* ===== verification/Worker.v ===== *)
(** * The worker ([cmd/worker/main.go])

    [CodingTaskWorkflow] run on the activities the worker registers, over a
    pool manager and a transport: what the pool is like afterwards, and the
    whole way of a task in mock mode. *)

From stdpp Require Import pretty.
From S2P Require Import Prelude Effects Cache Provider K8sProvider PoolManager PoolInv PoolSpec Schema Http OpencodeClient Workflow Activities ServeMux MockOpencode MockServer Demo.

(** ** The activities as an interpreter *)

Section worker.
Context {P : Type} `{SandboxProvider P} `{Runtime} `{JsonDecoder} `{SchemaLib}.
Context (final : list string → error → bool).
Context (check_url : string → option error) (do : transport) (acts : Activities).

(** One attempt of an activity. *)
Definition run_activity {X} (a : activity X) (w : world P) : option (result X * world P) :=
  match a in activity X return option (result X * world P) with
  | AllocateSandboxActivity u => run handle (allocate_activity acts u) w
  | CreateSessionActivity alloc => Some (session_activity check_url do alloc, w)
  | ExecutePromptActivity session prompt =>
      Some ((prompt_activity check_url do acts session prompt).1.1, w)
  | ValidateOutputActivity r s => Some (validate_activity r s, w)
  | ReleaseSandboxActivity n =>
      '(e, w') ← run handle (release_activity acts n) w;
      Some (match e with Some e => Err e | None => Ok tt end, w')
  end.

(** A failed attempt is retried as long as [more] attempts remain, if its
    error is not of a type that is not retried. *)
Fixpoint run_attempts {X} (types : list string) (more : nat) (a : activity X) (w : world P) :
    option (result X * world P) :=
  '(r, w') ← run_activity a w;
  match r, more with
  | Err e, S more => if final types e then Some (r, w') else run_attempts types more a w'
  | _, _ => Some (r, w')
  end.

(** Temporal with this worker, when every activity ends within its timeouts:
    retried on errors up to the policy's number of attempts.  Which errors
    are [final], given the policy's [NonRetryableErrorTypes], is an argument. *)
Definition worker_handle : handler workflowE (world P) := λ X e w,
  match e in workflowE X return option (X * world P) with
  | WNow => run handle (act ENow) w
  | WExec opts a =>
      run_attempts (NonRetryableErrorTypes (ao_RetryPolicy opts))
        (Z.to_nat (MaximumAttempts (ao_RetryPolicy opts)) - 1) a w
  end.

End worker.

Lemma run_attempts_ok {P} `{SandboxProvider P} `{Runtime} `{JsonDecoder} `{SchemaLib} final check_url do acts
    {X} types more (a : activity X) (w w' : world P) r :
  run_activity check_url do acts a w = Some (Ok r, w') →
  run_attempts final check_url do acts types more a w = Some (Ok r, w').
Proof. intros Hr. by destruct more; cbn; rewrite Hr. Qed.

(** A provider whose sandboxes have names. *)
Class NamedProvider (P : Type) `{SandboxProvider P} :=
  create_named s name fqdn s' : CreateSandbox s = (Ok (name, fqdn), s') → name ≠ "".

#[export] Instance mock_named : NamedProvider MockSandboxProvider.
Proof. by intros ? ? ? ? [= <- _]. Qed.

#[export] Instance k8s_named {S} `{K8sServer S} kp : @NamedProvider S (k8s_provider kp).
Proof.
  intros s name fqdn s'. cbn.
  destruct (k8s_answer Z UnixMilli s) as [ms s1].
  destruct (k8s_answer _ (ClaimCreate _ _) s1) as [[e|] s2]; [done|].
  rewrite exec_bind. destruct (exec (poll_until _ _ _) s2) as [[r|e] s3]; cbn.
  - by intros [= <- _ _].
  - by destruct (k8s_answer _ (ClaimDelete _ _) s3).
Qed.

(** ** Lemmas *)

Section lemmas.
Context {P : Type} `{SandboxProviderLaws P} `{!NamedProvider P} `{RuntimeLaws}.
Context `{JsonDecoder} `{SchemaLib}.
Context (final : list string → error → bool) (check_url : string → option error) (do : transport).
Context (p : PoolManager) (metrics : bool).
Implicit Types w : world P.

#[local] Abbreviation acts := (mkActivities (Some p) metrics).
#[local] Abbreviation exec := (run (worker_handle final check_url do acts)).
#[local] Abbreviation attempts := (run_attempts final check_url do acts).

(** The provider can refuse to delete [n]. *)
Definition deletion_refused (n : string) : Prop := ∃ s : P, is_Some (DeleteSandbox n s).1.

Lemma Release_refused n w e w' : run handle (Release p n) w = Some (Some e, w') →
  cache_wf (w_heap w) (w_cache w) → deletion_refused n.
Proof.
  unfold Release. cbn. intros Hr Hwf. destruct (Get (w_cache w) n) as [l|] eqn:Hl; cbn in Hr; [|done].
  destruct (wf_name _ _ Hwf n l Hl) as (a & Ha & Hn). rewrite (deref_Some _ _ _ Ha), Hn in Hr.
  exists (w_prov w). destruct (DeleteSandbox n (w_prov w)) as [[e'|] s]; cbn in Hr; [eauto|].
  by destruct (hasMetrics p).
Qed.

(** One release, and several attempts. *)
Lemma release_once n w : pool_inv p w → ∃ r w', run handle (Release p n) w = Some (r, w') ∧
  pool_inv p w' ∧
  match r with
  | None => pool_view w' = delete n (pool_view w)
  | Some _ => deletion_refused n ∧
      ∃ a, pool_view w !! n = Some a ∧ pool_view w' = <[n := releasing a]> (pool_view w)
  end.
Proof.
  intros Hinv. destruct (Release_meets p n w Hinv) as (r & w' & Hr & Hinv' & Hs & _).
  exists r, w'. split_and!; [done..|]. destruct r as [e|].
  - apply Release_refused in Hr; [|apply Hinv]. split; [done|].
    inversion Hs; simplify_eq/=; eauto.
  - inversion Hs; simplify_eq/=; [by rewrite delete_id|done].
Qed.

Lemma release_attempts types more n w : pool_inv p w →
  ∃ r w', attempts types more (ReleaseSandboxActivity n) w = Some (r, w') ∧ pool_inv p w' ∧
    (pool_view w' = delete n (pool_view w) ∨
     deletion_refused n ∧
       ∃ a, pool_view w !! n = Some a ∧ pool_view w' = <[n := releasing a]> (pool_view w)).
Proof.
  revert w. induction more as [|more IH]; intros w Hinv;
    destruct (release_once n w Hinv) as (r & w1 & Hr & Hinv1 & Hv);
    cbn [run_attempts run_activity release_activity act_Pool]; rewrite Hr; cbn;
    destruct r as [e|]; eauto 10.
  destruct (final types e); [eauto 10|].
  destruct (IH w1 Hinv1) as (r & w2 & -> & Hinv2 & Hv2). exists r, w2. split_and!; [done..|].
  destruct Hv as (Href & a & Ha & Hv1). rewrite Hv1 in Hv2.
  destruct Hv2 as [->|(_ & a' & Ha' & ->)]; [left; by rewrite delete_insert_eq|right].
  rewrite lookup_insert_eq in Ha'. injection Ha' as <-. split; [done|]. exists a.
  by rewrite insert_insert_eq.
Qed.

(** What an allocation does to the pool: a sandbox that was not in it, or
    was idle, becomes the caller's. *)
Definition took (w w' : world P) (n : string) : Prop :=
  n ≠ "" ∧ (pool_view w !! n = None ∨ ∃ b, pool_view w !! n = Some b ∧ Status b = StatusIdle) ∧
  ∃ a, SandboxName a = n ∧ pool_view w' = <[n := a]> (pool_view w).

Lemma view_name n b w : pool_inv p w → pool_view w !! n = Some b → SandboxName b = n.
Proof.
  intros Hinv (l & Hl & Hb)%view_Some; [|apply Hinv].
  destruct (wf_name _ _ (pw_cache _ (pi_wf _ _ Hinv)) _ _ Hl) as (b' & Hb' & <-). congruence.
Qed.

(** An allocation that finds no idle sandbox asks the provider. *)
Lemma Allocate_creates u w r w' : pool_inv p w → no_idle (pool_view w) →
  run handle (Allocate p u) w = Some (r, w') →
  match r with
  | Ok l => ∃ s', CreateSandbox (w_prov w) =
      (Ok (SandboxName (deref (w_heap w') l), ServiceFQDN (deref (w_heap w') l)), s')
  | Err e => maxSize p ≤ Len (w_cache w) ∨ ∃ s', CreateSandbox (w_prov w) = (Err e, s')
  end.
Proof.
  intros Hinv Hno. pose proof (pi_wf _ _ Hinv) as Hwf.
  apply no_idle_list in Hno; [|done]. unfold Allocate. rewrite run_bind.
  rewrite run_claimIdle_none by (done || apply Hinv). cbn.
  case_bool_decide as Hmax; cbn; [intros [= <- _]; by left|].
  destruct (CreateSandbox (w_prov w)) as [[[name fqdn]|e] s'] eqn:Hc; cbn.
  - assert (Hd : ∀ h a, deref (<[w_next w := a]> h) (w_next w) = a).
    { intros h a. apply deref_Some, lookup_insert_eq. }
    destruct (hasMetrics p); cbn; intros [= <- <-]; cbn; rewrite Hd; by exists s'.
  - intros [= <- _]. right. by exists s'.
Qed.

(** The allocation activity, one attempt and several. *)
Definition allocated_or_same (w : world P) (out : result SandboxAllocation * world P) : Prop :=
  pool_inv p out.2 ∧
  match out.1 with
  | Ok sa => took w out.2 (sa_SandboxName sa)
  | Err _ => pool_view out.2 = pool_view w
  end.

Lemma allocate_takes u w : pool_inv p w → pool_view w !! "" = None →
  ∃ out, run handle (allocate_activity acts u) w = Some out ∧ allocated_or_same w out.
Proof.
  intros Hinv Hne. destruct (Allocate_meets p u w Hinv) as (r & w' & Hr & Hinv' & Hs).
  pose proof (Allocate_creates u w r w' Hinv) as Hc.
  unfold allocate_activity. cbn [act_Pool]. rewrite run_bind, Hr.
  destruct r as [l|e]; (eexists (_, w'); split; [done|split; [done|]]); simpl in *.
  2: { by inversion Hs. }
  remember (pool_view w') as m'. remember (deref (w_heap w') l) as a'.
  inversion Hs as [? ? n b sid now Hn Hst _ Ha|? ? n fqdn sid now Hno _ Hn _ ? Ha| | | | | | | | | | |];
    clear Heqa'; subst; unfold took; simpl.
  - assert (Hb : SandboxName b = n) by by apply (view_name n b w).
    rewrite Hb. split_and!; [congruence|by right; eauto|by exists (claimed u sid now b)].
  - destruct (Hc Hno Hr) as [s' Hs']. apply create_named in Hs'.
    split_and!; [done|by left|by exists (mkAllocation n fqdn sid u now now StatusActive)].
Qed.


(** The activities that leave the pool alone. *)
Definition answers_with {X} (a : activity X) (r : result X) : Prop :=
  ∀ w, run_activity check_url do acts a w = Some (r, w).

Lemma attempts_answer {X} types more (a : activity X) r w : answers_with a r →
  attempts types more a w = Some (r, w).
Proof.
  intros Ha. by induction more as [|more IH]; cbn; rewrite Ha; cbn; destruct r as [|e];
    try destruct (final types e).
Qed.

Lemma exec_answer {X B} opts (a : activity X) r (k : result X → prog workflowE B) w :
  answers_with a r → exec (act (WExec opts a) ≫= k) w = exec (k r) w.
Proof. intros Ha. rewrite run_act_bind. cbn. by rewrite (attempts_answer _ _ a r w Ha). Qed.


Lemma tick_env w : env_step w (tick w).
Proof. split; cbn; try done; lia. Qed.


(** The taken sandbox [n] afterwards: gone, or left [releasing] because the
    provider refused its deletion. *)
Definition given_back (n : string) (m m' : gmap string Allocation) : Prop :=
  m' = delete n m ∨ deletion_refused n ∧ ∃ a, m' = <[n := releasing a]> m.

(** The rest of the workflow once the sandbox is known. *)
Lemma exec_after_allocation start input alloc w1 w : pool_inv p w1 → took w w1 (sa_SandboxName alloc) →
  ∀ out w2, exec (workflow_body start input alloc) w1 = Some (out, w2) → env_step w1 w2 →
  ∃ w', exec (out ← workflow_body start input alloc;
      (if String.eqb (sa_SandboxName alloc) "" then mret tt
       else act (WExec releaseOptions (ReleaseSandboxActivity (sa_SandboxName alloc)));; mret tt);;
      mret out) w1 = Some (out, w') ∧
    pool_inv p w' ∧ given_back (sa_SandboxName alloc) (pool_view w) (pool_view w').
Proof.
  intros Hinv (Hn & _ & a & _ & Hview) out w2 Hrun He. rewrite run_bind, Hrun, run_bind.
  apply String.eqb_neq in Hn. rewrite Hn. rewrite run_act_bind. cbn [worker_handle].
  set (more := (Z.to_nat _ - 1)%nat).
  destruct (release_attempts (NonRetryableErrorTypes (ao_RetryPolicy releaseOptions)) more (sa_SandboxName alloc) w2) as (r & w' & -> & Hinv' & Hv).
  { by eapply pool_inv_env. }
  exists w'. split_and!; [done..|]. rewrite (pool_view_env w1 w2), Hview in Hv by done.
  destruct Hv as [->|(? & b & _ & ->)]; [left; by rewrite delete_insert_eq|right].
  split; [done|]. exists b. by rewrite insert_insert_eq.
Qed.


(** An allocation that cannot fail, and the address it gives. *)
Lemma allocate_succeeds u w fqdn : pool_inv p w → pool_view w !! "" = None →
  Z.of_nat (size (pool_view w)) < maxSize p →
  (∀ m b, pool_view w !! m = Some b → Status b = StatusIdle → ServiceFQDN b = fqdn) →
  (∃ name s', CreateSandbox (w_prov w) = (Ok (name, fqdn), s')) →
  ∃ sa w1, run handle (allocate_activity acts u) w = Some (Ok sa, w1) ∧ sa_ServiceFQDN sa = fqdn.
Proof.
  intros Hinv Hne Hroom Hidle (name & s' & Hcreate).
  destruct (Allocate_meets p u w Hinv) as (r & w' & Hr & Hinv' & Hs).
  pose proof (Allocate_creates u w r w' Hinv) as Hc. rewrite Hcreate in Hc.
  unfold allocate_activity. cbn [act_Pool]. rewrite run_bind, Hr.
  destruct r as [l|e]; simpl in *.
  - eexists _, w'. split; [done|]. simpl. remember (deref (w_heap w') l) as a eqn:Ha0.
    remember (pool_view w') as m'. clear Ha0.
    inversion Hs as [? ? m b sid now Hm Hst|? ? m f sid now Hno| | | | | | | | | | |]; subst.
    + simpl. by eapply Hidle.
    + destruct (Hc Hno Hr) as [? [= _ <-]]. done.
  - inversion Hs; subst; [lia|]. destruct Hc as [Hc|[? Hc]]; [done|done| |done].
    rewrite <- size_view in Hc. lia.
Qed.

End lemmas.

(** ** Properties *)


(** C15: a task without an output schema in mock mode, from end to end:
    workflow, activities, pool, client and the mock server together.  With a
    free slot and a prompt whose output is cut into chunks of valid text, the
    task succeeds under the session the server made, its result is the output
    the server derives from the prompt, and its tokens are those the server
    counted. *)
Theorem mock_task_end_to_end `{RuntimeLaws} `{MockEncoderLaws text} `{MockServerEnv}
    `{!MockServerLaws text} `{SchemaLib} final check_url host n p metrics input
    (w : world MockSandboxProvider) :
  (∀ url, check_url url = None) → url_segment host → url_segment (uuid_NewString n) →
  pool_inv p w → pool_view w !! "" = None → Z.of_nat (size (pool_view w)) < maxSize p →
  targetFQDN (w_prov w) = host →
  (∀ m b, pool_view w !! m = Some b → Status b = StatusIdle → ServiceFQDN b = host) →
  text (ti_Prompt input) → text "" → ti_OutputSchema input = "" →
  let output := mock_output (ti_Prompt input) in
  Forall text (chunks_from (String.length output) output 0) → body_length output < 2 ^ 53 →
  ∃ duration w', run (worker_handle final check_url (mock_transport host n) (mkActivities (Some p) metrics))
      (CodingTaskWorkflow input) w =
    Some ((mkTaskOutput (uuid_NewString n) output duration (body_length output / 4), None), w').
Proof.
  intros Hurl Hhost Hid Hinv Hne Hroom Htgt Hidle Htext Hempty Hsch output Hch Hlen.
  assert (Hinv0 : pool_inv p (tick w)) by (eapply pool_inv_env, Hinv; apply tick_env).
  destruct (allocate_takes p metrics (ti_UserID input) (tick w) Hinv0 Hne) as ([r w1] & Hr & Hi1 & Htook).
  destruct (allocate_succeeds p metrics (ti_UserID input) (tick w) host Hinv0 Hne Hroom Hidle)
    as (sa & w1' & Hr' & Hf).
  { eexists _, _. cbn. unfold mock_CreateSandbox. by rewrite Htgt. }
  rewrite Hr' in Hr. injection Hr as <- <-. cbn in Hi1, Htook.
  pose proof (session_mock check_url host n Hurl Hhost sa Hf) as Hsess.
  set (session := mkSessionInfo (uuid_NewString n) (sa_SandboxName sa) host) in Hsess.
  destruct (prompt_mock check_url host n Hurl Hhost (mkActivities (Some p) metrics) session
    (ti_Prompt input) eq_refl Hid Htext Hempty Hch Hlen) as [progress Hprompt].
  unfold CodingTaskWorkflow. rewrite run_act_bind. cbn [worker_handle].
  rewrite (run_act handle ENow). cbn [handle]. set (start := env_now _).
  rewrite run_act_bind. cbn [worker_handle].
  rewrite (run_attempts_ok _ _ _ _ _ _ (AllocateSandboxActivity _) _ _ _ Hr').
  edestruct (exec_after_allocation final check_url (mock_transport host n) p metrics start input sa w1' (tick w) Hi1 Htook)
    as (w' & -> & _ & _).
  - unfold workflow_body. erewrite exec_answer by done. rewrite Hsess.
    erewrite exec_answer by done. rewrite Hprompt. cbn [fst]. rewrite Hsch. reflexivity.
  - apply tick_env.
  - by eexists _, w'.
Qed.

(** ** Witnesses *)

#[local] Existing Instances demo_runtime demo_schema_lib MockOpencode.demo_encoder
  MockOpencode.demo_decoder MockOpencode.demo_encoder_laws demo_server_env demo_server_laws.

(** A task for the mock, without a schema. *)
Definition demo_task : TaskInput := mkTaskInput "bob" "OUTPUT:package main" "" 0.

(** The sandbox of [demo_warm]. *)
Definition demo_warm_alloc : Allocation := deref (w_heap demo_warm) 1%positive.

Lemma demo_warm_view : pool_view demo_warm = {["mock-sandbox-1" := demo_warm_alloc]}.
Proof. vm_compute. reflexivity. Qed.

Lemma demo_warm_unnamed : pool_view demo_warm !! "" = None.
Proof. by rewrite demo_warm_view. Qed.


Lemma mock_task_end_to_end_witness :
  ∃ duration w', run (worker_handle (λ _ _, false) (λ _, None) (mock_transport "sandbox:4096" 2)
      (mkActivities (Some demo_pool) true)) (CodingTaskWorkflow demo_task) demo_warm =
    Some ((mkTaskOutput "session-1" "package main" duration 3, None), w').
Proof.
  change (mkTaskOutput "session-1" "package main") with
    (mkTaskOutput (uuid_NewString 2) (mock_output (ti_Prompt demo_task))).
  change 3 with (body_length (mock_output (ti_Prompt demo_task)) / 4).
  apply (mock_task_end_to_end (text := demo_text) (λ _ _, false) (λ _, None) "sandbox:4096" 2 demo_pool true
    demo_task demo_warm).
  - reflexivity.
  - repeat split; try done; by repeat constructor.
  - repeat split; try done; by repeat constructor.
  - apply demo_warm_inv.
  - apply demo_warm_unnamed.
  - rewrite demo_warm_view, map_size_singleton. reflexivity.
  - vm_compute. reflexivity.
  - intros m b Hb _. rewrite demo_warm_view in Hb. apply lookup_singleton_Some in Hb as [_ <-].
    vm_compute. reflexivity.
  - by repeat constructor.
  - by constructor.
  - reflexivity.
  - vm_compute. repeat constructor; discriminate.
  - reflexivity.
Defined.
