(* ===== verification/K8sPool.v ===== *)
(** * The pool over Kubernetes

    The pool manager of [PoolManager] with the provider of [K8sProvider]: the
    pool's theorems apply to it through the interface, whoever else deletes
    claims.  But another party that deletes a claim of the pool (the cleanup
    of [Controller], or a user) takes a slot of the pool for good. *)

From stdpp Require Import pretty.
From S2P Require Import Prelude Effects Cache Provider PoolManager PoolInv PoolSpec PoolConc Demo PoolThms K8sProvider.

(** A server that reports the deletion of a claim that is not there. *)
Class K8sNotFound (S : Type) `{K8sServerLaws S ns} := {
  delete_absent s name r s' :
    k8s_answer _ (ClaimDelete ns name) s = (r, s') → name ∉ claims s →
    is_Some r ∧ name ∉ claims s';
}.

Lemma set_prov_wf {P} `{SandboxProviderLaws P} `{Runtime} p (w : world P) prov : pool_inv p w →
  cache_wf (w_heap (set_prov prov w)) (w_cache (set_prov prov w)).
Proof. intros Hinv. exact (pw_cache _ (pi_wf _ _ Hinv)). Qed.

Section pool.
Context {S : Type} `{K8sNotFound S ns} `{Runtime}.
Context (p : PoolManager) (kp : K8sSandboxProvider).
#[local] Instance the_provider : SandboxProvider S := k8s_provider kp.

(** Releasing a sandbox whose claim is gone. *)
Lemma Release_lost w n a : kp_namespace kp = ns →
  cache_wf (w_heap w) (w_cache w) → pool_view w !! n = Some a → n ∉ claims (w_prov w) →
  ∃ e w', run_op p (OpRelease n) w = Some (RetErr (Some e), w') ∧
    cache_wf (w_heap w') (w_cache w') ∧ w_cache w' = w_cache w ∧
    pool_view w' !! n = Some (releasing a) ∧ n ∉ claims (w_prov w').
Proof.
  intros Hns Hwf Hv Hn. unfold pool_view in Hv. apply view_Some in Hv as (l & Hl & Ha); [|done].
  destruct (wf_name _ _ Hwf n l Hl) as (a' & Ha' & Hname). simplify_eq.
  simpl. rewrite Hl. simpl. rewrite (deref_Some _ _ _ Ha).
  change (@DeleteSandbox S the_provider) with (λ name, exec (k8s_DeleteSandbox kp name)). cbn.
  destruct (k8s_answer _ (ClaimDelete (kp_namespace kp) (SandboxName a)) (w_prov w)) as [r s'] eqn:Hd.
  destruct (delete_absent _ _ _ _ Hd Hn) as [[e ->] Hn']. cbn.
  eexists _, _. split; [done|]. cbn. split_and!; [|done| |done].
  - by eapply cache_wf_write.
  - unfold pool_view. cbn. rewrite (view_write _ _ _ a) by done.
    rewrite bool_decide_true by done. by rewrite lookup_insert_eq.
Qed.

Lemma releases_lost k w n a : kp_namespace kp = ns →
  cache_wf (w_heap w) (w_cache w) → pool_view w !! n = Some a → n ∉ claims (w_prov w) →
  ∃ rs w', run_ops p (replicate k (OpRelease n)) w = Some (rs, w') ∧ length rs = k ∧
    Forall (λ r, ∃ e, r = RetErr (Some e)) rs ∧ w_cache w' = w_cache w ∧
    (∃ a', pool_view w' !! n = Some a' ∧ ((0 < k)%nat → a' = releasing a) ∧
       releasing a' = releasing a).
Proof.
  intros Hns. revert w a. induction k as [|k IH]; intros w a Hwf Hv Hn; simpl replicate.
  { exists [], w. split_and!; [done..|]. exists a. split_and!; [done|lia|done]. }
  destruct (Release_lost w n a Hns Hwf Hv Hn) as (e & w1 & Hr1 & Hwf1 & Hc1 & Hv1 & Hn1).
  destruct (IH w1 (releasing a) Hwf1 Hv1 Hn1) as (rs & w' & Hr & Hl & Hf & Hc & a' & Hv' & Hk & Hre).
  exists (RetErr (Some e) :: rs), w'. cbn [run_ops]. rewrite Hr1. cbn. rewrite Hr. cbn.
  split_and!; [done|by f_equal|constructor; eauto|congruence|].
  exists a'. split_and!; [done| |exact Hre]. change ((0 < Datatypes.S k)%nat → a' = releasing a). intros _. destruct k as [|k]; [|by rewrite Hk by lia].
  cbn in Hr. injection Hr as _ <-. congruence.
Qed.

(** C39: a slot whose claim somebody else deleted is lost: however often
    its release is retried, every attempt fails with the server's answer that
    there is no such claim, and the allocation stays in the cache, releasing,
    so the pool's size does not go down. *)
Theorem lost_claim_never_released k w n a :
  kp_namespace kp = ns → cache_wf (w_heap w) (w_cache w) → pool_view w !! n = Some a →
  n ∉ claims (w_prov w) → (0 < k)%nat →
  ∃ rs w', run_ops p (replicate k (OpRelease n)) w = Some (rs, w') ∧ length rs = k ∧
    Forall (λ r, ∃ e, r = RetErr (Some e)) rs ∧
    pool_view w' !! n = Some (releasing a) ∧ Len (w_cache w') = Len (w_cache w).
Proof.
  intros Hns Hwf Hv Hn Hk.
  destruct (releases_lost k w n a Hns Hwf Hv Hn) as (rs & w' & Hr & Hl & Hf & Hc & a' & Hv' & Ha & _).
  exists rs, w'. split_and!; [done..| |by rewrite Hc]. by rewrite Hv', Ha.
Qed.

End pool.

(** ** Witnesses *)

#[local] Existing Instance demo_runtime.
#[local] Instance demo_k8s_provider : SandboxProvider demo_cluster := k8s_provider demo_k8s.

#[local] Instance demo_not_found : @K8sNotFound demo_cluster demo_server "default" demo_server_laws.
Proof.
  split. intros [t g] name r s' Hd Hn. unfold k8s_answer, demo_server in Hd. simpl in *.
  rewrite decide_False in Hd by done. injection Hd as <- <-. by split.
Qed.

(** One sandbox allocated on the cluster. *)
Definition demo_k8s_active : world demo_cluster :=
  world_after demo_pool [OpAllocate "alice"] (init_world (4, ∅)).

Definition demo_k8s_alloc : Allocation := deref (w_heap demo_k8s_active) 1%positive.

(** The same world after its claim was deleted behind the pool's back. *)
Definition demo_k8s_lost : world demo_cluster := set_prov (6, ∅) demo_k8s_active.

Lemma demo_k8s_active_inv : @pool_inv _ demo_k8s_provider (k8s_provider_laws demo_k8s) _ demo_pool demo_k8s_active.
Proof. apply world_after_inv. by apply pool_inv_init. Qed.

Lemma demo_k8s_lost_wf : cache_wf (w_heap demo_k8s_lost) (w_cache demo_k8s_lost).
Proof. exact (set_prov_wf demo_pool demo_k8s_active (6, ∅) demo_k8s_active_inv). Qed.

Lemma lost_claim_never_released_witness :
  pool_view demo_k8s_active !! "oc-5" = Some demo_k8s_alloc ∧
  ∃ rs w', run_ops demo_pool (replicate 3 (OpRelease "oc-5")) demo_k8s_lost = Some (rs, w') ∧
    length rs = 3%nat ∧ Forall (λ r, ∃ e, r = RetErr (Some e)) rs ∧
    pool_view w' !! "oc-5" = Some (releasing demo_k8s_alloc) ∧
    Len (w_cache w') = Len (w_cache demo_k8s_lost).
Proof.
  split; [vm_compute; reflexivity|].
  apply (lost_claim_never_released (ns := "default") demo_pool demo_k8s 3 demo_k8s_lost "oc-5"
    demo_k8s_alloc); [reflexivity|exact demo_k8s_lost_wf|vm_compute; reflexivity| |lia].
  vm_compute. discriminate.
Defined.

(** ** A collection during an assignment *)

(** One warm sandbox on the cluster, idle for a while. *)
Definition demo_k8s_warm : world demo_cluster :=
  world_after demo_pool (OpAllocateWarm :: replicate 5 (OpRunGC 100)) (init_world (4, ∅)).

(** The collection lists the cache; [Allocate] picks the idle sandbox and
    marks it active; the collection runs to its end; [Allocate] goes on. *)
Definition stale_sched : list nat :=
  [1; 1]%nat ++ replicate 3 0%nat ++ replicate 20 1%nat ++ replicate 20 0%nat.

Definition stale_end : world demo_cluster * list (prog poolE (option loc)) :=
  run_turns handle stale_sched (demo_k8s_warm, client demo_pool <$> [OpAllocate "alice"; OpRunGC 5]).

(** The read that gives the session its id. *)
Definition stale_session : nat := 14.

#[local] Abbreviation k8s_inv :=
  (@pool_inv _ demo_k8s_provider (k8s_provider_laws demo_k8s) demo_runtime demo_pool).

Lemma stale_reachable :
  rtc (cstep handle) (demo_k8s_warm, client demo_pool <$> [OpAllocate "alice"; OpRunGC 5])
    (stale_end.1, stale_end.2).
Proof. rewrite <- surjective_pairing. apply run_turns_sound. Qed.

(** A world of one allocation, in use under a session. *)
Lemma pool_inv_single {P} `{SandboxProviderLaws P} `{Runtime} p (w : world P) l a k :
  w_heap w = {[l := a]} → byName (w_cache w) = {[SandboxName a := l]} →
  bySession (w_cache w) = {[SessionID a := l]} → SessionID a = env_uuid k → env_uuid k ≠ "" →
  Status a ≠ StatusIdle → (k < w_tick w)%nat → (l < w_next w)%positive →
  SandboxName a ∈ live (w_prov w) → w_mu w = false → 1 ≤ maxSize p → pool_inv p w.
Proof.
  intros Hh Hn Hs Hsid Hne Hst Hk Hl Hlive Hmu Hmax.
  split; [|done|by unfold Len; rewrite Hn, map_size_singleton].
  split; [split| | | |]; rewrite ?Hh, ?Hn, ?Hs.
  - intros n l' [<- <-]%lookup_singleton_Some. exists a. by rewrite lookup_singleton_eq.
  - intros s l' [<- <-]%lookup_singleton_Some. split; [congruence|]. exists a.
    by rewrite !lookup_singleton_eq.
  - intros n l' a' [<- <-]%lookup_singleton_Some [_ <-]%lookup_singleton_Some _.
    by rewrite lookup_singleton_eq.
  - by intros l' a' [<- <-]%lookup_singleton_Some.
  - by intros l' a' [<- <-]%lookup_singleton_Some.
  - intros l' a' [<- <-]%lookup_singleton_Some _. eauto.
  - rewrite dom_singleton. set_solver.
Qed.

Lemma stale_end_inv : k8s_inv stale_end.1.
Proof.
  apply (pool_inv_single demo_pool _ 1%positive (deref (w_heap stale_end.1) 1%positive) stale_session).
  1, 2, 3, 4: vm_compute; reflexivity.
  1, 2: vm_compute; discriminate.
  1, 2: vm_compute; repeat constructor.
  2: vm_compute; reflexivity.
  - apply (bool_decide_unpack _). vm_compute. exact I.
  - vm_compute. discriminate.
Qed.

Lemma stale_stays ops :
  OpRelease (SandboxName (deref (w_heap stale_end.1) 1%positive)) ∉ ops →
  ∃ rs w' a', run_ops demo_pool ops stale_end.1 = Some (rs, w') ∧
    pool_view w' !! SandboxName (deref (w_heap stale_end.1) 1%positive) = Some a' ∧
    Status a' = StatusReleasing.
Proof.
  intros Hnin.
  destruct (run_ops_releasing demo_pool _ ops stale_end.1
    (deref (w_heap stale_end.1) 1%positive) stale_end_inv Hnin) as (rs & w' & a' & ? & _ & ? & ?).
  - vm_compute. reflexivity.
  - vm_compute. reflexivity.
  - by exists rs, w', a'.
Qed.

(** C38: there is a schedule in which a collection deletes a sandbox that is
    being assigned: [claimIdle] marks a warm sandbox active before it updates
    the time of its last activity, and [RunGC] takes no lock.  A collection
    between the two deletes the sandbox although its user's idle time is
    within the timeout; the user is still handed it under a new session, its
    entry is put back into the cache as releasing, and there it stays under
    every later sequence of calls, collections included, that does not
    release it by name. *)
Theorem collection_during_assignment :
  ∃ w ts l, rtc (cstep handle)
      (demo_k8s_warm, client demo_pool <$> [OpAllocate "alice"; OpRunGC 5]) (w, ts) ∧
    ts = [Ret (Some l); Ret None] ∧
    let a := deref (w_heap w) l in
    UserID a = "alice" ∧ SessionID a ≠ "" ∧ env_now (w_tick w) - 5 ≤ LastActivity a ∧
    SandboxName a ∈ claims (w_prov demo_k8s_warm) ∧ SandboxName a ∉ claims (w_prov w) ∧
    Get (w_cache w) (SandboxName a) = Some l ∧ Status a = StatusReleasing ∧
    ∀ ops, OpRelease (SandboxName a) ∉ ops →
      ∃ rs w' a', run_ops demo_pool ops w = Some (rs, w') ∧
        pool_view w' !! SandboxName a = Some a' ∧ Status a' = StatusReleasing.
Proof.
  exists stale_end.1, stale_end.2, 1%positive. split; [exact stale_reachable|].
  split; [vm_compute; reflexivity|]. cbn zeta. split_and!.
  - vm_compute. reflexivity.
  - vm_compute. discriminate.
  - vm_compute. discriminate.
  - apply (bool_decide_unpack _). vm_compute. exact I.
  - apply (bool_decide_unpack _). vm_compute. exact I.
  - vm_compute. reflexivity.
  - vm_compute. reflexivity.
  - apply stale_stays.
Qed.
