(* ===== verification/Main.v ===== *)
(** * The binaries ([cmd/router/main.go], [cmd/worker/main.go], [cmd/controller/main.go])

    How the configuration becomes a pool, its loops and an extractor, the
    [http.ServeMux] with the task API, the proxy and [/health], and the
    middleware around it. *)

From Stdlib Require Import Ascii String.
From S2P Require Import Prelude Strconv Effects Cache Provider PoolManager PoolInv PoolSpec Http Middleware WaitQueue OpencodeClient Workflow Activities Tasks ServeMux Router K8sProvider Config Controller Demo.

(** ** Start-up *)

(** The manager [NewPoolManager] makes of a configuration. *)
Definition main_pool (cfg : Config) : PoolManager :=
  mkPoolManager (cfg_MaxSize (cfg_Pool cfg)) (cfg_Namespace (cfg_Pool cfg)) true.

Definition main_extractor (cfg : Config) : SessionExtractor :=
  mkExtractor (SessionHeader (cfg_Router cfg)) (SessionCookie (cfg_Router cfg))
    (SessionQuery (cfg_Router cfg)).

(** The goroutine of the collector, and the one of the warm pool, which is
    started in [k8s] mode only. *)
Definition main_gc_loop (cfg : Config) (events : list loop_event) : prog poolE loop_outcome :=
  StartGCLoop (main_pool cfg) (GCInterval (cfg_Pool cfg)) (IdleTimeout (cfg_Pool cfg)) events.

Definition main_warm_loop (cfg : Config) (events : list loop_event) :
    option (prog poolE loop_outcome) :=
  if String.eqb (Mode (cfg_Pool cfg)) "k8s" && (0 <? MinReady (cfg_Pool cfg))
  then Some (StartWarmPool (main_pool cfg) (MinReady (cfg_Pool cfg)) (GCInterval (cfg_Pool cfg)) events)
  else None.

(** The provider of both the router and the worker. *)
Definition main_provider (cfg : Config) : K8sSandboxProvider + MockSandboxProvider :=
  if String.eqb (Mode (cfg_Pool cfg)) "k8s"
  then inl (NewK8sSandboxProvider (cfg_Namespace (cfg_Pool cfg)) (WarmPoolName (cfg_Pool cfg)) 4096)
  else inr (NewMockSandboxProvider (MockTarget (cfg_Pool cfg))).

(** What the worker registers ([cmd/worker/main.go]): activities over a
    manager of its own. *)
Definition worker_activities (cfg : Config) : Activities := mkActivities (Some (main_pool cfg)) true.

(** The reconciler the controller starts ([cmd/controller/main.go]). *)
Definition controller_reconciler (cfg : Config) : SandboxReconciler :=
  NewSandboxReconciler (cfg_Namespace (cfg_Pool cfg)) [WithGCTimeout (IdleTimeout (cfg_Pool cfg))].

(** It has no metrics: no event of a claim is ever counted. *)
Lemma controller_counts_nothing cfg ev tr :
  runs (handle_event (controller_reconciler cfg) ev) tr tt → tr = [].
Proof. by destruct ev as [[]|? []|]; intros [-> _]. Qed.

(** ** [http.ServeMux] *)

Inductive route := RouteTasks | RouteProxy | RouteHealth | RouteNotFound | RouteRedirect (to : string).

(** Which of the registered patterns a path matches: [/api/v1/tasks] and
    [/api/v1/tasks/] (with a Temporal client), [/api/v1/], [/health]; the
    longest wins.  A path without the trailing slash of a pattern that
    matches exactly with it, and then a path that is not clean, are
    redirected. *)
Definition mux_route (tc : bool) (p : string) : route :=
  let path := cleanPath p in
  if String.eqb path "/api/v1" then RouteRedirect "/api/v1/"
  else if negb (String.eqb path p) then RouteRedirect path
  else if tc && (String.eqb path "/api/v1/tasks" || HasPrefix path "/api/v1/tasks/") then RouteTasks
  else if HasPrefix path "/api/v1/" then RouteProxy
  else if String.eqb path "/health" then RouteHealth
  else RouteNotFound.

(** The server's reply to a path it redirects. *)
Class MuxRedirect := redirect : Request → string → ResponseWriter → ResponseWriter.

(** ** The handler *)

Section main.
Context {P : Type} `{SandboxProvider P} `{Runtime} `{Backend} `{TaskEnv} `{MuxRedirect}.
Context (cfg : Config) (tc : bool).

(** What the handlers work on: the router's state and the calls made to
    Temporal so far. *)
Definition main_state : Type := router_state P * nat.

(** The [/health] handler; its utilization is a fraction. *)
Definition health_handler : handler_fn main_state := λ req w '(s, n),
  match run handle (Stats (main_pool cfg)) (rs_world s) with
  | None => (w, (s, n))
  | Some (stats, wd) =>
      let utilization := if 0 <? MaxSize stats then (Allocated stats, MaxSize stats) else (0, 1) in
      let resp := mkHealthResponse "ok" "0.1.0" utilization (Allocated stats) (MaxSize stats) 0 in
      (Write (CHealth resp) (w_Header_Set "Content-Type" "application/json" w),
       (mkRouterState wd (rs_queue s) (rs_proxy s), n))
  end.

(** [ticks] is the number of ticks of a task stream, and [wait] what a queued
    request sees. *)
Definition mux_handler (ticks : nat) (wait : sse_wait) : handler_fn main_state :=
  λ req w '(s, n),
  match mux_route tc (URL_Path req) with
  | RouteTasks =>
      let '(w, n) := task_ServeHTTP (TaskQueue (cfg_Temporal cfg)) ticks req w n in (w, (s, n))
  | RouteProxy =>
      let '(w, s) := ServeHTTP (main_pool cfg) (main_extractor cfg) wait req w s in (w, (s, n))
  | RouteHealth => health_handler req w (s, n)
  | RouteNotFound => (http_Error "404 page not found" 404 w, (s, n))
  | RouteRedirect path => (redirect req path w, (s, n))
  end.

(** The handler of the server: the mux in the body limit, the key check and
    the audit log. *)
Definition main_handler (ticks : nat) (wait : sse_wait) :
    handler_fn (list audit_entry * main_state) :=
  let handler := mux_handler ticks wait in
  let handler := MaxBodySize (MaxBodyBytes (cfg_Router cfg)) handler in
  let handler := APIKeyAuth (APIKeys (cfg_Router cfg)) handler in
  AuditLog handler.

(** ** Lemmas *)

(** The request as the mux gets it. *)
Definition limited (r : Request) : Request :=
  if MaxBodyBytes (cfg_Router cfg) <=? 0 then r
  else match req_Body r with
       | Some b => with_Body (Some (MaxBytesReader b (MaxBodyBytes (cfg_Router cfg)))) r
       | None => r
       end.

Lemma limited_same r : URL_Path (limited r) = URL_Path r ∧ req_Method (limited r) = req_Method r ∧
  req_Header (limited r) = req_Header r.
Proof. unfold limited. by repeat case_match. Qed.

Lemma MaxBodySize_limited ticks wait r w s :
  MaxBodySize (MaxBodyBytes (cfg_Router cfg)) (mux_handler ticks wait) r w s =
    mux_handler ticks wait (limited r) w s.
Proof. unfold MaxBodySize, limited. by case_match. Qed.

(** A request whose key is accepted, or needs none. *)
Definition authorised (r : Request) : Prop :=
  APIKeys (cfg_Router cfg) = [] ∨ URL_Path r = "/health" ∨
  extractAPIKey r ≠ "" ∧ extractAPIKey r ∈ APIKeys (cfg_Router cfg).

Lemma authorised_passes ticks wait r w s : authorised r →
  APIKeyAuth (APIKeys (cfg_Router cfg))
    (MaxBodySize (MaxBodyBytes (cfg_Router cfg)) (mux_handler ticks wait)) r w s =
  mux_handler ticks wait (limited r) w s.
Proof.
  rewrite <- MaxBodySize_limited. unfold authorised. destruct (APIKeys (cfg_Router cfg)) as [|k ks].
  { done. }
  intros [Hk|[Hp|[Hk Hin]]]; [done|by unfold APIKeyAuth; rewrite Hp|].
  destruct (decide (URL_Path r = "/health")) as [Hp|Hp]; [by unfold APIKeyAuth; rewrite Hp|].
  rewrite APIKeyAuth_cons by done. cbv zeta. by rewrite bool_decide_false, bool_decide_true.
Qed.

(** What the audit log makes of a JSON answer to a fresh connection. *)
Lemma audit_writeJSON {S} (next : handler_fn S) code c r w log s s' :
  sent w = empty_response → 200 ≤ code →
  next r (StatusWriter w 200 false) s = (writeJSON code c (StatusWriter w 200 false), s') →
  ∃ w', AuditLog next r w (log, s) =
      (w', (log ++ [mkAudit (req_Method r) (URL_Path r) code (RemoteAddr r) (extractUserID r)], s')) ∧
    answers code c w'.
Proof.
  intros Hs Hc Hn. unfold AuditLog. rewrite Hn.
  pose proof (writeJSON_answers code c (StatusWriter w 200 false) Hs Hc) as Ha.
  unfold writeJSON, w_Header_Set, Write in *. simpl in *. eexists. split; [done|]. exact Ha.
Qed.

Lemma audit_http_Error {S} (next : handler_fn S) msg code r w log s s' :
  sent w = empty_response → 200 ≤ code →
  next r (StatusWriter w 200 false) s = (http_Error msg code (StatusWriter w 200 false), s') →
  ∃ w', AuditLog next r w (log, s) =
      (w', (log ++ [mkAudit (req_Method r) (URL_Path r) code (RemoteAddr r) (extractUserID r)], s')) ∧
    resp_status (sent w') = Some code.
Proof.
  intros Hs Hc Hn. unfold AuditLog. rewrite Hn.
  destruct (sent_http_Error msg code (StatusWriter w 200 false)) as [Hst _]; [by simpl; rewrite Hs|done|].
  unfold http_Error, w_Header_Set, Write in *. simpl in *. eexists. split; [done|]. exact Hst.
Qed.

Lemma health_route : mux_route tc "/health" = RouteHealth.
Proof. by case tc. Qed.

Lemma stream_route id : plain_segment id →
  mux_route true (join_path ["api"; "v1"; "tasks"; id; "stream"]) = RouteTasks.
Proof.
  intros Hid. unfold mux_route. rewrite cleanPath_plain; [|done|].
  2: { repeat constructor; try done; apply Hid. }
  rewrite String.eqb_refl. destruct id as [|c id]; [by destruct Hid as [[] _]|]. reflexivity.
Qed.

Lemma task_stream_call ticks r w n id : segment id →
  req_Method r = "GET" → URL_Path r = join_path ["api"; "v1"; "tasks"; id; "stream"] →
  task_ServeHTTP (TaskQueue (cfg_Temporal cfg)) ticks r w n = streamTask id ticks w n.
Proof.
  intros Hid Hm Hp. unfold task_ServeHTTP. rewrite Hm, Hp. simpl andb.
  destruct segment_api as (Ha & Hv & Ht & Hst).
  rewrite path_parts_join; [done|done|by rewrite !Forall_cons, Forall_nil].
Qed.

(** ** Properties *)

(** C17: the whole stack lets no request without an accepted key through:
    with keys configured, a request for a path other than [/health] that
    presents none of them changes neither the pool, the queue, the proxies
    nor the tasks, is answered 401 or 403, and is logged with that status. *)
Theorem stack_authenticates ticks wait k ks r w log s :
  APIKeys (cfg_Router cfg) = k :: ks → URL_Path r ≠ "/health" →
  (extractAPIKey r = "" ∨ extractAPIKey r ∉ k :: ks) → sent w = empty_response →
  let code := if String.eqb (extractAPIKey r) "" then 401 else 403 in
  let '(w', (log', s')) := main_handler ticks wait r w (log, s) in
  s' = s ∧ resp_status (sent w') = Some code ∧
  log' = log ++ [mkAudit (req_Method r) (URL_Path r) code (RemoteAddr r) (extractUserID r)].
Proof.
  intros Hks Hp Hkey Hs code.
  cbv zeta. subst code. unfold main_handler. rewrite Hks.
  set (next := APIKeyAuth _ _).
  assert (Hn : next r (StatusWriter w 200 false) s =
    (http_Error (if String.eqb (extractAPIKey r) "" then missing_key_body else invalid_key_body)
       (if String.eqb (extractAPIKey r) "" then 401 else 403) (StatusWriter w 200 false), s)).
  { unfold next. rewrite APIKeyAuth_cons by done. cbv zeta.
    destruct (String.eqb_spec (extractAPIKey r) "") as [He|Hne]; [by rewrite bool_decide_true|].
    destruct Hkey as [?|Hnin]; [done|]. by rewrite !bool_decide_false. }
  assert (Hc : 200 ≤ if String.eqb (extractAPIKey r) "" then 401 else 403) by (by case_match).
  destruct (audit_http_Error next _ _ r w log s s Hs Hc Hn) as (w' & -> & Hst).
  done.
Qed.

(** C30: the task stream cannot be served by this binary: behind the audit
    log the writer hides its [Flush] method, so an authorised request for
    the stream of an existing task is answered, and logged as, 500. *)
Theorem stack_cannot_stream ticks wait r w log (s : router_state P) n id info :
  tc = true → authorised r → plain_segment id → req_Method r = "GET" →
  URL_Path r = "/api/v1/tasks/" +:+ id +:+ "/stream" →
  DescribeWorkflowExecution n id = Described info → sent w = empty_response →
  ∃ w', main_handler ticks wait r w (log, (s, n)) =
      (w', (log ++ [mkAudit "GET" (URL_Path r) 500 (RemoteAddr r) (extractUserID r)], (s, S n))) ∧
    answers 500 (CError (mkErrorResponse 500 "streaming not supported")) w'.
Proof.
  intros Htc Hauth Hid Hm Hp Hd Hs. rewrite <- Hm. unfold main_handler. cbv zeta.
  apply audit_writeJSON; [done|done|]. rewrite authorised_passes by done.
  destruct (limited_same r) as (Hp' & Hm' & _). unfold mux_handler.
  assert (Hj : URL_Path r = join_path ["api"; "v1"; "tasks"; id; "stream"]).
  { rewrite Hp. cbn. by rewrite string_app_nil. }
  rewrite Hp', Hj, Htc, stream_route by done.
  rewrite (task_stream_call _ _ _ _ id) by (apply Hid || congruence).
  unfold streamTask. by rewrite Hd.
Qed.

Context `{!SandboxProviderLaws P, !RuntimeLaws}.

(** [/health] is served without a key and reports the pool as it is:
    the number of sandboxes allocated, at most the configured size, which it
    reports too; the queue depth it reports is 0 whatever the queue holds. *)
Theorem health_reports_pool ticks wait r w log s n :
  URL_Path r = "/health" → sent w = empty_response → pool_inv (main_pool cfg) (rs_world s) →
  1 ≤ cfg_MaxSize (cfg_Pool cfg) →
  let size := Z.of_nat (size (pool_view (rs_world s))) in
  let max := cfg_MaxSize (cfg_Pool cfg) in
  size ≤ max ∧
  ∃ w' s', main_handler ticks wait r w (log, (s, n)) =
      (w', (log ++ [mkAudit (req_Method r) "/health" 200 (RemoteAddr r) (extractUserID r)], (s', n))) ∧
    resp_status (sent w') = Some 200 ∧
    resp_body (sent w') = [CHealth (mkHealthResponse "ok" "0.1.0" (size, max) size max 0)] ∧
    rs_queue s' = rs_queue s ∧ pool_view (rs_world s') = pool_view (rs_world s).
Proof.
  intros Hp Hs Hinv Hmax. cbv zeta.
  destruct (Stats_meets (main_pool cfg) (rs_world s) Hinv) as (st & wd & Hrun & _ & -> & ->).
  split.
  { pose proof (pi_len _ _ Hinv) as Hlen. unfold main_pool in Hlen. simpl in Hlen.
    revert Hrun. unfold Stats. rewrite run_act_bind. cbn. intros [= Hl]. lia. }
  unfold main_handler, AuditLog. rewrite authorised_passes by (right; by left).
  destruct (limited_same r) as (Hp' & _). unfold mux_handler. rewrite Hp', Hp.
  rewrite health_route. cbv iota. unfold health_handler. rewrite Hrun.
  unfold main_pool. cbn [maxSize Allocated MaxSize]. rewrite (proj2 (Z.ltb_lt 0 _)) by lia.
  eexists (Write _ (w_Header_Set _ _ w)), _. split; [reflexivity|].
  unfold Write, w_Header_Set. rewrite !sent_on_response, Hs. done.
Qed.

End main.

(** ** The collector's interval *)

Definition with_GCInterval (d : Z) (c : Config) : Config :=
  let p := cfg_Pool c in
  mkConfig (mkPoolConfig (MinReady p) (cfg_MaxSize p) (IdleTimeout p) d (WarmPoolName p)
              (cfg_Namespace p) (Mode p) (MockTarget p))
    (cfg_Router c) (cfg_Temporal c) (cfg_Telemetry c) (cfg_LiteLLM c).

(** [Validate] says nothing about the collector's interval, and the
    collector of a configuration whose interval is not positive panics at
    once, which ends the process. *)
Theorem gc_interval_unchecked {P} `{SandboxProvider P} `{Runtime} (c : Config) (d : Z)
    (events : list loop_event) (w : world P) : d ≤ 0 →
  config_Validate (with_GCInterval d c) = config_Validate c ∧
  run handle (main_gc_loop (with_GCInterval d c) events) w = Some (LoopPanic, w).
Proof.
  intros Hd. split; [done|]. unfold main_gc_loop, StartGCLoop. simpl.
  by rewrite bool_decide_true.
Qed.

(** ** Witnesses *)

#[local] Existing Instance demo_runtime.

#[local] Instance demo_backend : Backend := λ req, Ok (mkBackendResponse 200 [] [CText (URL_Host req)]).
#[local] Instance demo_redirect : MuxRedirect :=
  λ req path w, WriteHeader 301 (w_Header_Set "Location" path w).
#[local] Existing Instance demo_env.

(** Two sandboxes at most, one key. *)
Definition demo_config : Config := {|
  cfg_Pool := mkPoolConfig 1 2 (10 * Minute) (30 * Second) "default" "opencode" "local" "sandbox:4096";
  cfg_Router := mkRouterConfig ":8080" "X-Session-ID" "session_id" "session_id" ["k1"] 1024;
  cfg_Temporal := cfg_Temporal DefaultConfig;
  cfg_Telemetry := cfg_Telemetry DefaultConfig;
  cfg_LiteLLM := cfg_LiteLLM DefaultConfig;
|}.

Definition demo_get (path : string) : Request :=
  mkRequest "GET" path "" "" [] "example" (header_Set "X-API-Key" "k1" ∅) [] "10.0.0.9" None.

Definition demo_anonymous (path : string) : Request :=
  mkRequest "GET" path "" "" [] "example" ∅ [] "10.0.0.9" None.

Lemma stack_authenticates_witness :
  let '(w', (log', s')) := main_handler demo_config true 0%nat gone (demo_anonymous "/api/v1/chat")
    demo_writer ([], (NewRouter demo_start, 0%nat)) in
  s' = (NewRouter demo_start, 0%nat) ∧ resp_status (sent w') = Some 401 ∧
  log' = [mkAudit "GET" "/api/v1/chat" 401 "10.0.0.9" "anonymous"].
Proof.
  apply (stack_authenticates demo_config true 0%nat gone "k1" [] (demo_anonymous "/api/v1/chat")
    demo_writer [] (NewRouter demo_start, 0%nat)); [reflexivity|discriminate|by left|reflexivity].
Defined.

Lemma stack_cannot_stream_witness :
  ∃ w', main_handler demo_config true 1%nat gone (demo_get "/api/v1/tasks/t-1/stream")
      demo_writer ([], (NewRouter demo_start, 0%nat)) =
    (w', ([mkAudit "GET" "/api/v1/tasks/t-1/stream" 500 "10.0.0.9" "anonymous"],
          (NewRouter demo_start, 1%nat))) ∧
    answers 500 (CError (mkErrorResponse 500 "streaming not supported")) w'.
Proof.
  apply (stack_cannot_stream demo_config true 1%nat gone (demo_get "/api/v1/tasks/t-1/stream")
    demo_writer [] (NewRouter demo_start) 0%nat "t-1" (mkExecutionInfo ExecRunning 5 9));
    try reflexivity.
  - right. right. split; [discriminate|]. vm_compute. left.
  - split; [split; [discriminate|by repeat constructor]|done].
Defined.

Lemma health_reports_pool_witness :
  size (pool_view demo_active) = 1%nat ∧
  ∃ w' s', main_handler demo_config true 0%nat gone (demo_anonymous "/health") demo_writer
      ([], (NewRouter demo_active, 0%nat)) =
    (w', ([mkAudit "GET" "/health" 200 "10.0.0.9" "anonymous"], (s', 0%nat))) ∧
    resp_status (sent w') = Some 200.
Proof.
  split; [vm_compute; reflexivity|].
  destruct (health_reports_pool demo_config true 0%nat gone (demo_anonymous "/health") demo_writer []
    (NewRouter demo_active) 0%nat eq_refl eq_refl demo_active_inv ltac:(vm_compute; discriminate))
    as (_ & w' & s' & Hm & Hst & _).
  exists w', s'. split; [exact Hm|exact Hst].
Defined.

Lemma gc_interval_unchecked_witness :
  0 ≤ 0 ∧ config_Validate (with_GCInterval 0 demo_config) = None ∧
  run handle (main_gc_loop (with_GCInterval 0 demo_config) [TickerFired]) demo_start =
    Some (LoopPanic, demo_start).
Proof.
  split; [lia|]. destruct (gc_interval_unchecked demo_config 0 [TickerFired] demo_start ltac:(lia)) as [Hv Hr].
  split; [by rewrite Hv|exact Hr].
Defined.
