(* ===== verification/Startup.v ===== *)
(** * Start and stop of the binaries ([cmd])

    The [main] functions as programs over the calls they make: telemetry and
    metrics, the clients, the goroutines they start, and what ends them.  What
    the pieces do is in [Main], [Telemetry] and [Metrics]. *)

From stdpp Require Import pretty.
From S2P Require Import Prelude Effects PoolManager K8sProvider Provider Controller Config Metrics Telemetry Activities RateLimiter Main.

(** ** Actions *)

(** The goroutines the binaries start. *)
Inductive goroutine :=
| GoGCLoop (interval idleTimeout : Z)
| GoWarmPool (minReady interval : Z)
| GoListen (addr : string) (taskAPI : bool)
| GoServe (addr : string)
| GoTemporalWorker (taskQueue : string) (activities : Activities)
| GoCancelOnSignal.

(** What the main goroutine is woken by: a signal, or the end of the process
    in another goroutine whose server or worker failed. *)
Inductive wake := Signalled | GoroutineExit.

Inductive mainE : Type → Type :=
| MTelemetry {X} (e : telemetryE X) : mainE X
| MMeter (scope : string) {X} (e : meterE X) : mainE X
| MKubeConfig (kubeconfig : string) : mainE (option error)
| MDynamicClient : mainE (option error)
| MRecord (m : measurement) : mainE unit
| MDialTemporal (hostPort namespace : string) : mainE (option error)
| MGo (g : goroutine) : mainE unit
| MController {X} (e : startE X) : mainE X
| MWait : mainE wake
| MCancel : mainE unit
| MServerShutdown : mainE (option error)
| MServerClose : mainE (option error)
| MWorkerStop : mainE unit
| MCloseTemporal : mainE unit.

(** How a process ends: [os.Exit], which runs no deferred call, or the
    return of [main]; [Running] when it still waits for the next event of the
    ones it is given. *)
Inductive ending := Exit (code : Z) | Returned | Running.

(** ** The binaries *)

Section mains.
Context `{ConfigEnv} (configPath kubeconfig : string).

(** Telemetry of a binary, its service named with a suffix. *)
Definition setup_telemetry (cfg : Config) (suffix : string) :
    prog mainE (result (TracerProvider * MeterProvider)) :=
  let tel := cfg_Telemetry cfg in
  translate (@MTelemetry) (Setup (mkTelemetryConfig (ServiceName tel +:+ suffix) (OTelEndpoint tel)
    (PrometheusPort tel) (LogLevel tel))).

(** The cluster's client; [None] when it is there. *)
Definition kube_client : prog mainE (option error) :=
  err ← act (MKubeConfig kubeconfig);
  match err with
  | Some e => mret (Some e)
  | None => act MDynamicClient
  end.

(** The provider of the router and the worker. *)
Definition sandbox_provider (cfg : Config) :
    prog mainE (result (K8sSandboxProvider + MockSandboxProvider)) :=
  if String.eqb (Mode (cfg_Pool cfg)) "k8s" then
    err ← kube_client;
    mret (match err with Some e => Err e | None => Ok (main_provider cfg) end)
  else mret (Ok (main_provider cfg)).

(** The shutdown of telemetry, whose error is only logged. *)
Definition stop_telemetry (tel : TracerProvider * MeterProvider) : prog mainE unit :=
  translate (@MTelemetry) (telemetry_shutdown tel.1 tel.2);; mret tt.

(** From the server's start to the end of [main], deferred calls included. *)
Definition router_serve (cfg : Config) (tel : TracerProvider * MeterProvider) (tc : bool) :
    prog mainE ending :=
  act (MGo (GoListen (ListenAddr (cfg_Router cfg)) tc));;
  woken ← act MWait;
  match woken with
  | GoroutineExit => mret (Exit 1)
  | Signalled =>
      act MCancel;;
      act MServerShutdown;;
      stop_telemetry tel;;
      (if tc then act MCloseTemporal else mret tt);;
      act MCancel;;
      mret Returned
  end.

Definition router_main : prog mainE ending :=
  match Load configPath with
  | Err _ => mret (Exit 1)
  | Ok cfg =>
      shutdownTel ← setup_telemetry cfg "";
      match shutdownTel with
      | Err _ => mret (Exit 1)
      | Ok tel =>
          poolMetrics ← translate (@MMeter "opencode-scale-router") NewPoolMetrics;
          match poolMetrics with
          | Err _ => mret (Exit 1)
          | Ok metrics =>
              provider ← sandbox_provider cfg;
              match provider with
              | Err _ => mret (Exit 1)
              | Ok _ =>
                  act (MRecord (pool_record metrics (SetPoolSize (cfg_MaxSize (cfg_Pool cfg)))));;
                  act (MGo (GoGCLoop (GCInterval (cfg_Pool cfg)) (IdleTimeout (cfg_Pool cfg))));;
                  (if String.eqb (Mode (cfg_Pool cfg)) "k8s" && (0 <? MinReady (cfg_Pool cfg))
                   then act (MGo (GoWarmPool (MinReady (cfg_Pool cfg)) (GCInterval (cfg_Pool cfg))))
                   else mret tt);;
                  err ← act (MDialTemporal (HostPort (cfg_Temporal cfg)) (tc_Namespace (cfg_Temporal cfg)));
                  router_serve cfg tel (bool_decide (err = None))
              end
          end
      end
  end.

(** The worker's pool has no collector, and its Temporal client is closed by
    the first deferred call. *)
Definition worker_main : prog mainE ending :=
  match Load configPath with
  | Err _ => mret (Exit 1)
  | Ok cfg =>
      shutdownTel ← setup_telemetry cfg "-worker";
      match shutdownTel with
      | Err _ => mret (Exit 1)
      | Ok tel =>
          poolMetrics ← translate (@MMeter "opencode-scale-worker") NewPoolMetrics;
          match poolMetrics with
          | Err _ => mret (Exit 1)
          | Ok _ =>
              provider ← sandbox_provider cfg;
              match provider with
              | Err _ => mret (Exit 1)
              | Ok _ =>
                  wfMetrics ← translate (@MMeter "opencode-scale-worker") NewWorkflowMetrics;
                  match wfMetrics with
                  | Err _ => mret (Exit 1)
                  | Ok _ =>
                      err ← act (MDialTemporal (HostPort (cfg_Temporal cfg)) (tc_Namespace (cfg_Temporal cfg)));
                      match err with
                      | Some _ => mret (Exit 1)
                      | None =>
                          act (MGo (GoTemporalWorker (TaskQueue (cfg_Temporal cfg)) (worker_activities cfg)));;
                          woken ← act MWait;
                          match woken with
                          | GoroutineExit => mret (Exit 1)
                          | Signalled =>
                              act MCancel;;
                              act MWorkerStop;;
                              stop_telemetry tel;;
                              act MCloseTemporal;;
                              act MCancel;;
                              mret Returned
                          end
                      end
                  end
              end
          end
      end
  end.

(** [events] are what the cleanup loop receives; the signal's goroutine ends
    the loop by cancelling the context. *)
Definition controller_main (events : list loop_event) : prog mainE ending :=
  match Load configPath with
  | Err _ => mret (Exit 1)
  | Ok cfg =>
      shutdownTel ← setup_telemetry cfg "-controller";
      match shutdownTel with
      | Err _ => mret (Exit 1)
      | Ok tel =>
          err ← kube_client;
          match err with
          | Some _ => mret (Exit 1)
          | None =>
              act (MGo GoCancelOnSignal);;
              ended ← translate (@MController) (Start (controller_reconciler cfg) events);
              match ended with
              | GCLoopWaiting => mret Running
              | GCLoopReturned =>
                  stop_telemetry tel;;
                  act MCancel;;
                  mret Returned
              end
          end
      end
  end.

End mains.

(** The mock servers: nothing is read from a file, and the server is closed
    without waiting for its requests. *)
Definition serve_until_signal (addr : string) : prog mainE ending :=
  act (MGo (GoServe addr));;
  woken ← act MWait;
  match woken with
  | GoroutineExit => mret (Exit 1)
  | Signalled => act MServerClose;; mret Returned
  end.

Definition mock_opencode_main (addr : string) : prog mainE ending := serve_until_signal addr.

(** With the limiter its handlers share. *)
Definition mock_llm_main (addr : string) (rpm tpm : Z) : rateLimiter * prog mainE ending :=
  (newRateLimiter rpm tpm, serve_until_signal addr).

(** ** Lemmas *)

(** The goroutines of the router's pool. *)
Definition pool_goroutines (cfg : Config) : list goroutine :=
  GoGCLoop (GCInterval (cfg_Pool cfg)) (IdleTimeout (cfg_Pool cfg)) ::
  (if String.eqb (Mode (cfg_Pool cfg)) "k8s" && (0 <? MinReady (cfg_Pool cfg))
   then [GoWarmPool (MinReady (cfg_Pool cfg)) (GCInterval (cfg_Pool cfg))] else []).

(** The telemetry of a binary, its service named with a suffix. *)
Definition telemetry_config (cfg : Config) (suffix : string) : TelemetryConfig :=
  let tel := cfg_Telemetry cfg in
  mkTelemetryConfig (ServiceName tel +:+ suffix) (OTelEndpoint tel) (PrometheusPort tel) (LogLevel tel).

(** The calls by which the router prepares itself, each granted: telemetry
    (the metrics server included), the pool's instruments, and in [k8s] mode
    the cluster's client. *)
Definition preparation (kubeconfig : string) (cfg : Config) : list (event mainE) :=
  (translate_event (@MTelemetry) <$> setup_plan (telemetry_config cfg "")) ++
  (translate_event (@MMeter "opencode-scale-router") <$>
     creations (pool_instruments pool_metrics)) ++
  (if String.eqb (Mode (cfg_Pool cfg)) "k8s"
   then [Ev (MKubeConfig kubeconfig) None; Ev MDynamicClient None] else []).

(** A component's set-up within [main]. *)
Lemma follows_translate {E : Type → Type} {A} (f : ∀ X, E X → mainE X) (m : prog E (result A))
    plan a tr r :
  (∀ tr, runs m tr r → follows plan a tr r) →
  runs (translate f m) tr r → follows (translate_event f <$> plan) a tr r.
Proof.
  intros Hm (tr' & -> & [[-> ->]|[He Hc]]%Hm)%runs_translate; [by left|right].
  split; [done|]. by apply cut_short_translate.
Qed.

(** A set-up whose failure ends the process, and what comes after it. *)
Lemma follows_exit {A} (m : prog mainE (result A)) (k : A → prog mainE ending) plan a tr e :
  (∀ tr r, runs m tr r → follows plan a tr r) →
  runs (r ← m; match r with Err _ => mret (Exit 1) | Ok a => k a end) tr e →
  (cut_short plan tr ∧ e = Exit 1) ∨ ∃ tr', tr = plan ++ tr' ∧ runs (k a) tr' e.
Proof.
  intros Hm (tr1 & tr2 & r & -> & [[-> ->]|[[err ->] Hc]]%Hm & Hr)%runs_bind; [right; by exists tr2|].
  destruct Hr as [-> ->]. left. by rewrite app_nil_r.
Qed.

Section lemmas.
Context `{ConfigEnv} (configPath kubeconfig : string).

Lemma setup_telemetry_runs cfg suffix tr r : runs (setup_telemetry cfg suffix) tr r →
  follows (translate_event (@MTelemetry) <$> setup_plan (telemetry_config cfg suffix))
    (built (telemetry_config cfg suffix)) tr r.
Proof. apply follows_translate. intros. by apply Setup_runs. Qed.

Lemma pool_metrics_runs scope tr r : runs (translate (@MMeter scope) NewPoolMetrics) tr r →
  follows (translate_event (@MMeter scope) <$> creations (pool_instruments pool_metrics))
    pool_metrics tr r.
Proof. apply follows_translate. intros. by apply NewPoolMetrics_runs. Qed.

Lemma kube_client_runs tr err : runs (kube_client kubeconfig) tr err →
  let plan := [Ev (MKubeConfig kubeconfig) None; Ev MDynamicClient None] in
  match err with None => tr = plan | Some _ => cut_short plan tr end.
Proof.
  intros ([e|] & tr' & -> & Hr)%runs_act_bind.
  - destruct Hr as [-> ->]. apply cut_short_here.
  - destruct tr' as [|ev tr']; [done|]. destruct Hr as (x & -> & -> & ->). destruct x; [|done].
    apply (cut_short_after [_]), cut_short_here.
Qed.

Lemma sandbox_provider_runs cfg tr r : runs (sandbox_provider kubeconfig cfg) tr r →
  follows (if String.eqb (Mode (cfg_Pool cfg)) "k8s"
     then [Ev (MKubeConfig kubeconfig) None; Ev MDynamicClient None] else [])
    (main_provider cfg) tr r.
Proof.
  unfold sandbox_provider. case_match; [|intros [-> ->]; by left].
  intros (tr1 & tr2 & e & -> & Hk%kube_client_runs & -> & ->)%runs_bind. rewrite app_nil_r.
  destruct e; [right; split; [eauto|done]|by left].
Qed.

Lemma stop_telemetry_runs tel tr r : runs (stop_telemetry tel) tr r →
  ∃ e1 e2, tr = [Ev (MTelemetry (ShutdownTracer tel.1)) e1; Ev (MTelemetry (ShutdownMeter tel.2)) e2].
Proof.
  intros (tr1 & tr2 & x & -> & (tr' & -> & Hs)%runs_translate & -> & _)%runs_bind.
  apply telemetry_shutdown_runs in Hs as (e1 & e2 & -> & _). by exists e1, e2.
Qed.

Lemma router_serve_runs cfg tel tc tr e : runs (router_serve cfg tel tc) tr e →
  ∃ rest, tr = Ev (MGo (GoListen (ListenAddr (cfg_Router cfg)) tc)) tt :: rest ∧
  ((rest = [Ev MWait GoroutineExit] ∧ e = Exit 1) ∨
   ∃ e1 e2 e3, e = Returned ∧
     rest = [Ev MWait Signalled; Ev MCancel tt; Ev MServerShutdown e1;
             Ev (MTelemetry (ShutdownTracer tel.1)) e2; Ev (MTelemetry (ShutdownMeter tel.2)) e3] ++
       (if tc then [Ev MCloseTemporal tt] else []) ++ [Ev MCancel tt]).
Proof.
  intros ([] & tr1 & -> & Hr)%runs_act_bind. exists tr1. split; [done|].
  apply runs_act_bind in Hr as ([] & tr2 & -> & Hr); cycle 1.
  { destruct Hr as [-> ->]. by left. }
  right. apply runs_act_bind in Hr as ([] & tr3 & -> & Hr).
  apply runs_act_bind in Hr as (e1 & tr4 & -> & Hr).
  apply runs_bind in Hr as (tr5 & tr6 & [] & -> & (e2 & e3 & ->)%stop_telemetry_runs & Hr).
  exists e1, e2, e3. apply runs_bind in Hr as (tr7 & tr8 & [] & -> & Hc & Hr).
  apply runs_act_bind in Hr as ([] & tr9 & -> & -> & ->). split; [done|].
  destruct tc; simpl in Hc.
  - destruct tr7 as [|ev tr7]; [done|]. by destruct Hc as ([] & -> & -> & _).
  - by destruct Hc as [-> _].
Qed.

(** The part between the provider and the server. *)
Lemma router_pool_runs cfg tel m tr e :
  runs (act (MRecord (pool_record m (SetPoolSize (cfg_MaxSize (cfg_Pool cfg)))));;
    act (MGo (GoGCLoop (GCInterval (cfg_Pool cfg)) (IdleTimeout (cfg_Pool cfg))));;
    (if String.eqb (Mode (cfg_Pool cfg)) "k8s" && (0 <? MinReady (cfg_Pool cfg))
     then act (MGo (GoWarmPool (MinReady (cfg_Pool cfg)) (GCInterval (cfg_Pool cfg)))) else mret tt);;
    err ← act (MDialTemporal (HostPort (cfg_Temporal cfg)) (tc_Namespace (cfg_Temporal cfg)));
    router_serve cfg tel (bool_decide (err = None))) tr e →
  ∃ err rest, runs (router_serve cfg tel (bool_decide (err = None))) rest e ∧
    tr = Ev (MRecord (pool_record m (SetPoolSize (cfg_MaxSize (cfg_Pool cfg))))) tt ::
      ((λ g, Ev (MGo g) tt) <$> pool_goroutines cfg) ++
      Ev (MDialTemporal (HostPort (cfg_Temporal cfg)) (tc_Namespace (cfg_Temporal cfg))) err :: rest.
Proof.
  intros ([] & tr1 & -> & Hr)%runs_act_bind. apply runs_act_bind in Hr as ([] & tr2 & -> & Hr).
  apply runs_bind in Hr as (tr3 & tr4 & [] & -> & Hw & Hr).
  apply runs_act_bind in Hr as (err & tr5 & -> & Hr). exists err, tr5. split; [done|].
  unfold pool_goroutines. destruct (_ && _); simpl in Hw.
  - destruct tr3 as [|ev tr3]; [done|]. by destruct Hw as ([] & -> & -> & _).
  - by destruct Hw as [-> _].
Qed.

End lemmas.

(** ** Properties *)

(** C20: the router starts and stops in order, whatever its environment
    answers.  Without a valid configuration it exits with status 1 at once.
    Otherwise it prepares telemetry, the pool's instruments and the provider;
    it goes on exactly when none of these calls is refused, and exits with
    status 1 at the first one that is, before it starts the pool's goroutines
    or its own server.  Then it starts the collector (and in [k8s] mode the
    warm pool) with the configured times, and the server, with the task API
    exactly when Temporal was reached.  On a signal it cancels its context,
    shuts the server down, and then the telemetry it built, both parts
    whatever fails; when the server fails it exits at once, with nothing shut
    down. *)
Theorem router_starts_and_stops `{ConfigEnv} configPath kubeconfig tr e :
  runs (router_main configPath kubeconfig) tr e →
  match Load configPath with
  | Err _ => tr = [] ∧ e = Exit 1
  | Ok cfg =>
      (cut_short (preparation kubeconfig cfg) tr ∧ e = Exit 1) ∨
      let tel := built (telemetry_config cfg "") in
      ∃ err rest,
        tr = preparation kubeconfig cfg ++
          Ev (MRecord (pool_record pool_metrics (SetPoolSize (cfg_MaxSize (cfg_Pool cfg))))) tt ::
          ((λ g, Ev (MGo g) tt) <$> pool_goroutines cfg) ++
          Ev (MDialTemporal (HostPort (cfg_Temporal cfg)) (tc_Namespace (cfg_Temporal cfg))) err ::
          Ev (MGo (GoListen (ListenAddr (cfg_Router cfg)) (bool_decide (err = None)))) tt :: rest ∧
        ((rest = [Ev MWait GoroutineExit] ∧ e = Exit 1) ∨
         ∃ e1 e2 e3, e = Returned ∧
           rest = [Ev MWait Signalled; Ev MCancel tt; Ev MServerShutdown e1;
                   Ev (MTelemetry (ShutdownTracer tel.1)) e2; Ev (MTelemetry (ShutdownMeter tel.2)) e3] ++
             (if bool_decide (err = None) then [Ev MCloseTemporal tt] else []) ++ [Ev MCancel tt])
  end.
Proof.
  unfold router_main. destruct (Load configPath) as [cfg|err]; [|by intros [-> ->]].
  intros [[Hc ->]|(t1 & -> & Hr)]%(follows_exit _ _ _ _ _ _ (setup_telemetry_runs cfg "")).
  { left. split; [by apply cut_short_before|done]. }
  apply (follows_exit _ _ _ _ _ _ (pool_metrics_runs _)) in Hr as [[Hc ->]|(t2 & -> & Hr)].
  { left. split; [by apply cut_short_after, cut_short_before|done]. }
  apply (follows_exit _ _ _ _ _ _ (sandbox_provider_runs kubeconfig cfg)) in Hr as [[Hc ->]|(t3 & -> & Hr)].
  { left. split; [by apply cut_short_after, cut_short_after|done]. }
  apply router_pool_runs in Hr as (err & rest & (rest' & -> & Hend)%router_serve_runs & ->).
  right. exists err, rest'. split; [|done]. unfold preparation. by rewrite <- !app_assoc.
Qed.

(** ** Witness *)

#[local] Existing Instance demo_config_env.

(** Every call succeeds, and the process is stopped by a signal. *)
Definition demo_main_answers X (e : mainE X) : X :=
  match e in mainE X return X with
  | MTelemetry e =>
      match e in telemetryE X return X with
      | NewOTLPExporter _ | NewPrometheusExporter | ShutdownTracer _ | ShutdownMeter _ => None
      | SetTracerProvider _ | SetMeterProvider _ | SetDefaultLogger _ | GoServeMetrics _ => tt
      end
  | MMeter _ e => match e in meterE X return X with CreateInstrument _ => None end
  | MController e =>
      match e in startE X return X with
      | NewInformer _ _ _ | AddEventHandler _ | GoRunInformer => tt
      | WaitForCacheSync => true
      | Reconcile e =>
          match e in controllerE X return X with
          | ListClaims _ _ => Ok []
          | DeleteClaim _ _ => None
          | ControllerNow => 0
          | RecordClaimEvent _ | RecordGCDeletion => tt
          end
      end
  | MKubeConfig _ | MDynamicClient | MDialTemporal _ _ | MServerShutdown | MServerClose => None
  | MWait => Signalled
  | MRecord _ | MGo _ | MCancel | MWorkerStop | MCloseTemporal => tt
  end.

Example demo_router_run : (play demo_main_answers (router_main "config.yaml" "")).2 = Returned.
Proof. vm_compute. reflexivity. Qed.

Example demo_pool_goroutines :
  pool_goroutines <$> match Load "config.yaml" with Ok cfg => Some cfg | Err _ => None end =
    Some [GoGCLoop (30 * Second) (90 * Minute)].
Proof. vm_compute. reflexivity. Qed.

(** In the demonstration's environment, the collector is started and the
    context is cancelled at the end. *)
Lemma router_starts_and_stops_witness : ∃ tr cfg m dial tc rest,
  runs (router_main "config.yaml" "") tr Returned ∧ Load "config.yaml" = Ok cfg ∧
  tr = preparation "" cfg ++ Ev (MRecord m) tt :: Ev (MGo (GoGCLoop (30 * Second) (90 * Minute))) tt ::
    dial :: Ev (MGo (GoListen (ListenAddr (cfg_Router cfg)) tc)) tt :: Ev MWait Signalled :: rest ∧
  last rest = Some (Ev MCancel tt).
Proof.
  pose proof (runs_play demo_main_answers (router_main "config.yaml" "")) as Hr.
  rewrite demo_router_run in Hr. pose proof demo_pool_goroutines as Hg.
  pose proof (router_starts_and_stops _ _ _ _ Hr) as Hs.
  destruct (Load "config.yaml") as [cfg|err] eqn:Hl; [|destruct Hs as [_ [=]]].
  destruct Hs as [[_ [=]]|(err & rest & Htr & [[_ [=]]|(e1 & e2 & e3 & _ & ->)])].
  apply (inj Some) in Hg. rewrite Hg in Htr.
  do 6 eexists. split; [exact Hr|]. split; [reflexivity|]. split; [exact Htr|]. by case_match.
Defined.
